(** * Sandbox lifecycle manager: a shallow embedding and its properties

    The development follows [containerSandboxManager.ts] (class
    [ContainerSandboxManager]), [sqlExecutor.ts] (class [SQLExecutor]) and
    the seeding loop shared with [sessionManager.ts].

    - [Json]: the values carried by a request body and [JSON.stringify],
      which the manager uses as its drift fingerprint.
    - [Query]: [String.prototype.trim] and [SQLExecutor.validateQuery].
    - [Seed]: the insert statements derived from the seed data.
    - [Manager]: the asynchronous methods of the manager as command trees,
      their run-to-completion semantics and their interleaving at [await].

    Strings are sequences of 8-bit code units ([string]); numbers are the
    integer-valued ones ([Z]), printed in decimal as JavaScript prints every
    integer of magnitude below 1e21. *)

From Stdlib Require Import ZArith Lia Bool Ascii String DecimalString Decimal DecimalZ DecimalPos.
From stdpp Require Import base list strings gmap.

Open Scope string_scope.
Set Warnings "-register-all".

(** stdpp freezes [String.append]; the proofs below compute with it. *)
#[local] Arguments String.append !_ _ : simpl nomatch.

(* ===================================================================== *)
(** * Part I: the program *)
(* ===================================================================== *)

Module Str.

(** Every code unit of [s] satisfies [p]. *)
Fixpoint all (p : ascii -> bool) (s : string) : bool :=
  match s with
  | "" => true
  | String c s' => p c && all p s'
  end.

(** [s] is empty or starts with a code unit outside [p]. *)
Definition stops (p : ascii -> bool) (s : string) : bool :=
  match s with
  | "" => true
  | String c _ => negb (p c)
  end.

End Str.

(** ** JSON values and [JSON.stringify] *)

Module Json.

(** The values [JSON.parse] produces.  An object is the list of its own
    enumerable properties in enumeration order. *)
Inductive json : Type :=
| JNull
| JBool (b : bool)
| JNum (n : Z)
| JStr (s : string)
| JArr (l : list json)
| JObj (l : list (string * json)).

Definition dquote : ascii := ascii_of_N 34.
Definition backslash : ascii := ascii_of_N 92.

Definition hexDigit (n : N) : ascii :=
  match n with
  | 0 => "0" | 1 => "1" | 2 => "2" | 3 => "3" | 4 => "4" | 5 => "5"
  | 6 => "6" | 7 => "7" | 8 => "8" | 9 => "9" | 10 => "a" | 11 => "b"
  | 12 => "c" | 13 => "d" | 14 => "e" | _ => "f"
  end%N%char.

(** One step of QuoteJSONString: the two-character escapes of the table,
    [\u00xx] for the other control characters, the code unit itself
    otherwise. *)
Definition escapeChar (c : ascii) : string :=
  let n := N_of_ascii c in
  if (n =? 8)%N then "\b"
  else if (n =? 9)%N then "\t"
  else if (n =? 10)%N then "\n"
  else if (n =? 12)%N then "\f"
  else if (n =? 13)%N then "\r"
  else if (n =? 34)%N then String backslash (String dquote "")
  else if (n =? 92)%N then String backslash (String backslash "")
  else if (n <? 32)%N then
    "\u00" +:+ String (hexDigit (n / 16)) (String (hexDigit (n mod 16)) "")
  else String c "".

Fixpoint escapeBody (s : string) : string :=
  match s with
  | "" => ""
  | String c s' => escapeChar c +:+ escapeBody s'
  end.

Definition quoteJSONString (s : string) : string :=
  String dquote (escapeBody s +:+ String dquote "").

(** Number::toString on an integer. *)
Definition numberToString (n : Z) : string :=
  NilZero.string_of_int (Z.to_int n).

(** [JSON.stringify(v)] without indentation. *)
Fixpoint stringify (v : json) : string :=
  match v with
  | JNull => "null"
  | JBool true => "true"
  | JBool false => "false"
  | JNum n => numberToString n
  | JStr s => quoteJSONString s
  | JArr l => "[" +:+ String.concat "," (List.map stringify l) +:+ "]"
  | JObj l =>
      "{" +:+
      String.concat ","
        (List.map (fun kv => quoteJSONString (fst kv) +:+ ":" +:+ stringify (snd kv)) l)
      +:+ "}"
  end.

End Json.

(** ** [SQLExecutor.validateQuery] (container-sandbox executor) *)

Module Query.

(** WhiteSpace and LineTerminator code units below 256: TAB, LF, VT, FF,
    CR, SP and NBSP. *)
Definition isWhiteSpace (c : ascii) : bool :=
  let n := N_of_ascii c in
  ((9 <=? n)%N && (n <=? 13)%N) || (n =? 32)%N || (n =? 160)%N.

Fixpoint trimStart (s : string) : string :=
  match s with
  | "" => ""
  | String c s' => if isWhiteSpace c then trimStart s' else s
  end.

Fixpoint trimEnd (s : string) : string :=
  match s with
  | "" => ""
  | String c s' =>
      match trimEnd s' with
      | "" => if isWhiteSpace c then "" else String c ""
      | t => String c t
      end
  end.

(** [String.prototype.trim]. *)
Definition trim (s : string) : string := trimEnd (trimStart s).

Record Validation := { valid : bool; error : option string }.

(** [if (!query || query.trim().length === 0) ... return { valid: true }] *)
Definition validateQuery (query : string) : Validation :=
  if (query =? "")%string || (String.length (trim query) =? 0)%nat then
    {| valid := false; error := Some "Query cannot be empty" |}
  else
    {| valid := true; error := None |}.

End Query.

(** ** Seed data *)

Module Seed.
Import Json.

(** A row is a plain object; [data] maps a table name to its rows. *)
Definition Row : Type := list (string * json).
Definition SeedData : Type := list (string * list Row).

(** [Object.keys(row)] *)
Definition keys (row : Row) : list string := List.map fst row.

(** [row[col]]; [None] is [undefined], which the driver sends as NULL. *)
Fixpoint get (row : Row) (col : string) : option json :=
  match row with
  | [] => None
  | (k, v) :: row' => if (k =? col)%string then Some v else get row' col
  end.

(** The request's [data] as the value [JSON.stringify] sees. *)
Definition toJson (data : SeedData) : json :=
  JObj (List.map (fun tr => (fst tr, JArr (List.map JObj (snd tr)))) data).

(** [$1, $2, ...]: [columns.map((_, idx) => `$${idx + 1}`)] *)
Fixpoint placeholdersFrom (idx : nat) (columns : list string) : list string :=
  match columns with
  | [] => []
  | _ :: rest =>
      ("$" +:+ numberToString (Z.of_nat (idx + 1))) :: placeholdersFrom (S idx) rest
  end.

Definition quoteColumn (col : string) : string :=
  String dquote (col +:+ String dquote "").

(** [`INSERT INTO "${tableName}" (${quotedColumns}) VALUES (${placeholders})`] *)
Definition insertSQL (tableName : string) (columns : list string) : string :=
  "INSERT INTO " +:+ String dquote (tableName +:+ String dquote "") +:+ " (" +:+
  String.concat ", " (List.map quoteColumn columns) +:+ ") VALUES (" +:+
  String.concat ", " (placeholdersFrom 0 columns) +:+ ")".

(** [columns.map(col => row[col])] *)
Definition values (columns : list string) (row : Row) : list (option json) :=
  List.map (get row) columns.

(** The statements the seeding loop of [seedPostgresDatabase] issues for
    one table, in order: none for a table without rows or whose first row
    has no keys. *)
Definition tableInserts (tableName : string) (rows : list Row)
  : list (string * list (option json)) :=
  match rows with
  | [] => []
  | row0 :: _ =>
      let columns := keys row0 in
      match columns with
      | [] => []
      | _ => List.map (fun row => (insertSQL tableName columns, values columns row)) rows
      end
  end.

Definition inserts (data : SeedData) : list (string * list (option json)) :=
  List.concat (List.map (fun tr => tableInserts (fst tr) (snd tr)) data).

(** The same loop in [SessionManager.createSession]: one prepared
    statement per table with rows, run once per row; there is no guard on
    the number of columns.
    [`INSERT INTO ${tableName} (${columns.join(', ')}) VALUES (${placeholders})`] *)
Definition sessionInsertSQL (tableName : string) (columns : list string) : string :=
  "INSERT INTO " +:+ tableName +:+ " (" +:+ String.concat ", " columns +:+
  ") VALUES (" +:+ String.concat ", " (List.map (fun _ => "?") columns) +:+ ")".

Definition sessionTableInserts (tableName : string) (rows : list Row)
  : list (string * list (option json)) :=
  match rows with
  | [] => []
  | row0 :: _ =>
      let columns := keys row0 in
      List.map (fun row => (sessionInsertSQL tableName columns, values columns row)) rows
  end.

End Seed.

(** ** The manager *)

Module Manager.
Import Json.

Inductive SupportedEngine : Set := postgres.

Record SandboxConfig := {
  image : string;
  username : string;
  password : string;
  database : string;
  ttlMs : Z;
  readinessTimeoutMs : Z;
  readinessRetryDelayMs : Z;
  cleanupIntervalMs : Z
}.

Definition defaultConfig : SandboxConfig := {|
  image := "wodby/postgres:15";
  username := "sandbox";
  password := "sandbox";
  database := "sandbox";
  ttlMs := 60 * 60 * 1000;
  readinessTimeoutMs := 60 * 1000;
  readinessRetryDelayMs := 2000;
  cleanupIntervalMs := 5 * 60 * 1000
|}.

Record SandboxRequest := {
  req_sessionId : option string;
  req_dbml : string;
  req_data : Seed.SeedData;
  req_engine : option SupportedEngine
}.

(** Docker's handle on a container: its id. *)
Definition ContainerId : Set := nat.

Record SandboxInstance := {
  sessionId : string;
  dbml : string;
  dataHash : string;
  engine : SupportedEngine;
  containerId : ContainerId;
  hostPort : Z;
  createdAt : Z;
  lastAccessed : Z
}.

Definition withLastAccessed (t : Z) (s : SandboxInstance) : SandboxInstance := {|
  sessionId := sessionId s;
  dbml := dbml s;
  dataHash := dataHash s;
  engine := engine s;
  containerId := containerId s;
  hostPort := hostPort s;
  createdAt := createdAt s;
  lastAccessed := t
|}.

Record QueryResult := { rows : list json; columns : list string }.

(** What [client.query] resolves to: [result.fields] may be missing. *)
Record PgResult := { pg_rows : list json; pg_fields : option (list string) }.

(** An [Error], by its message. *)
Record Error := { message : string }.

Inductive Result (X : Type) : Type :=
| Ok (x : X)
| Rejected (e : Error).
Arguments Ok {X} x.
Arguments Rejected {X} e.

(** *** [Map<string, SandboxInstance>], in insertion order *)

Definition Sandboxes : Type := list (string * SandboxInstance).

Fixpoint mapGet (k : string) (m : Sandboxes) : option SandboxInstance :=
  match m with
  | [] => None
  | (k', v) :: m' => if (k' =? k)%string then Some v else mapGet k m'
  end.

Definition mapHas (k : string) (m : Sandboxes) : bool :=
  match mapGet k m with Some _ => true | None => false end.

(** [set] keeps the position of a key already present and appends a new
    one. *)
Fixpoint mapSet (k : string) (v : SandboxInstance) (m : Sandboxes) : Sandboxes :=
  match m with
  | [] => [(k, v)]
  | (k', v') :: m' =>
      if (k' =? k)%string then (k, v) :: m' else (k', v') :: mapSet k v m'
  end.

Definition mapDelete (k : string) (m : Sandboxes) : Sandboxes :=
  List.filter (fun entry => negb (fst entry =? k)%string) m.

(** A [Map] holds a key once, and the manager files a record under its
    own [sessionId]. *)
Definition uniqueKeys (m : Sandboxes) : Prop := List.NoDup (List.map fst m).

Definition filedById (m : Sandboxes) : Prop :=
  forall k s, mapGet k m = Some s -> sessionId s = k.

(** *** The world outside the call stack *)

Record Container := { name : string; port : Z; running : bool }.

(** A sandbox is addressed by its host port; it records the statements it
    executed, latest first. *)
Definition Statement : Type := Z * string * list (option json).

Record World := {
  sandboxes : Sandboxes;              (* this.sandboxes *)
  ensureImagePromise : bool;          (* this.ensureImagePromise !== null *)
  containers : gmap ContainerId Container;   (* the Docker daemon *)
  nextContainer : ContainerId;
  executed : list Statement;
  console : list (string * Error);    (* console.error *)
  steps : nat                         (* position in the environment *)
}.

(** Calls that suspend the caller: Docker, the network, the pg client,
    timers. *)
Inductive IoOp : Type -> Type :=
| ListImages (reference : string) : IoOp nat
| Pull (image : string) : IoOp unit
| SharedImage : IoOp unit
| AllocatePort : IoOp Z
| CreateContainer (image name : string) (env : list string) (hostPort : Z)
  : IoOp ContainerId
| Start (id : ContainerId) : IoOp unit
| Stop (id : ContainerId) : IoOp unit
| Remove (id : ContainerId) : IoOp unit
| PgConnect (port : Z) : IoOp unit
| PgQuery (port : Z) (sql : string) (params : list (option json)) : IoOp PgResult
| PgEnd (port : Z) : IoOp unit
| Delay (ms : Z) : IoOp unit.

(** Synchronous accesses to the instance, the clock and the console. *)
Inductive SyncOp : Type -> Type :=
| DateNow : SyncOp Z
| RandomSuffix : SyncOp string
| SandboxesHas (k : string) : SyncOp bool
| SandboxesGet (k : string) : SyncOp (option SandboxInstance)
| SandboxesSet (k : string) (v : SandboxInstance) : SyncOp unit
| SandboxesDelete (k : string) : SyncOp unit
| SandboxesEntries : SyncOp (list (string * SandboxInstance))
| SetLastAccessed (k : string) (t : Z) : SyncOp unit
| GetImagePromise : SyncOp bool
| SetImagePromise (b : bool) : SyncOp unit
| SchemaStatements (dbml : string) : SyncOp (list string)
| ConsoleError (msg : string) (e : Error) : SyncOp unit.

(** What the manager does not decide: the clock, the random source, the
    answers and refusals of Docker and of the sandboxes, and the schema
    translator ([generateSQLSchema (parseDBML dbml)]).  Each is read at
    the current step. *)
Record Env := {
  dateNow : nat -> Z;
  randomSuffix : nat -> string;
  refuses : nat -> forall X, IoOp X -> option Error;
  localImages : nat -> nat;
  freePort : nat -> Z;
  pgResult : nat -> PgResult;
  schemaOf : string -> list string
}.

Definition tick (w : World) : World := {|
  sandboxes := sandboxes w;
  ensureImagePromise := ensureImagePromise w;
  containers := containers w;
  nextContainer := nextContainer w;
  executed := executed w;
  console := console w;
  steps := S (steps w)
|}.

Definition withSandboxes (m : Sandboxes) (w : World) : World := {|
  sandboxes := m;
  ensureImagePromise := ensureImagePromise w;
  containers := containers w;
  nextContainer := nextContainer w;
  executed := executed w;
  console := console w;
  steps := steps w
|}.

Definition withImagePromise (b : bool) (w : World) : World := {|
  sandboxes := sandboxes w;
  ensureImagePromise := b;
  containers := containers w;
  nextContainer := nextContainer w;
  executed := executed w;
  console := console w;
  steps := steps w
|}.

Definition withContainers (c : gmap ContainerId Container) (n : ContainerId)
  (w : World) : World := {|
  sandboxes := sandboxes w;
  ensureImagePromise := ensureImagePromise w;
  containers := c;
  nextContainer := n;
  executed := executed w;
  console := console w;
  steps := steps w
|}.

Definition withExecuted (l : list Statement) (w : World) : World := {|
  sandboxes := sandboxes w;
  ensureImagePromise := ensureImagePromise w;
  containers := containers w;
  nextContainer := nextContainer w;
  executed := l;
  console := console w;
  steps := steps w
|}.

Definition withConsole (l : list (string * Error)) (w : World) : World := {|
  sandboxes := sandboxes w;
  ensureImagePromise := ensureImagePromise w;
  containers := containers w;
  nextContainer := nextContainer w;
  executed := executed w;
  console := l;
  steps := steps w
|}.

Definition syncStep (E : Env) {X} (op : SyncOp X) (w : World) : X * World :=
  match op in SyncOp X return X * World with
  | DateNow => (dateNow E (steps w), tick w)
  | RandomSuffix => (randomSuffix E (steps w), tick w)
  | SandboxesHas k => (mapHas k (sandboxes w), w)
  | SandboxesGet k => (mapGet k (sandboxes w), w)
  | SandboxesSet k v => (tt, withSandboxes (mapSet k v (sandboxes w)) w)
  | SandboxesDelete k => (tt, withSandboxes (mapDelete k (sandboxes w)) w)
  | SandboxesEntries => (sandboxes w, w)
  | SetLastAccessed k t =>
      match mapGet k (sandboxes w) with
      | Some s => (tt, withSandboxes (mapSet k (withLastAccessed t s) (sandboxes w)) w)
      | None => (tt, w)
      end
  | GetImagePromise => (ensureImagePromise w, w)
  | SetImagePromise b => (tt, withImagePromise b w)
  | SchemaStatements d => (schemaOf E d, w)
  | ConsoleError msg e => (tt, withConsole ((msg, e) :: console w) w)
  end.

Definition noSuchContainer : Error := {| message := "no such container" |}.
Definition alreadyStopped : Error := {| message := "container already stopped" |}.

(** The effect and the answer of a suspending call.  A refusal leaves the
    backend as it was; a timer never rejects. *)
Definition ioStep (E : Env) {X} (op : IoOp X) (w : World) : Result X * World :=
  let t := steps w in
  let w1 := tick w in
  match op in IoOp X return option Error -> Result X * World with
  | Delay _ => fun _ => (Ok tt, w1)
  | ListImages _ => fun r =>
      match r with Some e => (Rejected e, w1) | None => (Ok (localImages E t), w1) end
  | Pull _ => fun r =>
      match r with Some e => (Rejected e, w1) | None => (Ok tt, w1) end
  | SharedImage => fun r =>
      match r with Some e => (Rejected e, w1) | None => (Ok tt, w1) end
  | AllocatePort => fun r =>
      match r with Some e => (Rejected e, w1) | None => (Ok (freePort E t), w1) end
  | CreateContainer _ nm _ p => fun r =>
      match r with
      | Some e => (Rejected e, w1)
      | None =>
          let id := nextContainer w in
          (Ok id,
           withContainers
             (<[id := {| name := nm; port := p; running := false |}]> (containers w))
             (S id) w1)
      end
  | Start id => fun r =>
      match r, containers w !! id with
      | Some e, _ => (Rejected e, w1)
      | None, None => (Rejected noSuchContainer, w1)
      | None, Some c =>
          (Ok tt,
           withContainers
             (<[id := {| name := name c; port := port c; running := true |}]> (containers w))
             (nextContainer w) w1)
      end
  | Stop id => fun r =>
      match r, containers w !! id with
      | Some e, _ => (Rejected e, w1)
      | None, None => (Rejected noSuchContainer, w1)
      | None, Some c =>
          if running c then
            (Ok tt,
             withContainers
               (<[id := {| name := name c; port := port c; running := false |}]> (containers w))
               (nextContainer w) w1)
          else (Rejected alreadyStopped, w1)
      end
  | Remove id => fun r =>
      match r, containers w !! id with
      | Some e, _ => (Rejected e, w1)
      | None, None => (Rejected noSuchContainer, w1)
      | None, Some _ =>
          (Ok tt, withContainers (delete id (containers w)) (nextContainer w) w1)
      end
  | PgConnect _ => fun r =>
      match r with Some e => (Rejected e, w1) | None => (Ok tt, w1) end
  | PgQuery p sql params => fun r =>
      match r with
      | Some e => (Rejected e, w1)
      | None => (Ok (pgResult E t), withExecuted ((p, sql, params) :: executed w) w1)
      end
  | PgEnd _ => fun r =>
      match r with Some e => (Rejected e, w1) | None => (Ok tt, w1) end
  end (refuses E t X op).

(** *** Asynchronous methods as command trees *)

Inductive Prog (A : Type) : Type :=
| Ret (a : A)
| Throw (e : Error)
| Spin
| Sync {X : Type} (op : SyncOp X) (k : X -> Prog A)
| Await {X : Type} (op : IoOp X) (k : Result X -> Prog A).
Arguments Ret {A} a.
Arguments Throw {A} e.
Arguments Spin {A}.
Arguments Sync {A X} op k.
Arguments Await {A X} op k.

Fixpoint bind {A B} (p : Prog A) (f : A -> Prog B) : Prog B :=
  match p with
  | Ret a => f a
  | Throw e => Throw e
  | Spin => Spin
  | Sync op k => Sync op (fun x => bind (k x) f)
  | Await op k => Await op (fun r => bind (k r) f)
  end.

#[global] Instance Prog_ret : MRet Prog := @Ret.
#[global] Instance Prog_bind : MBind Prog := fun A B f p => bind p f.

(** [try { p } catch (e) { h e }] *)
Fixpoint tryCatch {A} (p : Prog A) (h : Error -> Prog A) : Prog A :=
  match p with
  | Ret a => Ret a
  | Throw e => h e
  | Spin => Spin
  | Sync op k => Sync op (fun x => tryCatch (k x) h)
  | Await op k => Await op (fun r => tryCatch (k r) h)
  end.

(** [try { p } finally { f }] *)
Fixpoint tryFinally {A} (p : Prog A) (f : Prog unit) : Prog A :=
  match p with
  | Ret a => bind f (fun _ => Ret a)
  | Throw e => bind f (fun _ => Throw e)
  | Spin => Spin
  | Sync op k => Sync op (fun x => tryFinally (k x) f)
  | Await op k => Await op (fun r => tryFinally (k r) f)
  end.

Definition sync {X} (op : SyncOp X) : Prog X := Sync op Ret.

(** [await op]: the value, or the rejection rethrown. *)
Definition await {X} (op : IoOp X) : Prog X :=
  Await op (fun r => match r with Ok x => Ret x | Rejected e => Throw e end).

(** [await op.catch(() => undefined)] *)
Definition awaitIgnoring {X} (op : IoOp X) : Prog unit :=
  Await op (fun _ => Ret tt).

(** [for (const x of l) { body x }] *)
Fixpoint forEach {X} (l : list X) (body : X -> Prog unit) : Prog unit :=
  match l with
  | [] => Ret tt
  | x :: l' => bind (body x) (fun _ => forEach l' body)
  end.

Inductive Outcome (A : Type) : Type :=
| Returned (a : A)
| Thrown (e : Error)
| Pending.
Arguments Returned {A} a.
Arguments Thrown {A} e.
Arguments Pending {A}.

(** One call run to completion, nothing else running meanwhile. *)
Fixpoint run {A} (E : Env) (p : Prog A) (w : World) : Outcome A * World :=
  match p with
  | Ret a => (Returned a, w)
  | Throw e => (Thrown e, w)
  | Spin => (Pending, w)
  | Sync op k => let '(x, w') := syncStep E op w in run E (k x) w'
  | Await op k => let '(r, w') := ioStep E op w in run E (k r) w'
  end.

(** [P] holds of the world before the call and after each of its steps. *)
Fixpoint throughout {A} (E : Env) (P : World -> Prop) (p : Prog A) (w : World)
  : Prop :=
  P w /\
  match p with
  | Sync op k => let '(x, w') := syncStep E op w in throughout E P (k x) w'
  | Await op k => let '(r, w') := ioStep E op w in throughout E P (k r) w'
  | _ => True
  end.

(** *** [ContainerSandboxManager] *)

Section Instance.

(** [this.config], and a bound on the readiness polls that are followed. *)
Context (config : SandboxConfig) (polls : nat).

(** [`sandbox_${Date.now()}_${Math.random().toString(36).slice(2, 10)}`] *)
Definition generateSessionId : Prog string :=
  now ← sync DateNow;
  suffix ← sync RandomSuffix;
  mret ("sandbox_" +:+ numberToString now +:+ "_" +:+ suffix).

(** [JSON.stringify({ dbml, data })] *)
Definition computeDataHash (dbml : string) (data : Seed.SeedData) : string :=
  stringify (JObj [("dbml", JStr dbml); ("data", Seed.toJson data)]).

Definition delay (ms : Z) : Prog unit := await (Delay ms).

Definition allocatePort : Prog Z := await AllocatePort.

Definition containerLabel (id : ContainerId) : string :=
  numberToString (Z.of_nat id).

Definition removeContainer (containerId : ContainerId) : Prog unit :=
  tryCatch
    (awaitIgnoring (Stop containerId);;
     await (Remove containerId))
    (fun error =>
       sync (ConsoleError
               ("Failed to remove container " +:+ containerLabel containerId +:+ ":")
               error)).

Definition safeRemoveContainer (container : ContainerId) : Prog unit :=
  tryCatch
    (awaitIgnoring (Stop container);;
     await (Remove container))
    (fun error =>
       sync (ConsoleError
               ("Failed to cleanup sandbox container " +:+ containerLabel container +:+ ":")
               error)).

Definition ensureImage (engine : SupportedEngine) : Prog unit :=
  match engine with
  | postgres =>
      inFlight ← sync GetImagePromise;
      if inFlight : bool then await SharedImage
      else
        sync (SetImagePromise true);;
        tryFinally
          (images ← await (ListImages (image config));
           if (images =? 0)%nat then await (Pull (image config)) else mret tt)
          (sync (SetImagePromise false))
  end.

Definition containerName (sessionId : string) : string :=
  "sql-sandbox-" +:+ sessionId.

Definition launchPostgresContainer (sessionId : string) (hostPort : Z)
  : Prog ContainerId :=
  container ← await (CreateContainer (image config) (containerName sessionId)
                       ["POSTGRES_USER=" +:+ username config;
                        "POSTGRES_PASSWORD=" +:+ password config;
                        "POSTGRES_DB=" +:+ database config]
                       hostPort);
  await (Start container);;
  mret container.

Definition describeError (lastError : option Error) : string :=
  match lastError with
  | None => "null"
  | Some e => "Error: " +:+ message e
  end.

(** The [while] loop of [waitForPostgresReady]; [Spin] when the polls
    followed are used up before the loop ends. *)
Fixpoint pollUntilReady (fuel : nat) (hostPort start : Z) (lastError : option Error)
  : Prog unit :=
  match fuel with
  | O => Spin
  | S fuel' =>
      now ← sync DateNow;
      if (now - start <? readinessTimeoutMs config)%Z then
        failed ← tryCatch
                   (await (PgConnect hostPort);;
                    await (PgEnd hostPort);;
                    mret None)
                   (fun error =>
                      delay (readinessRetryDelayMs config);;
                      mret (Some error));
        match failed with
        | None => mret tt
        | Some error => pollUntilReady fuel' hostPort start (Some error)
        end
      else
        Throw {| message :=
                  "Postgres sandbox failed to become ready within " +:+
                  numberToString (readinessTimeoutMs config) +:+ "ms: " +:+
                  describeError lastError |}
  end.

Definition waitForPostgresReady (hostPort : Z) : Prog unit :=
  start ← sync DateNow;
  pollUntilReady polls hostPort start None.

Definition seedPostgresDatabase (hostPort : Z) (dbml : string) (data : Seed.SeedData)
  : Prog unit :=
  schemaStatements ← sync (SchemaStatements dbml);
  await (PgConnect hostPort);;
  tryFinally
    (forEach schemaStatements
       (fun statement => await (PgQuery hostPort statement []);; mret tt);;
     forEach data
       (fun '(tableName, rows) =>
          match rows with
          | [] => mret tt
          | row0 :: _ =>
              let columns := Seed.keys row0 in
              match columns with
              | [] => mret tt
              | _ =>
                  let insertSQL := Seed.insertSQL tableName columns in
                  forEach rows
                    (fun row =>
                       await (PgQuery hostPort insertSQL (Seed.values columns row));;
                       mret tt)
              end
          end))
    (await (PgEnd hostPort)).

Definition executePostgresQuery (hostPort : Z) (query : string) : Prog QueryResult :=
  await (PgConnect hostPort);;
  tryFinally
    (result ← await (PgQuery hostPort query []);
     mret {| rows := pg_rows result;
             columns := match pg_fields result with
                        | Some fields => fields
                        | None => []
                        end |})
    (await (PgEnd hostPort)).

Definition createSandbox (sessionId dbml : string) (data : Seed.SeedData)
  (engine : SupportedEngine) (dataHash : string) : Prog SandboxInstance :=
  match engine with
  | postgres =>
      ensureImage engine;;
      hostPort ← allocatePort;
      container ← launchPostgresContainer sessionId hostPort;
      tryCatch
        (waitForPostgresReady hostPort;;
         seedPostgresDatabase hostPort dbml data)
        (fun error =>
           safeRemoveContainer container;;
           Throw error);;
      created ← sync DateNow;
      accessed ← sync DateNow;
      let sandbox := {|
        sessionId := sessionId;
        dbml := dbml;
        dataHash := dataHash;
        engine := engine;
        containerId := container;
        hostPort := hostPort;
        createdAt := created;
        lastAccessed := accessed
      |} in
      sync (SandboxesSet sessionId sandbox);;
      mret sandbox
  end.

Definition deleteSandbox (sessionId : string) : Prog unit :=
  sandbox ← sync (SandboxesGet sessionId);
  match sandbox with
  | None => mret tt
  | Some sandbox =>
      removeContainer (containerId sandbox);;
      sync (SandboxesDelete sessionId)
  end.

Definition replaceSandbox (sessionId dbml : string) (data : Seed.SeedData)
  (engine : SupportedEngine) (dataHash : string) : Prog SandboxInstance :=
  deleteSandbox sessionId;;
  createSandbox sessionId dbml data engine dataHash.

Definition getOrCreateSandbox (request : SandboxRequest) : Prog SandboxInstance :=
  let engine := default postgres (req_engine request) in
  normalizedSessionId ←
    match req_sessionId request with
    | Some id =>
        if (id =? "")%string then generateSessionId
        else
          known ← sync (SandboxesHas id);
          if known : bool then mret id else generateSessionId
    | None => generateSessionId
    end;
  existing ← sync (SandboxesGet normalizedSessionId);
  let dataHash := computeDataHash (req_dbml request) (req_data request) in
  match existing with
  | Some existing =>
      if negb (dbml existing =? req_dbml request)%string
         || negb (Manager.dataHash existing =? dataHash)%string
      then
        replaceSandbox (sessionId existing) (req_dbml request) (req_data request)
          engine dataHash
      else
        now ← sync DateNow;
        sync (SetLastAccessed normalizedSessionId now);;
        mret (withLastAccessed now existing)
  | None =>
      createSandbox normalizedSessionId (req_dbml request) (req_data request)
        engine dataHash
  end.

Definition sessionNotFound : Error :=
  {| message := "Sandbox session not found or expired" |}.

Definition executeQuery (sessionId query : string) : Prog QueryResult :=
  sandbox ← sync (SandboxesGet sessionId);
  match sandbox with
  | None => Throw sessionNotFound
  | Some sandbox =>
      now ← sync DateNow;
      sync (SetLastAccessed sessionId now);;
      match engine sandbox with
      | postgres => executePostgresQuery (hostPort sandbox) query
      end
  end.

(** [now - sandbox.lastAccessed > this.config.ttlMs] *)
Definition expired (now : Z) (sandbox : SandboxInstance) : bool :=
  (now - lastAccessed sandbox >? ttlMs config)%Z.

Definition cleanupExpiredSandboxes : Prog unit :=
  now ← sync DateNow;
  entries ← sync SandboxesEntries;
  let expiredIds :=
    List.map fst (List.filter (fun entry => expired now (snd entry)) entries) in
  forEach expiredIds deleteSandbox.

(** *** [SQLExecutor.execute] *)

Record ExecuteQueryRequest := {
  exec_sessionId : option string;
  exec_dbml : string;
  exec_data : Seed.SeedData;
  exec_query : string;
  exec_engine : option SupportedEngine
}.

Record ExecuteQueryResponse := {
  success : bool;
  resp_rows : option (list json);
  resp_columns : option (list string);
  executionTime : Z;
  resp_error : option string;
  resp_sessionId : option string;
  resp_engine : option SupportedEngine
}.

Definition execute (request : ExecuteQueryRequest) : Prog ExecuteQueryResponse :=
  startTime ← sync DateNow;
  tryCatch
    (sandbox ← getOrCreateSandbox {|
        req_sessionId := exec_sessionId request;
        req_dbml := exec_dbml request;
        req_data := exec_data request;
        req_engine := exec_engine request |};
     result ← executeQuery (sessionId sandbox) (exec_query request);
     finish ← sync DateNow;
     mret {| success := true;
             resp_rows := Some (rows result);
             resp_columns := Some (columns result);
             executionTime := finish - startTime;
             resp_error := None;
             resp_sessionId := Some (sessionId sandbox);
             resp_engine := Some (engine sandbox) |})
    (fun error =>
       finish ← sync DateNow;
       mret {| success := false;
               resp_rows := None;
               resp_columns := None;
               executionTime := finish - startTime;
               resp_error := Some (message error);
               resp_sessionId := None;
               resp_engine := None |}).

End Instance.

(** *** Several calls, one after the other *)

Fixpoint runAll {A} (E : Env) (ps : list (Prog A)) (w : World)
  : list (Outcome A) * World :=
  match ps with
  | [] => ([], w)
  | p :: ps' =>
      let '(o, w') := run E p w in
      let '(os, w'') := runAll E ps' w' in
      (o :: os, w'')
  end.

(** *** Calls in flight together

    JavaScript runs a call without interruption up to its next [await];
    there the call is suspended and any other call may run.  A suspended
    call is the command tree that remains, headed by the awaited
    operation. *)

(** The synchronous stretch up to the next [await] or the end. *)
Fixpoint settle {A} (E : Env) (p : Prog A) (w : World) : Prog A * World :=
  match p with
  | Sync op k => let '(x, w') := syncStep E op w in settle E (k x) w'
  | _ => (p, w)
  end.

Record Task := {
  presented : option string;          (* request.sessionId *)
  rest : Prog SandboxInstance
}.

Record Pool := { world : World; tasks : list Task }.

Definition inFlight (t : Task) : bool :=
  match rest t with
  | Await _ _ => true
  | _ => false
  end.

(** The calls presenting [key] that have started and not finished. *)
Definition inFlightFor (key : string) (pool : Pool) : nat :=
  length (List.filter
            (fun t => inFlight t &&
                      match presented t with
                      | Some k => (k =? key)%string
                      | None => false
                      end)
            (tasks pool)).

Inductive Action :=
| Call (request : SandboxRequest)       (* a caller invokes getOrCreateSandbox *)
| Resume (i : nat).                     (* the operation task [i] awaits completes *)

Section Scheduling.
Context (E : Env) (config : SandboxConfig) (polls : nat).

Definition call (request : SandboxRequest) (pool : Pool) : Pool :=
  let '(p, w) := settle E (getOrCreateSandbox config polls request) (world pool) in
  {| world := w;
     tasks := tasks pool ++ [{| presented := req_sessionId request; rest := p |}] |}.

Definition resume (i : nat) (pool : Pool) : Pool :=
  match tasks pool !! i with
  | Some t =>
      match rest t with
      | Await op k =>
          let '(r, w) := ioStep E op (world pool) in
          let '(p, w') := settle E (k r) w in
          {| world := w';
             tasks := <[i := {| presented := presented t; rest := p |}]> (tasks pool) |}
      | _ => pool
      end
  | None => pool
  end.

Definition act (a : Action) (pool : Pool) : Pool :=
  match a with
  | Call request => call request pool
  | Resume i => resume i pool
  end.

Definition schedule (actions : list Action) (pool : Pool) : Pool :=
  List.fold_left (fun pool a => act a pool) actions pool.

End Scheduling.

End Manager.

(** ** Auxiliary notions used in the proofs *)

Module Parse.
Import Json.

Section json_induction.
Variable P : json -> Prop.
Hypothesis HNull : P JNull.
Hypothesis HBool : forall b, P (JBool b).
Hypothesis HNum : forall n, P (JNum n).
Hypothesis HStr : forall s, P (JStr s).
Hypothesis HArr : forall l, Forall P l -> P (JArr l).
Hypothesis HObj : forall l, Forall (fun kv => P (snd kv)) l -> P (JObj l).

Fixpoint json_nested_ind (v : json) : P v :=
  match v with
  | JNull => HNull
  | JBool b => HBool b
  | JNum n => HNum n
  | JStr s => HStr s
  | JArr l =>
      HArr l ((fix go (l : list json) : Forall P l :=
                 match l with
                 | [] => @List.Forall_nil _ P
                 | x :: r => @List.Forall_cons _ P x r (json_nested_ind x) (go r)
                 end) l)
  | JObj l =>
      HObj l ((fix go (l : list (string * json))
                 : Forall (fun kv => P (snd kv)) l :=
                 match l with
                 | [] => @List.Forall_nil _ _
                 | kv :: r =>
                     @List.Forall_cons _ (fun kv => P (snd kv)) kv r
                       (json_nested_ind (snd kv)) (go r)
                 end) l)
  end.
End json_induction.

(** Reading one escaped code unit back. *)
Definition unescape (s : string) : option (ascii * string) :=
  match s with
  | "" => None
  | String c r =>
      if Ascii.eqb c backslash then
        match r with
        | String x r' =>
            if Ascii.eqb x dquote then Some (dquote, r')
            else if Ascii.eqb x backslash then Some (backslash, r')
            else if Ascii.eqb x "b" then Some (ascii_of_N 8, r')
            else if Ascii.eqb x "t" then Some (ascii_of_N 9, r')
            else if Ascii.eqb x "n" then Some (ascii_of_N 10, r')
            else if Ascii.eqb x "f" then Some (ascii_of_N 12, r')
            else if Ascii.eqb x "r" then Some (ascii_of_N 13, r')
            else
              match r' with
              | String _ (String _ (String h (String l r''))) =>
                  let hv := if Ascii.eqb h "1" then 16%N else 0%N in
                  let n := N_of_ascii l in
                  let lv := if (n <? 58)%N then (n - 48)%N else (n - 87)%N in
                  Some (ascii_of_N (hv + lv), r'')
              | _ => None
              end
        | "" => None
        end
      else if Ascii.eqb c dquote then None
      else Some (c, r)
  end.


(** The code units of a printed integer. *)
Definition numchar (c : ascii) : bool :=
  let n := N_of_ascii c in ((48 <=? n)%N && (n <=? 57)%N) || (n =? 45)%N.

(** The first code unit of a serialised value. *)
Definition value_start (c : ascii) : bool :=
  numchar c || Ascii.eqb c "n" || Ascii.eqb c "t" || Ascii.eqb c "f"
  || Ascii.eqb c dquote || Ascii.eqb c "[" || Ascii.eqb c "{".

(** What may follow a value inside a serialisation: nothing, or a code
    unit that no number contains. *)
Abbreviation closes r := (Str.stops numchar r = true).

Definition self_delimiting (v : json) : Prop :=
  forall v' r r', closes r -> closes r' ->
    stringify v +:+ r = stringify v' +:+ r' -> v = v' /\ r = r'.

(** One member of a serialised object. *)
Definition member (kv : string * json) : string :=
  quoteJSONString (fst kv) +:+ ":" +:+ stringify (snd kv).

End Parse.

Module Footprint.
Import Manager.

(** Synchronous accesses that leave [this.sandboxes] alone. *)
Definition quietSync {X} (op : SyncOp X) : bool :=
  match op with
  | SandboxesSet _ _ | SandboxesDelete _ | SetLastAccessed _ _ => false
  | _ => true
  end.

(** Suspending calls that leave the containers alone. *)
Definition quietIo {X} (op : IoOp X) : bool :=
  match op with
  | CreateContainer _ _ _ _ | Start _ | Stop _ | Remove _ => false
  | _ => true
  end.

(** A command tree that touches neither the registry nor the containers. *)
Inductive quiet {A} : Prog A -> Prop :=
| quiet_Ret a : quiet (Ret a)
| quiet_Throw e : quiet (Throw e)
| quiet_Spin : quiet Spin
| quiet_Sync {X} (op : SyncOp X) k :
    quietSync op = true -> (forall x, quiet (k x)) -> quiet (Sync op k)
| quiet_Await {X} (op : IoOp X) k :
    quietIo op = true -> (forall r, quiet (k r)) -> quiet (Await op k).

(** The world [w'] differs from [w] neither in the registry nor in the
    containers. *)
Definition sameResources (w w' : World) : Prop :=
  sandboxes w' = sandboxes w /\
  containers w' = containers w /\
  nextContainer w' = nextContainer w.

(** Every container of [w'] was already there in [w], under the same
    name. *)
Definition fewerContainers (w w' : World) : Prop :=
  forall j c', containers w' !! j = Some c' ->
    exists c, containers w !! j = Some c /\ name c = name c'.

(** The registry and the id counter are those of [w]; containers were
    stopped or removed at most. *)
Definition onlyRemoved (w w' : World) : Prop :=
  sandboxes w' = sandboxes w /\
  nextContainer w' = nextContainer w /\
  fewerContainers w w'.

(** Containers were stopped or removed at most, and the registry is that
    of [w], possibly without [key]. *)
Definition removedOrDeleted (key : string) (w w' : World) : Prop :=
  (sandboxes w' = sandboxes w \/ sandboxes w' = mapDelete key (sandboxes w)) /\
  nextContainer w' = nextContainer w /\
  fewerContainers w w'.

(** At most one container carries the name derived from [key]. *)
Definition atMostOneFor (key : string) (w : World) : Prop :=
  forall i j ci cj,
    containers w !! i = Some ci -> containers w !! j = Some cj ->
    name ci = containerName key -> name cj = containerName key -> i = j.

(** A container for [key] other than the one of [old] exists only once
    the container of [old] is gone and [old] is no longer registered. *)
Definition oldGoneBeforeNew (key : string) (old : SandboxInstance) (w : World)
  : Prop :=
  forall j cj,
    j <> containerId old ->
    containers w !! j = Some cj -> name cj = containerName key ->
    containers w !! containerId old = None /\
    mapGet key (sandboxes w) <> Some old.

(** The state of a rebuild after the old sandbox was deleted: the old
    container is gone, the old record is not registered, and the only
    container that may carry the key's name is [fresh]. *)
Definition rebuilding (key : string) (old : SandboxInstance) (fresh : ContainerId)
  (w : World) : Prop :=
  containers w !! containerId old = None /\
  (forall j cj, containers w !! j = Some cj -> name cj = containerName key ->
     j = fresh) /\
  mapGet key (sandboxes w) <> Some old.

(** The statements [l], sent to the sandbox at [port], are what was
    executed between [w] and [w'], in order. *)
Definition issued (port : Z) (l : list (string * list (option Json.json)))
  (w w' : World) : Prop :=
  executed w' =
  (List.rev (List.map (fun sp => (port, fst sp, snd sp)) l) ++ executed w)%list.

(** The body shared by [removeContainer] and [safeRemoveContainer]. *)
Definition stopAndRemove (id : ContainerId) (msg : string) : Prog unit :=
  tryCatch (awaitIgnoring (Stop id);; await (Remove id))
    (fun error => sync (ConsoleError msg error)).

End Footprint.

(** The two halves of [getOrCreateSandbox]. *)
Module Phases.
Import Manager.

(** The key a call works under, and the world once it is chosen. *)
Definition normalize (E : Env) (request : SandboxRequest) (w : World) : string * World :=
  let generated :=
    ("sandbox_" +:+ Json.numberToString (dateNow E (steps w)) +:+ "_" +:+
     randomSuffix E (S (steps w)), tick (tick w)) in
  match req_sessionId request with
  | Some id =>
      if (id =? "")%string then generated
      else if mapHas id (sandboxes w) then (id, w) else generated
  | None => generated
  end.

(** [getOrCreateSandbox] once the key is chosen. *)
Definition dispatch (config : SandboxConfig) (polls : nat)
  (request : SandboxRequest) (key : string) : Prog SandboxInstance :=
  existing ← sync (SandboxesGet key);
  let dataHash := computeDataHash (req_dbml request) (req_data request) in
  match existing with
  | Some existing =>
      if negb (dbml existing =? req_dbml request)%string
         || negb (Manager.dataHash existing =? dataHash)%string
      then
        replaceSandbox config polls (sessionId existing) (req_dbml request)
          (req_data request) (default postgres (req_engine request)) dataHash
      else
        now ← sync DateNow;
        sync (SetLastAccessed key now);;
        mret (withLastAccessed now existing)
  | None =>
      createSandbox config polls key (req_dbml request) (req_data request)
        (default postgres (req_engine request)) dataHash
  end.

(** What a finished call handed to its caller. *)
Definition finished {A} (p : Prog A) : option (Outcome A) :=
  match p with
  | Ret a => Some (Returned a)
  | Throw e => Some (Thrown e)
  | Spin => Some Pending
  | _ => None
  end.

End Phases.

(** ** Sample environments, worlds and requests *)

Module Scenario.
Import Json Manager.

(** An environment in which nothing is refused. *)
Definition calm : Env := {|
  dateNow := fun t => (1731500000000 + Z.of_nat t)%Z;
  randomSuffix := fun _ => "abcd1234";
  refuses := fun _ _ _ => None;
  localImages := fun _ => 1%nat;
  freePort := fun t => (49152 + Z.of_nat t)%Z;
  pgResult := fun _ => {| pg_rows := []; pg_fields := None |};
  schemaOf := fun _ => ["CREATE TABLE users (id INTEGER, name TEXT)"]
|}.

Definition daemonDown : Error := {| message := "connect ENOENT /var/run/docker.sock" |}.

(** Docker refuses every [remove]. *)
Definition removalRefused : Env := {|
  dateNow := dateNow calm;
  randomSuffix := randomSuffix calm;
  refuses := fun _ X op =>
    match op with
    | Remove _ => Some daemonDown
    | _ => None
    end;
  localImages := localImages calm;
  freePort := freePort calm;
  pgResult := pgResult calm;
  schemaOf := schemaOf calm
|}.

Definition syntaxError : Error := {| message := "syntax error at or near TABLE" |}.

(** The sandbox rejects every statement. *)
Definition seedFails : Env := {|
  dateNow := dateNow calm;
  randomSuffix := randomSuffix calm;
  refuses := fun _ X op =>
    match op with
    | PgQuery _ _ _ => Some syntaxError
    | _ => None
    end;
  localImages := localImages calm;
  freePort := freePort calm;
  pgResult := pgResult calm;
  schemaOf := schemaOf calm
|}.

(** The sandbox rejects every statement and Docker refuses every
    [remove]. *)
Definition seedFailsRemovalRefused : Env := {|
  dateNow := dateNow calm;
  randomSuffix := randomSuffix calm;
  refuses := fun _ X op =>
    match op with
    | PgQuery _ _ _ => Some syntaxError
    | Remove _ => Some daemonDown
    | _ => None
    end;
  localImages := localImages calm;
  freePort := freePort calm;
  pgResult := pgResult calm;
  schemaOf := schemaOf calm
|}.

Definition nameConflict : Error :=
  {| message := "Conflict. The container name is already in use" |}.

(** Docker refuses every [remove], and then every [createContainer],
    the name being taken. *)
Definition removalRefusedNameTaken : Env := {|
  dateNow := dateNow calm;
  randomSuffix := randomSuffix calm;
  refuses := fun _ X op =>
    match op with
    | Remove _ => Some daemonDown
    | CreateContainer _ _ _ _ => Some nameConflict
    | _ => None
    end;
  localImages := localImages calm;
  freePort := freePort calm;
  pgResult := pgResult calm;
  schemaOf := schemaOf calm
|}.

(** Docker refuses the creations from step 10 on, the name being taken
    by then. *)
Definition nameTakenLater : Env := {|
  dateNow := dateNow calm;
  randomSuffix := randomSuffix calm;
  refuses := fun t X op =>
    match op with
    | CreateContainer _ _ _ _ => if (10 <=? t)%nat then Some nameConflict else None
    | _ => None
    end;
  localImages := localImages calm;
  freePort := freePort calm;
  pgResult := pgResult calm;
  schemaOf := schemaOf calm
|}.

(** The clock of [calm], two hours on. *)
Definition twoHoursLater : Env := {|
  dateNow := fun t => (1731500000000 + 2 * 60 * 60 * 1000 + Z.of_nat t)%Z;
  randomSuffix := randomSuffix calm;
  refuses := refuses calm;
  localImages := localImages calm;
  freePort := freePort calm;
  pgResult := pgResult calm;
  schemaOf := schemaOf calm
|}.

Definition emptyWorld : World := {|
  sandboxes := [];
  ensureImagePromise := false;
  containers := ∅;
  nextContainer := 0;
  executed := [];
  console := [];
  steps := 0
|}.

Definition widerDbml : string := "Table users { id integer name text email text }".
Definition usersDbml : string := "Table users { id integer name text }".
Definition usersData : Seed.SeedData :=
  [("users", [[("id", JNum 1); ("name", JStr "a")]])].

(** A table whose first row has no keys. *)
Definition emptyFirstRow : Seed.SeedData :=
  [("users", [[]; [("id", JNum 2); ("name", JStr "b")]])].

(** A table whose second row lacks "name" and adds "email". *)
Definition raggedRows : Seed.SeedData :=
  [("users", [[("id", JNum 1); ("name", JStr "a")];
              [("id", JNum 2); ("email", JStr "b@x")]])].

Definition request (key : option string) (dbml : string) : SandboxRequest := {|
  req_sessionId := key;
  req_dbml := dbml;
  req_data := usersData;
  req_engine := None
|}.

(** A record registered under "s1", its container running. *)
Definition s1 : SandboxInstance := {|
  sessionId := "s1";
  dbml := usersDbml;
  dataHash := computeDataHash usersDbml usersData;
  engine := postgres;
  containerId := 0;
  hostPort := 49152;
  createdAt := 1731500000000;
  lastAccessed := 1731500000000
|}.

Definition oneSandbox : World := {|
  sandboxes := [("s1", s1)];
  ensureImagePromise := false;
  containers := {[ 0%nat := {| name := containerName "s1"; port := 49152; running := true |} ]};
  nextContainer := 1;
  executed := [];
  console := [];
  steps := 0
|}.

End Scenario.

(** ** The manager's bookkeeping methods *)

Module Admin.
Import Manager.

(** [getActiveSandboxesCount]: [this.sandboxes.size]. *)
Definition getActiveSandboxesCount : Prog nat :=
  entries ← sync SandboxesEntries;
  mret (length entries).

(** *** [cleanupAll]

    [Array.from(this.sandboxes.keys()).map(sessionId => this.deleteSandbox(sessionId))]
    starts one deletion per key, in key order, each running up to its
    first [await]; [Promise.allSettled] then waits until every one of them
    has finished, Docker completing the awaited operations in any order. *)

Record Batch := { batchWorld : World; deletions : list (Prog unit) }.

Section Batch.
Context (E : Env).

(** The calls of [ps], started one after the other. *)
Fixpoint startAll (ps : list (Prog unit)) (w : World) : list (Prog unit) * World :=
  match ps with
  | [] => ([], w)
  | p :: ps' =>
      let '(started, w') := settle E p w in
      let '(others, w'') := startAll ps' w' in
      (started :: others, w'')
  end.

Definition cleanupAllStart (w : World) : Batch :=
  let '(ds, w') :=
    startAll (List.map deleteSandbox (List.map fst (sandboxes w))) w in
  {| batchWorld := w'; deletions := ds |}.

(** The operation deletion [i] awaits completes, and the deletion runs on
    to its next [await] or to its end. *)
Definition complete (i : nat) (b : Batch) : Batch :=
  match deletions b !! i with
  | Some (Await op k) =>
      let '(r, w) := ioStep E op (batchWorld b) in
      let '(p, w') := settle E (k r) w in
      {| batchWorld := w'; deletions := <[i := p]> (deletions b) |}
  | _ => b
  end.

Definition completions (order : list nat) (b : Batch) : Batch :=
  List.fold_left (fun b i => complete i b) order b.

End Batch.

(** A promise that is fulfilled or rejected. *)
Definition settled (p : Prog unit) : bool :=
  match p with
  | Ret _ | Throw _ => true
  | _ => false
  end.

(** What [Promise.allSettled] waits for. *)
Definition allSettled (b : Batch) : bool := forallb settled (deletions b).

(** A deletion of [key] under way, at most [n] operations still to await:
    on every path it leaves the registry alone until it deletes [key],
    and then returns. *)
Inductive deleting (key : string) : nat -> Prog unit -> Prop :=
| deleting_last n k :
    (forall x, k x = Ret tt) -> deleting key n (Sync (SandboxesDelete key) k)
| deleting_sync n {X} (op : SyncOp X) k :
    Footprint.quietSync op = true -> (forall x, deleting key n (k x)) ->
    deleting key n (Sync op k)
| deleting_await n {X} (op : IoOp X) k :
    (forall r, deleting key n (k r)) -> deleting key (S n) (Await op k).

(** Suspended, with at most [n] operations to await after the one it
    waits for. *)
Definition waiting (key : string) (n : nat) (p : Prog unit) : Prop :=
  match p with
  | Await op k => forall r, deleting key n (k r)
  | _ => False
  end.

(** The deletions of a batch, one per key of [keys], seen from the
    batch's registry; and every registered key is one of [keys]. *)
Definition deletionsOf (keys : list string) (b : Batch) : Prop :=
  Forall2 (fun key p =>
             (p = Ret tt /\ mapGet key (sandboxes (batchWorld b)) = None) \/
             (exists n, n <= 1 /\ waiting key n p))
    keys (deletions b) /\
  (forall k s, mapGet k (sandboxes (batchWorld b)) = Some s -> List.In k keys).

End Admin.

(** ** Names for what the methods report *)

Module Report.
Import Manager.

(** The error [waitForPostgresReady] gives up with:
    [`Postgres sandbox failed to become ready within ${...}ms: ${String(lastError)}`] *)
Definition notReady (config : SandboxConfig) (lastError : option Error) : Error :=
  {| message :=
       "Postgres sandbox failed to become ready within " +:+
       Json.numberToString (readinessTimeoutMs config) +:+ "ms: " +:+
       describeError lastError |}.

(** The line [removeContainer] logs. *)
Definition removeFailed (id : ContainerId) : string :=
  "Failed to remove container " +:+ containerLabel id +:+ ":".

(** The response of [SQLExecutor.execute] on its [catch] path. *)
Definition failureResponse (e : Error) (elapsed : Z) : ExecuteQueryResponse := {|
  success := false;
  resp_rows := None;
  resp_columns := None;
  executionTime := elapsed;
  resp_error := Some (message e);
  resp_sessionId := None;
  resp_engine := None
|}.

(** The request [SQLExecutor.execute] hands to the manager. *)
Definition sandboxRequest (request : ExecuteQueryRequest) : SandboxRequest := {|
  req_sessionId := exec_sessionId request;
  req_dbml := exec_dbml request;
  req_data := exec_data request;
  req_engine := exec_engine request
|}.

End Report.

(** ** What a call sends to a sandbox *)

Module Trace.
Import Manager Footprint.

(** Running [p] from [w] sends the sandbox at [port] a prefix of [all],
    in order; all of it when [p] returns; and [p] does not hang. *)
Definition sendsPrefix (E : Env) (port : Z)
  (all : list (string * list (option Json.json))) {A} (p : Prog A) (w : World)
  : Prop :=
  exists sent,
    sent `prefix_of` all /\
    issued port sent w (run E p w).2 /\
    match (run E p w).1 with
    | Returned _ => sent = all
    | Thrown _ => True
    | Pending => False
    end.

End Trace.

(** ** Further sample environments *)

Module Cases.
Import Json Manager Scenario.

Definition connectionRefused : Error :=
  {| message := "connect ECONNREFUSED 127.0.0.1" |}.

(** The sandbox never accepts a connection. *)
Definition neverReady : Env := {|
  dateNow := dateNow calm;
  randomSuffix := randomSuffix calm;
  refuses := fun _ X op =>
    match op with
    | PgConnect _ => Some connectionRefused
    | _ => None
    end;
  localImages := localImages calm;
  freePort := freePort calm;
  pgResult := pgResult calm;
  schemaOf := schemaOf calm
|}.

(** A configuration that gives a sandbox five milliseconds. *)
Definition hasty : SandboxConfig := {|
  image := image defaultConfig;
  username := username defaultConfig;
  password := password defaultConfig;
  database := database defaultConfig;
  ttlMs := ttlMs defaultConfig;
  readinessTimeoutMs := 5;
  readinessRetryDelayMs := 1;
  cleanupIntervalMs := cleanupIntervalMs defaultConfig
|}.

Definition portTaken : Error :=
  {| message := "driver failed programming external connectivity: port is already allocated" |}.

(** Docker creates containers and refuses to start them. *)
Definition startRefused : Env := {|
  dateNow := dateNow calm;
  randomSuffix := randomSuffix calm;
  refuses := fun _ X op =>
    match op with
    | Start _ => Some portTaken
    | _ => None
    end;
  localImages := localImages calm;
  freePort := freePort calm;
  pgResult := pgResult calm;
  schemaOf := schemaOf calm
|}.

Definition typo : string := "SELEC 1".

(** The sandbox rejects the statement [typo] and no other. *)
Definition typoRejected : Env := {|
  dateNow := dateNow calm;
  randomSuffix := randomSuffix calm;
  refuses := fun _ X op =>
    match op with
    | PgQuery _ sql _ => if (sql =? typo)%string then Some syntaxError else None
    | _ => None
    end;
  localImages := localImages calm;
  freePort := freePort calm;
  pgResult := pgResult calm;
  schemaOf := schemaOf calm
|}.

Definition typoRequest : ExecuteQueryRequest := {|
  exec_sessionId := Some "s1";
  exec_dbml := usersDbml;
  exec_data := usersData;
  exec_query := typo;
  exec_engine := None
|}.

End Cases.

(** ** The routes of the container-sandbox backend *)

Module Routes.
Import Json Manager Query.

(** [req.body as ExecuteQueryRequest], each field possibly missing. *)
Record Body := {
  body_sessionId : option string;
  body_dbml : option string;
  body_data : option Seed.SeedData;
  body_query : option string;
  body_engine : option SupportedEngine
}.

(** What a handler answers: [res.status(code).json(...)], the status 200
    when [res.json] is called alone. *)
Inductive Reply :=
| ReplyError (status : nat) (error : option string)   (* { success: false, error } *)
| ReplyResult (status : nat) (result : ExecuteQueryResponse)
| ReplyDeleted                                        (* { success: true, message: 'Session deleted' } *)
| ReplyHealth (activeSandboxes : nat).                (* { status: 'ok', message, activeSandboxes } *)

Definition missingFields : string :=
  "Missing required fields: dbml and query are required".
Definition dataNotObject : string :=
  "Data must be an object with table names as keys".

Section Handlers.
Context (config : SandboxConfig) (polls : nat).

(** [router.post('/execute-query', ...)] *)
Definition postExecuteQuery (body : Body) : Prog Reply :=
  tryCatch
    (match body_dbml body, body_query body with
     | Some dbml, Some query =>
         (* [!dbml || !query]: a string is falsy when it is empty *)
         if (dbml =? "")%string || (query =? "")%string then
           mret (ReplyError 400 (Some missingFields))
         else
           match body_data body with
           | None => mret (ReplyError 400 (Some dataNotObject))
           | Some data =>
               let validation := validateQuery query in
               if negb (valid validation) then
                 mret (ReplyError 400 (error validation))
               else
                 result ← execute config polls {|
                   exec_sessionId := body_sessionId body;
                   exec_dbml := dbml;
                   exec_data := data;
                   exec_query := query;
                   exec_engine := body_engine body |};
                 if success result then mret (ReplyResult 200 result)
                 else mret (ReplyResult 400 result)
           end
     | _, _ => mret (ReplyError 400 (Some missingFields))
     end)
    (fun error => mret (ReplyError 500 (Some (message error)))).

(** [router.get('/health', ...)] *)
Definition getHealth : Prog Reply :=
  count ← Admin.getActiveSandboxesCount;
  mret (ReplyHealth count).

(** [router.delete('/session/:sessionId', ...)] *)
Definition deleteSession (sessionId : string) : Prog Reply :=
  tryCatch
    (deleteSandbox sessionId;;
     mret ReplyDeleted)
    (fun error => mret (ReplyError 500 (Some (message error)))).

End Handlers.

End Routes.

(** ** [SQLExecutor.validateQuery] (session-based executor)

    The validation of the executor that runs on [SessionManager]: comments
    are removed, the statement has to begin with SELECT, and seven
    keywords are forbidden as words of their own. *)

Module SelectOnly.
Import Query.

(** LineTerminator code units below 256: LF and CR. *)
Definition isLineTerminator (c : ascii) : bool :=
  let n := N_of_ascii c in (n =? 10)%N || (n =? 13)%N.

(** [s.replace(/mm.*$/gm, '')] for a marker [mm] made of the code unit
    [m] twice (["--"] here, ["//"] in the DBML parser).  [.] matches what
    is not a line terminator and [$] holds before a line terminator and
    at the end, so a match runs from the marker to the end of its line;
    [inComment] tells that the scan is inside one. *)
Fixpoint removeLineComments (m : ascii) (inComment : bool) (s : string) : string :=
  match s with
  | "" => ""
  | String c r =>
      if inComment then
        if isLineTerminator c then String c (removeLineComments m false r)
        else removeLineComments m true r
      else
        match r with
        | String c' r' =>
            if Ascii.eqb c m && Ascii.eqb c' m then removeLineComments m true r'
            else String c (removeLineComments m false r)
        | "" => String c ""
        end
  end.

(** What follows the first ["*/"] of [s], if there is one. *)
Fixpoint afterClose (s : string) : option string :=
  match s with
  | "" => None
  | String c r =>
      match r with
      | String c' r' =>
          if Ascii.eqb c "*" && Ascii.eqb c' "/" then Some r' else afterClose r
      | "" => None
      end
  end.

(** [s.replace(/\/\*[\s\S]*?\*\//g, '')]: a match starts at a ["/*"] that
    is followed, later, by a ["*/"], and ends with the first such; a
    ["/*"] that is never closed stays.  [inComment] tells that the scan is
    inside a match. *)
Fixpoint removeBlockComments (inComment : bool) (s : string) : string :=
  match s with
  | "" => ""
  | String c r =>
      match r with
      | String c' r' =>
          if inComment then
            if Ascii.eqb c "*" && Ascii.eqb c' "/" then removeBlockComments false r'
            else removeBlockComments true r
          else if Ascii.eqb c "/" && Ascii.eqb c' "*" &&
                  match afterClose r' with Some _ => true | None => false end
          then removeBlockComments true r'
          else String c (removeBlockComments false r)
      | "" => if inComment then "" else String c ""
      end
  end.

(** [String.prototype.toUpperCase] on a code unit below 256, in UTF-16
    code units: the letters a-z and the Latin-1 letters move down by 32,
    the micro sign becomes U+039C, y with diaeresis U+0178, and sharp s
    the two letters SS. *)
Definition upperUnits (c : ascii) : list N :=
  let n := N_of_ascii c in
  if ((97 <=? n) && (n <=? 122))%N then [(n - 32)%N]
  else if (n =? 181)%N then [924%N]
  else if (n =? 223)%N then [83%N; 83%N]
  else if ((224 <=? n) && (n <=? 254) && negb (n =? 247))%N then [(n - 32)%N]
  else if (n =? 255)%N then [376%N]
  else [n].

Fixpoint toUpperCase (s : string) : list N :=
  match s with
  | "" => []
  | String c r => (upperUnits c ++ toUpperCase r)%list
  end.

(** WhiteSpace and LineTerminator among all code units. *)
Definition isWhiteSpaceUnit (n : N) : bool :=
  (((9 <=? n) && (n <=? 13)) || (n =? 32) || (n =? 160) || (n =? 5760) ||
   ((8192 <=? n) && (n <=? 8202)) || (n =? 8232) || (n =? 8233) ||
   (n =? 8239) || (n =? 8287) || (n =? 12288) || (n =? 65279))%N.

Fixpoint trimStartUnits (l : list N) : list N :=
  match l with
  | [] => []
  | n :: l' => if isWhiteSpaceUnit n then trimStartUnits l' else l
  end.

Fixpoint trimEndUnits (l : list N) : list N :=
  match l with
  | [] => []
  | n :: l' =>
      match trimEndUnits l' with
      | [] => if isWhiteSpaceUnit n then [] else [n]
      | t => n :: t
      end
  end.

Definition trimUnits (l : list N) : list N := trimEndUnits (trimStartUnits l).

(** [l.startsWith(prefix)] *)
Fixpoint startsWith (prefix : string) (l : list N) : bool :=
  match prefix with
  | "" => true
  | String p prefix' =>
      match l with
      | n :: l' => (N_of_ascii p =? n)%N && startsWith prefix' l'
      | [] => false
      end
  end.

(** Canonicalize of a regular expression with the flag [i] and without
    the flag [u]: the upper case of the code unit when that is one code
    unit, except that a code unit of 128 or more is not mapped below
    128. *)
Definition canonicalize (c : ascii) : N :=
  match upperUnits c with
  | [u] => if ((128 <=? N_of_ascii c) && (u <? 128))%N then N_of_ascii c else u
  | _ => N_of_ascii c
  end.

(** [\w]: the letters, the digits and the underscore. *)
Definition isWordChar (c : ascii) : bool :=
  let n := N_of_ascii c in
  (((48 <=? n) && (n <=? 57)) || ((65 <=? n) && (n <=? 90)) || (n =? 95) ||
   ((97 <=? n) && (n <=? 122)))%N.

(** [\b] between a code unit that is a word character or not ([prev];
    not, at the start) and the rest [s]. *)
Definition boundary (prev : bool) (s : string) : bool :=
  xorb prev (match s with String c _ => isWordChar c | "" => false end).

(** The letters of [keyword] matched against the start of [s], case
    ignored: what follows them, and whether the last code unit matched
    is a word character. *)
Fixpoint matchLetters (keyword s : string) (prev : bool) : option (bool * string) :=
  match keyword with
  | "" => Some (prev, s)
  | String k keyword' =>
      match s with
      | String c s' =>
          if (canonicalize k =? canonicalize c)%N
          then matchLetters keyword' s' (isWordChar c)
          else None
      | "" => None
      end
  end.

Definition matchesHere (keyword s : string) (prev : bool) : bool :=
  boundary prev s &&
  match matchLetters keyword s prev with
  | Some (last, rest) => boundary last rest
  | None => false
  end.

(** [new RegExp(`\\b${keyword}\\b`, 'i').test(s)], the scan having come
    past a code unit that is a word character or not ([prev]). *)
Fixpoint testFrom (keyword s : string) (prev : bool) : bool :=
  matchesHere keyword s prev ||
  match s with
  | String c r => testFrom keyword r (isWordChar c)
  | "" => false
  end.

Definition test (keyword s : string) : bool := testFrom keyword s false.

Definition dangerousKeywords : list string :=
  ["DROP"; "DELETE"; "UPDATE"; "INSERT"; "ALTER"; "CREATE"; "TRUNCATE"].

(** [query.replace(/--.*$/gm, '').replace(/\/\*[\s\S]*?\*\//g, '').trim()] *)
Definition cleanedQuery (query : string) : string :=
  trim (removeBlockComments false (removeLineComments "-" false query)).

Definition validateQuery (query : string) : Validation :=
  if (query =? "")%string || (String.length (trim query) =? 0)%nat then
    {| valid := false; error := Some "Query cannot be empty" |}
  else
    let cleanedQuery := cleanedQuery query in
    if (String.length cleanedQuery =? 0)%nat then
      {| valid := false; error := Some "Query cannot be empty" |}
    else
      let trimmed := trimUnits (toUpperCase cleanedQuery) in
      if negb (startsWith "SELECT" trimmed) then
        {| valid := false; error := Some "Only SELECT queries are allowed" |}
      else
        match List.find (fun keyword => test keyword cleanedQuery) dangerousKeywords with
        | Some keyword =>
            {| valid := false;
               error := Some ("Query contains forbidden keyword: " +:+ keyword) |}
        | None => {| valid := true; error := None |}
        end.

End SelectOnly.

(** Letters, in either case. *)
Module Letters.

(** The capital of a letter a-z; any other code unit as it is. *)
Definition upperAscii (c : ascii) : ascii :=
  let n := N_of_ascii c in
  if ((97 <=? n) && (n <=? 122))%N then ascii_of_N (n - 32) else c.

(** [s] begins with the letters of [word], each in either case. *)
Fixpoint beginsWith (word s : string) : bool :=
  match word with
  | "" => true
  | String k word' =>
      match s with
      | String c s' => Ascii.eqb (upperAscii c) k && beginsWith word' s'
      | "" => false
      end
  end.

(** [word] and [s] have the same letters, case ignored. *)
Definition sameWord (word s : string) : bool :=
  beginsWith word s && (String.length s =? String.length word)%nat.

Definition isCapital (c : ascii) : bool :=
  let n := N_of_ascii c in ((65 <=? n) && (n <=? 90))%N.

(** Whether the code unit just before the end of [s] is a word character;
    [prev] when [s] is empty. *)
Fixpoint endsInWord (prev : bool) (s : string) : bool :=
  match s with
  | "" => prev
  | String c r => endsInWord (SelectOnly.isWordChar c) r
  end.

Definition startsInWord (s : string) : bool :=
  match s with
  | String c _ => SelectOnly.isWordChar c
  | "" => false
  end.

(** No code unit of [s] can begin a comment. *)
Definition noCommentMarks (s : string) : bool :=
  Str.all (fun c => negb (Ascii.eqb c "-") && negb (Ascii.eqb c "/")) s.

End Letters.

(** ** The DBML parser ([dbmlParser.ts])

    The parser works with regular expressions.  Each of them is matched
    here by a function that reads the string from the left: every
    quantifier of these expressions is followed by something its own
    characters cannot match, so giving back characters never helps and a
    match takes each run in full. *)

Module Dbml.
Import Query SelectOnly.

Record TableColumn := {
  col_name : string;                       (* name *)
  col_type : string;                       (* type *)
  isPrimaryKey : bool;
  constraints : option (list string)
}.

Record Table := {
  table_name : string;                     (* name *)
  table_columns : list TableColumn         (* columns *)
}.

Record Relationship := {
  rel_from : string;                       (* from *)
  rel_to : string;                         (* to *)
  rel_type : string                        (* type *)
}.

Record ParsedDBML := {
  tables : list Table;
  relationships : list Relationship
}.

(** *** Reading a string from the left *)

(** The longest prefix of [s] whose code units satisfy [p], and the
    rest: a greedy [p*]. *)
Fixpoint span (p : ascii -> bool) (s : string) : string * string :=
  match s with
  | "" => ("", "")
  | String c r =>
      if p c then let '(a, b) := span p r in (String c a, b) else ("", s)
  end.

(** [s] without the literal [lit] it begins with. *)
Fixpoint dropPrefix (lit s : string) : option string :=
  match lit with
  | "" => Some s
  | String l lit' =>
      match s with
      | String c s' => if Ascii.eqb l c then dropPrefix lit' s' else None
      | "" => None
      end
  end.

(** [open], one code unit or more other than [close], [close]: what
    stands between them and what follows. *)
Definition bracketed (open close : ascii) (s : string) : option (string * string) :=
  match s with
  | String c s1 =>
      if Ascii.eqb c open then
        let '(inner, s2) := span (fun x => negb (Ascii.eqb x close)) s1 in
        match inner, s2 with
        | String _ _, String _ s3 => Some (inner, s3)
        | _, _ => None
        end
      else None
  | "" => None
  end.

(** [regex.exec(s)] in a loop, the regular expression carrying the flag
    [g]: the matches from left to right, each search starting where the
    match before it ended.  [matchAt] gives the match that starts at the
    head of its argument, with its length; [skip] code units still belong
    to the last match. *)
Fixpoint matchAll {X} (matchAt : string -> option (X * nat)) (skip : nat)
  (s : string) : list X :=
  match s with
  | "" => []
  | String _ r =>
      match skip with
      | S skip' => matchAll matchAt skip' r
      | O =>
          match matchAt s with
          | Some (x, n) => x :: matchAll matchAt (pred n) r
          | None => matchAll matchAt 0 r
          end
      end
  end.

(** [s.match(regex)] without the flag [g]: the leftmost match. *)
Fixpoint firstMatch {X} (matchAt : string -> option X) (s : string) : option X :=
  match matchAt s with
  | Some x => Some x
  | None =>
      match s with
      | String _ r => firstMatch matchAt r
      | "" => None
      end
  end.

(** [s.includes(needle)] *)
Fixpoint includes (needle s : string) : bool :=
  match dropPrefix needle s with
  | Some _ => true
  | None =>
      match s with
      | String _ r => includes needle r
      | "" => false
      end
  end.

(** [s.split('\n')] *)
Fixpoint splitLines (s : string) : list string :=
  match s with
  | "" => [""]
  | String c r =>
      if (N_of_ascii c =? 10)%N then "" :: splitLines r
      else
        match splitLines r with
        | line :: lines => String c line :: lines
        | [] => [String c ""]
        end
  end.

(** *** [mapDBMLTypeToSQLite] *)

(** [String.prototype.toLowerCase] on a code unit below 256: the letters
    A-Z and the Latin-1 capitals move up by 32. *)
Definition lowerChar (c : ascii) : ascii :=
  let n := N_of_ascii c in
  if (((65 <=? n) && (n <=? 90)) ||
      ((192 <=? n) && (n <=? 222) && negb (n =? 215)))%N
  then ascii_of_N (n + 32) else c.

Fixpoint toLowerCase (s : string) : string :=
  match s with
  | "" => ""
  | String c r => String (lowerChar c) (toLowerCase r)
  end.

Definition isDigit (c : ascii) : bool :=
  let n := N_of_ascii c in ((48 <=? n) && (n <=? 57))%N.

(** [/varchar\((\d+)\)/] at the head of [s]: the digits. *)
Definition varcharAt (s : string) : option string :=
  match dropPrefix "varchar(" s with
  | Some s1 =>
      let '(digits, s2) := span isDigit s1 in
      match digits, s2 with
      | String _ _, String c _ => if Ascii.eqb c ")" then Some digits else None
      | _, _ => None
      end
  | None => None
  end.

Definition mapDBMLTypeToSQLite (dbmlType : string) : string :=
  let type := toLowerCase dbmlType in
  if includes "varchar" type || includes "char" type then
    match firstMatch varcharAt type with
    | Some digits => "VARCHAR(" +:+ digits +:+ ")"
    | None => "TEXT"
    end
  else if (type =? "text")%string then "TEXT"
  else if (type =? "integer")%string || (type =? "int")%string then "INTEGER"
  else if (type =? "real")%string || (type =? "float")%string
          || (type =? "double")%string then "REAL"
  else if (type =? "boolean")%string || (type =? "bool")%string then "INTEGER"
  else if (type =? "date")%string then "TEXT"
  else if (type =? "datetime")%string || (type =? "timestamp")%string then "TEXT"
  else "TEXT".

(** *** [parseDBML] *)

(** [/^(\w+)\s+(\w+(?:\([^)]+\))?)\s*(?:\[([^\]]+)\])?/] on a line: the
    name, the type, and what stands in the square brackets, if they are
    there. *)
Definition columnMatch (line : string) : option (string * string * option string) :=
  let '(name, s1) := span isWordChar line in
  let '(gap, s2) := span isWhiteSpace s1 in
  let '(word, s3) := span isWordChar s2 in
  match name, gap, word with
  | String _ _, String _ _, String _ _ =>
      let '(type, s4) :=
        match bracketed "(" ")" s3 with
        | Some (inner, rest) => (word +:+ "(" +:+ inner +:+ ")", rest)
        | None => (word, s3)
        end in
      let '(_, s5) := span isWhiteSpace s4 in
      Some (name, type,
            match bracketed "[" "]" s5 with
            | Some (inner, _) => Some inner
            | None => None
            end)
  | _, _, _ => None
  end.

Definition isQuote (c : ascii) : bool :=
  Ascii.eqb c "'" || Ascii.eqb c Json.dquote.

(** The regular expression of the note at the head of [s]: [note:], white
    space, a quote of either kind, one code unit or more that are no
    quotes, and a quote of either kind.  The note is what stands between
    the quotes. *)
Definition noteAt (s : string) : option string :=
  match dropPrefix "note:" s with
  | Some s1 =>
      let '(_, s2) := span isWhiteSpace s1 in
      match s2 with
      | String q s3 =>
          if isQuote q then
            let '(note, s4) := span (fun c => negb (isQuote c)) s3 in
            match note, s4 with
            | String _ _, String _ _ => Some note
            | _, _ => None
            end
          else None
      | "" => None
      end
  | None => None
  end.

(** The body of the loop over the lines of a table. *)
Definition parseColumn (line : string) : option TableColumn :=
  match columnMatch line with
  | Some (name, type, constraintsStr) =>
      Some {| col_name := name;
              col_type := mapDBMLTypeToSQLite type;
              isPrimaryKey :=
                match constraintsStr with
                | Some str => includes "primary key" str
                | None => false
                end;
              constraints :=
                match constraintsStr with
                | Some str =>
                    match firstMatch noteAt str with
                    | Some note => Some ["-- " +:+ note]
                    | None => None
                    end
                | None => None
                end |}
  | None => None
  end.

(** [tableBody.split('\n').map(line => line.trim()).filter(line => line)] *)
Definition columnLines (tableBody : string) : list string :=
  List.filter (fun line => negb (line =? "")%string)
    (List.map trim (splitLines tableBody)).

(** [/Table\s+(\w+)\s*\{([^}]+)\}/] at the head of [s]: the name, the
    body and the length of the match. *)
Definition tableAt (s : string) : option (string * string * nat) :=
  match dropPrefix "Table" s with
  | Some s1 =>
      let '(gap, s2) := span isWhiteSpace s1 in
      let '(name, s3) := span isWordChar s2 in
      let '(gap', s4) := span isWhiteSpace s3 in
      match gap, name, s4 with
      | String _ _, String _ _, String c s5 =>
          if Ascii.eqb c "{" then
            let '(body, s6) := span (fun x => negb (Ascii.eqb x "}")) s5 in
            match body, s6 with
            | String _ _, String _ _ =>
                Some (name, body,
                      5 + String.length gap + String.length name +
                      String.length gap' + 1 + String.length body + 1)
            | _, _ => None
            end
          else None
      | _, _, _ => None
      end
  | None => None
  end.

(** The body of the loop over the tables: a table without a column that
    could be read is left out. *)
Definition parseTable (found : string * string) : option Table :=
  let '(tableName, tableBody) := found in
  match omap parseColumn (columnLines tableBody) with
  | [] => None
  | columns => Some {| table_name := tableName; table_columns := columns |}
  end.

(** The last code unit of [gap] that is no line terminator. *)
Fixpoint lastOnLine (gap : string) : option ascii :=
  match gap with
  | "" => None
  | String c r =>
      match lastOnLine r with
      | Some x => Some x
      | None => if isLineTerminator c then None else Some c
      end
  end.

(** [(?:\/\/\s*(.+))?] at the head of [s], [s] being what follows the
    white space after the fourth name: what [(.+)] holds and the length
    of the group.  After the white space that follows the slashes, [.+]
    takes the rest of the line; when nothing follows that white space,
    white space is given back until [.+] finds a code unit of its own
    line. *)
Definition refComment (s : string) : option (string * nat) :=
  match dropPrefix "//" s with
  | Some s1 =>
      let '(gap, s2) := span isWhiteSpace s1 in
      match s2 with
      | String _ _ =>
          let '(text, _) := span (fun c => negb (isLineTerminator c)) s2 in
          Some (text, 2 + String.length gap + String.length text)
      | "" =>
          match lastOnLine gap with
          | Some c =>
              let '(rest, _) := span isLineTerminator (String.rev gap) in
              Some (String c "", 2 + String.length gap - String.length rest)
          | None => None
          end
      end
  | None => None
  end.

(** [/Ref:\s*(\w+)\.(\w+)\s*>\s*(\w+)\.(\w+)\s*(?:\/\/\s*(.+))?/] at the
    head of [s]: the relationship and the length of the match. *)
Definition refAt (s : string) : option (Relationship * nat) :=
  match dropPrefix "Ref:" s with
  | Some s1 =>
      let '(g1, s2) := span isWhiteSpace s1 in
      let '(t1, s3) := span isWordChar s2 in
      match t1, dropPrefix "." s3 with
      | String _ _, Some s4 =>
          let '(c1, s5) := span isWordChar s4 in
          let '(g2, s6) := span isWhiteSpace s5 in
          match c1, dropPrefix ">" s6 with
          | String _ _, Some s7 =>
              let '(g3, s8) := span isWhiteSpace s7 in
              let '(t2, s9) := span isWordChar s8 in
              match t2, dropPrefix "." s9 with
              | String _ _, Some s10 =>
                  let '(c2, s11) := span isWordChar s10 in
                  let '(g4, s12) := span isWhiteSpace s11 in
                  match c2 with
                  | String _ _ =>
                      let comment := refComment s12 in
                      Some ({| rel_from := t1 +:+ "." +:+ c1;
                               rel_to := t2 +:+ "." +:+ c2;
                               rel_type :=
                                 match comment with
                                 | Some (text, _) =>
                                     match trim text with
                                     | "" => "many-to-one"
                                     | type => type
                                     end
                                 | None => "many-to-one"
                                 end |},
                            4 + String.length g1 + String.length t1 + 1 +
                            String.length c1 + String.length g2 + 1 +
                            String.length g3 + String.length t2 + 1 +
                            String.length c2 + String.length g4 +
                            match comment with
                            | Some (_, n) => n
                            | None => 0
                            end)
                  | "" => None
                  end
              | _, _ => None
              end
          | _, _ => None
          end
      | _, _ => None
      end
  | None => None
  end.

(** [dbml.replace(/\/\/.*$/gm, '').replace(/\/\*[\s\S]*?\*\//g, '')] *)
Definition cleaned (dbml : string) : string :=
  removeBlockComments false (removeLineComments "/" false dbml).

Definition parseDBML (dbml : string) : ParsedDBML :=
  let cleaned := cleaned dbml in
  {| tables :=
       omap parseTable
         (matchAll (fun s => match tableAt s with
                             | Some (name, body, n) => Some ((name, body), n)
                             | None => None
                             end) 0 cleaned);
     relationships := matchAll refAt 0 cleaned |}.

(** *** [generateSQLSchema] *)

Definition columnDefinition (col : TableColumn) : string :=
  col_name col +:+ " " +:+ col_type col +:+
  (if isPrimaryKey col then " PRIMARY KEY" else "").

Definition newline : string := String (ascii_of_N 10) "".

(** [`CREATE TABLE IF NOT EXISTS ${table.name} (\n  ${columns.join(',\n  ')}\n);`] *)
Definition createTableSQL (table : Table) : string :=
  "CREATE TABLE IF NOT EXISTS " +:+ table_name table +:+ " (" +:+ newline +:+ "  " +:+
  String.concat ("," +:+ newline +:+ "  ")
    (List.map columnDefinition (table_columns table)) +:+
  newline +:+ ");".

Definition generateSQLSchema (parsed : ParsedDBML) : list string :=
  List.map createTableSQL (tables parsed).

End Dbml.

(** Notions used to state what the parser produces. *)
Module Lex.
Import SelectOnly Dbml.

(** A name the parser can read: one word character or more. *)
Definition isWord (s : string) : bool :=
  negb (s =? "")%string && Str.all isWordChar s.

(** The four forms of a column type in the generated SQL. *)
Definition isSqlType (s : string) : Prop :=
  s = "TEXT" \/ s = "INTEGER" \/ s = "REAL" \/
  exists digits,
    digits <> "" /\ Str.all isDigit digits = true /\
    s = "VARCHAR(" +:+ digits +:+ ")".

(** The code units of a generated statement: word characters, the space,
    the line feed, the parentheses, the comma and the semicolon. *)
Definition isSchemaChar (c : ascii) : bool :=
  let n := N_of_ascii c in
  isWordChar c ||
  ((n =? 32) || (n =? 10) || (n =? 40) || (n =? 41) || (n =? 44) || (n =? 59))%N.

(** [s] holds the code unit [m] twice in a row. *)
Fixpoint hasDouble (m : ascii) (s : string) : bool :=
  match s with
  | "" => false
  | String c r =>
      match r with
      | String c' _ => (Ascii.eqb c m && Ascii.eqb c' m) || hasDouble m r
      | "" => false
      end
  end.

(** [r] is what is left of [s] after some of its code units. *)
Definition isSuffix (r s : string) : Prop := exists a, s = a +:+ r.

End Lex.

(** ** The session manager ([sessionManager.ts])

    [SessionManager] keeps one SQLite database file per session.  Its
    methods are synchronous: each is a function from the state of the
    manager, the file system and the open databases to an outcome and a
    new state. *)

Module Sessions.
Import Json.

Record SessionData := {
  sessionId : string;
  dbml : string;
  data : Seed.SeedData;
  createdAt : Z;
  lastAccessed : Z
}.

Definition withLastAccessed (t : Z) (s : SessionData) : SessionData := {|
  sessionId := sessionId s;
  dbml := dbml s;
  data := data s;
  createdAt := createdAt s;
  lastAccessed := t
|}.

Record Error := { message : string }.

(** A [Database] object, and the file it works on.  Removing a file
    takes its name away; a database opened on it before keeps working on
    it. *)
Definition Db : Set := nat.
Definition File : Set := nat.
Definition Statement : Type := string * list (option json).

Record Connection := { file : File; isOpen : bool }.

(** *** [Map<string, V>], in insertion order *)

Section Maps.
Context {V : Type}.

Fixpoint mapGet (k : string) (m : list (string * V)) : option V :=
  match m with
  | [] => None
  | (k', v) :: m' => if (k' =? k)%string then Some v else mapGet k m'
  end.

Fixpoint mapSet (k : string) (v : V) (m : list (string * V)) : list (string * V) :=
  match m with
  | [] => [(k, v)]
  | (k', v') :: m' =>
      if (k' =? k)%string then (k, v) :: m' else (k', v') :: mapSet k v m'
  end.

Definition mapDelete (k : string) (m : list (string * V)) : list (string * V) :=
  List.filter (fun entry => negb (fst entry =? k)%string) m.

End Maps.

Record World := {
  sessions : list (string * SessionData);       (* this.sessions *)
  dbConnections : list (string * Db);           (* this.dbConnections *)
  connections : gmap Db Connection;             (* the Database objects made so far *)
  nextDb : Db;
  paths : gmap string File;                     (* the files that exist, by path *)
  contents : gmap File (list Statement);        (* what was executed on each file, latest first *)
  nextFile : File;
  console : list (string * Error);              (* console.error *)
  steps : nat
}.

(** What can fail for reasons outside the manager. *)
Inductive Op :=
| Unlink (path : string)
| Open (path : string)
| Exec (db : Db) (sql : string)
| Prepare (db : Db) (sql : string)
| Run (db : Db) (sql : string) (params : list (option json))
| All (db : Db) (sql : string).

(** What the manager does not decide: the clock, the random source, the
    failures of the file system and of SQLite, the rows a query gives,
    and [path.join(this.dbDir, `${sessionId}.db`)]. *)
Record Env := {
  dateNow : nat -> Z;
  randomSuffix : nat -> string;
  fails : nat -> Op -> option Error;
  rowsOf : nat -> list Seed.Row;
  pathOf : string -> string
}.

Definition tick (w : World) : World := {|
  sessions := sessions w; dbConnections := dbConnections w;
  connections := connections w; nextDb := nextDb w;
  paths := paths w; contents := contents w; nextFile := nextFile w;
  console := console w; steps := S (steps w)
|}.

Definition withSessions (m : list (string * SessionData)) (w : World) : World := {|
  sessions := m; dbConnections := dbConnections w;
  connections := connections w; nextDb := nextDb w;
  paths := paths w; contents := contents w; nextFile := nextFile w;
  console := console w; steps := steps w
|}.

Definition withDbConnections (m : list (string * Db)) (w : World) : World := {|
  sessions := sessions w; dbConnections := m;
  connections := connections w; nextDb := nextDb w;
  paths := paths w; contents := contents w; nextFile := nextFile w;
  console := console w; steps := steps w
|}.

Definition withConnections (c : gmap Db Connection) (n : Db) (w : World) : World := {|
  sessions := sessions w; dbConnections := dbConnections w;
  connections := c; nextDb := n;
  paths := paths w; contents := contents w; nextFile := nextFile w;
  console := console w; steps := steps w
|}.

Definition withFiles (p : gmap string File) (c : gmap File (list Statement))
  (n : File) (w : World) : World := {|
  sessions := sessions w; dbConnections := dbConnections w;
  connections := connections w; nextDb := nextDb w;
  paths := p; contents := c; nextFile := n;
  console := console w; steps := steps w
|}.

Definition withConsole (l : list (string * Error)) (w : World) : World := {|
  sessions := sessions w; dbConnections := dbConnections w;
  connections := connections w; nextDb := nextDb w;
  paths := paths w; contents := contents w; nextFile := nextFile w;
  console := l; steps := steps w
|}.

(** *** Synchronous code that may throw *)

Inductive Outcome (A : Type) : Type :=
| Value (a : A)
| Raised (e : Error).
Arguments Value {A} a.
Arguments Raised {A} e.

Definition M (A : Type) : Type := World -> Outcome A * World.

Definition ret {A} (a : A) : M A := fun w => (Value a, w).

Definition bind {A B} (m : M A) (f : A -> M B) : M B :=
  fun w =>
    match m w with
    | (Value a, w') => f a w'
    | (Raised e, w') => (Raised e, w')
    end.

#[global] Instance M_ret : MRet M := @ret.
#[global] Instance M_bind : MBind M := fun A B f m => bind m f.

Definition raise {A} (e : Error) : M A := fun w => (Raised e, w).

(** [try { m } catch (error) { h error }] *)
Definition tryCatch {A} (m : M A) (h : Error -> M A) : M A :=
  fun w =>
    match m w with
    | (Raised e, w') => h e w'
    | done => done
    end.

(** [for (const x of l) { body x }] *)
Fixpoint forEach {X} (l : list X) (body : X -> M unit) : M unit :=
  match l with
  | [] => ret tt
  | x :: l' => bind (body x) (fun _ => forEach l' body)
  end.

Definition get {X} (read : World -> X) : M X := fun w => (Value (read w), w).
Definition update (change : World -> World) : M unit := fun w => (Value tt, change w).

Definition noSuchFile : Error := {| message := "ENOENT: no such file or directory" |}.
Definition notOpen : Error := {| message := "The database connection is not open" |}.

Section Primitives.
Context (E : Env).

Definition now : M Z := fun w => (Value (dateNow E (steps w)), tick w).
Definition random : M string := fun w => (Value (randomSuffix E (steps w)), tick w).

(** [fs.existsSync(path)] *)
Definition existsSync (path : string) : M bool :=
  get (fun w => match paths w !! path with Some _ => true | None => false end).

(** [fs.unlinkSync(path)] *)
Definition unlinkSync (path : string) : M unit := fun w =>
  match fails E (steps w) (Unlink path), paths w !! path with
  | Some e, _ => (Raised e, tick w)
  | None, None => (Raised noSuchFile, tick w)
  | None, Some _ =>
      (Value tt, withFiles (delete path (paths w)) (contents w) (nextFile w) (tick w))
  end.

(** [new Database(path)]: the file is created when it is not there. *)
Definition openDatabase (path : string) : M Db := fun w =>
  match fails E (steps w) (Open path) with
  | Some e => (Raised e, tick w)
  | None =>
      let db := nextDb w in
      match paths w !! path with
      | Some f =>
          (Value db,
           withConnections (<[db := {| file := f; isOpen := true |}]> (connections w))
             (S db) (tick w))
      | None =>
          let f := nextFile w in
          (Value db,
           withConnections (<[db := {| file := f; isOpen := true |}]> (connections w))
             (S db)
             (withFiles (<[path := f]> (paths w)) (<[f := []]> (contents w)) (S f)
                (tick w)))
      end
  end.

(** [db.close()] *)
Definition close (db : Db) : M unit :=
  update (fun w =>
            match connections w !! db with
            | Some c =>
                withConnections
                  (<[db := {| file := file c; isOpen := false |}]> (connections w))
                  (nextDb w) w
            | None => w
            end).

(** A statement that changes the database: [db.exec(sql)], or
    [stmt.run(...params)] for a prepared statement. *)
Definition change (op : Op) (db : Db) (sql : string) (params : list (option json))
  : M unit := fun w =>
  match connections w !! db with
  | Some {| file := f; isOpen := true |} =>
      match fails E (steps w) op with
      | Some e => (Raised e, tick w)
      | None =>
          (Value tt,
           withFiles (paths w)
             (<[f := (sql, params) :: default [] (contents w !! f)]> (contents w))
             (nextFile w) (tick w))
      end
  | _ => (Raised notOpen, tick w)
  end.

Definition exec (db : Db) (sql : string) : M unit :=
  change (Exec db sql) db sql [].

Definition run (db : Db) (sql : string) (params : list (option json)) : M unit :=
  change (Run db sql params) db sql params.

(** [db.prepare(sql)] *)
Definition prepare (db : Db) (sql : string) : M unit := fun w =>
  match connections w !! db with
  | Some {| file := f; isOpen := true |} =>
      match fails E (steps w) (Prepare db sql) with
      | Some e => (Raised e, tick w)
      | None => (Value tt, tick w)
      end
  | _ => (Raised notOpen, tick w)
  end.

(** [db.transaction(body)(...)]: what [body] executed is undone when it
    throws. *)
Definition transaction (db : Db) (body : M unit) : M unit := fun w =>
  match body w with
  | (Raised e, w') =>
      (Raised e,
       match connections w !! db with
       | Some c =>
           withFiles (paths w')
             (<[file c := default [] (contents w !! file c)]> (contents w'))
             (nextFile w') w'
       | None => w'
       end)
  | done => done
  end.

(** [db.prepare(query).all()] *)
Definition all (db : Db) (query : string) : M (list Seed.Row) := fun w =>
  match connections w !! db with
  | Some {| file := f; isOpen := true |} =>
      match fails E (steps w) (All db query) with
      | Some e => (Raised e, tick w)
      | None => (Value (rowsOf E (steps w)), tick w)
      end
  | _ => (Raised notOpen, tick w)
  end.

(** *** [SessionManager] *)

(** [`session_${Date.now()}_${Math.random().toString(36).substring(2, 15)}`] *)
Definition generateSessionId : M string :=
  t ← now;
  suffix ← random;
  mret ("session_" +:+ numberToString t +:+ "_" +:+ suffix).

Definition createSession (sessionId dbml : string) (data : Seed.SeedData) : M unit :=
  let dbPath := pathOf E sessionId in
  there ← existsSync dbPath;
  (if there : bool then unlinkSync dbPath else mret tt);;
  db ← openDatabase dbPath;
  tryCatch
    (let schemaStatements := Dbml.generateSQLSchema (Dbml.parseDBML dbml) in
     forEach schemaStatements (fun statement => exec db statement);;
     forEach data
       (fun '(tableName, rows) =>
          match rows with
          | [] => mret tt
          | row0 :: _ =>
              let columns := Seed.keys row0 in
              let insertSQL := Seed.sessionInsertSQL tableName columns in
              prepare db insertSQL;;
              transaction db
                (forEach rows
                   (fun row => run db insertSQL (Seed.values columns row)))
          end);;
     created ← now;
     accessed ← now;
     update (fun w =>
               withSessions
                 (mapSet sessionId
                    {| sessionId := sessionId; dbml := dbml; data := data;
                       createdAt := created; lastAccessed := accessed |}
                    (sessions w)) w);;
     update (fun w => withDbConnections (mapSet sessionId db (dbConnections w)) w))
    (fun error =>
       close db;;
       raise error).

Definition updateSession (sessionId dbml : string) (data : Seed.SeedData) : M unit :=
  oldDb ← get (fun w => mapGet sessionId (dbConnections w));
  match oldDb with
  | Some oldDb =>
      close oldDb;;
      update (fun w => withDbConnections (mapDelete sessionId (dbConnections w)) w)
  | None => mret tt
  end;;
  let dbPath := pathOf E sessionId in
  there ← existsSync dbPath;
  (if there : bool then unlinkSync dbPath else mret tt);;
  createSession sessionId dbml data.

Definition touch (sessionId : string) : M unit :=
  t ← now;
  update (fun w =>
            match mapGet sessionId (sessions w) with
            | Some s => withSessions (mapSet sessionId (withLastAccessed t s) (sessions w)) w
            | None => w
            end).

Definition getOrCreateSession (sessionId dbml : string) (data : Seed.SeedData)
  : M string :=
  existing ← get (fun w => mapGet sessionId (sessions w));
  match existing with
  | Some existing =>
      (if negb (Sessions.dbml existing =? dbml)%string
          || negb (stringify (Seed.toJson (Sessions.data existing)) =?
                   stringify (Seed.toJson data))%string
       then updateSession sessionId dbml data
       else touch sessionId);;
      mret sessionId
  | None =>
      newSessionId ← (if (sessionId =? "")%string then generateSessionId
                      else mret sessionId);
      createSession newSessionId dbml data;;
      mret newSessionId
  end.

Definition getDatabase (sessionId : string) : M (option Db) :=
  session ← get (fun w => mapGet sessionId (sessions w));
  match session with
  | None => mret None
  | Some _ =>
      touch sessionId;;
      db ← get (fun w => mapGet sessionId (dbConnections w));
      match db with
      | Some db => mret (Some db)
      | None =>
          let dbPath := pathOf E sessionId in
          there ← existsSync dbPath;
          if there : bool then
            db ← openDatabase dbPath;
            update (fun w => withDbConnections (mapSet sessionId db (dbConnections w)) w);;
            mret (Some db)
          else mret None
      end
  end.

Record QueryResult := { rows : list Seed.Row; columns : list string }.

Definition executeQuery (sessionId query : string) : M (option QueryResult) :=
  db ← getDatabase sessionId;
  match db with
  | None => mret None
  | Some db =>
      result ← all db query;
      mret (Some {| rows := result;
                    columns := match result with
                               | row0 :: _ => Seed.keys row0
                               | [] => []
                               end |})
  end.

Definition deleteSession (sessionId : string) : M unit :=
  db ← get (fun w => mapGet sessionId (dbConnections w));
  match db with
  | Some db =>
      close db;;
      update (fun w => withDbConnections (mapDelete sessionId (dbConnections w)) w)
  | None => mret tt
  end;;
  let dbPath := pathOf E sessionId in
  there ← existsSync dbPath;
  (if there : bool then
     tryCatch (unlinkSync dbPath)
       (fun error =>
          update (fun w =>
                    withConsole
                      (("Failed to delete database file for session " +:+
                        sessionId +:+ ":", error) :: console w) w))
   else mret tt);;
  update (fun w => withSessions (mapDelete sessionId (sessions w)) w).

Definition cleanupOldSessions (sessionTimeout : Z) : M unit :=
  t ← now;
  entries ← get sessions;
  let sessionsToDelete :=
    List.map fst
      (List.filter (fun entry => (t - lastAccessed (snd entry) >? sessionTimeout)%Z)
         entries) in
  forEach sessionsToDelete deleteSession.

Definition getSessionInfo (sessionId : string) : M (option SessionData) :=
  get (fun w => mapGet sessionId (sessions w)).

Definition getActiveSessionsCount : M nat :=
  get (fun w => length (sessions w)).

(** [for (const sessionId of this.sessions.keys()) this.deleteSession(sessionId)]:
    the loop deletes the entry it stands on and no other, so it comes to
    every key the map held when it began. *)
Definition cleanupAll : M unit :=
  keys ← get (fun w => List.map fst (sessions w));
  forEach keys deleteSession.

(** *** [SQLExecutor.execute] (session-based executor) *)

Record ExecuteQueryResponse := {
  success : bool;
  resp_rows : option (list Seed.Row);
  resp_columns : option (list string);
  executionTime : Z;
  resp_error : option string;
  resp_sessionId : option string
}.

Definition failed (error : string) (elapsed : Z) : ExecuteQueryResponse := {|
  success := false;
  resp_rows := None;
  resp_columns := None;
  executionTime := elapsed;
  resp_error := Some error;
  resp_sessionId := None
|}.

(** [execute(request)], [sessionId] standing for [request.sessionId || '']. *)
Definition execute (sessionId dbml : string) (data : Seed.SeedData)
  (query : string) : M ExecuteQueryResponse :=
  startTime ← now;
  tryCatch
    (sessionId ← getOrCreateSession sessionId dbml data;
     result ← executeQuery sessionId query;
     match result with
     | None =>
         finish ← now;
         mret (failed "Session not found or expired" (finish - startTime))
     | Some result =>
         finish ← now;
         mret {| success := true;
                 resp_rows := Some (rows result);
                 resp_columns := Some (columns result);
                 executionTime := finish - startTime;
                 resp_error := None;
                 resp_sessionId := Some sessionId |}
     end)
    (fun error =>
       finish ← now;
       mret (failed (message error) (finish - startTime))).

End Primitives.

(** The world [w'] differs from [w] in the contents of the files and in
    the step counter at most. *)
Definition stable (w w' : World) : Prop :=
  sessions w' = sessions w /\
  dbConnections w' = dbConnections w /\
  connections w' = connections w /\
  nextDb w' = nextDb w /\
  paths w' = paths w /\
  nextFile w' = nextFile w /\
  console w' = console w.

(** Every stored connection is an open database made before now, and no
    two sessions share one. *)
Definition connected (w : World) : Prop :=
  (forall id db,
     mapGet id (dbConnections w) = Some db ->
     db < nextDb w /\
     exists f, connections w !! db = Some {| file := f; isOpen := true |}) /\
  (forall id id' db,
     mapGet id (dbConnections w) = Some db ->
     mapGet id' (dbConnections w) = Some db ->
     id = id').

End Sessions.

(** ** The routes of the session backend ([queryRoutes.ts]) *)

Module SessionRoutes.
Import Json Query Sessions.

(** [req.body as ExecuteQueryRequest], each field possibly missing. *)
Record Body := {
  body_sessionId : option string;
  body_dbml : option string;
  body_data : option Seed.SeedData;
  body_query : option string
}.

Inductive Reply :=
| ReplyError (status : nat) (error : option string)   (* { success: false, error } *)
| ReplyResult (status : nat) (result : ExecuteQueryResponse)
| ReplyDeleted                                        (* { success: true, message: 'Session deleted' } *)
| ReplyHealth (activeSessions : nat).                 (* { status: 'ok', message, activeSessions } *)

Definition missingFields : string :=
  "Missing required fields: dbml and query are required".
Definition dataNotObject : string :=
  "Data must be an object with table names as keys".

Section Handlers.
Context (E : Env).

(** [router.post('/execute-query', ...)] *)
Definition postExecuteQuery (body : Body) : M Reply :=
  tryCatch
    (match body_dbml body, body_query body with
     | Some dbml, Some query =>
         (* [!dbml || !query]: a string is falsy when it is empty *)
         if (dbml =? "")%string || (query =? "")%string then
           mret (ReplyError 400 (Some missingFields))
         else
           match body_data body with
           | None => mret (ReplyError 400 (Some dataNotObject))
           | Some data =>
               let validation := SelectOnly.validateQuery query in
               if negb (valid validation) then
                 mret (ReplyError 400 (error validation))
               else
                 result ← execute E (default "" (body_sessionId body)) dbml data query;
                 if success result then mret (ReplyResult 200 result)
                 else mret (ReplyResult 400 result)
           end
     | _, _ => mret (ReplyError 400 (Some missingFields))
     end)
    (fun error => mret (ReplyError 500 (Some (message error)))).

(** [router.get('/health', ...)] *)
Definition getHealth : M Reply :=
  count ← getActiveSessionsCount;
  mret (ReplyHealth count).

(** [router.delete('/session/:sessionId', ...)] *)
Definition deleteSession (sessionId : string) : M Reply :=
  tryCatch
    (Sessions.deleteSession E sessionId;;
     mret ReplyDeleted)
    (fun error => mret (ReplyError 500 (Some (message error)))).

End Handlers.

End SessionRoutes.

(** ** Sample states of the session backend *)

Module SessionCases.
Import Json Sessions.

Definition sessionPath (sessionId : string) : string :=
  "sessions/" +:+ sessionId +:+ ".db".

(** Nothing fails; the clock advances one millisecond a reading. *)
Definition calm : Env := {|
  dateNow := fun n => (1731500000000 + Z.of_nat n)%Z;
  randomSuffix := fun _ => "k3x9q2";
  fails := fun _ _ => None;
  rowsOf := fun _ => [];
  pathOf := sessionPath
|}.

(** No database can be opened. *)
Definition cannotOpen : Env := {|
  dateNow := dateNow calm;
  randomSuffix := randomSuffix calm;
  fails := fun _ op =>
             match op with
             | Open _ => Some {| message := "SQLITE_CANTOPEN: unable to open database file" |}
             | _ => None
             end;
  rowsOf := rowsOf calm;
  pathOf := sessionPath
|}.

Definition empty : World := {|
  sessions := []; dbConnections := [];
  connections := ∅; nextDb := 0;
  paths := ∅; contents := ∅; nextFile := 0;
  console := []; steps := 0
|}.

(** The manager after one request for session [exam-1]. *)
Definition started : World :=
  (getOrCreateSession calm "exam-1" Scenario.usersDbml Scenario.usersData empty).2.

(** The session it holds. *)
Definition exam1 : SessionData := {|
  sessionId := "exam-1";
  dbml := Scenario.usersDbml;
  data := Scenario.usersData;
  createdAt := 1731500000004;
  lastAccessed := 1731500000005
|}.

(** The manager after an update of [exam-1] that could not open the new
    database. *)
Definition stranded : World :=
  (getOrCreateSession cannotOpen "exam-1" Scenario.widerDbml Scenario.usersData
     started).2.

End SessionCases.

(* ===================================================================== *)
(** * Part II: properties *)
(* ===================================================================== *)

(** ** Strings *)

Lemma append_assoc (a b c : string) : (a +:+ b) +:+ c = a +:+ (b +:+ c).
Proof. induction a as [|x a IH]; [reflexivity | simpl; now f_equal]. Qed.

Lemma append_nil_r (a : string) : a +:+ "" = a.
Proof. induction a as [|x a IH]; [reflexivity | simpl; now f_equal]. Qed.

(** A run of [p]-units followed by something that stops [p] splits in
    one way only. *)
Lemma run_split p (a a' r r' : string) :
  Str.all p a = true -> Str.all p a' = true ->
  Str.stops p r = true -> Str.stops p r' = true ->
  a +:+ r = a' +:+ r' -> a = a' /\ r = r'.
Proof.
  revert a'. induction a as [|c a IH]; intros [|c' a'] Ha Ha' Hr Hr' E;
    simpl in *.
  - now split.
  - subst r. simpl in Hr. apply andb_true_iff in Ha' as [Hc _].
    rewrite Hc in Hr. discriminate.
  - subst r'. simpl in Hr'. apply andb_true_iff in Ha as [Hc _].
    rewrite Hc in Hr'. discriminate.
  - apply andb_true_iff in Ha as [_ Ha]. apply andb_true_iff in Ha' as [_ Ha'].
    injection E as -> E. destruct (IH a' Ha Ha' Hr Hr' E) as [-> ->].
    now split.
Qed.

(** ** The fingerprint is injective *)


Section json_facts.
Import Json Parse.

Lemma unescape_escapeChar c r : unescape (escapeChar c +:+ r) = Some (c, r).
Proof.
  destruct c as [[] [] [] [] [] [] [] []]; reflexivity.
Qed.

Lemma escapeBody_inj s s' r r' :
  escapeBody s +:+ String dquote r = escapeBody s' +:+ String dquote r' ->
  s = s' /\ r = r'.
Proof.
  revert s'. induction s as [|c s IH]; intros [|c' s'] E; simpl in E.
  - injection E as ->. now split.
  - rewrite append_assoc in E. apply (f_equal unescape) in E.
    rewrite unescape_escapeChar in E. discriminate.
  - rewrite append_assoc in E. apply (f_equal unescape) in E.
    rewrite unescape_escapeChar in E. discriminate.
  - rewrite !append_assoc in E. apply (f_equal unescape) in E.
    rewrite !unescape_escapeChar in E. injection E as -> E.
    destruct (IH _ E) as [-> ->]. now split.
Qed.

Lemma quoteJSONString_inj s s' r r' :
  quoteJSONString s +:+ r = quoteJSONString s' +:+ r' -> s = s' /\ r = r'.
Proof.
  unfold quoteJSONString. simpl. intros E. injection E as E.
  rewrite !append_assoc in E. simpl in E. now apply escapeBody_inj.
Qed.



Lemma string_of_uint_numchar d : Str.all numchar (NilEmpty.string_of_uint d) = true.
Proof. induction d; simpl; auto. Qed.

Lemma numberToString_numchar n : Str.all numchar (numberToString n) = true.
Proof.
  unfold numberToString, NilZero.string_of_int, NilZero.string_of_uint.
  destruct (Z.to_int n) as [d|d]; destruct d; simpl;
    auto using string_of_uint_numchar.
Qed.

Lemma numberToString_head n :
  exists c s, numberToString n = String c s /\ numchar c = true.
Proof.
  pose proof (numberToString_numchar n) as H.
  assert (Hne : numberToString n <> "").
  { unfold numberToString. destruct n as [|p|p]; simpl; try discriminate.
    - unfold NilZero.string_of_uint.
      pose proof (Unsigned.to_uint_nonnil p) as Hp.
      destruct (Pos.to_uint p); [congruence | discriminate ..]. }
  destruct (numberToString n) as [|c s]; [congruence|].
  simpl in H. apply andb_true_iff in H as [Hc _]. eauto.
Qed.

Lemma numberToString_inj n n' : numberToString n = numberToString n' -> n = n'.
Proof.
  unfold numberToString. intros E. apply to_int_inj.
  assert (Hn : forall z, Z.to_int z <> Pos Nil /\ Z.to_int z <> Neg Nil).
  { intros [|p|p]; simpl; split; try discriminate;
      intros [=H]; now apply (Unsigned.to_uint_nonnil p). }
  destruct (Hn n) as [H1 H2], (Hn n') as [H1' H2'].
  pose proof (NilZero.isi _ H1 H2) as R. rewrite E in R.
  rewrite (NilZero.isi _ H1' H2') in R. congruence.
Qed.


Lemma stringify_head v :
  exists c s, stringify v = String c s /\ value_start c = true.
Proof.
  destruct v as [|[]|n|s|l|l]; simpl; try (do 2 eexists; split; [reflexivity|reflexivity]).
  destruct (numberToString_head n) as (c & s & -> & Hc).
  exists c, s. split; [reflexivity|]. unfold value_start. now rewrite Hc.
Qed.


Ltac head_clash E :=
  match type of E with
  | context [stringify (JNum ?n)] =>
      let c := fresh "c" in let s := fresh "s" in
      let Hs := fresh "Hs" in let Hc := fresh "Hc" in
      change (stringify (JNum n)) with (numberToString n) in E;
      destruct (numberToString_head n) as (c & s & Hs & Hc);
      rewrite Hs in E;
      simpl in E; injection E as E _; subst c; vm_compute in Hc;
      discriminate Hc
  | _ => simpl in E; discriminate E
  end.


Lemma concat_cons (x : string) (l : list string) :
  String.concat "," (x :: l) =
  match l with [] => x | _ => x +:+ "," +:+ String.concat "," l end.
Proof. reflexivity. Qed.

Lemma elements_inj (l : list json) :
  Forall self_delimiting l ->
  forall l' r r',
    String.concat "," (List.map stringify l) +:+ String "]" r =
    String.concat "," (List.map stringify l') +:+ String "]" r' ->
    l = l' /\ r = r'.
Proof.
  induction 1 as [|x l Hx Hl IH]; intros l' r r' E.
  - destruct l' as [|x' l'].
    + simpl in E. injection E as ->. now split.
    + exfalso. cbn [List.map] in E. rewrite concat_cons in E.
      destruct (stringify_head x') as (c & s & Hs & Hc). rewrite Hs in E.
      destruct (List.map stringify l'); simpl in E; injection E as <- _;
        discriminate Hc.
  - destruct l' as [|x' l'].
    + exfalso. cbn [List.map] in E. rewrite concat_cons in E.
      destruct (stringify_head x) as (c & s & Hs & Hc). rewrite Hs in E.
      destruct (List.map stringify l); simpl in E; injection E as -> _;
        discriminate Hc.
    + cbn [List.map] in E. rewrite !concat_cons in E.
      destruct l as [|y l], l' as [|y' l']; cbn [List.map] in E.
      * apply Hx in E as [-> E]; [|reflexivity..]. injection E as ->. now split.
      * rewrite append_assoc in E. apply Hx in E as [_ E]; [|reflexivity..].
        discriminate E.
      * rewrite append_assoc in E. apply Hx in E as [_ E]; [|reflexivity..].
        discriminate E.
      * rewrite !append_assoc in E. apply Hx in E as [-> E]; [|reflexivity..].
        simpl in E. injection E as E.
        destruct (IH (y' :: l') r r' E) as [-> ->]. now split.
Qed.


Lemma member_head kv : exists s, member kv = String dquote s.
Proof. unfold member, quoteJSONString. simpl. eauto. Qed.

Lemma member_inj kv kv' r r' :
  self_delimiting (snd kv) -> closes r -> closes r' ->
  member kv +:+ r = member kv' +:+ r' -> kv = kv' /\ r = r'.
Proof.
  destruct kv as [k v], kv' as [k' v']. unfold member. simpl fst. simpl snd.
  intros Hv Hr Hr' E. rewrite !append_assoc in E.
  apply quoteJSONString_inj in E as [-> E]. simpl in E. injection E as E.
  apply Hv in E as [-> ->]; auto.
Qed.

Lemma members_inj (l : list (string * json)) :
  Forall (fun kv => self_delimiting (snd kv)) l ->
  forall l' r r',
    String.concat "," (List.map member l) +:+ String "}" r =
    String.concat "," (List.map member l') +:+ String "}" r' ->
    l = l' /\ r = r'.
Proof.
  induction 1 as [|x l Hx Hl IH]; intros l' r r' E.
  - destruct l' as [|x' l'].
    + simpl in E. injection E as ->. now split.
    + exfalso. cbn [List.map] in E. rewrite concat_cons in E.
      destruct (member_head x') as (s & Hs). rewrite Hs in E.
      destruct (List.map member l'); simpl in E; discriminate E.
  - destruct l' as [|x' l'].
    + exfalso. cbn [List.map] in E. rewrite concat_cons in E.
      destruct (member_head x) as (s & Hs). rewrite Hs in E.
      destruct (List.map member l); simpl in E; discriminate E.
    + cbn [List.map] in E. rewrite !concat_cons in E.
      destruct l as [|y l], l' as [|y' l']; cbn [List.map] in E.
      * apply member_inj in E as [-> E]; [|assumption|reflexivity..].
        injection E as ->. now split.
      * rewrite append_assoc in E.
        apply member_inj in E as [_ E]; [|assumption|reflexivity..].
        discriminate E.
      * rewrite append_assoc in E.
        apply member_inj in E as [_ E]; [|assumption|reflexivity..].
        discriminate E.
      * rewrite !append_assoc in E.
        apply member_inj in E as [-> E]; [|assumption|reflexivity..].
        simpl in E. injection E as E.
        destruct (IH (y' :: l') r r' E) as [-> ->]. now split.
Qed.

Lemma stringify_self_delimiting v : self_delimiting v.
Proof.
  induction v as [|b|n|s|l IH|l IH] using json_nested_ind;
    intros v' r r' Hr Hr' E.
  - destruct v' as [|[]|n'|s'|l'|l']; try head_clash E.
    simpl in E. injection E as ->. now split.
  - destruct b, v' as [|[]|n'|s'|l'|l']; try head_clash E;
      simpl in E; injection E as ->; now split.
  - destruct v' as [|[]|n'|s'|l'|l']; try head_clash E.
    change (numberToString n +:+ r = numberToString n' +:+ r') in E.
    apply (run_split numchar) in E as [E ->];
      auto using numberToString_numchar.
    apply numberToString_inj in E as ->. now split.
  - destruct v' as [|[]|n'|s'|l'|l']; try head_clash E.
    simpl in E. apply quoteJSONString_inj in E as [-> ->]. now split.
  - destruct v' as [|[]|n'|s'|l'|l']; try head_clash E.
    simpl in E. injection E as E. rewrite !append_assoc in E. simpl in E.
    apply elements_inj in E as [-> ->]; auto.
  - destruct v' as [|[]|n'|s'|l'|l']; try head_clash E.
    simpl in E. injection E as E. rewrite !append_assoc in E. simpl in E.
    apply members_inj in E as [-> ->]; auto.
Qed.

Lemma stringify_inj v v' : stringify v = stringify v' -> v = v'.
Proof.
  intros E. apply (f_equal (fun s => s +:+ "")) in E.
  now apply stringify_self_delimiting in E as [-> _].
Qed.

End json_facts.

Section fingerprint_facts.
Import Json Manager.

Lemma map_injective {A B} (f : A -> B) (l l' : list A) :
  (forall x y, f x = f y -> x = y) -> List.map f l = List.map f l' -> l = l'.
Proof.
  intros Hf. revert l'. induction l as [|x l IH]; intros [|y l'] H;
    try discriminate; [reflexivity|].
  simpl in H. injection H as Hxy Hl. f_equal; auto.
Qed.

Lemma toJson_inj data data' : Seed.toJson data = Seed.toJson data' -> data = data'.
Proof.
  unfold Seed.toJson. intros [= H]. revert H. apply map_injective.
  intros [t rows] [t' rows']. simpl. intros [= -> H]. f_equal.
  revert H. apply map_injective. now intros x y [= ->].
Qed.

Lemma computeDataHash_inj dbml data dbml' data' :
  computeDataHash dbml data = computeDataHash dbml' data' <->
  dbml = dbml' /\ data = data'.
Proof.
  split; [|now intros [-> ->]].
  unfold computeDataHash. intros H. apply stringify_inj in H.
  injection H as -> H. split; [reflexivity|].
  apply toJson_inj. unfold Seed.toJson. now f_equal.
Qed.

Example computeDataHash_sample :
  computeDataHash "T" [("users", [[("id", JNum 1); ("name", JStr "a")]])] =
  "{" +:+ Seed.quoteColumn "dbml" +:+ ":" +:+ Seed.quoteColumn "T" +:+ "," +:+
  Seed.quoteColumn "data" +:+ ":{" +:+ Seed.quoteColumn "users" +:+ ":[{" +:+
  Seed.quoteColumn "id" +:+ ":1," +:+ Seed.quoteColumn "name" +:+ ":" +:+
  Seed.quoteColumn "a" +:+ "}]}}".
Proof. reflexivity. Qed.

End fingerprint_facts.

(** ** Query validation *)

Section query_facts.
Import Query.

Lemma all_trimStart s :
  Str.all isWhiteSpace (trimStart s) = Str.all isWhiteSpace s.
Proof.
  induction s as [|c s IH]; simpl; [reflexivity|].
  destruct (isWhiteSpace c) eqn:Hc; simpl; [exact IH | now rewrite Hc].
Qed.

Lemma trimStart_empty s :
  trimStart s = "" <-> Str.all isWhiteSpace s = true.
Proof.
  induction s as [|c s IH]; simpl; [tauto|].
  destruct (isWhiteSpace c); simpl; [exact IH|]. split; discriminate.
Qed.

Lemma trimEnd_empty s :
  trimEnd s = "" <-> Str.all isWhiteSpace s = true.
Proof.
  induction s as [|c s IH]; simpl; [tauto|].
  destruct (trimEnd s) as [|c' t] eqn:Ht.
  - destruct (isWhiteSpace c); simpl.
    + split; [intros _; now apply IH | reflexivity].
    + split; discriminate.
  - split; [discriminate|]. intros H. apply andb_true_iff in H as [_ H].
    apply IH in H. discriminate.
Qed.

Lemma trim_empty s : trim s = "" <-> Str.all isWhiteSpace s = true.
Proof.
  unfold trim. rewrite trimEnd_empty, all_trimStart. reflexivity.
Qed.

Lemma length_zero (s : string) : (String.length s =? 0)%nat = true <-> s = "".
Proof. destruct s; simpl; split; congruence. Qed.

(** The validation rejects the queries made of white space only (the
    empty one among them) and accepts every other query. *)
Lemma validateQuery_spec (query : string) :
  validateQuery query =
  if Str.all isWhiteSpace query then
    {| valid := false; error := Some "Query cannot be empty" |}
  else
    {| valid := true; error := None |}.
Proof.
  unfold validateQuery.
  destruct (Str.all isWhiteSpace query) eqn:Hws.
  - apply trim_empty in Hws. rewrite Hws. simpl. now rewrite orb_true_r.
  - assert (Hq : (query =? "")%string = false).
    { destruct query; [discriminate Hws | reflexivity]. }
    assert (Ht : (String.length (trim query) =? 0)%nat = false).
    { destruct (String.length (trim query) =? 0)%nat eqn:Hl; [|reflexivity].
      apply length_zero, trim_empty in Hl. congruence. }
    now rewrite Hq, Ht.
Qed.

Example validateQuery_ddl :
  valid (validateQuery "DROP TABLE users") = true /\
  valid (validateQuery "  UPDATE users SET name = 'x'") = true /\
  valid (validateQuery "") = false /\
  valid (validateQuery (String (ascii_of_N 9) (String (ascii_of_N 10) " "))) = false.
Proof. repeat split. Qed.

End query_facts.

(** ** Running command trees *)

#[local] Arguments Manager.ioStep : simpl never.

Section run_facts.
Import Manager.
Context (E : Env).

Lemma run_bind {A B} (p : Prog A) (f : A -> Prog B) w :
  run E (p ≫= f) w =
  match run E p w with
  | (Returned a, w') => run E (f a) w'
  | (Thrown e, w') => (Thrown e, w')
  | (Pending, w') => (Pending, w')
  end.
Proof.
  unfold mbind, Prog_bind. revert w.
  induction p as [a|e| |X op k IH|X op k IH]; intros w; simpl; try reflexivity.
  - destruct (syncStep E op w) as [x w']. apply IH.
  - destruct (ioStep E op w) as [r w']. apply IH.
Qed.

Lemma run_tryCatch {A} (p : Prog A) (h : Error -> Prog A) w :
  run E (tryCatch p h) w =
  match run E p w with
  | (Thrown e, w') => run E (h e) w'
  | other => other
  end.
Proof.
  revert w.
  induction p as [a|e| |X op k IH|X op k IH]; intros w; simpl; try reflexivity.
  - destruct (syncStep E op w) as [x w']. apply IH.
  - destruct (ioStep E op w) as [r w']. apply IH.
Qed.

Lemma run_tryFinally {A} (p : Prog A) (f : Prog unit) w :
  run E (tryFinally p f) w =
  match run E p w with
  | (Returned a, w') =>
      match run E f w' with
      | (Returned _, w'') => (Returned a, w'')
      | (Thrown e, w'') => (Thrown e, w'')
      | (Pending, w'') => (Pending, w'')
      end
  | (Thrown e, w') =>
      match run E f w' with
      | (Returned _, w'') => (Thrown e, w'')
      | (Thrown e', w'') => (Thrown e', w'')
      | (Pending, w'') => (Pending, w'')
      end
  | (Pending, w') => (Pending, w')
  end.
Proof.
  revert w.
  induction p as [a|e| |X op k IH|X op k IH]; intros w; simpl; try reflexivity.
  - pose proof (run_bind f (fun _ => Ret a) w) as H.
    unfold mbind, Prog_bind in H. rewrite H.
    destruct (run E f w) as [[[]|e|] w']; reflexivity.
  - pose proof (run_bind f (fun _ => @Throw A e) w) as H.
    unfold mbind, Prog_bind in H. rewrite H.
    destruct (run E f w) as [[[]|e'|] w']; reflexivity.
  - destruct (syncStep E op w) as [x w']. apply IH.
  - destruct (ioStep E op w) as [r w']. apply IH.
Qed.

Lemma run_sync {X} (op : SyncOp X) w :
  run E (sync op) w = (Returned (syncStep E op w).1, (syncStep E op w).2).
Proof. unfold sync. simpl. now destruct (syncStep E op w). Qed.

Lemma run_await {X} (op : IoOp X) w :
  run E (await op) w =
  match ioStep E op w with
  | (Ok x, w') => (Returned x, w')
  | (Rejected e, w') => (Thrown e, w')
  end.
Proof. unfold await. simpl. now destruct (ioStep E op w) as [[x|e] w']. Qed.

Lemma run_awaitIgnoring {X} (op : IoOp X) w :
  run E (awaitIgnoring op) w = (Returned tt, (ioStep E op w).2).
Proof. unfold awaitIgnoring. simpl. now destruct (ioStep E op w). Qed.

(** *** Properties that hold throughout a call *)

Lemma throughout_now {A} P (p : Prog A) w : throughout E P p w -> P w.
Proof. destruct p; simpl; tauto. Qed.

Lemma throughout_final {A} P (p : Prog A) w :
  throughout E P p w -> P (run E p w).2.
Proof.
  revert w. induction p as [a|e| |X op k IH|X op k IH]; intros w; simpl;
    try tauto.
  - destruct (syncStep E op w) as [x w']. intros [_ H]. now apply IH.
  - destruct (ioStep E op w) as [r w']. intros [_ H]. now apply IH.
Qed.

Lemma throughout_mono {A} (P Q : World -> Prop) (p : Prog A) w :
  (forall w', P w' -> Q w') -> throughout E P p w -> throughout E Q p w.
Proof.
  intros HPQ. revert w.
  induction p as [a|e| |X op k IH|X op k IH]; intros w; simpl;
    try solve [intros [H _]; split; auto].
  - destruct (syncStep E op w) as [x w']. intros [H H']. split; auto.
  - destruct (ioStep E op w) as [r w']. intros [H H']. split; auto.
Qed.

Lemma throughout_bind {A B} P (p : Prog A) (f : A -> Prog B) w :
  throughout E P p w ->
  (forall a w', run E p w = (Returned a, w') -> throughout E P (f a) w') ->
  throughout E P (p ≫= f) w.
Proof.
  unfold mbind, Prog_bind. revert w.
  induction p as [a|e| |X op k IH|X op k IH]; intros w; simpl.
  - intros _ H. now apply H.
  - tauto.
  - tauto.
  - destruct (syncStep E op w) as [x w']. intros [H H'] Hf. split; auto.
  - destruct (ioStep E op w) as [r w']. intros [H H'] Hf. split; auto.
Qed.

Lemma throughout_tryCatch {A} P (p : Prog A) (h : Error -> Prog A) w :
  throughout E P p w ->
  (forall e w', run E p w = (Thrown e, w') -> throughout E P (h e) w') ->
  throughout E P (tryCatch p h) w.
Proof.
  revert w.
  induction p as [a|e| |X op k IH|X op k IH]; intros w; simpl.
  - tauto.
  - intros _ H. now apply H.
  - tauto.
  - destruct (syncStep E op w) as [x w']. intros [H H'] Hf. split; auto.
  - destruct (ioStep E op w) as [r w']. intros [H H'] Hf. split; auto.
Qed.

Lemma throughout_tryFinally {A} P (p : Prog A) (f : Prog unit) w :
  throughout E P p w ->
  (forall w', P w' -> throughout E P f w') ->
  throughout E P (tryFinally p f) w.
Proof.
  intros Hp Hf. revert w Hp.
  assert (Hend : forall B (q : Prog B) w,
             P w -> (forall w', P w' -> throughout E P q w') ->
             throughout E P (bind f (fun _ => q)) w).
  { intros B q w Hw Hq.
    apply (throughout_bind P f (fun _ => q)); [now apply Hf|].
    intros a w' Hr. apply Hq.
    pose proof (throughout_final P f w (Hf w Hw)) as H. now rewrite Hr in H. }
  induction p as [a|e| |X op k IH|X op k IH]; intros w; simpl.
  - intros [Hw _]. apply Hend; [exact Hw|]. intros w' H. simpl. tauto.
  - intros [Hw _]. apply Hend; [exact Hw|]. intros w' H. simpl. tauto.
  - tauto.
  - destruct (syncStep E op w) as [x w']. intros [H H']. split; auto.
  - destruct (ioStep E op w) as [r w']. intros [H H']. split; auto.
Qed.

End run_facts.

(** ** The registry *)

Section registry_facts.
Import Manager.

Lemma mapGet_mapSet_eq k v m : mapGet k (mapSet k v m) = Some v.
Proof.
  induction m as [|[k' v'] m IH]; simpl.
  - now rewrite String.eqb_refl.
  - destruct (String.eqb_spec k' k) as [->|Hne]; simpl.
    + now rewrite String.eqb_refl.
    + apply String.eqb_neq in Hne. now rewrite Hne.
Qed.

Lemma mapGet_mapSet_ne k k' v m :
  k <> k' -> mapGet k' (mapSet k v m) = mapGet k' m.
Proof.
  intros Hne. induction m as [|[k0 v0] m IH]; simpl.
  - apply String.eqb_neq in Hne. now rewrite Hne.
  - destruct (String.eqb_spec k0 k) as [->|Hne0]; simpl.
    + apply String.eqb_neq in Hne. now rewrite Hne.
    + now rewrite IH.
Qed.

Lemma mapGet_mapDelete_eq k m : mapGet k (mapDelete k m) = None.
Proof.
  induction m as [|[k' v'] m IH]; simpl; [reflexivity|].
  destruct (String.eqb_spec k' k) as [->|Hne]; simpl; [exact IH|].
  apply String.eqb_neq in Hne. now rewrite Hne.
Qed.

Lemma mapGet_mapDelete_ne k k' m :
  k <> k' -> mapGet k' (mapDelete k m) = mapGet k' m.
Proof.
  intros Hne. induction m as [|[k0 v0] m IH]; simpl; [reflexivity|].
  destruct (String.eqb_spec k0 k) as [->|Hne0]; simpl.
  - apply String.eqb_neq in Hne. now rewrite Hne.
  - now rewrite IH.
Qed.

Lemma mapGet_None_keys k m : mapGet k m = None <-> ~ List.In k (List.map fst m).
Proof.
  induction m as [|[k' v'] m IH]; simpl; [tauto|].
  destruct (String.eqb_spec k' k) as [->|Hne].
  - split; [discriminate | intros H; exfalso; apply H; now left].
  - rewrite IH. tauto.
Qed.

Lemma mapDelete_absent k m : mapGet k m = None -> mapDelete k m = m.
Proof.
  induction m as [|[k' v'] m IH]; simpl; [reflexivity|].
  destruct (String.eqb_spec k' k) as [->|Hne]; simpl; [discriminate|].
  intros H. now rewrite IH.
Qed.

Lemma keys_mapSet_present k v m s :
  mapGet k m = Some s -> List.map fst (mapSet k v m) = List.map fst m.
Proof.
  induction m as [|[k' v'] m IH]; simpl; [discriminate|].
  destruct (String.eqb_spec k' k) as [->|Hne]; simpl; [reflexivity|].
  intros H. now rewrite IH.
Qed.

Lemma keys_mapSet_absent k v m :
  mapGet k m = None -> List.map fst (mapSet k v m) = (List.map fst m ++ [k])%list.
Proof.
  induction m as [|[k' v'] m IH]; simpl; [reflexivity|].
  destruct (String.eqb_spec k' k) as [->|Hne]; simpl; [discriminate|].
  intros H. now rewrite IH.
Qed.

Lemma uniqueKeys_mapSet k v m : uniqueKeys m -> uniqueKeys (mapSet k v m).
Proof.
  unfold uniqueKeys. intros H.
  destruct (mapGet k m) as [s|] eqn:Hk.
  - now rewrite (keys_mapSet_present _ _ _ _ Hk).
  - rewrite (keys_mapSet_absent _ _ _ Hk).
    apply List.NoDup_app; [exact H | repeat constructor; intros [] |].
    intros x Hx [<-|[]]. now apply mapGet_None_keys in Hk.
Qed.

Lemma keys_mapDelete k m :
  List.map fst (mapDelete k m) =
  List.filter (fun k' => negb (k' =? k)%string) (List.map fst m).
Proof.
  induction m as [|[k' v'] m IH]; simpl; [reflexivity|].
  destruct (negb (k' =? k)%string); simpl; now rewrite IH.
Qed.

Lemma uniqueKeys_mapDelete k m : uniqueKeys m -> uniqueKeys (mapDelete k m).
Proof.
  unfold uniqueKeys. rewrite keys_mapDelete. apply List.NoDup_filter.
Qed.

(** Deleting the keys that [doomed] selects, one after the other, leaves
    the entries that [doomed] spares. *)
Lemma delete_selected (doomed : string * SandboxInstance -> bool) m :
  uniqueKeys m ->
  List.fold_left (fun m k => mapDelete k m)
    (List.map fst (List.filter doomed m)) m =
  List.filter (fun entry => negb (doomed entry)) m.
Proof.
  assert (Hskip : forall ks k v m',
             ~ List.In k ks ->
             List.fold_left (fun m k => mapDelete k m) ks ((k, v) :: m') =
             (k, v) :: List.fold_left (fun m k => mapDelete k m) ks m').
  { induction ks as [|k0 ks IH]; intros k v m' Hk; simpl; [reflexivity|].
    destruct (String.eqb_spec k k0) as [->|Hne]; simpl.
    - exfalso. apply Hk. now left.
    - apply IH. intros H. apply Hk. now right. }
  unfold uniqueKeys.
  induction m as [|[k v] m IH]; simpl; intros Hnd; [reflexivity|].
  apply List.NoDup_cons_iff in Hnd as [Hk Hnd].
  destruct (doomed (k, v)) eqn:Hd; simpl.
  - rewrite String.eqb_refl. simpl.
    rewrite (mapDelete_absent k m) by now apply mapGet_None_keys.
    now apply IH.
  - rewrite Hskip, IH; auto.
    intros Hin. apply Hk. apply List.in_map_iff in Hin as ([k' v'] & <- & Hin).
    apply List.filter_In in Hin as [Hin _].
    apply List.in_map_iff. now exists (k', v').
Qed.

End registry_facts.

(** ** Methods that touch neither the registry nor the containers *)

Section footprint_facts.
Import Manager Footprint.
Context (E : Env).

Lemma sameResources_refl w : sameResources w w.
Proof. now repeat split. Qed.

Lemma sameResources_trans w1 w2 w3 :
  sameResources w1 w2 -> sameResources w2 w3 -> sameResources w1 w3.
Proof. unfold sameResources. intros (?&?&?) (?&?&?). repeat split; congruence. Qed.

Lemma syncStep_quiet {X} (op : SyncOp X) w :
  quietSync op = true -> sameResources w (syncStep E op w).2.
Proof. destruct op; simpl; intros H; try discriminate; now repeat split. Qed.

Lemma ioStep_quiet {X} (op : IoOp X) w :
  quietIo op = true -> sameResources w (ioStep E op w).2.
Proof.
  destruct op; simpl; intros H; try discriminate; unfold ioStep;
    try (destruct (refuses E (steps w) _ _)); now repeat split.
Qed.

Lemma quiet_throughout {A} (p : Prog A) :
  quiet p ->
  forall w0 w, sameResources w0 w -> throughout E (sameResources w0) p w.
Proof.
  induction 1 as [a|e| |X op k Hop Hk IH|X op k Hop Hk IH]; intros w0 w Hw;
    simpl; try tauto.
  - pose proof (syncStep_quiet op w Hop) as Hs.
    destruct (syncStep E op w) as [x w']. split; [exact Hw|].
    apply IH. eapply sameResources_trans; eauto.
  - pose proof (ioStep_quiet op w Hop) as Hs.
    destruct (ioStep E op w) as [r w']. split; [exact Hw|].
    apply IH. eapply sameResources_trans; eauto.
Qed.

Lemma quiet_run {A} (p : Prog A) w : quiet p -> sameResources w (run E p w).2.
Proof.
  intros Hq. apply (throughout_final E (sameResources w)).
  apply quiet_throughout; [exact Hq | apply sameResources_refl].
Qed.

(** A quiet method keeps every property of the registry and the
    containers alone. *)
Lemma quiet_preserves {A} (P : World -> Prop) (p : Prog A) w :
  (forall w1 w2, sameResources w1 w2 -> P w1 -> P w2) ->
  quiet p -> P w -> throughout E P p w.
Proof.
  intros HP Hq Hw.
  apply (throughout_mono E (sameResources w)); [eauto|].
  apply quiet_throughout; [exact Hq | apply sameResources_refl].
Qed.

Lemma quiet_bind {A B} (p : Prog A) (f : A -> Prog B) :
  quiet p -> (forall a, quiet (f a)) -> quiet (p ≫= f).
Proof.
  unfold mbind, Prog_bind.
  induction 1; intros Hf; simpl; try constructor; auto.
Qed.

Lemma quiet_tryCatch {A} (p : Prog A) h :
  quiet p -> (forall e, quiet (h e)) -> quiet (tryCatch p h).
Proof. induction 1; intros Hf; simpl; try constructor; auto. Qed.

Lemma quiet_tryFinally {A} (p : Prog A) f :
  quiet p -> quiet f -> quiet (tryFinally p f).
Proof.
  induction 1; intros Hf; simpl; try (constructor; now auto).
  - apply (quiet_bind f (fun _ => Ret a)); [exact Hf | constructor].
  - apply (quiet_bind f (fun _ => Throw e)); [exact Hf | constructor].
Qed.

Lemma quiet_forEach {X} (l : list X) body :
  (forall x, quiet (body x)) -> quiet (forEach l body).
Proof.
  intros Hb. induction l as [|x l IH]; simpl; [constructor|].
  apply (quiet_bind (body x) (fun _ => forEach l body)); auto.
Qed.

Lemma quiet_sync {X} (op : SyncOp X) : quietSync op = true -> quiet (sync op).
Proof. intros H. constructor; [exact H | constructor]. Qed.

Lemma quiet_await {X} (op : IoOp X) : quietIo op = true -> quiet (await op).
Proof. intros H. constructor; [exact H | intros []; constructor]. Qed.

Ltac quiet_tac :=
  repeat first
    [ apply quiet_bind | apply quiet_tryCatch | apply quiet_tryFinally
    | apply quiet_forEach | apply quiet_sync; reflexivity
    | apply quiet_await; reflexivity | apply quiet_Ret | apply quiet_Throw
    | apply quiet_Spin | intro
    | match goal with
      | |- quiet (match ?x with _ => _ end) => destruct x
      | |- quiet (if ?x then _ else _) => destruct x
      | |- quiet (let '(_, _) := ?x in _) => destruct x
      end ].

Lemma quiet_generateSessionId : quiet generateSessionId.
Proof. unfold generateSessionId. quiet_tac. Qed.

Lemma quiet_ensureImage config engine : quiet (ensureImage config engine).
Proof. unfold ensureImage. quiet_tac. Qed.

Lemma quiet_allocatePort : quiet allocatePort.
Proof. unfold allocatePort. quiet_tac. Qed.

Lemma quiet_pollUntilReady config fuel hostPort start lastError :
  quiet (pollUntilReady config fuel hostPort start lastError).
Proof.
  revert lastError. induction fuel as [|fuel IH]; intros lastError.
  - constructor.
  - cbn [pollUntilReady]. unfold delay. quiet_tac. apply IH.
Qed.

Lemma quiet_waitForPostgresReady config polls hostPort :
  quiet (waitForPostgresReady config polls hostPort).
Proof.
  unfold waitForPostgresReady. quiet_tac. apply quiet_pollUntilReady.
Qed.

Lemma quiet_seedPostgresDatabase hostPort dbml data :
  quiet (seedPostgresDatabase hostPort dbml data).
Proof. unfold seedPostgresDatabase. quiet_tac. Qed.

Lemma quiet_executePostgresQuery hostPort query :
  quiet (executePostgresQuery hostPort query).
Proof. unfold executePostgresQuery. quiet_tac. Qed.

End footprint_facts.

(** ** Removing and launching containers *)

(** The proofs go method by method: [simpl] leaves the methods and the
    combinators folded. *)
#[local] Arguments mbind : simpl never.
#[local] Arguments Manager.bind : simpl never.
#[local] Arguments Manager.tryCatch : simpl never.
#[local] Arguments Manager.tryFinally : simpl never.
#[local] Arguments Manager.forEach : simpl never.
#[local] Arguments Manager.generateSessionId : simpl never.
#[local] Arguments Manager.removeContainer : simpl never.
#[local] Arguments Manager.safeRemoveContainer : simpl never.
#[local] Arguments Manager.ensureImage : simpl never.
#[local] Arguments Manager.allocatePort : simpl never.
#[local] Arguments Manager.launchPostgresContainer : simpl never.
#[local] Arguments Manager.pollUntilReady : simpl never.
#[local] Arguments Manager.waitForPostgresReady : simpl never.
#[local] Arguments Manager.seedPostgresDatabase : simpl never.
#[local] Arguments Manager.executePostgresQuery : simpl never.
#[local] Arguments Manager.createSandbox : simpl never.
#[local] Arguments Manager.deleteSandbox : simpl never.
#[local] Arguments Manager.replaceSandbox : simpl never.
#[local] Arguments Manager.getOrCreateSandbox : simpl never.
#[local] Arguments Manager.executeQuery : simpl never.
#[local] Arguments Manager.cleanupExpiredSandboxes : simpl never.
#[local] Arguments Manager.execute : simpl never.
#[local] Arguments Footprint.stopAndRemove : simpl never.

Section container_facts.
Import Manager Footprint.
Context (E : Env).

Lemma fewerContainers_refl w : fewerContainers w w.
Proof. intros j c' H. eauto. Qed.

Lemma fewerContainers_trans w1 w2 w3 :
  fewerContainers w1 w2 -> fewerContainers w2 w3 -> fewerContainers w1 w3.
Proof.
  intros H12 H23 j c3 H3. destruct (H23 j c3 H3) as (c2 & H2 & Hn2).
  destruct (H12 j c2 H2) as (c1 & H1 & Hn1). exists c1. split; congruence.
Qed.

Lemma onlyRemoved_refl w : onlyRemoved w w.
Proof. repeat split. apply fewerContainers_refl. Qed.

Lemma onlyRemoved_trans w1 w2 w3 :
  onlyRemoved w1 w2 -> onlyRemoved w2 w3 -> onlyRemoved w1 w3.
Proof.
  intros (?&?&?) (?&?&?). repeat split; try congruence.
  eapply fewerContainers_trans; eauto.
Qed.

Lemma sameResources_onlyRemoved w w' : sameResources w w' -> onlyRemoved w w'.
Proof.
  intros (Hs & Hc & Hn). repeat split; auto. intros j c' H. rewrite Hc in H. eauto.
Qed.

Lemma onlyRemoved_tick w : onlyRemoved w (tick w).
Proof. repeat split. intros j c' H. simpl in H. eauto. Qed.

Lemma ioStep_Stop_onlyRemoved id w : onlyRemoved w (ioStep E (Stop id) w).2.
Proof.
  unfold ioStep. destruct (refuses E (steps w) _ _); [apply onlyRemoved_tick|].
  destruct (containers w !! id) as [c|] eqn:Hc; [|apply onlyRemoved_tick].
  destruct (running c); [|apply onlyRemoved_tick].
  repeat split. intros j c'. simpl.
  destruct (decide (id = j)) as [<-|Hne].
  - rewrite lookup_insert_eq. intros [= <-]. eauto.
  - rewrite lookup_insert_ne by exact Hne. eauto.
Qed.

Lemma ioStep_Remove_onlyRemoved id w : onlyRemoved w (ioStep E (Remove id) w).2.
Proof.
  unfold ioStep. destruct (refuses E (steps w) _ _); [apply onlyRemoved_tick|].
  destruct (containers w !! id) as [c|] eqn:Hc; [|apply onlyRemoved_tick].
  repeat split. intros j c'. simpl.
  destruct (decide (id = j)) as [<-|Hne].
  - rewrite lookup_delete_eq. discriminate.
  - rewrite lookup_delete_ne by exact Hne. eauto.
Qed.

Lemma ioStep_steps {X} (op : IoOp X) w : steps (ioStep E op w).2 = S (steps w).
Proof.
  destruct op; unfold ioStep; simpl;
    repeat match goal with
           | |- context [match ?x with _ => _ end] => destruct x
           end; reflexivity.
Qed.

Lemma syncStep_steps {X} (op : SyncOp X) w :
  steps w <= steps (syncStep E op w).2.
Proof.
  destruct op; simpl; try lia.
  destruct (mapGet k (sandboxes w)); simpl; lia.
Qed.

(** The step counter never goes back. *)
Lemma run_steps {A} (p : Prog A) w : steps w <= steps (run E p w).2.
Proof.
  revert w. induction p as [a|e| |X op k IH|X op k IH]; intros w; simpl;
    try lia.
  - pose proof (syncStep_steps op w) as H.
    destruct (syncStep E op w) as [x w']. simpl in H.
    specialize (IH x w'). lia.
  - pose proof (ioStep_steps op w) as H.
    destruct (ioStep E op w) as [r w']. simpl in H.
    specialize (IH r w'). lia.
Qed.

Lemma stopAndRemove_throughout id msg w :
  throughout E (onlyRemoved w) (stopAndRemove id msg) w.
Proof.
  unfold stopAndRemove, awaitIgnoring, await, sync. simpl.
  pose proof (ioStep_Stop_onlyRemoved id w) as H1.
  destruct (ioStep E (Stop id) w) as [r1 w1]. simpl in H1.
  split; [apply onlyRemoved_refl|].
  pose proof (ioStep_Remove_onlyRemoved id w1) as H2.
  destruct (ioStep E (Remove id) w1) as [[[]|e] w2]; simpl in *.
  - split; [exact H1|]. split; [|exact I]. eapply onlyRemoved_trans; eauto.
  - split; [exact H1|]. split; [eapply onlyRemoved_trans; eauto|].
    split; [|exact I]. eapply onlyRemoved_trans; eauto.
Qed.

(** Removal never throws; it takes two steps; and when Docker does not
    refuse the [remove], the container is gone. *)
Lemma stopAndRemove_run id msg w :
  exists w',
    run E (stopAndRemove id msg) w = (Returned tt, w') /\
    onlyRemoved w w' /\
    executed w' = executed w /\
    steps w' = S (S (steps w)) /\
    (forall j, j <> id -> containers w' !! j = containers w !! j) /\
    (refuses E (S (steps w)) unit (Remove id) = None ->
     containers w' !! id = None).
Proof.
  unfold stopAndRemove. rewrite run_tryCatch, run_bind, run_awaitIgnoring.
  rewrite run_await.
  pose proof (ioStep_Stop_onlyRemoved id w) as H1.
  pose proof (ioStep_steps (Stop id) w) as Hs1.
  assert (Hk1 : forall j, j <> id ->
            containers (ioStep E (Stop id) w).2 !! j = containers w !! j).
  { intros j Hj. unfold ioStep.
    repeat match goal with
           | |- context [match ?x with _ => _ end] => destruct x
           end; simpl; try reflexivity.
    now rewrite lookup_insert_ne by congruence. }
  assert (He1 : executed (ioStep E (Stop id) w).2 = executed w).
  { unfold ioStep.
    repeat match goal with
           | |- context [match ?x with _ => _ end] => destruct x
           end; reflexivity. }
  destruct (ioStep E (Stop id) w) as [r1 w1]. simpl in H1, Hs1, Hk1, He1.
  pose proof (ioStep_Remove_onlyRemoved id w1) as H2.
  pose proof (ioStep_steps (Remove id) w1) as Hs2.
  unfold ioStep in *. cbn [snd] in *. rewrite Hs1 in *.
  destruct (refuses E (S (steps w)) unit (Remove id)) as [e|] eqn:Hr.
  - simpl in *. eexists. split; [reflexivity|]. simpl.
    repeat split; try (eapply onlyRemoved_trans; eauto; fail);
      try congruence; try apply H2; try apply H1; auto.
    all: try (destruct H1 as (?&?&?); congruence).
  - destruct (containers w1 !! id) as [c|] eqn:Hc; simpl in *.
    + eexists. split; [reflexivity|]. simpl.
      repeat split; try congruence.
      * destruct H1 as (?&?&?); destruct H2 as (?&?&?); simpl in *; congruence.
      * destruct H1 as (?&?&?); destruct H2 as (?&?&?); simpl in *; congruence.
      * eapply fewerContainers_trans; [apply H1 | apply H2].
      * intros j Hj. rewrite lookup_delete_ne by congruence. auto.
      * intros _. apply lookup_delete_eq.
    + eexists. split; [reflexivity|]. simpl.
      repeat split; try congruence.
      * apply H1.
      * apply H1.
      * eapply fewerContainers_trans; [apply H1 | apply H2].
      * intros j Hj. auto.
Qed.


Lemma removeContainer_eq id :
  removeContainer id =
  stopAndRemove id ("Failed to remove container " +:+ containerLabel id +:+ ":").
Proof. reflexivity. Qed.

Lemma safeRemoveContainer_eq id :
  safeRemoveContainer id =
  stopAndRemove id
    ("Failed to cleanup sandbox container " +:+ containerLabel id +:+ ":").
Proof. reflexivity. Qed.

(** [deleteSandbox] never throws and leaves no record under the key. *)
Lemma deleteSandbox_run k w :
  exists w',
    run E (deleteSandbox k) w = (Returned tt, w') /\
    sandboxes w' = mapDelete k (sandboxes w) /\
    nextContainer w' = nextContainer w /\
    fewerContainers w w' /\
    executed w' = executed w /\
    match mapGet k (sandboxes w) with
    | None => w' = w
    | Some s =>
        steps w' = S (S (steps w)) /\
        (forall j, j <> containerId s -> containers w' !! j = containers w !! j) /\
        (refuses E (S (steps w)) unit (Remove (containerId s)) = None ->
         containers w' !! containerId s = None)
    end.
Proof.
  unfold deleteSandbox. rewrite run_bind, run_sync. simpl.
  destruct (mapGet k (sandboxes w)) as [s|] eqn:Hk.
  - rewrite run_bind, removeContainer_eq.
    destruct (stopAndRemove_run (containerId s)
                ("Failed to remove container " +:+ containerLabel (containerId s) +:+ ":") w)
      as (w1 & -> & (Hs & Hn & Hf) & He & Hst & Hk1 & Hrm).
    rewrite run_sync. simpl. eexists. split; [reflexivity|]. simpl.
    rewrite Hs. repeat split; auto.
  - exists w. simpl. repeat split; auto using fewerContainers_refl.
    symmetry. now apply mapDelete_absent.
Qed.

Lemma deleteSandbox_throughout k w :
  throughout E (removedOrDeleted k w) (deleteSandbox k) w.
Proof.
  assert (H0 : removedOrDeleted k w w).
  { repeat split; auto using fewerContainers_refl. }
  unfold deleteSandbox. apply throughout_bind.
  { simpl. tauto. }
  intros s w0. rewrite run_sync. simpl. intros [= <- <-].
  destruct (mapGet k (sandboxes w)) as [s|] eqn:Hk; [|simpl; tauto].
  apply throughout_bind.
  - rewrite removeContainer_eq.
    eapply throughout_mono; [|apply stopAndRemove_throughout].
    intros w' (Hs & Hn & Hf). repeat split; auto.
  - intros [] w1 Hr. rewrite removeContainer_eq in Hr.
    destruct (stopAndRemove_run (containerId s)
                ("Failed to remove container " +:+ containerLabel (containerId s) +:+ ":") w)
      as (w1' & Hr' & (Hs & Hn & Hf) & _).
    rewrite Hr in Hr'. injection Hr' as <-.
    simpl. repeat split; auto. right. simpl. now rewrite Hs.
Qed.

Section launch.
Context (config : SandboxConfig).

Lemma launchPostgresContainer_run sid hp w :
  match run E (launchPostgresContainer config sid hp) w with
  | (Returned c, w') =>
      c = nextContainer w /\
      sandboxes w' = sandboxes w /\
      containers w' =
        <[c := {| name := containerName sid; port := hp; running := true |}]>
          (containers w) /\
      nextContainer w' = S c /\
      executed w' = executed w /\
      steps w' = S (S (steps w))
  | (Thrown e, w') => sandboxes w' = sandboxes w
  | (Pending, _) => False
  end.
Proof.
  unfold launchPostgresContainer. rewrite run_bind, run_await.
  unfold ioStep at 1.
  destruct (refuses E (steps w) _ _) as [e|]; [reflexivity|].
  rewrite run_bind, run_await. unfold ioStep. simpl.
  destruct (refuses E (S (steps w)) _ _) as [e|]; [reflexivity|].
  rewrite lookup_insert_eq. simpl. rewrite insert_insert_eq.
  repeat split.
Qed.

End launch.

End container_facts.

(** ** [createSandbox] *)

Section create_facts.
Import Manager Footprint.
Context (E : Env) (config : SandboxConfig) (polls : nat).

(** The two awaits of the [try] block. *)
Lemma quiet_readyAndSeed hp d data :
  quiet (waitForPostgresReady config polls hp;; seedPostgresDatabase hp d data).
Proof.
  apply quiet_bind; [apply quiet_waitForPostgresReady|].
  intros _. apply quiet_seedPostgresDatabase.
Qed.

Ltac step_quiet Hq a w' H :=
  rewrite run_bind;
  match goal with
  | |- context [run E ?p ?w] =>
      let Hst := fresh "Hst" in
      pose proof (quiet_run E p w Hq) as H;
      pose proof (run_steps E p w) as Hst;
      destruct (run E p w) as [[a|?|] w']; simpl in H, Hst
  end.

Lemma createSandbox_run sid d data eng h w :
  match run E (createSandbox config polls sid d data eng h) w with
  | (Returned r, w') =>
      exists hp t,
        steps w' = S (S t) /\ steps w <= t /\
        r = {| sessionId := sid; dbml := d; dataHash := h; engine := eng;
               containerId := nextContainer w; hostPort := hp;
               createdAt := dateNow E t; lastAccessed := dateNow E (S t) |} /\
        sandboxes w' = mapSet sid r (sandboxes w) /\
        containers w' =
          <[nextContainer w :=
              {| name := containerName sid; port := hp; running := true |}]>
            (containers w) /\
        nextContainer w' = S (nextContainer w)
  | (Thrown e, w') => sandboxes w' = sandboxes w
  | (Pending, w') => sandboxes w' = sandboxes w
  end.
Proof.
  unfold createSandbox. destruct eng.
  step_quiet (quiet_ensureImage config postgres) u w1 H1;
    [|apply H1|apply H1]. destruct H1 as (Hs1 & Hc1 & Hn1).
  step_quiet quiet_allocatePort a w2 H2; [|destruct H2; congruence..].
  destruct H2 as (Hs2 & Hc2 & Hn2).
  rewrite run_bind.
  pose proof (launchPostgresContainer_run E config sid a w2) as H3.
  destruct (run E (launchPostgresContainer config sid a) w2) as [[c|e|] w3];
    [|congruence|contradiction].
  destruct H3 as (-> & Hs3 & Hc3 & Hn3 & He3 & Hst3).
  rewrite run_bind, run_tryCatch.
  pose proof (quiet_run E _ w3 (quiet_readyAndSeed a d data)) as H4.
  pose proof (run_steps E
                (waitForPostgresReady config polls a;; seedPostgresDatabase a d data)
                w3) as Hst4.
  destruct (run E (waitForPostgresReady config polls a;; seedPostgresDatabase a d data) w3)
    as [[[]|e|] w4]; simpl in H4, Hst4; destruct H4 as (Hs4 & Hc4 & Hn4).
  - simpl. exists a, (steps w4).
    rewrite Hs4, Hs3, Hs2, Hs1, Hc4, Hc3, Hc2, Hc1, Hn4, Hn3, Hn2, Hn1.
    repeat split. lia.
  - rewrite run_bind, safeRemoveContainer_eq.
    destruct (stopAndRemove_run E (nextContainer w2)
                ("Failed to cleanup sandbox container " +:+
                 containerLabel (nextContainer w2) +:+ ":") w4)
      as (w5 & -> & (Hs5 & _) & _).
    simpl. congruence.
  - congruence.
Qed.


(** C2 (as amended).  When the container has been launched and awaiting
    readiness or applying schema and seed then throws [e], [createSandbox]
    runs [safeRemoveContainer] on that container and throws the same [e]:
    the registry is what it was before the call (no record, no fingerprint
    for the attempt), no other container is affected, and the container of
    the attempt is gone whenever Docker does not refuse its removal. *)
Theorem createSandbox_rollback (sessionId dbml : string) (data : Seed.SeedData)
  (engine : SupportedEngine) (dataHash : string) (w w1 w2 : World)
  (hostPort : Z) (container : ContainerId) (e : Error) :
  run E (ensureImage config engine;;
         hostPort ← allocatePort;
         container ← launchPostgresContainer config sessionId hostPort;
         mret (hostPort, container)) w = (Returned (hostPort, container), w1) ->
  run E (waitForPostgresReady config polls hostPort;;
         seedPostgresDatabase hostPort dbml data) w1 = (Thrown e, w2) ->
  exists w3,
    run E (createSandbox config polls sessionId dbml data engine dataHash) w =
    (Thrown e, w3) /\
    run E (safeRemoveContainer container) w2 = (Returned tt, w3) /\
    sandboxes w3 = sandboxes w /\
    (forall j, j <> container -> containers w3 !! j = containers w !! j) /\
    (refuses E (S (steps w2)) unit (Remove container) = None ->
     containers w3 !! container = None).
Proof.
  intros Hlaunch Hfail. destruct engine.
  rewrite run_bind in Hlaunch.
  pose proof (quiet_run E _ w (quiet_ensureImage config postgres)) as (Hsa & Hca & Hna).
  destruct (run E (ensureImage config postgres) w) as [[[]|?|] wa] eqn:Hens;
    try discriminate. cbn [snd] in *.
  rewrite run_bind in Hlaunch.
  pose proof (quiet_run E _ wa quiet_allocatePort) as (Hsb & Hcb & Hnb).
  destruct (run E allocatePort wa) as [[hp|?|] wb] eqn:Hport;
    try discriminate. cbn [snd] in *.
  rewrite run_bind in Hlaunch.
  pose proof (launchPostgresContainer_run E config sessionId hp wb) as Hl.
  destruct (run E (launchPostgresContainer config sessionId hp) wb)
    as [[c|?|] wc] eqn:Hlc; try discriminate.
  cbn in Hlaunch. injection Hlaunch as -> -> ->.
  destruct Hl as (Hc & Hs1 & Hc1 & Hn1 & _).
  pose proof (quiet_run E _ w1 (quiet_readyAndSeed hostPort dbml data))
    as (Hs2 & Hc2 & Hn2).
  rewrite Hfail in Hs2, Hc2, Hn2. cbn [snd] in *.
  destruct (stopAndRemove_run E container
              ("Failed to cleanup sandbox container " +:+
               containerLabel container +:+ ":") w2)
    as (w3 & Hrm & (Hs3 & _) & _ & _ & Hothers & Hgone).
  exists w3. split; [|split; [|split; [|split]]].
  - unfold createSandbox.
    rewrite run_bind, Hens. cbn beta iota. rewrite run_bind, Hport.
    cbn beta iota. rewrite run_bind, Hlc. cbn beta iota.
    rewrite run_bind, run_tryCatch, Hfail. cbn beta iota.
    rewrite run_bind, safeRemoveContainer_eq, Hrm. reflexivity.
  - rewrite safeRemoveContainer_eq. exact Hrm.
  - congruence.
  - intros j Hj. rewrite Hothers by exact Hj. rewrite Hc2, Hc1, Hc.
    rewrite lookup_insert_ne by congruence. congruence.
  - exact Hgone.
Qed.

End create_facts.

Section rollback_examples.
Import Json Manager Scenario.

Lemma createSandbox_rollback_witness :
  let E := seedFails in
  let hash := computeDataHash usersDbml usersData in
  let launched :=
    run E (ensureImage defaultConfig postgres;;
           hostPort ← allocatePort;
           container ← launchPostgresContainer defaultConfig "s2" hostPort;
           mret (hostPort, container)) emptyWorld in
  let failed :=
    run E (waitForPostgresReady defaultConfig 3 49153;;
           seedPostgresDatabase 49153 usersDbml usersData) launched.2 in
  launched.1 = Returned (49153%Z, 0%nat) /\
  failed.1 = Thrown syntaxError /\
  exists w3,
    run E (createSandbox defaultConfig 3 "s2" usersDbml usersData postgres hash)
      emptyWorld = (Thrown syntaxError, w3) /\
    sandboxes w3 = [] /\
    containers w3 !! 0%nat = None.
Proof.
  intros E hash launched failed.
  assert (Hl : launched = (Returned (49153%Z, 0%nat), launched.2)).
  { vm_compute. reflexivity. }
  assert (Hf : failed = (Thrown syntaxError, failed.2)).
  { vm_compute. reflexivity. }
  split; [now rewrite Hl|]. split; [now rewrite Hf|].
  destruct (createSandbox_rollback E defaultConfig 3 "s2" usersDbml usersData
              postgres hash emptyWorld launched.2 failed.2 49153 0 syntaxError
              Hl Hf)
    as (w3 & Hrun & _ & Hreg & _ & Hgone).
  exists w3. split; [exact Hrun|]. split; [exact Hreg|].
  apply Hgone. reflexivity.
Defined.

(** C2 as stated fails when Docker refuses the removal: the container of
    the failed attempt was launched, seeding threw, the error reached the
    caller and the registry is untouched, but the container is still
    there; [safeRemoveContainer] logged the refusal and went on. *)
Lemma rollback_leaves_container_when_removal_refused :
  let E := seedFailsRemovalRefused in
  let hash := computeDataHash usersDbml usersData in
  let launched :=
    run E (ensureImage defaultConfig postgres;;
           hostPort ← allocatePort;
           container ← launchPostgresContainer defaultConfig "s2" hostPort;
           mret (hostPort, container)) emptyWorld in
  let failed :=
    run E (waitForPostgresReady defaultConfig 3 49153;;
           seedPostgresDatabase 49153 usersDbml usersData) launched.2 in
  launched.1 = Returned (49153%Z, 0%nat) /\
  failed.1 = Thrown syntaxError /\
  match run E (createSandbox defaultConfig 3 "s2" usersDbml usersData postgres hash)
          emptyWorld with
  | (Thrown e, w3) =>
      e = syntaxError /\
      sandboxes w3 = [] /\
      containers w3 !! 0%nat =
        Some {| name := containerName "s2"; port := 49153; running := false |} /\
      List.map snd (console w3) = [daemonDown]
  | _ => False
  end.
Proof. vm_compute. repeat split. Qed.

End rollback_examples.

(** ** [getOrCreateSandbox], [executeQuery], [cleanupExpiredSandboxes] *)

#[local] Arguments Phases.dispatch : simpl never.
#[local] Arguments Phases.normalize : simpl never.

Section lifecycle_facts.
Import Manager Footprint Phases.
Context (E : Env) (config : SandboxConfig) (polls : nat).

Lemma withLastAccessed_fields t s :
  sessionId (withLastAccessed t s) = sessionId s /\
  dbml (withLastAccessed t s) = dbml s /\
  dataHash (withLastAccessed t s) = dataHash s /\
  engine (withLastAccessed t s) = engine s /\
  containerId (withLastAccessed t s) = containerId s /\
  hostPort (withLastAccessed t s) = hostPort s /\
  createdAt (withLastAccessed t s) = createdAt s /\
  lastAccessed (withLastAccessed t s) = t.
Proof. repeat split. Qed.

Lemma withLastAccessed_twice t t' s :
  withLastAccessed t' (withLastAccessed t s) = withLastAccessed t' s.
Proof. reflexivity. Qed.

Lemma generateSessionId_run w :
  run E generateSessionId w =
  (Returned ("sandbox_" +:+ Json.numberToString (dateNow E (steps w)) +:+ "_" +:+
             randomSuffix E (S (steps w))), tick (tick w)).
Proof. reflexivity. Qed.

Lemma getOrCreateSandbox_run request w :
  run E (getOrCreateSandbox config polls request) w =
  run E (dispatch config polls request (normalize E request w).1)
    (normalize E request w).2.
Proof.
  unfold getOrCreateSandbox, normalize. rewrite run_bind.
  destruct (req_sessionId request) as [id|].
  - destruct (id =? "")%string.
    + now rewrite generateSessionId_run.
    + rewrite run_bind, run_sync. simpl.
      destruct (mapHas id (sandboxes w)); [reflexivity|].
      now rewrite generateSessionId_run.
  - now rewrite generateSessionId_run.
Qed.


Lemma dispatch_reuse request key s w :
  mapGet key (sandboxes w) = Some s ->
  dbml s = req_dbml request ->
  dataHash s = computeDataHash (req_dbml request) (req_data request) ->
  run E (dispatch config polls request key) w =
  (Returned (withLastAccessed (dateNow E (steps w)) s),
   withSandboxes
     (mapSet key (withLastAccessed (dateNow E (steps w)) s) (sandboxes w))
     (tick w)).
Proof.
  intros Hk Hd Hh. unfold dispatch. rewrite run_bind, run_sync. simpl.
  rewrite Hk, Hd, Hh, !String.eqb_refl. simpl.
  now rewrite Hk.
Qed.

Lemma dispatch_drift request key s w :
  mapGet key (sandboxes w) = Some s ->
  dbml s <> req_dbml request \/
  dataHash s <> computeDataHash (req_dbml request) (req_data request) ->
  run E (dispatch config polls request key) w =
  run E (replaceSandbox config polls (sessionId s) (req_dbml request)
           (req_data request) (default postgres (req_engine request))
           (computeDataHash (req_dbml request) (req_data request))) w.
Proof.
  intros Hk Hdrift. unfold dispatch. rewrite run_bind, run_sync. simpl. rewrite Hk.
  assert (Hc : negb (dbml s =? req_dbml request)%string
               || negb (dataHash s =?
                        computeDataHash (req_dbml request) (req_data request))%string
               = true).
  { apply orb_true_iff. destruct Hdrift as [H|H]; [left|right];
      apply negb_true_iff, String.eqb_neq; exact H. }
  now rewrite Hc.
Qed.

Lemma dispatch_absent request key w :
  mapGet key (sandboxes w) = None ->
  run E (dispatch config polls request key) w =
  run E (createSandbox config polls key (req_dbml request) (req_data request)
           (default postgres (req_engine request))
           (computeDataHash (req_dbml request) (req_data request))) w.
Proof.
  intros Hk. unfold dispatch. rewrite run_bind, run_sync. simpl. now rewrite Hk.
Qed.

Lemma replaceSandbox_run sid d data eng h w :
  match run E (replaceSandbox config polls sid d data eng h) w with
  | (Returned r, w') =>
      exists hp t,
        steps w' = S (S t) /\ steps w <= t /\
        r = {| sessionId := sid; dbml := d; dataHash := h; engine := eng;
               containerId := nextContainer w; hostPort := hp;
               createdAt := dateNow E t; lastAccessed := dateNow E (S t) |} /\
        sandboxes w' = mapSet sid r (mapDelete sid (sandboxes w)) /\
        containers w' !! nextContainer w =
          Some {| name := containerName sid; port := hp; running := true |} /\
        nextContainer w' = S (nextContainer w)
  | (Thrown e, w') => sandboxes w' = mapDelete sid (sandboxes w)
  | (Pending, w') => sandboxes w' = mapDelete sid (sandboxes w)
  end.
Proof.
  unfold replaceSandbox. rewrite run_bind.
  destruct (deleteSandbox_run E sid w) as (w1 & -> & Hs1 & Hn1 & Hf1 & He1 & Hm).
  assert (Hst : steps w <= steps w1).
  { destruct (mapGet sid (sandboxes w)); [lia | subst; lia]. }
  pose proof (createSandbox_run E config polls sid d data eng h w1) as H.
  destruct (run E (createSandbox config polls sid d data eng h) w1)
    as [[r|e|] w2]; try congruence.
  destruct H as (hp & t & Ht & Hle & -> & Hs2 & Hc2 & Hn2).
  exists hp, t. rewrite Hn1 in *. rewrite Hs2, Hs1, Hc2, lookup_insert_eq.
  repeat split; auto. lia.
Qed.

(** [executeQuery], by what the registry holds under the key. *)
Lemma executeQuery_run key query w :
  run E (executeQuery key query) w =
  match mapGet key (sandboxes w) with
  | None => (Thrown sessionNotFound, w)
  | Some s =>
      run E (executePostgresQuery (hostPort s) query)
        (withSandboxes
           (mapSet key (withLastAccessed (dateNow E (steps w)) s) (sandboxes w))
           (tick w))
  end.
Proof.
  unfold executeQuery. rewrite run_bind, run_sync. cbn [fst snd syncStep].
  destruct (mapGet key (sandboxes w)) as [s|] eqn:Hk; [|reflexivity].
  rewrite run_bind, run_sync. cbn [fst snd syncStep].
  rewrite run_bind, run_sync. cbn [fst snd syncStep sandboxes tick].
  rewrite Hk. now destruct (engine s).
Qed.

(** C5.  A key under which no record is registered -- never seen,
    deleted, reaped after expiry, or removed by a rebuild under way -- makes
    [executeQuery] throw the one error "Sandbox session not found or
    expired": nothing is executed and the world is left as it was. *)
Theorem executeQuery_unknown_key (sessionId query : string) (w : World) :
  mapGet sessionId (sandboxes w) = None ->
  run E (executeQuery sessionId query) w = (Thrown sessionNotFound, w).
Proof.
  intros Hk. rewrite executeQuery_run.
  destruct (mapGet sessionId (sandboxes w)) as [s|]; [discriminate Hk|].
  reflexivity.
Qed.

Lemma executeQuery_after_delete (sessionId query : string) (w : World) :
  run E (executeQuery sessionId query) (run E (deleteSandbox sessionId) w).2 =
  (Thrown sessionNotFound, (run E (deleteSandbox sessionId) w).2).
Proof.
  destruct (deleteSandbox_run E sessionId w) as (w1 & Hr & Hs & _).
  rewrite Hr. cbn [snd]. rewrite executeQuery_run, Hs, mapGet_mapDelete_eq.
  reflexivity.
Qed.

Lemma forEach_deleteSandbox_run ks w :
  exists w',
    run E (forEach ks deleteSandbox) w = (Returned tt, w') /\
    sandboxes w' = List.fold_left (fun m k => mapDelete k m) ks (sandboxes w).
Proof.
  revert w. induction ks as [|k ks IH]; intros w.
  - exists w. split; reflexivity.
  - change (forEach (k :: ks) deleteSandbox)
      with (deleteSandbox k ≫= fun _ => forEach ks deleteSandbox).
    rewrite run_bind.
    destruct (deleteSandbox_run E k w) as (w1 & -> & Hs & _).
    destruct (IH w1) as (w2 & Hr & Hs2). exists w2. split; [exact Hr|].
    simpl. now rewrite <- Hs.
Qed.

Lemma mapGet_filter (keep : string * SandboxInstance -> bool) k s m :
  uniqueKeys m -> mapGet k m = Some s ->
  mapGet k (List.filter keep m) = if keep (k, s) then Some s else None.
Proof.
  unfold uniqueKeys.
  induction m as [|[k' v'] m IH]; simpl; [discriminate|]. intros Hnd Hk.
  apply List.NoDup_cons_iff in Hnd as [Hnotin Hnd].
  destruct (String.eqb_spec k' k) as [->|Hne].
  - injection Hk as ->. destruct (keep (k, s)); simpl.
    + now rewrite String.eqb_refl.
    + apply mapGet_None_keys. intros Hin. apply Hnotin.
      apply List.in_map_iff in Hin as ([k1 v1] & <- & Hin).
      apply List.filter_In in Hin as [Hin _].
      apply List.in_map_iff. now exists (k1, v1).
  - destruct (keep (k', v')); simpl.
    + apply String.eqb_neq in Hne. rewrite Hne. now apply IH.
    + now apply IH.
Qed.


(** A collection cycle completes and leaves the records that are not
    expired at its clock reading. *)
Lemma cleanup_registry w :
  uniqueKeys (sandboxes w) ->
  exists w',
    run E (cleanupExpiredSandboxes config) w = (Returned tt, w') /\
    sandboxes w' =
      List.filter
        (fun entry => negb (expired config (dateNow E (steps w)) (snd entry)))
        (sandboxes w).
Proof.
  intros Hu. unfold cleanupExpiredSandboxes.
  rewrite run_bind, run_sync. cbn [fst snd syncStep].
  rewrite run_bind, run_sync. cbn [fst snd syncStep sandboxes tick].
  destruct (forEach_deleteSandbox_run
              (List.map fst
                 (List.filter
                    (fun entry => expired config (dateNow E (steps w)) (snd entry))
                    (sandboxes w))) (tick w)) as (w' & Hr & Hs).
  exists w'. split; [exact Hr|]. rewrite Hs. cbn [sandboxes tick].
  now apply (delete_selected
               (fun entry => expired config (dateNow E (steps w)) (snd entry))).
Qed.



Lemma filedById_mapSet k v m :
  filedById m -> sessionId v = k -> filedById (mapSet k v m).
Proof.
  intros Hm Hv k' s'. destruct (String.eqb_spec k k') as [<-|Hne].
  - rewrite mapGet_mapSet_eq. now intros [= <-].
  - rewrite mapGet_mapSet_ne by exact Hne. apply Hm.
Qed.

Lemma filedById_mapDelete k m : filedById m -> filedById (mapDelete k m).
Proof.
  intros Hm k' s'. destruct (String.eqb_spec k k') as [<-|Hne].
  - now rewrite mapGet_mapDelete_eq.
  - rewrite mapGet_mapDelete_ne by exact Hne. apply Hm.
Qed.

Lemma normalize_facts request w :
  sandboxes (normalize E request w).2 = sandboxes w /\
  containers (normalize E request w).2 = containers w /\
  nextContainer (normalize E request w).2 = nextContainer w /\
  executed (normalize E request w).2 = executed w /\
  (normalize E request w).1 <> "".
Proof.
  unfold normalize. destruct (req_sessionId request) as [id|].
  - destruct (String.eqb_spec id "") as [->|Hne]; [now repeat split|].
    destruct (mapHas id (sandboxes w)); now repeat split.
  - now repeat split.
Qed.

Lemma normalize_known request key w :
  req_sessionId request = Some key -> key <> "" ->
  mapHas key (sandboxes w) = true ->
  normalize E request w = (key, w).
Proof.
  intros Hr Hne Hhas. unfold normalize. rewrite Hr, Hhas.
  apply String.eqb_neq in Hne. now rewrite Hne.
Qed.

(** What a successful call leaves behind: the record returned is the one
    registered under its own [sessionId], and it carries the request's
    schema description and fingerprint. *)
Lemma getOrCreateSandbox_post request w r w' :
  filedById (sandboxes w) ->
  run E (getOrCreateSandbox config polls request) w = (Returned r, w') ->
  mapGet (sessionId r) (sandboxes w') = Some r /\
  sessionId r <> "" /\
  dbml r = req_dbml request /\
  dataHash r = computeDataHash (req_dbml request) (req_data request) /\
  filedById (sandboxes w').
Proof.
  intros Hfiled. rewrite getOrCreateSandbox_run.
  destruct (normalize_facts request w) as (Hs0 & _ & _ & _ & Hne).
  destruct (normalize E request w) as [key w0]. cbn [fst snd] in *.
  rewrite <- Hs0 in Hfiled. clear Hs0.
  destruct (mapGet key (sandboxes w0)) as [s|] eqn:Hk.
  - pose proof (Hfiled _ _ Hk) as Hsid.
    destruct (String.eqb_spec (dbml s) (req_dbml request)) as [Hd|Hd];
      [destruct (String.eqb_spec (dataHash s)
                   (computeDataHash (req_dbml request) (req_data request)))
        as [Hh|Hh]|].
    + rewrite (dispatch_reuse request key s w0 Hk Hd Hh). intros [= <- <-].
      simpl. rewrite Hsid, mapGet_mapSet_eq. repeat split; auto.
      apply filedById_mapSet; auto.
    + rewrite (dispatch_drift request key s w0 Hk) by now right.
      pose proof (replaceSandbox_run (sessionId s) (req_dbml request)
                    (req_data request) (default postgres (req_engine request))
                    (computeDataHash (req_dbml request) (req_data request)) w0) as H.
      intros Hr. rewrite Hr in H.
      destruct H as (hp & t & _ & _ & -> & Hs & _). simpl.
      rewrite Hs, mapGet_mapSet_eq. repeat split; auto; try congruence.
      apply filedById_mapSet; [now apply filedById_mapDelete | reflexivity].
    + rewrite (dispatch_drift request key s w0 Hk) by now left.
      pose proof (replaceSandbox_run (sessionId s) (req_dbml request)
                    (req_data request) (default postgres (req_engine request))
                    (computeDataHash (req_dbml request) (req_data request)) w0) as H.
      intros Hr. rewrite Hr in H.
      destruct H as (hp & t & _ & _ & -> & Hs & _). simpl.
      rewrite Hs, mapGet_mapSet_eq. repeat split; auto; try congruence.
      apply filedById_mapSet; [now apply filedById_mapDelete | reflexivity].
  - rewrite (dispatch_absent request key w0 Hk).
    pose proof (createSandbox_run E config polls key (req_dbml request)
                  (req_data request) (default postgres (req_engine request))
                  (computeDataHash (req_dbml request) (req_data request)) w0) as H.
    intros Hr. rewrite Hr in H.
    destruct H as (hp & t & _ & _ & -> & Hs & _). simpl.
    rewrite Hs, mapGet_mapSet_eq. repeat split; auto.
    apply filedById_mapSet; auto.
Qed.

(** A call that presents a registered key with the registered schema
    description and fingerprint. *)
Lemma getOrCreateSandbox_reuse request key s w :
  req_sessionId request = Some key -> key <> "" ->
  mapGet key (sandboxes w) = Some s ->
  dbml s = req_dbml request ->
  dataHash s = computeDataHash (req_dbml request) (req_data request) ->
  run E (getOrCreateSandbox config polls request) w =
  (Returned (withLastAccessed (dateNow E (steps w)) s),
   withSandboxes
     (mapSet key (withLastAccessed (dateNow E (steps w)) s) (sandboxes w))
     (tick w)).
Proof.
  intros Hr Hne Hk Hd Hh. rewrite getOrCreateSandbox_run.
  rewrite (normalize_known request key w Hr Hne).
  - simpl. now apply dispatch_reuse.
  - unfold mapHas. now rewrite Hk.
Qed.

Lemma reuse_sequence n : forall request key s w,
  req_sessionId request = Some key -> key <> "" ->
  mapGet key (sandboxes w) = Some s ->
  dbml s = req_dbml request ->
  dataHash s = computeDataHash (req_dbml request) (req_data request) ->
  exists outs w',
    runAll E (replicate n (getOrCreateSandbox config polls request)) w = (outs, w') /\
    length outs = n /\
    Forall (fun o => exists t, o = Returned (withLastAccessed t s)) outs /\
    containers w' = containers w /\
    nextContainer w' = nextContainer w /\
    executed w' = executed w /\
    List.map fst (sandboxes w') = List.map fst (sandboxes w) /\
    (exists t, mapGet key (sandboxes w') = Some (withLastAccessed t s)) /\
    (forall k, k <> key -> mapGet k (sandboxes w') = mapGet k (sandboxes w)).
Proof.
  induction n as [|n IH]; intros request key s w Hr Hne Hk Hd Hh.
  - exists [], w. simpl. repeat split; auto.
    exists (lastAccessed s). rewrite Hk. now destruct s.
  - simpl. rewrite (getOrCreateSandbox_reuse request key s w Hr Hne Hk Hd Hh).
    set (s1 := withLastAccessed (dateNow E (steps w)) s).
    set (w1 := withSandboxes (mapSet key s1 (sandboxes w)) (tick w)).
    destruct (IH request key s1 w1 Hr Hne) as
      (outs & w' & Hrun & Hlen & Hall & Hc & Hn & He & Hkeys & (t & Ht) & Hoth);
      [apply mapGet_mapSet_eq | exact Hd | exact Hh |].
    rewrite Hrun. exists (Returned s1 :: outs), w'.
    split; [reflexivity|]. split; [simpl; now rewrite Hlen|].
    split.
    { constructor; [now exists (dateNow E (steps w))|].
      eapply Forall_impl; [exact Hall|]. intros o (t' & ->). now exists t'. }
    repeat split; auto.
    + rewrite Hkeys. simpl. now apply (keys_mapSet_present _ _ _ s).
    + now exists t.
    + intros k Hkne. rewrite Hoth by exact Hkne. simpl.
      apply mapGet_mapSet_ne. congruence.
Qed.


(** C3 (as amended).  Once a call has succeeded and returned a record,
    every later call that presents that record's [sessionId] with the same
    schema description and seed data returns the same record, refreshed in
    [lastAccessed] only: no container is created or touched, nothing is
    executed, and the registry changes in that one timestamp. *)
Theorem reuse_after_first_call (first : SandboxRequest)
  (engine : option SupportedEngine) (n : nat) (w w1 : World) (r : SandboxInstance) :
  filedById (sandboxes w) ->
  run E (getOrCreateSandbox config polls first) w = (Returned r, w1) ->
  let again := {| req_sessionId := Some (sessionId r);
                  req_dbml := req_dbml first;
                  req_data := req_data first;
                  req_engine := engine |} in
  exists outs w',
    runAll E (replicate n (getOrCreateSandbox config polls again)) w1 = (outs, w') /\
    length outs = n /\
    Forall (fun o => exists t, o = Returned (withLastAccessed t r)) outs /\
    containers w' = containers w1 /\
    nextContainer w' = nextContainer w1 /\
    executed w' = executed w1 /\
    List.map fst (sandboxes w') = List.map fst (sandboxes w1) /\
    (exists t, mapGet (sessionId r) (sandboxes w') = Some (withLastAccessed t r)) /\
    (forall k, k <> sessionId r -> mapGet k (sandboxes w') = mapGet k (sandboxes w1)).
Proof.
  intros Hfiled Hrun again.
  destruct (getOrCreateSandbox_post first w r w1 Hfiled Hrun)
    as (Hk & Hne & Hd & Hh & _).
  apply (reuse_sequence n again (sessionId r) r w1); auto.
Qed.

Lemma executeQuery_registered key query s w :
  mapGet key (sandboxes w) = Some s ->
  run E (executeQuery key query) w =
  run E (executePostgresQuery (hostPort s) query)
    (withSandboxes
       (mapSet key (withLastAccessed (dateNow E (steps w)) s) (sandboxes w))
       (tick w)).
Proof. intros Hk. now rewrite executeQuery_run, Hk. Qed.


Lemma getOrCreateSandbox_rebuild request key s w :
  req_sessionId request = Some key -> key <> "" ->
  mapGet key (sandboxes w) = Some s ->
  dbml s <> req_dbml request \/
  dataHash s <> computeDataHash (req_dbml request) (req_data request) ->
  run E (getOrCreateSandbox config polls request) w =
  run E (replaceSandbox config polls (sessionId s) (req_dbml request)
           (req_data request) (default postgres (req_engine request))
           (computeDataHash (req_dbml request) (req_data request))) w.
Proof.
  intros Hr Hne Hk Hdrift. rewrite getOrCreateSandbox_run.
  rewrite (normalize_known request key w Hr Hne).
  - cbn [fst snd]. now apply dispatch_drift.
  - unfold mapHas. now rewrite Hk.
Qed.


End lifecycle_facts.

Section reuse_examples.
Import Json Manager Scenario.

Lemma reuse_after_first_call_witness :
  let first := request None usersDbml in
  let res := run calm (getOrCreateSandbox defaultConfig 3 first) emptyWorld in
  exists r,
    res.1 = Returned r /\
    exists outs w',
      runAll calm
        (replicate 2
           (getOrCreateSandbox defaultConfig 3 (request (Some (sessionId r)) usersDbml)))
        res.2 = (outs, w') /\
      length outs = 2 /\
      containers w' = containers res.2 /\
      nextContainer w' = 1.
Proof.
  intros first res.
  destruct (run calm (getOrCreateSandbox defaultConfig 3 first) emptyWorld)
    as [o w1] eqn:Hrun.
  assert (Ho : exists r, o = Returned r /\ nextContainer w1 = 1).
  { revert Hrun. vm_compute. intros [= <- <-]. eexists. split; reflexivity. }
  destruct Ho as (r & -> & Hn). exists r. split; [reflexivity|].
  destruct (reuse_after_first_call calm defaultConfig 3 first None 2
              emptyWorld w1 r)
    as (outs & w' & H1 & H2 & _ & H4 & H5 & _).
  - intros k s. simpl. discriminate.
  - exact Hrun.
  - exists outs, w'. subst res. simpl. repeat split; auto. congruence.
Defined.

(** C3 as stated fails for a key the registry does not know: the key is
    not adopted, each call provisions under a freshly generated key, and
    the second call creates a second container. *)
Lemma unknown_key_provisions_again :
  let call := getOrCreateSandbox defaultConfig 3 (request (Some "k") usersDbml) in
  match runAll calm [call; call] emptyWorld with
  | ([Returned r1; Returned r2], w') =>
      containerId r1 = 0 /\ containerId r2 = 1 /\
      hostPort r1 <> hostPort r2 /\
      sessionId r1 <> "k" /\ sessionId r2 <> "k" /\
      size (containers w') = 2 /\
      mapGet "k" (sandboxes w') = None
  | _ => False
  end.
Proof. vm_compute. repeat split; discriminate. Qed.

End reuse_examples.

Section lookup_examples.
Import Json Manager Scenario.

Lemma executeQuery_unknown_key_witness :
  mapGet "gone" (sandboxes oneSandbox) = None /\
  run calm (executeQuery "gone" "SELECT 1") oneSandbox =
  (Thrown sessionNotFound, oneSandbox).
Proof.
  split; [reflexivity|].
  apply (executeQuery_unknown_key calm "gone" "SELECT 1" oneSandbox).
  reflexivity.
Defined.


End lookup_examples.

Section refresh_examples.
Import Json Manager Scenario.


End refresh_examples.

(** ** Rebuilding a sandbox *)

Section rebuild_facts.
Import Manager Footprint Phases.
Context (E : Env) (config : SandboxConfig) (polls : nat).
Context (key : string) (old : SandboxInstance) (fresh : ContainerId).

Lemma rebuilding_onlyRemoved w w' :
  onlyRemoved w w' -> rebuilding key old fresh w -> rebuilding key old fresh w'.
Proof.
  intros (Hs & _ & Hf) (Hold & Hnamed & Hrec). repeat split.
  - destruct (containers w' !! containerId old) as [c'|] eqn:Hc; [|reflexivity].
    destruct (Hf _ _ Hc) as (c & Hc0 & _). congruence.
  - intros j cj Hj Hn. destruct (Hf _ _ Hj) as (c & Hc0 & Hn0).
    apply (Hnamed j c Hc0). congruence.
  - now rewrite Hs.
Qed.

Lemma rebuilding_sameResources w w' :
  sameResources w w' -> rebuilding key old fresh w -> rebuilding key old fresh w'.
Proof. intros H. apply rebuilding_onlyRemoved. now apply sameResources_onlyRemoved. Qed.

Lemma rebuilding_implies w :
  rebuilding key old fresh w -> atMostOneFor key w /\ oldGoneBeforeNew key old w.
Proof.
  intros (Hold & Hnamed & Hrec). split.
  - intros i j ci cj Hi Hj Hni Hnj.
    rewrite (Hnamed i ci Hi Hni), (Hnamed j cj Hj Hnj). reflexivity.
  - intros j cj _ _ _. now split.
Qed.

Lemma launch_rebuilding hp w :
  containerId old <> fresh -> nextContainer w = fresh ->
  rebuilding key old fresh w ->
  throughout E (rebuilding key old fresh)
    (launchPostgresContainer config key hp) w.
Proof.
  intros Hne Hnext HJ. pose proof HJ as (Hold & Hnamed & Hrec).
  unfold launchPostgresContainer, await, mbind, Prog_bind. simpl.
  split; [exact HJ|]. unfold ioStep at 1.
  destruct (refuses E (steps w) _ _) as [e|]; simpl.
  { split; [|exact I]. repeat split; auto. }
  assert (HJ1 : forall b w0, sandboxes w0 = sandboxes w ->
            rebuilding key old fresh
              (withContainers
                 (<[nextContainer w :=
                      {| name := containerName key; port := hp; running := b |}]>
                    (containers w))
                 (S (nextContainer w)) w0)).
  { intros b w0 Hw0. repeat split; simpl; auto.
    - rewrite lookup_insert_ne by congruence. exact Hold.
    - intros j cj. destruct (decide (nextContainer w = j)) as [<-|Hj].
      + intros _ _. exact Hnext.
      + rewrite lookup_insert_ne by exact Hj. apply Hnamed.
    - now rewrite Hw0. }
  split; [now apply HJ1|]. unfold ioStep. simpl.
  destruct (refuses E (S (steps w)) _ _) as [e|]; simpl.
  { split; [|exact I]. now apply (HJ1 false (tick (tick w))). }
  rewrite lookup_insert_eq. simpl. rewrite insert_insert_eq.
  split; [|exact I]. now apply HJ1.
Qed.


Lemma createSandbox_rebuilding d data eng h w :
  containerId old <> fresh -> nextContainer w = fresh ->
  rebuilding key old fresh w ->
  throughout E (rebuilding key old fresh)
    (createSandbox config polls key d data eng h) w.
Proof.
  intros Hne Hnext HJ. unfold createSandbox. destruct eng.
  apply throughout_bind.
  { apply quiet_preserves;
      [apply rebuilding_sameResources | apply quiet_ensureImage | exact HJ]. }
  intros [] wa Hra.
  pose proof (quiet_run E _ w (quiet_ensureImage config postgres)) as Ha.
  rewrite Hra in Ha. cbn [snd] in Ha.
  pose proof (rebuilding_sameResources _ _ Ha HJ) as HJa.
  apply throughout_bind.
  { apply quiet_preserves;
      [apply rebuilding_sameResources | apply quiet_allocatePort | exact HJa]. }
  intros hp wb Hrb.
  pose proof (quiet_run E _ wa quiet_allocatePort) as Hb.
  rewrite Hrb in Hb. cbn [snd] in Hb.
  pose proof (rebuilding_sameResources _ _ Hb HJa) as HJb.
  assert (Hnb : nextContainer wb = fresh).
  { destruct Ha as (_ & _ & Hna), Hb as (_ & _ & Hnb). congruence. }
  apply throughout_bind.
  { now apply launch_rebuilding. }
  intros c wc Hrc.
  pose proof (throughout_final E _ _ _ (launch_rebuilding hp wb Hne Hnb HJb)) as HJc.
  rewrite Hrc in HJc. cbn [snd] in HJc.
  pose proof (launchPostgresContainer_run E config key hp wb) as Hl.
  rewrite Hrc in Hl. destruct Hl as (Hc & _).
  apply throughout_bind.
  { apply throughout_tryCatch.
    - apply quiet_preserves;
        [apply rebuilding_sameResources | apply quiet_readyAndSeed | exact HJc].
    - intros e wd Hrd.
      pose proof (quiet_run E _ wc (quiet_readyAndSeed config polls hp d data)) as Hd.
      rewrite Hrd in Hd. cbn [snd] in Hd.
      pose proof (rebuilding_sameResources _ _ Hd HJc) as HJd.
      apply throughout_bind.
      + rewrite safeRemoveContainer_eq.
        eapply throughout_mono; [|apply stopAndRemove_throughout].
        intros w' Hw'. now apply (rebuilding_onlyRemoved wd).
      + intros [] we Hre. rewrite safeRemoveContainer_eq in Hre.
        destruct (stopAndRemove_run E c
                    ("Failed to cleanup sandbox container " +:+
                     containerLabel c +:+ ":") wd) as (we' & Hre' & Hor & _).
        rewrite Hre in Hre'. injection Hre' as <-.
        simpl. split; [|exact I]. now apply (rebuilding_onlyRemoved wd). }
  intros [] wd Hrd. rewrite run_tryCatch in Hrd.
  pose proof (quiet_run E _ wc (quiet_readyAndSeed config polls hp d data)) as Hd.
  destruct (run E (waitForPostgresReady config polls hp;;
                   seedPostgresDatabase hp d data) wc) as [[[]|e|] wd'];
    cbn [snd] in Hd.
  - injection Hrd as <-.
    pose proof (rebuilding_sameResources _ _ Hd HJc) as HJd.
    destruct HJd as (Hold & Hnamed & Hrec).
    simpl. repeat split; simpl; auto.
    rewrite mapGet_mapSet_eq. intros [= Heq]. apply Hne.
    rewrite <- Heq. simpl. congruence.
  - rewrite run_bind, safeRemoveContainer_eq in Hrd.
    destruct (stopAndRemove_run E c
                ("Failed to cleanup sandbox container " +:+
                 containerLabel c +:+ ":") wd') as (we' & Hre' & _).
    rewrite Hre' in Hrd. discriminate Hrd.
  - discriminate Hrd.
Qed.

End rebuild_facts.

Section rebuild_theorem.
Import Manager Footprint Phases.
Context (E : Env) (config : SandboxConfig) (polls : nat).

Lemma removedOrDeleted_safe key old w w' :
  (forall j cj, containers w !! j = Some cj -> name cj = containerName key ->
     j = containerId old) ->
  removedOrDeleted key w w' ->
  atMostOneFor key w' /\ oldGoneBeforeNew key old w'.
Proof.
  intros Honly (_ & _ & Hf). split.
  - intros i j ci cj Hi Hj Hni Hnj.
    destruct (Hf _ _ Hi) as (ci0 & Hi0 & Hni0).
    destruct (Hf _ _ Hj) as (cj0 & Hj0 & Hnj0).
    rewrite (Honly i ci0 Hi0), (Honly j cj0 Hj0); congruence.
  - intros j cj Hne Hj Hnj. exfalso. apply Hne.
    destruct (Hf _ _ Hj) as (cj0 & Hj0 & Hnj0).
    apply (Honly j cj0 Hj0). congruence.
Qed.

(** C4 (as amended).  A request that presents a registered key with a
    schema description or fingerprint other than the registered one is
    served by [replaceSandbox]: [deleteSandbox] stops and removes the old
    container and deletes the old record, and only then [createSandbox]
    runs.  Provided Docker does not refuse the removal of the old
    container, at every point of the call at most one container carries
    the key's name, and a container for the key other than the old one
    exists only when the old container is gone and the old record is no
    longer registered; if the call returns, the new record is registered
    under the same key with a new container, and the old container is
    gone. *)
Theorem rebuild_destroys_before_creating (request : SandboxRequest) (key : string)
  (old : SandboxInstance) (w : World) :
  req_sessionId request = Some key -> key <> "" ->
  mapGet key (sandboxes w) = Some old -> sessionId old = key ->
  dbml old <> req_dbml request \/
  dataHash old <> computeDataHash (req_dbml request) (req_data request) ->
  (forall j cj, containers w !! j = Some cj -> name cj = containerName key ->
     j = containerId old) ->
  containerId old < nextContainer w ->
  refuses E (S (steps w)) unit (Remove (containerId old)) = None ->
  run E (getOrCreateSandbox config polls request) w =
  run E (replaceSandbox config polls key (req_dbml request) (req_data request)
           (default postgres (req_engine request))
           (computeDataHash (req_dbml request) (req_data request))) w /\
  throughout E (fun w' => atMostOneFor key w' /\ oldGoneBeforeNew key old w')
    (getOrCreateSandbox config polls request) w /\
  (forall r w',
     run E (getOrCreateSandbox config polls request) w = (Returned r, w') ->
     mapGet key (sandboxes w') = Some r /\
     containerId r = nextContainer w /\
     containers w' !! containerId old = None /\
     containers w' !! containerId r =
       Some {| name := containerName key; port := hostPort r; running := true |}).
Proof.
  intros Hr Hne Hk Hsid Hdrift Honly Hlt Hrm.
  assert (Hfresh : containerId old <> nextContainer w).
  { intros Heq. rewrite Heq in Hlt. exact (Nat.lt_irrefl _ Hlt). }
  assert (Hrun : run E (getOrCreateSandbox config polls request) w =
                 run E (replaceSandbox config polls key (req_dbml request)
                          (req_data request) (default postgres (req_engine request))
                          (computeDataHash (req_dbml request) (req_data request))) w).
  { rewrite (getOrCreateSandbox_rebuild E config polls request key old w Hr Hne Hk Hdrift).
    now rewrite Hsid. }
  assert (Hdel : exists w1,
             run E (deleteSandbox key) w = (Returned tt, w1) /\
             nextContainer w1 = nextContainer w /\
             rebuilding key old (nextContainer w) w1).
  { destruct (deleteSandbox_run E key w) as (w1 & Hd & Hs1 & Hn1 & Hf1 & _ & Hm).
    rewrite Hk in Hm. destruct Hm as (_ & _ & Hgone).
    exists w1. split; [exact Hd|]. split; [exact Hn1|]. repeat split.
    - now apply Hgone.
    - intros j cj Hj Hnj. exfalso.
      destruct (Hf1 _ _ Hj) as (cj0 & Hj0 & Hnj0).
      assert (j = containerId old) as -> by (apply (Honly j cj0 Hj0); congruence).
      rewrite Hgone in Hj by exact Hrm. discriminate.
    - rewrite Hs1, mapGet_mapDelete_eq. discriminate. }
  split; [exact Hrun|]. split.
  - assert (HP0 : atMostOneFor key w /\ oldGoneBeforeNew key old w).
    { apply (removedOrDeleted_safe key old w w Honly).
      repeat split; auto using fewerContainers_refl. }
    unfold getOrCreateSandbox. rewrite Hr.
    apply String.eqb_neq in Hne as Hneb. rewrite Hneb.
    assert (Hhas : mapHas key (sandboxes w) = true).
    { unfold mapHas. now rewrite Hk. }
    apply throughout_bind.
    { unfold sync, mbind, Prog_bind. simpl. rewrite Hhas. simpl. tauto. }
    intros nid w0 H0. rewrite run_bind, run_sync in H0. simpl in H0.
    rewrite Hhas in H0. injection H0 as <- <-.
    apply throughout_bind.
    { simpl. tauto. }
    intros ex w0 H0. rewrite run_sync in H0. simpl in H0. rewrite Hk in H0.
    injection H0 as <- <-.
    assert (Hc : negb (dbml old =? req_dbml request)%string
                 || negb (dataHash old =?
                          computeDataHash (req_dbml request) (req_data request))%string
                 = true).
    { apply orb_true_iff. destruct Hdrift as [H|H]; [left|right];
        apply negb_true_iff, String.eqb_neq; exact H. }
    rewrite Hc, Hsid. unfold replaceSandbox.
    apply throughout_bind.
    + eapply throughout_mono; [|apply deleteSandbox_throughout].
      intros w'. now apply removedOrDeleted_safe.
    + intros [] w1 Hd. destruct Hdel as (w1' & Hd' & Hn1 & HJ1).
      rewrite Hd in Hd'. injection Hd' as <-.
      eapply throughout_mono;
        [apply (rebuilding_implies key old (nextContainer w))|].
      now apply createSandbox_rebuilding.
  - intros r w' Hret. rewrite Hrun in Hret. unfold replaceSandbox in Hret.
    rewrite run_bind in Hret. destruct Hdel as (w1 & Hd & Hn1 & HJ1).
    rewrite Hd in Hret.
    pose proof (createSandbox_run E config polls key (req_dbml request)
                  (req_data request) (default postgres (req_engine request))
                  (computeDataHash (req_dbml request) (req_data request)) w1) as Hcr.
    rewrite Hret in Hcr. destruct Hcr as (hp & t & _ & _ & -> & Hs & Hc & _).
    destruct HJ1 as (Hold & _). cbn [containerId hostPort].
    rewrite Hs, Hc, Hn1, mapGet_mapSet_eq, lookup_insert_eq.
    repeat split. rewrite lookup_insert_ne by congruence. exact Hold.
Qed.

End rebuild_theorem.

Section rebuild_examples.
Import Json Manager Footprint Scenario.

Lemma rebuild_destroys_before_creating_witness :
  let call := getOrCreateSandbox defaultConfig 3 (request (Some "s1") widerDbml) in
  throughout calm
    (fun w' => atMostOneFor "s1" w' /\ oldGoneBeforeNew "s1" s1 w') call oneSandbox /\
  exists r w',
    run calm call oneSandbox = (Returned r, w') /\
    mapGet "s1" (sandboxes w') = Some r /\
    containerId r = 1 /\
    containers w' !! 0%nat = None.
Proof.
  intros call.
  destruct (rebuild_destroys_before_creating calm defaultConfig 3
              (request (Some "s1") widerDbml) "s1" s1 oneSandbox)
    as (_ & Hthrough & Hret).
  - reflexivity.
  - discriminate.
  - reflexivity.
  - reflexivity.
  - left. discriminate.
  - intros j cj Hj _. unfold oneSandbox in Hj. cbn [containers] in Hj.
    apply lookup_singleton_Some in Hj as [<- _]. reflexivity.
  - simpl. lia.
  - reflexivity.
  - split; [exact Hthrough|].
    destruct (run calm call oneSandbox) as [o w'] eqn:Hrun.
    assert (Ho : exists r, o = Returned r).
    { revert Hrun. vm_compute. intros [= <- _]. eexists. reflexivity. }
    destruct Ho as (r & ->). exists r, w'. split; [reflexivity|].
    destruct (Hret r w' Hrun) as (H1 & H2 & H3 & _). auto.
Defined.

(** C4 as stated fails when Docker refuses to remove the old container:
    the record is deleted all the same, the old container stays, and the
    creation that follows is refused, the name being taken; the caller gets
    the error, no rebuild has taken place and the key is registered no
    more. *)
Lemma rebuild_leaves_old_container_when_removal_refused :
  dbml s1 <> widerDbml /\
  mapGet "s1" (sandboxes oneSandbox) = Some s1 /\
  match run removalRefusedNameTaken
          (getOrCreateSandbox defaultConfig 3 (request (Some "s1") widerDbml))
          oneSandbox with
  | (Thrown e, w') =>
      e = nameConflict /\
      mapGet "s1" (sandboxes w') = None /\
      containers w' !! 0%nat =
        Some {| name := containerName "s1"; port := 49152; running := false |} /\
      nextContainer w' = 1
  | _ => False
  end.
Proof. split; [discriminate|]. split; [reflexivity|]. vm_compute. repeat split. Qed.

End rebuild_examples.

(** ** Seeding *)

Section seed_facts.
Import Json Manager Footprint.
Context (E : Env).

Lemma issued_nil port w : issued port [] w w.
Proof. reflexivity. Qed.

Lemma issued_app port l1 l2 w w1 w2 :
  issued port l1 w w1 -> issued port l2 w1 w2 -> issued port (l1 ++ l2) w w2.
Proof.
  unfold issued. intros H1 H2.
  rewrite H2, H1, List.map_app, List.rev_app_distr, List.app_assoc. reflexivity.
Qed.

(** One [await client.query(sql, params)] that resolves. *)
Lemma query_issued port sql params w w' :
  run E (await (PgQuery port sql params);; mret tt) w = (Returned tt, w') ->
  issued port [(sql, params)] w w'.
Proof.
  rewrite run_bind, run_await. unfold ioStep.
  destruct (refuses E (steps w) _ _) as [e|]; [discriminate|].
  intros [= <-]. reflexivity.
Qed.

Lemma forEach_cons {X} (x : X) l body :
  forEach (x :: l) body = (body x ≫= fun _ => forEach l body).
Proof. reflexivity. Qed.

(** A loop whose body issues [f x] issues them for each element in
    turn. *)
Lemma forEach_issued {X} port (f : X -> list (string * list (option json)))
  (body : X -> Prog unit) (l : list X) :
  (forall x w w', run E (body x) w = (Returned tt, w') -> issued port (f x) w w') ->
  forall w w',
    run E (forEach l body) w = (Returned tt, w') ->
    issued port (List.concat (List.map f l)) w w'.
Proof.
  intros Hbody. induction l as [|x l IH]; intros w w'.
  - intros [= <-]. apply issued_nil.
  - rewrite forEach_cons, run_bind.
    destruct (run E (body x) w) as [[[]|e|] w1] eqn:Hx; try discriminate.
    intros Hrest. simpl. eapply issued_app; eauto.
Qed.

Lemma concat_singletons {X} (l : list X) :
  List.concat (List.map (fun x => [x]) l) = l.
Proof. induction l as [|x l IH]; simpl; congruence. Qed.

Lemma rows_issued port sql columns (rows : list Seed.Row) w w' :
  run E (forEach rows
           (fun row =>
              await (PgQuery port sql (Seed.values columns row));; mret tt))
    w = (Returned tt, w') ->
  issued port (List.map (fun row => (sql, Seed.values columns row)) rows) w w'.
Proof.
  intros H.
  apply (forEach_issued port (fun row => [(sql, Seed.values columns row)])) in H.
  - rewrite <- (concat_singletons
                  (List.map (fun row => (sql, Seed.values columns row)) rows)).
    now rewrite List.map_map.
  - intros row w0 w1. apply query_issued.
Qed.

(** The statements a completed [seedPostgresDatabase] had executed:
    the schema statements, then the inserts of [Seed.inserts]. *)
Lemma seedPostgresDatabase_issued port dbml data w w' :
  run E (seedPostgresDatabase port dbml data) w = (Returned tt, w') ->
  issued port
    (List.map (fun statement => (statement, [])) (schemaOf E dbml) ++
     Seed.inserts data) w w'.
Proof.
  unfold seedPostgresDatabase. rewrite run_bind, run_sync. cbn [fst snd syncStep].
  rewrite run_bind, run_await. unfold ioStep at 1.
  destruct (refuses E (steps w) _ _) as [e|]; [discriminate|].
  rewrite run_tryFinally, run_bind.
  destruct (run E (forEach (schemaOf E dbml) _) (tick w))
    as [[[]|e|] w1] eqn:Hschema; cycle 1.
  { destruct (run E (await (PgEnd port)) w1) as [[[]|?|] ?]; discriminate. }
  { discriminate. }
  destruct (run E (forEach data _) w1) as [[[]|e|] w2] eqn:Hdata; cycle 1.
  { destruct (run E (await (PgEnd port)) w2) as [[[]|?|] ?]; discriminate. }
  { discriminate. }
  rewrite run_await. unfold ioStep.
  destruct (refuses E (steps w2) _ _) as [e|]; [discriminate|].
  intros [= <-].
  assert (H1 : issued port
                 (List.map (fun statement => (statement, [])) (schemaOf E dbml))
                 (tick w) w1).
  { apply (forEach_issued port (fun statement => [(statement, [])])) in Hschema.
    - rewrite <- (concat_singletons
                    (List.map (fun statement => (statement, [])) (schemaOf E dbml))).
      now rewrite List.map_map.
    - intros st w0 w0'. apply query_issued. }
  assert (H2 : issued port (Seed.inserts data) w1 w2).
  { unfold Seed.inserts.
    apply (forEach_issued port (fun tr => Seed.tableInserts (fst tr) (snd tr)))
      in Hdata; [exact Hdata|].
    intros [t rows] w0 w0'. unfold Seed.tableInserts. simpl.
    destruct rows as [|row0 rows]; [intros [= <-]; apply issued_nil|].
    destruct (Seed.keys row0) as [|col cols] eqn:Hkeys;
      [intros [= <-]; apply issued_nil|].
    apply rows_issued. }
  pose proof (issued_app _ _ _ _ _ _ H1 H2) as H. unfold issued in *.
  simpl. exact H.
Qed.


Lemma get_missing (row : Seed.Row) col :
  ~ List.In col (Seed.keys row) -> Seed.get row col = None.
Proof.
  induction row as [|[k v] row IH]; simpl; [reflexivity|]. intros H.
  destruct (String.eqb_spec k col) as [->|Hne]; [tauto|]. apply IH. tauto.
Qed.


End seed_facts.

Section seed_examples.
Import Json Manager Footprint Scenario.



End seed_examples.

(** ** Drift detection *)

Section drift_facts.
Import Json Manager Footprint.
Context (E : Env) (config : SandboxConfig) (polls : nat).


End drift_facts.

Section drift_examples.
Import Json Manager Scenario.


End drift_examples.

(** ** Calls in flight together *)

Section interleaving_facts.
Import Json Manager Footprint Phases.
Context (E : Env) (config : SandboxConfig) (polls : nat).

Lemma settle_bind {A B} (p : Prog A) (f : A -> Prog B) w :
  settle E (p ≫= f) w =
  match settle E p w with
  | (Ret a, w') => settle E (f a) w'
  | (p', w') => (p' ≫= f, w')
  end.
Proof.
  unfold mbind, Prog_bind. revert w.
  induction p as [a|e| |X op k IH|X op k IH]; intros w; try reflexivity.
  change (bind (Sync op k) f) with (Sync op (fun x => bind (k x) f)).
  cbn [settle]. destruct (syncStep E op w) as [x w']. apply IH.
Qed.

Lemma settle_sync {X} (op : SyncOp X) w :
  settle E (sync op) w = (Ret (syncStep E op w).1, (syncStep E op w).2).
Proof. unfold sync. cbn [settle]. now destruct (syncStep E op w). Qed.

Lemma settle_removeContainer id w :
  exists k, settle E (removeContainer id) w = (Await (Stop id) k, w).
Proof. eexists. reflexivity. Qed.

(** A call that finds its key registered with other content stops at its
    first [await], the stop of the old container, having changed nothing. *)
Lemma settle_rebuild request key old w :
  req_sessionId request = Some key -> key <> "" ->
  mapGet key (sandboxes w) = Some old -> sessionId old = key ->
  dbml old <> req_dbml request \/
  dataHash old <> computeDataHash (req_dbml request) (req_data request) ->
  exists k,
    settle E (getOrCreateSandbox config polls request) w =
    (Await (Stop (containerId old)) k, w).
Proof.
  intros Hr Hne Hk Hsid Hdrift.
  assert (Hc : negb (dbml old =? req_dbml request)%string
               || negb (dataHash old =?
                        computeDataHash (req_dbml request) (req_data request))%string
               = true).
  { apply orb_true_iff. destruct Hdrift as [H|H]; [left|right];
      apply negb_true_iff, String.eqb_neq; exact H. }
  unfold getOrCreateSandbox. rewrite Hr.
  apply String.eqb_neq in Hne as Hneb. rewrite Hneb.
  rewrite settle_bind, settle_bind, settle_sync. cbn [syncStep fst snd].
  unfold mapHas. rewrite Hk. cbn [settle mret Prog_ret].
  rewrite settle_bind, settle_sync. cbn [syncStep fst snd]. rewrite Hk, Hc.
  unfold replaceSandbox. rewrite settle_bind.
  unfold deleteSandbox. rewrite settle_bind, settle_sync. cbn [syncStep fst snd].
  rewrite Hsid, Hk, settle_bind.
  destruct (settle_removeContainer (containerId old) w) as (k0 & ->).
  eexists. reflexivity.
Qed.


Lemma call_rebuild request key old pool :
  req_sessionId request = Some key -> key <> "" ->
  mapGet key (sandboxes (world pool)) = Some old -> sessionId old = key ->
  dbml old <> req_dbml request \/
  dataHash old <> computeDataHash (req_dbml request) (req_data request) ->
  exists k,
    call E config polls request pool =
    {| world := world pool;
       tasks := tasks pool ++
                [{| presented := Some key;
                    rest := Await (Stop (containerId old)) k |}] |}.
Proof.
  intros Hr Hne Hk Hsid Hdrift. unfold call.
  destruct (settle_rebuild request key old (world pool) Hr Hne Hk Hsid Hdrift)
    as (k & ->).
  exists k. now rewrite Hr.
Qed.

Lemma calls_rebuild key old w (requests : list SandboxRequest) :
  key <> "" -> mapGet key (sandboxes w) = Some old -> sessionId old = key ->
  Forall (fun request =>
            req_sessionId request = Some key /\
            (dbml old <> req_dbml request \/
             dataHash old <>
             computeDataHash (req_dbml request) (req_data request)))
    requests ->
  forall ts0,
  exists ts,
    schedule E config polls (List.map Call requests) {| world := w; tasks := ts0 |} =
    {| world := w; tasks := ts0 ++ ts |} /\
    length ts = length requests /\
    Forall (fun t => presented t = Some key /\
                     exists k, rest t = Await (Stop (containerId old)) k) ts.
Proof.
  intros Hne Hk Hsid Hall. induction Hall as [|request requests [Hr Hd] _ IH];
    intros ts0.
  - exists []. rewrite app_nil_r. repeat split. constructor.
  - destruct (call_rebuild request key old {| world := w; tasks := ts0 |}
                Hr Hne Hk Hsid Hd) as (k & Hcall).
    cbn [world tasks] in Hcall.
    destruct (IH (ts0 ++ [{| presented := Some key;
                             rest := Await (Stop (containerId old)) k |}])%list)
      as (ts & Hs & Hlen & Hts).
    eexists (_ :: ts). split; [|split].
    + cbn [List.map schedule List.fold_left act]. rewrite Hcall.
      unfold schedule in Hs. rewrite Hs. now rewrite <- app_assoc.
    + simpl. now rewrite Hlen.
    + constructor; [|exact Hts]. split; [reflexivity|]. now exists k.
Qed.

Lemma inFlightFor_all key w ts :
  Forall (fun t => inFlight t = true /\ presented t = Some key) ts ->
  inFlightFor key {| world := w; tasks := ts |} = length ts.
Proof.
  unfold inFlightFor. cbn [tasks].
  induction 1 as [|t ts [Hf Hp] _ IH]; [reflexivity|].
  cbn [List.filter]. rewrite Hf, Hp, String.eqb_refl.
  simpl. now rewrite IH.
Qed.

(** A call that finds no record under its key, and none under the key it
    generates, stops at its first [await] inside [ensureImage], the
    registry as it was. *)
Lemma settle_fresh request w :
  (forall t suffix,
     mapGet ("sandbox_" +:+ numberToString t +:+ "_" +:+ suffix) (sandboxes w) = None) ->
  match req_sessionId request with
  | Some key => mapGet key (sandboxes w) = None
  | None => True
  end ->
  exists p w',
    settle E (getOrCreateSandbox config polls request) w = (p, w') /\
    inFlight {| presented := req_sessionId request; rest := p |} = true /\
    sandboxes w' = sandboxes w.
Proof.
  intros Hgen Hkey.
  assert (Hcreate : forall key w0, sandboxes w0 = sandboxes w ->
            mapGet key (sandboxes w) = None ->
            exists p w',
              settle E
                (existing ← sync (SandboxesGet key);
                 match existing with
                 | Some existing =>
                     if negb (dbml existing =? req_dbml request)%string
                        || negb (dataHash existing =?
                                 computeDataHash (req_dbml request) (req_data request))%string
                     then
                       replaceSandbox config polls (sessionId existing)
                         (req_dbml request) (req_data request)
                         (default postgres (req_engine request))
                         (computeDataHash (req_dbml request) (req_data request))
                     else
                       now ← sync DateNow;
                       sync (SetLastAccessed key now);;
                       mret (withLastAccessed now existing)
                 | None =>
                     createSandbox config polls key (req_dbml request)
                       (req_data request) (default postgres (req_engine request))
                       (computeDataHash (req_dbml request) (req_data request))
                 end) w0 = (p, w') /\
              inFlight {| presented := req_sessionId request; rest := p |} = true /\
              sandboxes w' = sandboxes w).
  { intros key w0 Hw0 Hnone.
    rewrite settle_bind, settle_sync. cbn [syncStep fst snd].
    rewrite Hw0, Hnone. unfold createSandbox.
    destruct (default postgres (req_engine request)).
    rewrite settle_bind. unfold ensureImage.
    rewrite settle_bind, settle_sync. cbn [syncStep fst snd].
    destruct (ensureImagePromise w0).
    - eexists _, _. split; [reflexivity|]. split; [reflexivity | exact Hw0].
    - eexists _, _. split; [reflexivity|]. split; [reflexivity | exact Hw0]. }
  assert (Hfresh : exists p w',
            settle E
              (normalizedSessionId ← generateSessionId;
               existing ← sync (SandboxesGet normalizedSessionId);
               match existing with
               | Some existing =>
                   if negb (dbml existing =? req_dbml request)%string
                      || negb (dataHash existing =?
                               computeDataHash (req_dbml request) (req_data request))%string
                   then
                     replaceSandbox config polls (sessionId existing)
                       (req_dbml request) (req_data request)
                       (default postgres (req_engine request))
                       (computeDataHash (req_dbml request) (req_data request))
                   else
                     now ← sync DateNow;
                     sync (SetLastAccessed normalizedSessionId now);;
                     mret (withLastAccessed now existing)
               | None =>
                   createSandbox config polls normalizedSessionId (req_dbml request)
                     (req_data request) (default postgres (req_engine request))
                     (computeDataHash (req_dbml request) (req_data request))
               end) w = (p, w') /\
            inFlight {| presented := req_sessionId request; rest := p |} = true /\
            sandboxes w' = sandboxes w).
  { rewrite settle_bind.
    change (settle E generateSessionId w)
      with (@Ret string
              ("sandbox_" +:+ numberToString (dateNow E (steps w)) +:+ "_" +:+
               randomSuffix E (S (steps w))), tick (tick w)).
    cbn beta iota. apply Hcreate; [reflexivity | apply Hgen]. }
  unfold getOrCreateSandbox.
  destruct (req_sessionId request) as [key|]; [|exact Hfresh].
  destruct (key =? "")%string; [exact Hfresh|].
  rewrite settle_bind, settle_bind, settle_sync. cbn [syncStep fst snd].
  unfold mapHas. rewrite Hkey. exact Hfresh.
Qed.

Lemma calls_fresh key m (requests : list SandboxRequest) :
  mapGet key m = None ->
  (forall t suffix,
     mapGet ("sandbox_" +:+ numberToString t +:+ "_" +:+ suffix) m = None) ->
  Forall (fun request => req_sessionId request = Some key) requests ->
  forall pool, sandboxes (world pool) = m ->
  exists w' ts,
    schedule E config polls (List.map Call requests) pool =
    {| world := w'; tasks := tasks pool ++ ts |} /\
    sandboxes w' = m /\
    length ts = length requests /\
    Forall (fun t => inFlight t = true /\ presented t = Some key) ts.
Proof.
  intros Hnone Hgen Hall. induction Hall as [|request requests Hr _ IH];
    intros pool Hm.
  - exists (world pool), []. rewrite app_nil_r. destruct pool.
    repeat split; auto.
  - destruct (settle_fresh request (world pool)) as (p & w1 & Hs & Hf & Hw1).
    { intros t suffix. rewrite Hm. apply Hgen. }
    { rewrite Hr, Hm. exact Hnone. }
    destruct (IH {| world := w1;
                    tasks := (tasks pool ++
                              [{| presented := req_sessionId request; rest := p |}])%list |})
      as (w' & ts & Hsched & Hw' & Hlen & Hts).
    { cbn [world]. congruence. }
    exists w', ({| presented := req_sessionId request; rest := p |} :: ts).
    split; [|split; [|split]].
    + cbn [List.map schedule List.fold_left act]. unfold call. rewrite Hs.
      unfold schedule in Hsched. rewrite Hsched. cbn [tasks].
      now rewrite <- app_assoc.
    + exact Hw'.
    + simpl. now rewrite Hlen.
    + constructor; [|exact Hts]. split; [exact Hf | exact Hr].
Qed.


(** A call scheduled alone, resumed until it finishes, does what [run]
    says. *)
Lemma alone_is_run (p : Prog SandboxInstance) : forall key w,
  exists n,
    let pool :=
      Nat.iter n (resume E 0)
        {| world := (settle E p w).2;
           tasks := [{| presented := key; rest := (settle E p w).1 |}] |} in
    world pool = (run E p w).2 /\
    exists t, tasks pool = [t] /\ finished (rest t) = Some (run E p w).1.
Proof.
  induction p as [a|e| |X op k IH|X op k IH]; intros key w.
  - exists 0%nat. simpl. eauto.
  - exists 0%nat. simpl. eauto.
  - exists 0%nat. simpl. eauto.
  - cbn [settle run]. destruct (syncStep E op w) as [x w']. apply IH.
  - cbn [settle run fst snd].
    destruct (ioStep E op w) as [r w'] eqn:Hio.
    destruct (IH r key w') as (n & Hn). exists (S n).
    assert (Hstep :
              resume E 0
                {| world := w; tasks := [{| presented := key; rest := Await op k |}] |} =
              {| world := (settle E (k r) w').2;
                 tasks := [{| presented := key; rest := (settle E (k r) w').1 |}] |}).
    { unfold resume. cbn [tasks world].
      change ([{| presented := key; rest := Await op k |}] !! 0%nat)
        with (Some {| presented := key; rest := Await op k |}).
      cbn [rest presented]. rewrite Hio.
      now destruct (settle E (k r) w') as [p' w'']. }
    rewrite Nat.iter_succ_r, Hstep. exact Hn.
Qed.

End interleaving_facts.

Section interleaving_examples.
Import Json Manager Footprint Phases Scenario.



(** What the missing exclusion costs.  The first caller completes its
    rebuild (twelve awaits) before the second is resumed; the second then
    deletes the record the first has just installed and fails to create
    its own container.  The first caller was handed a record, yet the key
    is registered no more and the container it launched stays behind,
    out of reach of [deleteSandbox] and of the collector. *)
Lemma interleaved_rebuilds_orphan_a_container :
  let again := request (Some "s1") widerDbml in
  let pool :=
    schedule nameTakenLater defaultConfig 3
      ([Call again; Call again] ++ replicate 12 (Resume 0) ++ replicate 5 (Resume 1))
      {| world := oneSandbox; tasks := [] |} in
  match List.map (fun t => finished (rest t)) (tasks pool) with
  | [Some (Returned r); Some (Thrown e)] =>
      containerId r = 1 /\ e = nameConflict /\
      mapGet "s1" (sandboxes (world pool)) = None /\
      containers (world pool) !! 1%nat =
        Some {| name := containerName "s1"; port := hostPort r; running := true |} /\
      containers (world pool) !! 0%nat = None
  | _ => False
  end.
Proof. vm_compute. repeat split. Qed.

End interleaving_examples.

(** ** From validation to execution *)

Section forwarding_facts.
Import Json Manager Footprint Query.
Context (E : Env) (config : SandboxConfig) (polls : nat).

Lemma executePostgresQuery_issued port query res w w' :
  run E (executePostgresQuery port query) w = (Returned res, w') ->
  executed w' = (port, query, []) :: executed w.
Proof.
  unfold executePostgresQuery. rewrite run_bind, run_await. unfold ioStep at 1.
  destruct (refuses E (steps w) _ _) as [e|]; [discriminate|].
  rewrite run_tryFinally, run_bind, run_await. unfold ioStep at 1.
  cbn [steps tick].
  destruct (refuses E (S (steps w)) _ _) as [e|].
  { destruct (run E (await (PgEnd port)) _) as [[[]|?|] ?]; discriminate. }
  cbn [run mret Prog_ret].
  rewrite run_await. unfold ioStep. cbn [steps tick withExecuted].
  destruct (refuses E (S (S (steps w))) _ _) as [e|]; [discriminate|].
  now intros [= _ <-].
Qed.

Lemma executeQuery_forwards key query s res w w' :
  mapGet key (sandboxes w) = Some s ->
  run E (executeQuery key query) w = (Returned res, w') ->
  executed w' = (hostPort s, query, []) :: executed w.
Proof.
  intros Hk. rewrite (executeQuery_registered E key query s w Hk).
  intros H. now apply executePostgresQuery_issued in H.
Qed.

(** C10.  The boundary validation of the container-sandbox executor
    rejects the queries made of white space only (the empty one among
    them) with "Query cannot be empty" and accepts every other query: the
    kind of statement is not looked at.  Whenever [execute] then reports
    success, the sandbox has executed the query text as it was given. *)
Theorem validateQuery_accepts_any_statement :
  (forall query,
     validateQuery query =
     if Str.all isWhiteSpace query then
       {| valid := false; error := Some "Query cannot be empty" |}
     else
       {| valid := true; error := None |}) /\
  (forall request w response w',
     filedById (sandboxes w) ->
     run E (execute config polls request) w = (Returned response, w') ->
     success response = true ->
     exists port earlier,
       executed w' = (port, exec_query request, []) :: earlier).
Proof.
  split; [exact validateQuery_spec|].
  intros request w response w' Hfiled. unfold execute.
  rewrite run_bind, run_sync. cbn [syncStep fst snd].
  rewrite run_tryCatch, run_bind.
  destruct (run E (getOrCreateSandbox config polls _) (tick w))
    as [[r|e|] w1] eqn:Hget.
  - apply getOrCreateSandbox_post in Hget as (Hk & _); [|exact Hfiled].
    rewrite run_bind.
    destruct (run E (executeQuery (sessionId r) (exec_query request)) w1)
      as [[res|e|] w2] eqn:Hq.
    + apply (executeQuery_forwards _ _ r) in Hq; [|exact Hk].
      cbn. intros [= <- <-] _. cbn. eauto.
    + cbn. intros [= <- _]. discriminate.
    + discriminate.
  - cbn. intros [= <- _]. discriminate.
  - discriminate.
Qed.

End forwarding_facts.

Section forwarding_examples.
Import Json Manager Query Scenario.

Lemma validateQuery_accepts_any_statement_witness :
  let request :=
    {| exec_sessionId := Some "s1"; exec_dbml := usersDbml;
       exec_data := usersData; exec_query := "DROP TABLE users";
       exec_engine := None |} in
  valid (validateQuery "DROP TABLE users") = true /\
  filedById (sandboxes oneSandbox) /\
  exists response w' port earlier,
    run calm (execute defaultConfig 3 request) oneSandbox = (Returned response, w') /\
    success response = true /\
    executed w' = (port, "DROP TABLE users", []) :: earlier.
Proof.
  intros request.
  destruct (validateQuery_accepts_any_statement calm defaultConfig 3)
    as [Hvalid Hforward].
  assert (Hfiled : filedById (sandboxes oneSandbox)).
  { intros k s. unfold oneSandbox. cbn [sandboxes mapGet].
    destruct (String.eqb_spec "s1" k) as [<-|_]; [|discriminate].
    intros [= <-]. reflexivity. }
  split; [now rewrite Hvalid|]. split; [exact Hfiled|].
  destruct (run calm (execute defaultConfig 3 request) oneSandbox)
    as [o w'] eqn:Hrun.
  assert (Ho : exists response, o = Returned response /\ success response = true).
  { revert Hrun. vm_compute. intros [= <- _]. eexists. split; reflexivity. }
  destruct Ho as (response & -> & Hs).
  destruct (Hforward request oneSandbox response w' Hfiled Hrun Hs)
    as (port & earlier & He).
  exists response, w', port, earlier. auto.
Defined.

End forwarding_examples.

(* ===================================================================== *)
(** * Part III: further properties of the code *)
(* ===================================================================== *)

(** ** Deleting a sandbox *)

Section removal_facts.
Import Manager Footprint.
Context (E : Env).

Lemma stopAndRemove_outcome id msg w :
  run E (stopAndRemove id msg) w =
  match ioStep E (Remove id) (ioStep E (Stop id) w).2 with
  | (Ok _, w2) => (Returned tt, w2)
  | (Rejected e, w2) => (Returned tt, withConsole ((msg, e) :: console w2) w2)
  end.
Proof.
  unfold stopAndRemove. rewrite run_tryCatch, run_bind, run_awaitIgnoring.
  rewrite run_await.
  destruct (ioStep E (Remove id) (ioStep E (Stop id) w).2) as [[[]|e] w2];
    [reflexivity|].
  now rewrite run_sync.
Qed.

(** What a [stop] leaves of the world. *)
Lemma ioStep_Stop_facts id w :
  let w1 := (ioStep E (Stop id) w).2 in
  sandboxes w1 = sandboxes w /\
  console w1 = console w /\
  steps w1 = S (steps w) /\
  (forall j, j <> id -> containers w1 !! j = containers w !! j) /\
  name <$> containers w1 !! id = name <$> containers w !! id.
Proof.
  unfold ioStep.
  destruct (refuses E (steps w) unit (Stop id)) as [e|]; cbn [snd].
  { repeat split. }
  destruct (containers w !! id) as [c|] eqn:Hc; cbn [snd].
  - destruct (running c); cbn [snd].
    + repeat split; cbn.
      * intros j Hj. now rewrite lookup_insert_ne by congruence.
      * now rewrite lookup_insert_eq.
    + repeat split. cbn. now rewrite Hc.
  - repeat split. cbn. now rewrite Hc.
Qed.

Lemma removal_outcome id msg w :
  exists w',
    run E (stopAndRemove id msg) w = (Returned tt, w') /\
    sandboxes w' = sandboxes w /\
    (forall j, j <> id -> containers w' !! j = containers w !! j) /\
    match refuses E (S (steps w)) unit (Remove id), containers w !! id with
    | None, Some _ => containers w' !! id = None /\ console w' = console w
    | None, None =>
        containers w' !! id = None /\
        console w' = (msg, noSuchContainer) :: console w
    | Some e, c =>
        name <$> containers w' !! id = name <$> c /\
        console w' = (msg, e) :: console w
    end.
Proof.
  rewrite stopAndRemove_outcome.
  destruct (ioStep_Stop_facts id w) as (Hs & Hc & Hst & Hk & Hn).
  destruct (ioStep E (Stop id) w) as [r1 w1]. cbn [snd] in *.
  unfold ioStep. rewrite Hst.
  destruct (refuses E (S (steps w)) unit (Remove id)) as [e|].
  - eexists. split; [reflexivity|]. cbn. repeat split; auto.
    now rewrite Hc.
  - destruct (containers w1 !! id) as [c1|] eqn:H1;
      destruct (containers w !! id) as [c|] eqn:H0; try discriminate Hn.
    + eexists. split; [reflexivity|]. cbn. repeat split; auto.
      * intros j Hj. rewrite lookup_delete_ne by congruence. auto.
      * apply lookup_delete_eq.
    + eexists. split; [reflexivity|]. cbn. repeat split; auto.
      now rewrite Hc.
Qed.

(** X1.  [deleteSandbox] never throws and always leaves the key
    unregistered, the other records untouched.  For an unknown key nothing
    happens at all.  For a registered key the record is dropped whether or
    not Docker removed the container: when the removal is refused, the
    failure is only logged and the container stays, no longer recorded.
    A second deletion of the same key does nothing. *)
Theorem deleteSandbox_always_unregisters (key : string) (w : World) :
  exists w',
    run E (deleteSandbox key) w = (Returned tt, w') /\
    mapGet key (sandboxes w') = None /\
    (forall k, k <> key -> mapGet k (sandboxes w') = mapGet k (sandboxes w)) /\
    match mapGet key (sandboxes w) with
    | None => w' = w
    | Some s =>
        (forall j, j <> containerId s ->
           containers w' !! j = containers w !! j) /\
        match refuses E (S (steps w)) unit (Remove (containerId s)) with
        | None => containers w' !! containerId s = None
        | Some e =>
            name <$> containers w' !! containerId s =
            name <$> containers w !! containerId s /\
            console w' =
            ("Failed to remove container " +:+ containerLabel (containerId s) +:+ ":",
             e) :: console w
        end
    end /\
    run E (deleteSandbox key) w' = (Returned tt, w').
Proof.
  assert (Hagain : forall w1, mapGet key (sandboxes w1) = None ->
            run E (deleteSandbox key) w1 = (Returned tt, w1)).
  { intros w1 H1. unfold deleteSandbox. rewrite run_bind, run_sync.
    cbn [fst snd syncStep]. now rewrite H1. }
  destruct (mapGet key (sandboxes w)) as [s|] eqn:Hk.
  - unfold deleteSandbox. rewrite run_bind, run_sync. cbn [fst snd syncStep].
    rewrite Hk, run_bind, removeContainer_eq.
    destruct (removal_outcome (containerId s)
                ("Failed to remove container " +:+ containerLabel (containerId s) +:+ ":") w)
      as (w1 & -> & Hs & Hothers & Hcase).
    rewrite run_sync. cbn [fst snd syncStep].
    eexists. split; [reflexivity|].
    assert (Hgone : mapGet key (sandboxes
              (withSandboxes (mapDelete key (sandboxes w1)) w1)) = None).
    { cbn. apply mapGet_mapDelete_eq. }
    split; [exact Hgone|]. split; [|split].
    + intros k Hne. cbn. rewrite Hs. now apply mapGet_mapDelete_ne.
    + split; [exact Hothers|].
      destruct (refuses E (S (steps w)) unit (Remove (containerId s))) as [e|].
      * exact Hcase.
      * destruct (containers w !! containerId s); apply Hcase.
    + now apply Hagain.
  - exists w. split; [now apply Hagain|]. split; [exact Hk|].
    split; [reflexivity|]. split; [reflexivity|]. now apply Hagain.
Qed.

(** X2.  [removeContainer] never throws.  A refused [stop] does not keep it
    from removing: whenever Docker accepts the [remove], the container is
    gone.  When the [remove] is refused the container stays, under its
    name, and the failure is logged on the console; no other container
    and no record is touched. *)
Theorem removeContainer_best_effort (id : ContainerId) (w : World) :
  exists w',
    run E (removeContainer id) w = (Returned tt, w') /\
    sandboxes w' = sandboxes w /\
    (forall j, j <> id -> containers w' !! j = containers w !! j) /\
    match refuses E (S (steps w)) unit (Remove id), containers w !! id with
    | None, Some _ => containers w' !! id = None /\ console w' = console w
    | None, None =>
        containers w' !! id = None /\
        console w' =
        ("Failed to remove container " +:+ containerLabel id +:+ ":",
         noSuchContainer) :: console w
    | Some e, c =>
        name <$> containers w' !! id = name <$> c /\
        console w' =
        ("Failed to remove container " +:+ containerLabel id +:+ ":", e)
        :: console w
    end.
Proof. rewrite removeContainer_eq. apply removal_outcome. Qed.

End removal_facts.

(** ** Provisioning step by step *)

Section provision_facts.
Import Manager Footprint Report.
Context (E : Env) (config : SandboxConfig) (polls : nat).

Lemma ensureImage_run (engine : SupportedEngine) (w : World) :
  run E (ensureImage config engine) w =
  if ensureImagePromise w then
    (match refuses E (steps w) unit SharedImage with
     | Some e => Thrown e
     | None => Returned tt
     end, tick w)
  else
    match refuses E (steps w) nat (ListImages (image config)) with
    | Some e => (Thrown e, withImagePromise false (tick (withImagePromise true w)))
    | None =>
        if (localImages E (steps w) =? 0)%nat then
          (match refuses E (S (steps w)) unit (Pull (image config)) with
           | Some e => Thrown e
           | None => Returned tt
           end,
           withImagePromise false (tick (tick (withImagePromise true w))))
        else
          (Returned tt, withImagePromise false (tick (withImagePromise true w)))
    end.
Proof.
  destruct engine. unfold ensureImage.
  rewrite run_bind, run_sync. cbn [fst snd syncStep].
  destruct (ensureImagePromise w) eqn:Hflag.
  - rewrite run_await. unfold ioStep.
    destruct (refuses E (steps w) unit SharedImage); reflexivity.
  - rewrite run_bind, run_sync. cbn [fst snd syncStep].
    rewrite run_tryFinally, run_bind, run_await. unfold ioStep at 1.
    cbn [steps withImagePromise].
    destruct (refuses E (steps w) nat (ListImages (image config))) as [e|].
    + now rewrite run_sync.
    + destruct (localImages E (steps w) =? 0)%nat.
      * rewrite run_await. unfold ioStep. cbn [steps tick withImagePromise].
        destruct (refuses E (S (steps w)) unit (Pull (image config)));
          now rewrite run_sync.
      * cbn [run mret Prog_ret]. now rewrite run_sync.
Qed.

(** X3.  [ensureImage] started while no pull is in flight lists the local
    images, pulls only when there is none, and clears its in-flight marker
    on every exit, also when the listing or the pull is refused: a failed
    pull does not block the calls that follow.  Started while a pull is in
    flight, it waits for that pull and leaves the marker alone. *)
Theorem ensureImage_clears_marker (engine : SupportedEngine) (w : World) :
  let out := run E (ensureImage config engine) w in
  if ensureImagePromise w then
    ensureImagePromise out.2 = true /\
    steps out.2 = S (steps w) /\
    out.1 = match refuses E (steps w) unit SharedImage with
            | Some e => Thrown e
            | None => Returned tt
            end
  else
    ensureImagePromise out.2 = false /\
    match refuses E (steps w) nat (ListImages (image config)) with
    | Some e => out.1 = Thrown e /\ steps out.2 = S (steps w)
    | None =>
        if (localImages E (steps w) =? 0)%nat then
          steps out.2 = S (S (steps w)) /\
          out.1 = match refuses E (S (steps w)) unit (Pull (image config)) with
                  | Some e => Thrown e
                  | None => Returned tt
                  end
        else out.1 = Returned tt /\ steps out.2 = S (steps w)
    end.
Proof.
  cbv zeta. rewrite ensureImage_run.
  destruct (ensureImagePromise w) eqn:Hflag.
  - cbn. rewrite Hflag. repeat split.
  - destruct (refuses E (steps w) nat (ListImages (image config))) as [e|].
    + repeat split.
    + destruct (localImages E (steps w) =? 0)%nat; repeat split.
Qed.

Lemma pollUntilReady_S fuel hostPort start lastError :
  pollUntilReady config (S fuel) hostPort start lastError =
  (now ← sync DateNow;
   if (now - start <? readinessTimeoutMs config)%Z then
     failed ← tryCatch
                (await (PgConnect hostPort);;
                 await (PgEnd hostPort);;
                 mret None)
                (fun error =>
                   delay (readinessRetryDelayMs config);;
                   mret (Some error));
     match failed with
     | None => mret tt
     | Some error => pollUntilReady config fuel hostPort start (Some error)
     end
   else Throw (notReady config lastError)).
Proof. reflexivity. Qed.

(** One turn of the readiness loop. *)
Lemma pollUntilReady_turn fuel hostPort start lastError w :
  run E (pollUntilReady config (S fuel) hostPort start lastError) w =
  if (dateNow E (steps w) - start <? readinessTimeoutMs config)%Z then
    match refuses E (S (steps w)) unit (PgConnect hostPort) with
    | Some e =>
        run E (pollUntilReady config fuel hostPort start (Some e))
          (tick (tick (tick w)))
    | None =>
        match refuses E (S (S (steps w))) unit (PgEnd hostPort) with
        | Some e =>
            run E (pollUntilReady config fuel hostPort start (Some e))
              (tick (tick (tick (tick w))))
        | None => (Returned tt, tick (tick (tick w)))
        end
    end
  else (Thrown (notReady config lastError), tick w).
Proof.
  rewrite pollUntilReady_S, run_bind, run_sync. cbn [fst snd syncStep].
  destruct (dateNow E (steps w) - start <? readinessTimeoutMs config)%Z;
    [|reflexivity].
  rewrite run_bind, run_tryCatch, run_bind, run_await. unfold ioStep at 1.
  cbn [steps tick].
  destruct (refuses E (S (steps w)) unit (PgConnect hostPort)) as [e|].
  - rewrite run_bind. unfold delay. rewrite run_await. unfold ioStep.
    reflexivity.
  - rewrite run_bind, run_await. unfold ioStep at 1. cbn [steps tick].
    destruct (refuses E (S (S (steps w))) unit (PgEnd hostPort)) as [e|].
    + rewrite run_bind. unfold delay. rewrite run_await. unfold ioStep.
      reflexivity.
    + reflexivity.
Qed.

Lemma pollUntilReady_outcomes fuel : forall hostPort start lastError w,
  match run E (pollUntilReady config fuel hostPort start lastError) w with
  | (Returned _, w') =>
      exists t,
        steps w <= t /\ steps w' = S (S (S t)) /\
        (dateNow E t - start < readinessTimeoutMs config)%Z /\
        refuses E (S t) unit (PgConnect hostPort) = None /\
        refuses E (S (S t)) unit (PgEnd hostPort) = None
  | (Thrown e, w') =>
      exists t last,
        steps w <= t /\ steps w' = S t /\
        (readinessTimeoutMs config <= dateNow E t - start)%Z /\
        e = notReady config last /\
        (last = lastError \/
         exists t' e', steps w < t' < t /\ last = Some e' /\
           (refuses E t' unit (PgConnect hostPort) = Some e' \/
            refuses E t' unit (PgEnd hostPort) = Some e'))
  | (Pending, _) => True
  end.
Proof.
  induction fuel as [|fuel IH]; intros hostPort start lastError w.
  { exact I. }
  rewrite pollUntilReady_turn.
  destruct (dateNow E (steps w) - start <? readinessTimeoutMs config)%Z eqn:Hnow.
  - apply Z.ltb_lt in Hnow.
    assert (Hrec : forall e n w1,
              steps w1 = n + steps w -> 2 < n <= 4 ->
              (refuses E (S (steps w)) unit (PgConnect hostPort) = Some e \/
               refuses E (S (S (steps w))) unit (PgEnd hostPort) = Some e) ->
              match run E (pollUntilReady config fuel hostPort start (Some e)) w1 with
              | (Returned _, w') =>
                  exists t,
                    steps w <= t /\ steps w' = S (S (S t)) /\
                    (dateNow E t - start < readinessTimeoutMs config)%Z /\
                    refuses E (S t) unit (PgConnect hostPort) = None /\
                    refuses E (S (S t)) unit (PgEnd hostPort) = None
              | (Thrown e0, w') =>
                  exists t last,
                    steps w <= t /\ steps w' = S t /\
                    (readinessTimeoutMs config <= dateNow E t - start)%Z /\
                    e0 = notReady config last /\
                    (last = lastError \/
                     exists t' e', steps w < t' < t /\ last = Some e' /\
                       (refuses E t' unit (PgConnect hostPort) = Some e' \/
                        refuses E t' unit (PgEnd hostPort) = Some e'))
              | (Pending, _) => True
              end).
    { intros e n w1 Hw1 Hn Hwhy.
      specialize (IH hostPort start (Some e) w1).
      destruct (run E (pollUntilReady config fuel hostPort start (Some e)) w1)
        as [[[]|e0|] w']; [| |exact I].
      - destruct IH as (t & Ht & Hst & Hrest). exists t.
        split; [lia|]. split; [exact Hst|exact Hrest].
      - destruct IH as (t & last & Ht & Hst & Hlate & He0 & Hlast).
        exists t, last. split; [lia|]. split; [exact Hst|].
        split; [exact Hlate|]. split; [exact He0|]. right.
        destruct Hlast as [->|(t' & e' & Ht' & -> & Hwhy')].
        + destruct Hwhy as [Hc|Hc].
          * exists (S (steps w)), e. split; [lia|]. split; [reflexivity|]. now left.
          * exists (S (S (steps w))), e. split; [lia|]. split; [reflexivity|]. now right.
        + exists t', e'. split; [lia|]. split; [reflexivity|exact Hwhy']. }
    destruct (refuses E (S (steps w)) unit (PgConnect hostPort)) as [e|] eqn:Hc.
    + apply (Hrec e 3); [reflexivity|lia|now left].
    + destruct (refuses E (S (S (steps w))) unit (PgEnd hostPort)) as [e|] eqn:He.
      * apply (Hrec e 4); [reflexivity|lia|now right].
      * exists (steps w). repeat split; auto.
  - apply Z.ltb_ge in Hnow. exists (steps w), lastError.
    repeat split; auto.
Qed.

(** With the deadline behind it from step [T] on, the loop ends within the
    turns that fit before [T], and one more. *)
Lemma pollUntilReady_ends T hostPort start fuel : forall lastError w,
  (forall t, T <= t -> (readinessTimeoutMs config <= dateNow E t - start)%Z) ->
  0 < fuel ->
  T <= steps w + 3 * (fuel - 1) ->
  (run E (pollUntilReady config fuel hostPort start lastError) w).1 <> Pending.
Proof.
  induction fuel as [|fuel IH]; intros lastError w Hlate Hpos Hfuel; [lia|].
  rewrite pollUntilReady_turn.
  destruct (dateNow E (steps w) - start <? readinessTimeoutMs config)%Z eqn:Hnow;
    [|discriminate].
  apply Z.ltb_lt in Hnow.
  assert (Hmore : 0 < fuel).
  { destruct fuel; [|lia]. specialize (Hlate (steps w)). lia. }
  destruct (refuses E (S (steps w)) unit (PgConnect hostPort)) as [e|].
  - apply IH; [exact Hlate|exact Hmore|cbn; lia].
  - destruct (refuses E (S (S (steps w))) unit (PgEnd hostPort)) as [e|].
    + apply IH; [exact Hlate|exact Hmore|cbn; lia].
    + discriminate.
Qed.

Lemma waitForPostgresReady_run hostPort w :
  run E (waitForPostgresReady config polls hostPort) w =
  run E (pollUntilReady config polls hostPort (dateNow E (steps w)) None) (tick w).
Proof.
  unfold waitForPostgresReady. now rewrite run_bind, run_sync.
Qed.

Lemma waitForPostgresReady_cases (hostPort : Z) (w : World) :
  let start := dateNow E (steps w) in
  match run E (waitForPostgresReady config polls hostPort) w with
  | (Returned _, w') =>
      exists t,
        steps w < t /\ steps w' = S (S (S t)) /\
        (dateNow E t - start < readinessTimeoutMs config)%Z /\
        refuses E (S t) unit (PgConnect hostPort) = None /\
        refuses E (S (S t)) unit (PgEnd hostPort) = None
  | (Thrown e, w') =>
      exists t last,
        steps w < t /\ steps w' = S t /\
        (readinessTimeoutMs config <= dateNow E t - start)%Z /\
        e = notReady config last /\
        (last = None \/
         exists t' e', S (steps w) < t' < t /\ last = Some e' /\
           (refuses E t' unit (PgConnect hostPort) = Some e' \/
            refuses E t' unit (PgEnd hostPort) = Some e'))
  | (Pending, _) => True
  end.
Proof.
  cbv zeta. rewrite waitForPostgresReady_run.
  pose proof (pollUntilReady_outcomes polls hostPort (dateNow E (steps w)) None
                (tick w)) as H.
  destruct (run E (pollUntilReady config polls hostPort (dateNow E (steps w)) None)
              (tick w)) as [[[]|e|] w']; [| |exact I].
  - destruct H as (t & Ht & Hrest). cbn in Ht. exists t. split; [lia|exact Hrest].
  - destruct H as (t & last & Ht & Hst & Hlate & He & Hlast). cbn in Ht.
    exists t, last. split; [lia|]. split; [exact Hst|]. split; [exact Hlate|].
    split; [exact He|].
    destruct Hlast as [->|(t' & e' & Ht' & Hrest)]; [now left|right].
    exists t', e'. cbn in Ht'. split; [lia|exact Hrest].
Qed.

(** X4.  [waitForPostgresReady] returns only after a connection was opened
    and closed without error before the deadline.  It throws nothing but
    its own error, which names the bound and the last failure (or null
    when no attempt was made), never the connection error itself, and
    only once the clock has reached the deadline.  It touches neither the
    registry nor the containers. *)
Theorem waitForPostgresReady_outcomes (hostPort : Z) (w : World) :
  let start := dateNow E (steps w) in
  let out := run E (waitForPostgresReady config polls hostPort) w in
  sameResources w out.2 /\
  match out with
  | (Returned _, w') =>
      exists t,
        steps w < t /\ steps w' = S (S (S t)) /\
        (dateNow E t - start < readinessTimeoutMs config)%Z /\
        refuses E (S t) unit (PgConnect hostPort) = None /\
        refuses E (S (S t)) unit (PgEnd hostPort) = None
  | (Thrown e, w') =>
      exists t last,
        steps w < t /\ steps w' = S t /\
        (readinessTimeoutMs config <= dateNow E t - start)%Z /\
        e = notReady config last /\
        (last = None \/
         exists t' e', S (steps w) < t' < t /\ last = Some e' /\
           (refuses E t' unit (PgConnect hostPort) = Some e' \/
            refuses E t' unit (PgEnd hostPort) = Some e'))
  | (Pending, _) => True
  end.
Proof.
  cbv zeta. split.
  { apply quiet_run, quiet_waitForPostgresReady. }
  apply waitForPostgresReady_cases.
Qed.

(** X5.  [waitForPostgresReady] does not poll for ever: if the clock is past
    the deadline from step [T] on, and the polls followed reach [T], the
    call ends, with a sandbox found ready or with its own error. *)
Theorem waitForPostgresReady_ends (hostPort : Z) (w : World) (T : nat) :
  (forall t, T <= t ->
     (readinessTimeoutMs config <= dateNow E t - dateNow E (steps w))%Z) ->
  0 < polls ->
  T <= S (steps w) + 3 * (polls - 1) ->
  exists w',
    run E (waitForPostgresReady config polls hostPort) w = (Returned tt, w') \/
    exists last,
      run E (waitForPostgresReady config polls hostPort) w =
      (Thrown (notReady config last), w').
Proof.
  intros Hlate Hpolls HT.
  pose proof (waitForPostgresReady_cases hostPort w) as Hout. cbv zeta in Hout.
  pose proof (pollUntilReady_ends T hostPort (dateNow E (steps w)) polls None
                (tick w) Hlate Hpolls) as Hend.
  rewrite waitForPostgresReady_run in *.
  destruct (run E (pollUntilReady config polls hostPort (dateNow E (steps w)) None)
              (tick w)) as [[[]|e|] w'].
  - exists w'. now left.
  - exists w'. right. destruct Hout as (t & last & _ & _ & _ & -> & _).
    now exists last.
  - exfalso. apply Hend; [cbn; lia|reflexivity].
Qed.

End provision_facts.

(** ** Talking to a sandbox *)

Section sandbox_facts.
Import Json Manager Footprint Report Trace.
Context (E : Env) (config : SandboxConfig) (polls : nat).

Lemma executePostgresQuery_run hostPort query w :
  run E (executePostgresQuery hostPort query) w =
  match refuses E (steps w) unit (PgConnect hostPort) with
  | Some e => (Thrown e, tick w)
  | None =>
      match refuses E (S (steps w)) PgResult (PgQuery hostPort query []) with
      | Some e =>
          (match refuses E (S (S (steps w))) unit (PgEnd hostPort) with
           | Some e' => Thrown e'
           | None => Thrown e
           end, tick (tick (tick w)))
      | None =>
          (match refuses E (S (S (steps w))) unit (PgEnd hostPort) with
           | Some e' => Thrown e'
           | None =>
               Returned
                 {| rows := pg_rows (pgResult E (S (steps w)));
                    columns := default [] (pg_fields (pgResult E (S (steps w)))) |}
           end,
           tick (withExecuted ((hostPort, query, []) :: executed w) (tick (tick w))))
      end
  end.
Proof.
  unfold executePostgresQuery. rewrite run_bind, run_await. unfold ioStep at 1.
  destruct (refuses E (steps w) unit (PgConnect hostPort)) as [e|]; [reflexivity|].
  rewrite run_tryFinally, run_bind, run_await. unfold ioStep at 1.
  cbn [steps tick].
  destruct (refuses E (S (steps w)) PgResult (PgQuery hostPort query [])) as [e|].
  - rewrite run_await. unfold ioStep. cbn [steps tick].
    destruct (refuses E (S (S (steps w))) unit (PgEnd hostPort)); reflexivity.
  - cbn [run mret Prog_ret]. rewrite run_await. unfold ioStep.
    cbn [steps tick withExecuted].
    destruct (refuses E (S (S (steps w))) unit (PgEnd hostPort)); [reflexivity|].
    destruct (pg_fields (pgResult E (S (steps w)))); reflexivity.
Qed.

(** X6.  [executePostgresQuery] sends nothing when the connection is
    refused.  Once connected it sends the query text as given, without
    parameters, and always closes the client afterwards.  It returns the
    rows with the names of the result's fields, or no column names when
    the driver reports no fields.  A rejected query is rethrown; an error
    from closing the client takes the place of the result or of the
    query's error.  Neither registry nor containers are touched. *)
Theorem executePostgresQuery_outcomes (hostPort : Z) (query : string) (w : World) :
  let t := steps w in
  let out := run E (executePostgresQuery hostPort query) w in
  sameResources w out.2 /\
  match refuses E t unit (PgConnect hostPort) with
  | Some e => out.1 = Thrown e /\ executed out.2 = executed w /\ steps out.2 = S t
  | None =>
      steps out.2 = S (S (S t)) /\
      match refuses E (S t) PgResult (PgQuery hostPort query []),
            refuses E (S (S t)) unit (PgEnd hostPort) with
      | Some e, None => out.1 = Thrown e /\ executed out.2 = executed w
      | Some _, Some e' => out.1 = Thrown e' /\ executed out.2 = executed w
      | None, Some e' =>
          out.1 = Thrown e' /\
          executed out.2 = (hostPort, query, []) :: executed w
      | None, None =>
          out.1 = Returned
                    {| rows := pg_rows (pgResult E (S t));
                       columns := default [] (pg_fields (pgResult E (S t))) |} /\
          executed out.2 = (hostPort, query, []) :: executed w
      end
  end.
Proof.
  cbv zeta. split.
  { apply quiet_run, quiet_executePostgresQuery. }
  rewrite executePostgresQuery_run.
  destruct (refuses E (steps w) unit (PgConnect hostPort)) as [e|].
  { repeat split. }
  destruct (refuses E (S (steps w)) PgResult (PgQuery hostPort query [])) as [e|];
    destruct (refuses E (S (S (steps w))) unit (PgEnd hostPort)) as [e'|];
    repeat split.
Qed.

(** *** Seeding stops at the first failure *)

Lemma prefix_nil_list {X} (l : list X) : [] `prefix_of` l.
Proof. now exists l. Qed.

Lemma sends_bind {A B} port all1 all2 (p : Prog A) (f : A -> Prog B) w :
  sendsPrefix E port all1 p w ->
  (forall a w', run E p w = (Returned a, w') -> sendsPrefix E port all2 (f a) w') ->
  sendsPrefix E port (all1 ++ all2)%list (p ≫= f) w.
Proof.
  intros (sent & Hpre & Hiss & Hout) Hf. unfold sendsPrefix. rewrite run_bind.
  destruct (run E p w) as [[a|e|] w1]; cbn [fst snd] in *.
  - subst sent. destruct (Hf a w1 eq_refl) as (sent2 & Hpre2 & Hiss2 & Hout2).
    exists (all1 ++ sent2)%list. split; [|split].
    + destruct Hpre2 as (k & ->). exists k. now rewrite <- List.app_assoc.
    + eapply issued_app; eauto.
    + destruct (run E (f a) w1) as [[b|e|] w2]; cbn [fst snd] in *;
        [now subst|exact I|exact Hout2].
  - exists sent. split; [|split; [exact Hiss|exact I]].
    destruct Hpre as (k & ->). exists (k ++ all2)%list.
    now rewrite <- List.app_assoc.
  - contradiction.
Qed.

Lemma sends_forEach {X} port (f : X -> list (string * list (option json)))
  (body : X -> Prog unit) (l : list X) :
  (forall x w, sendsPrefix E port (f x) (body x) w) ->
  forall w, sendsPrefix E port (List.concat (List.map f l)) (forEach l body) w.
Proof.
  intros Hbody. induction l as [|x l IH]; intros w.
  - exists []. cbn. repeat split. apply prefix_nil_list.
  - rewrite forEach_cons. cbn [List.map List.concat].
    apply sends_bind; [apply Hbody|]. intros _ w' _. apply IH.
Qed.

Lemma sends_query port sql params w :
  sendsPrefix E port [(sql, params)] (await (PgQuery port sql params);; mret tt) w.
Proof.
  unfold sendsPrefix. rewrite run_bind, run_await. unfold ioStep.
  destruct (refuses E (steps w) PgResult (PgQuery port sql params)) as [e|].
  - exists []. cbn. repeat split. apply prefix_nil_list.
  - exists [(sql, params)]. cbn. repeat split. reflexivity.
Qed.

Lemma sends_nothing {A} port (p : Prog A) w :
  executed (run E p w).2 = executed w ->
  (run E p w).1 <> Pending ->
  sendsPrefix E port [] p w.
Proof.
  intros He Hp. exists []. split; [reflexivity|]. split; [exact He|].
  destruct (run E p w).1; auto.
Qed.

Lemma sends_closing {A} port all (p : Prog A) w :
  sendsPrefix E port all p w ->
  sendsPrefix E port all (tryFinally p (await (PgEnd port))) w.
Proof.
  intros (sent & Hpre & Hiss & Hout). unfold sendsPrefix.
  rewrite run_tryFinally.
  destruct (run E p w) as [[a|e|] w1]; cbn [fst snd] in *; [| |contradiction];
    rewrite run_await; unfold ioStep;
    destruct (refuses E (steps w1) unit (PgEnd port)) as [e'|];
    exists sent; cbn [fst snd]; (split; [exact Hpre|]);
    (split; [exact Hiss|auto]).
Qed.

(** X7.  [seedPostgresDatabase] sends the schema statements and then the
    inserts, in order, and stops at the first statement the sandbox
    rejects: what the sandbox has executed is always a prefix of the full
    list, the whole of it when the call returns.  The call always ends,
    and touches neither registry nor containers. *)
Theorem seedPostgresDatabase_stops_at_first_failure (port : Z) (dbml : string)
  (data : Seed.SeedData) (w : World) :
  let all :=
    (List.map (fun statement => (statement, [])) (schemaOf E dbml) ++
     Seed.inserts data)%list in
  let out := run E (seedPostgresDatabase port dbml data) w in
  sameResources w out.2 /\
  exists sent,
    sent `prefix_of` all /\
    issued port sent w out.2 /\
    match out.1 with
    | Returned _ => sent = all
    | Thrown _ => True
    | Pending => False
    end.
Proof.
  cbv zeta. split.
  { apply quiet_run, quiet_seedPostgresDatabase. }
  change (sendsPrefix E port
            (List.map (fun statement => (statement, [])) (schemaOf E dbml) ++
             Seed.inserts data)%list
            (seedPostgresDatabase port dbml data) w).
  unfold seedPostgresDatabase.
  apply (sends_bind port [] _ (sync (SchemaStatements dbml))).
  { apply sends_nothing; rewrite run_sync; [reflexivity|discriminate]. }
  intros statements w1. rewrite run_sync. cbn [fst snd syncStep].
  intros [= <- <-].
  apply (sends_bind port [] _ (await (PgConnect port))).
  { apply sends_nothing; rewrite run_await; unfold ioStep;
      destruct (refuses E (steps w) unit (PgConnect port));
      cbn; (reflexivity || discriminate). }
  intros _ w2 _. apply sends_closing. apply sends_bind.
  - rewrite <- (concat_singletons
                  (List.map (fun statement => (statement, [])) (schemaOf E dbml))).
    rewrite List.map_map.
    apply (sends_forEach port (fun statement => [(statement, [])])).
    intros statement w3. apply sends_query.
  - intros _ w3 _. unfold Seed.inserts.
    apply (sends_forEach port (fun tr => Seed.tableInserts (fst tr) (snd tr))).
    intros [tableName rows] w4. cbn [fst snd]. unfold Seed.tableInserts.
    destruct rows as [|row0 rows].
    { apply sends_nothing; [reflexivity|discriminate]. }
    destruct (Seed.keys row0) as [|col cols] eqn:Hkeys.
    { apply sends_nothing; [reflexivity|discriminate]. }
    rewrite <- (concat_singletons
                  (List.map
                     (fun row => (Seed.insertSQL tableName (col :: cols),
                                  Seed.values (col :: cols) row))
                     (row0 :: rows))).
    rewrite List.map_map.
    apply (sends_forEach port
             (fun row => [(Seed.insertSQL tableName (col :: cols),
                           Seed.values (col :: cols) row)])).
    intros row w5. apply sends_query.
Qed.

End sandbox_facts.

(** ** A container that does not start *)

Section launch_facts.
Import Json Manager Footprint.
Context (E : Env) (config : SandboxConfig) (polls : nat).

(** X8.  The rollback of [createSandbox] covers readiness and seeding
    only.  When Docker creates the container and then refuses to start
    it, [createSandbox] rethrows that error at once: nothing is
    registered, no removal is attempted, and the container just created
    stays in Docker, stopped, under the name of the session. *)
Theorem createSandbox_start_refused (sessionId dbml : string)
  (data : Seed.SeedData) (engine : SupportedEngine) (dataHash : string)
  (w w1 : World) (hostPort : Z) (e : Error) :
  run E (ensureImage config engine;; allocatePort) w = (Returned hostPort, w1) ->
  (forall env,
     refuses E (steps w1) ContainerId
       (CreateContainer (image config) (containerName sessionId) env hostPort)
     = None) ->
  refuses E (S (steps w1)) unit (Start (nextContainer w1)) = Some e ->
  exists w',
    run E (createSandbox config polls sessionId dbml data engine dataHash) w =
    (Thrown e, w') /\
    sandboxes w' = sandboxes w /\
    containers w' =
      <[nextContainer w :=
          {| name := containerName sessionId; port := hostPort; running := false |}]>
        (containers w) /\
    console w' = console w1 /\
    steps w' = S (S (steps w1)).
Proof.
  intros Hport Hcreate Hstart.
  assert (Hq : sameResources w w1).
  { pose proof (quiet_run E (ensureImage config engine;; allocatePort) w) as H.
    rewrite Hport in H. apply H.
    apply quiet_bind; [apply quiet_ensureImage|]. intros _. apply quiet_allocatePort. }
  destruct Hq as (Hs & Hc & Hn).
  unfold createSandbox. destruct engine.
  rewrite run_bind in Hport |- *.
  destruct (run E (ensureImage config postgres) w) as [[[]|e0|] w0];
    try discriminate.
  rewrite run_bind, Hport, run_bind.
  unfold launchPostgresContainer. rewrite run_bind, run_await.
  unfold ioStep at 1. rewrite Hcreate.
  rewrite run_bind, run_await. unfold ioStep.
  cbn [steps tick withContainers]. rewrite Hstart.
  eexists. split; [reflexivity|]. cbn. rewrite Hs, Hc, Hn. repeat split.
Qed.

End launch_facts.

(** ** Counting the sessions *)

Section count_facts.
Import Json Manager Footprint Phases Admin.
Context (E : Env) (config : SandboxConfig) (polls : nat).

Lemma length_mapSet k v m :
  length (mapSet k v m) = if mapHas k m then length m else S (length m).
Proof.
  unfold mapHas. induction m as [|[k' v'] m IH]; [reflexivity|].
  cbn [mapSet mapGet]. destruct (k' =? k)%string; [reflexivity|].
  cbn [length]. rewrite IH. now destruct (mapGet k m).
Qed.

Lemma mapDelete_fresh k m :
  ~ List.In k (List.map fst m) -> mapDelete k m = m.
Proof.
  intros Hin. apply mapDelete_absent. now apply mapGet_None_keys.
Qed.

Lemma length_mapDelete k m :
  uniqueKeys m ->
  length (mapDelete k m) = if mapHas k m then pred (length m) else length m.
Proof.
  unfold mapHas, uniqueKeys.
  induction m as [|[k' v'] m IH]; intros Hu; [reflexivity|].
  cbn [List.map fst] in Hu. apply List.NoDup_cons_iff in Hu as [Hk' Hu].
  unfold mapDelete. cbn [List.filter fst mapGet].
  destruct (String.eqb_spec k' k) as [->|Hne]; cbn [negb].
  - fold (mapDelete k m). now rewrite mapDelete_fresh.
  - fold (mapDelete k m). cbn [length]. rewrite (IH Hu).
    destruct (mapGet k m) eqn:Hk; [|reflexivity].
    destruct m; [discriminate|reflexivity].
Qed.

Lemma getActiveSandboxesCount_run w :
  run E getActiveSandboxesCount w = (Returned (length (sandboxes w)), w).
Proof. unfold getActiveSandboxesCount. now rewrite run_bind, run_sync. Qed.

(** X9.  [getActiveSandboxesCount] reports the number of registered
    sessions and changes nothing.  A successful [getOrCreateSandbox]
    raises the count by one exactly when the key it returns was not
    registered before, and leaves it as it was on a reuse or a rebuild;
    [deleteSandbox] lowers it by one exactly when its key was
    registered. *)
Theorem activeCount_tracks_registry (w : World) :
  uniqueKeys (sandboxes w) -> filedById (sandboxes w) ->
  run E getActiveSandboxesCount w = (Returned (length (sandboxes w)), w) /\
  (forall request r w',
     run E (getOrCreateSandbox config polls request) w = (Returned r, w') ->
     uniqueKeys (sandboxes w') /\
     run E getActiveSandboxesCount w' =
     (Returned (if mapHas (sessionId r) (sandboxes w)
                then length (sandboxes w)
                else S (length (sandboxes w))), w')) /\
  (forall key,
     let w' := (run E (deleteSandbox key) w).2 in
     uniqueKeys (sandboxes w') /\
     run E getActiveSandboxesCount w' =
     (Returned (if mapHas key (sandboxes w)
                then pred (length (sandboxes w))
                else length (sandboxes w)), w')).
Proof.
  intros Hu Hfiled. split; [apply getActiveSandboxesCount_run|]. split.
  - intros request r w'. rewrite getOrCreateSandbox_run.
    destruct (normalize_facts E request w) as (Hs0 & _).
    destruct (normalize E request w) as [key w0]. cbn [fst snd] in *.
    rewrite <- Hs0 in *. clear Hs0. rewrite getActiveSandboxesCount_run.
    destruct (mapGet key (sandboxes w0)) as [s|] eqn:Hk.
    + pose proof (Hfiled _ _ Hk) as Hsid.
      assert (Hhas : mapHas key (sandboxes w0) = true).
      { unfold mapHas. now rewrite Hk. }
      assert (Hdrift :
                run E (replaceSandbox config polls (sessionId s) (req_dbml request)
                         (req_data request) (default postgres (req_engine request))
                         (computeDataHash (req_dbml request) (req_data request)))
                  w0 = (Returned r, w') ->
                uniqueKeys (sandboxes w') /\
                (Returned (length (sandboxes w')), w') =
                (Returned (if mapHas (sessionId r) (sandboxes w0)
                           then length (sandboxes w0)
                           else S (length (sandboxes w0))), w')).
      { pose proof (replaceSandbox_run E config polls (sessionId s) (req_dbml request)
                      (req_data request) (default postgres (req_engine request))
                      (computeDataHash (req_dbml request) (req_data request)) w0) as H.
        intros Hr. rewrite Hr in H.
        destruct H as (hp & t & _ & _ & -> & Hs & _). cbn [sessionId].
        rewrite Hs, Hsid, Hhas. split.
        - now apply uniqueKeys_mapSet, uniqueKeys_mapDelete.
        - rewrite length_mapSet, length_mapDelete by exact Hu.
          unfold mapHas at 1. rewrite mapGet_mapDelete_eq, Hhas.
          destruct (sandboxes w0); [discriminate|reflexivity]. }
      destruct (String.eqb_spec (dbml s) (req_dbml request)) as [Hd|Hd];
        [destruct (String.eqb_spec (dataHash s)
                     (computeDataHash (req_dbml request) (req_data request)))
          as [Hh|Hh]|].
      * rewrite (dispatch_reuse E config polls request key s w0 Hk Hd Hh).
        intros [= <- <-]. cbn. rewrite Hsid, Hhas. split.
        -- now apply uniqueKeys_mapSet.
        -- now rewrite length_mapSet, Hhas.
      * rewrite (dispatch_drift E config polls request key s w0 Hk) by now right.
        exact Hdrift.
      * rewrite (dispatch_drift E config polls request key s w0 Hk) by now left.
        exact Hdrift.
    + rewrite (dispatch_absent E config polls request key w0 Hk).
      pose proof (createSandbox_run E config polls key (req_dbml request)
                    (req_data request) (default postgres (req_engine request))
                    (computeDataHash (req_dbml request) (req_data request)) w0) as H.
      intros Hr. rewrite Hr in H.
      destruct H as (hp & t & _ & _ & -> & Hs & _). cbn [sessionId].
      rewrite Hs. split; [now apply uniqueKeys_mapSet|].
      rewrite length_mapSet. reflexivity.
  - intros key. cbv zeta.
    destruct (deleteSandbox_run E key w) as (w' & -> & Hs & _). cbn [snd].
    rewrite getActiveSandboxesCount_run, Hs. split.
    + now apply uniqueKeys_mapDelete.
    + now rewrite length_mapDelete.
Qed.

End count_facts.

(** ** [SQLExecutor.execute] *)

Section execute_facts.
Import Json Manager Footprint Phases Report.
Context (E : Env) (config : SandboxConfig) (polls : nat).

Lemma execute_run request w :
  run E (execute config polls request) w =
  match run E (getOrCreateSandbox config polls (sandboxRequest request)) (tick w) with
  | (Returned s, w1) =>
      match run E (executeQuery (sessionId s) (exec_query request)) w1 with
      | (Returned res, w2) =>
          (Returned {| success := true;
                       resp_rows := Some (rows res);
                       resp_columns := Some (columns res);
                       executionTime := dateNow E (steps w2) - dateNow E (steps w);
                       resp_error := None;
                       resp_sessionId := Some (sessionId s);
                       resp_engine := Some (engine s) |}, tick w2)
      | (Thrown e, w2) =>
          (Returned (failureResponse e (dateNow E (steps w2) - dateNow E (steps w))),
           tick w2)
      | (Pending, w2) => (Pending, w2)
      end
  | (Thrown e, w1) =>
      (Returned (failureResponse e (dateNow E (steps w1) - dateNow E (steps w))),
       tick w1)
  | (Pending, w1) => (Pending, w1)
  end.
Proof.
  unfold execute. rewrite run_bind, run_sync. cbn [syncStep fst snd].
  rewrite run_tryCatch, run_bind. fold (sandboxRequest request).
  destruct (run E (getOrCreateSandbox config polls (sandboxRequest request)) (tick w))
    as [[s|e|] w1]; [| |reflexivity].
  - rewrite run_bind.
    destruct (run E (executeQuery (sessionId s) (exec_query request)) w1)
      as [[res|e|] w2]; [| |reflexivity].
    + rewrite run_bind, run_sync. reflexivity.
    + rewrite run_bind, run_sync. reflexivity.
  - rewrite run_bind, run_sync. reflexivity.
Qed.

Lemma executeQuery_keeps_record key query s w :
  mapGet key (sandboxes w) = Some s ->
  let out := run E (executeQuery key query) w in
  mapGet key (sandboxes out.2) = Some (withLastAccessed (dateNow E (steps w)) s) /\
  containers out.2 = containers w.
Proof.
  intros Hk. cbv zeta. rewrite (executeQuery_registered E key query s w Hk).
  pose proof (quiet_run E (executePostgresQuery (hostPort s) query)
                (withSandboxes
                   (mapSet key (withLastAccessed (dateNow E (steps w)) s) (sandboxes w))
                   (tick w)) (quiet_executePostgresQuery _ _)) as (Hs & Hc & _).
  rewrite Hs, Hc. cbn. split; [apply mapGet_mapSet_eq|reflexivity].
Qed.

(** X10.  [execute] never throws: whatever fails while the sandbox is
    obtained or the query runs comes back as a response with
    [success: false] and the error's message, and with no rows, columns,
    session id or engine.  A response with [success: true] carries rows,
    columns and no error, and names the session and engine of a sandbox
    that is registered when the call ends, built from the request's
    schema description.  The time reported is the clock read at the end
    minus the clock read at the start. *)
Theorem execute_never_throws (request : ExecuteQueryRequest) (w : World) :
  filedById (sandboxes w) ->
  match run E (execute config polls request) w with
  | (Thrown _, _) => False
  | (Pending, _) => True
  | (Returned r, w') =>
      0 < steps w' /\
      executionTime r = (dateNow E (pred (steps w')) - dateNow E (steps w))%Z /\
      if success r then
        resp_error r = None /\
        is_Some (resp_rows r) /\ is_Some (resp_columns r) /\
        exists s,
          resp_sessionId r = Some (sessionId s) /\
          resp_engine r = Some (engine s) /\
          mapGet (sessionId s) (sandboxes w') = Some s /\
          dbml s = exec_dbml request
      else
        is_Some (resp_error r) /\
        resp_rows r = None /\ resp_columns r = None /\
        resp_sessionId r = None /\ resp_engine r = None
  end.
Proof.
  intros Hfiled. rewrite execute_run.
  destruct (run E (getOrCreateSandbox config polls (sandboxRequest request)) (tick w))
    as [[s|e|] w1] eqn:Hget; [| |exact I].
  - apply getOrCreateSandbox_post in Hget as (Hk & _ & Hd & _); [|exact Hfiled].
    destruct (executeQuery_keeps_record (sessionId s) (exec_query request) s w1 Hk)
      as (Hk2 & _).
    destruct (run E (executeQuery (sessionId s) (exec_query request)) w1)
      as [[res|e|] w2]; [| |exact I]; cbn [fst snd] in Hk2.
    + cbn. split; [lia|]. split; [reflexivity|]. split; [reflexivity|].
      split; [eauto|]. split; [eauto|].
      exists (withLastAccessed (dateNow E (steps w1)) s). repeat split; auto.
    + cbn. split; [lia|]. repeat split. eauto.
  - cbn. split; [lia|]. repeat split. eauto.
Qed.

(** X11.  When the sandbox was obtained and the query then fails, the
    response of [execute] reports the failure without a session id,
    although the sandbox stays registered and its container stays as it
    was: the response does not tell the client which session to present
    next time. *)
Theorem execute_failure_hides_session (request : ExecuteQueryRequest)
  (w w1 w2 : World) (s : SandboxInstance) (e : Error) :
  filedById (sandboxes w) ->
  run E (getOrCreateSandbox config polls (sandboxRequest request)) (tick w) =
  (Returned s, w1) ->
  run E (executeQuery (sessionId s) (exec_query request)) w1 = (Thrown e, w2) ->
  exists r,
    run E (execute config polls request) w = (Returned r, tick w2) /\
    success r = false /\
    resp_error r = Some (message e) /\
    resp_sessionId r = None /\
    mapGet (sessionId s) (sandboxes (tick w2)) =
    Some (withLastAccessed (dateNow E (steps w1)) s) /\
    containers (tick w2) = containers w1.
Proof.
  intros Hfiled Hget Hq. rewrite execute_run, Hget, Hq.
  apply getOrCreateSandbox_post in Hget as (Hk & _); [|exact Hfiled].
  destruct (executeQuery_keeps_record (sessionId s) (exec_query request) s w1 Hk)
    as (Hk2 & Hc2).
  rewrite Hq in Hk2, Hc2. cbn [fst snd] in Hk2, Hc2.
  eexists. split; [reflexivity|]. cbn. auto.
Qed.

End execute_facts.

(** ** [cleanupAll] *)

Section cleanupAll_facts.
Import Json Manager Footprint Admin.
Context (E : Env).

Lemma ioStep_sandboxes {X} (op : IoOp X) w :
  sandboxes (ioStep E op w).2 = sandboxes w.
Proof.
  unfold ioStep.
  destruct op; cbn;
    repeat match goal with
           | |- context [match ?x with _ => _ end] => destruct x; cbn
           end; reflexivity.
Qed.

(** A deletion under way runs on to its next [await], the registry as it
    was, or to its end, the key deleted. *)
Lemma settle_deleting key n p :
  deleting key n p ->
  forall w,
    (settle E p w).1 = Ret tt /\
    sandboxes (settle E p w).2 = mapDelete key (sandboxes w) \/
    exists m, n = S m /\ waiting key m (settle E p w).1 /\
      sandboxes (settle E p w).2 = sandboxes w.
Proof.
  induction 1 as [n k Hk|n X op k Hq _ IH|n X op k Hk]; intros w.
  - left. cbn [settle syncStep]. rewrite Hk. cbn. auto.
  - cbn [settle].
    pose proof (syncStep_quiet E op w Hq) as (Hs & _).
    destruct (syncStep E op w) as [x w1]. cbn [snd] in Hs.
    destruct (IH x w1) as [[Hp Hd]|(m & -> & Hw & Hd)].
    + left. split; [exact Hp|]. now rewrite Hd, Hs.
    + right. exists m. split; [reflexivity|]. split; [exact Hw|].
      now rewrite Hd, Hs.
  - right. exists n. split; [reflexivity|]. split; [exact Hk|reflexivity].
Qed.

(** [deleteSandbox] on a registered key stops at the [stop] of the
    container, the world untouched, two operations from its end. *)
Lemma deleteSandbox_started key s w :
  mapGet key (sandboxes w) = Some s ->
  (settle E (deleteSandbox key) w).2 = w /\
  waiting key 1 (settle E (deleteSandbox key) w).1.
Proof.
  intros Hk. unfold deleteSandbox.
  rewrite settle_bind, settle_sync. cbn [syncStep fst snd]. rewrite Hk.
  split; [reflexivity|].
  intros r1. unfold await, sync. cbn.
  apply deleting_await. intros [[]|e]; cbn.
  - apply deleting_last. now intros [].
  - apply deleting_sync; [reflexivity|]. intros _.
    apply deleting_last. now intros [].
Qed.

Lemma mapGet_mapDelete_None k k' m :
  mapGet k m = None -> mapGet k (mapDelete k' m) = None.
Proof.
  intros H. destruct (String.eqb_spec k' k) as [->|Hne].
  - apply mapGet_mapDelete_eq.
  - now rewrite mapGet_mapDelete_ne.
Qed.

Lemma mapGet_mapDelete_Some k k' s m :
  mapGet k (mapDelete k' m) = Some s -> mapGet k m = Some s.
Proof.
  destruct (String.eqb_spec k' k) as [->|Hne].
  - now rewrite mapGet_mapDelete_eq.
  - now rewrite mapGet_mapDelete_ne.
Qed.

(** Every deletion starts suspended, the world untouched. *)
Lemma startAll_deletions keys : forall w,
  (forall k, List.In k keys -> exists s, mapGet k (sandboxes w) = Some s) ->
  (startAll E (List.map deleteSandbox keys) w).2 = w /\
  Forall2 (fun key p => waiting key 1 p) keys
    (startAll E (List.map deleteSandbox keys) w).1.
Proof.
  induction keys as [|key keys IH]; intros w Hreg.
  - split; [reflexivity|constructor].
  - cbn [List.map startAll].
    destruct (Hreg key (or_introl eq_refl)) as (s & Hk).
    destruct (deleteSandbox_started key s w Hk) as (Hw & Hp).
    destruct (settle E (deleteSandbox key) w) as [p w1]. cbn [fst snd] in *.
    subst w1.
    destruct (IH w (fun k Hin => Hreg k (or_intror Hin))) as (Hw' & Hps).
    destruct (startAll E (List.map deleteSandbox keys) w) as [ps w2].
    cbn [fst snd] in *. split; [exact Hw'|]. now constructor.
Qed.

Lemma keys_registered (m : Sandboxes) k :
  List.In k (List.map fst m) -> exists s, mapGet k m = Some s.
Proof.
  intros Hin. destruct (mapGet k m) as [s|] eqn:Hk; [eauto|].
  now apply mapGet_None_keys in Hk.
Qed.

Lemma cleanupAllStart_deletions w :
  deletionsOf (List.map fst (sandboxes w)) (cleanupAllStart E w) /\
  batchWorld (cleanupAllStart E w) = w.
Proof.
  unfold cleanupAllStart.
  destruct (startAll_deletions (List.map fst (sandboxes w)) w
              (keys_registered (sandboxes w))) as (Hw & Hps).
  destruct (startAll E (List.map deleteSandbox (List.map fst (sandboxes w))) w)
    as [ps w1]. cbn [fst snd] in *. subst w1.
  split; [|reflexivity]. split; cbn [batchWorld deletions].
  - eapply Forall2_impl; [exact Hps|]. intros key p Hp. right. exists 1. auto.
  - intros k s Hk. apply (List.in_map fst) in Hk || idtac.
    destruct (List.in_dec string_dec k (List.map fst (sandboxes w))) as [Hin|Hout];
      [exact Hin|].
    apply mapGet_None_keys in Hout. congruence.
Qed.

(** Docker completing one operation keeps the deletions what they are. *)
Lemma complete_deletions keys i b :
  deletionsOf keys b -> deletionsOf keys (complete E i b).
Proof.
  intros [Hall Hkeys]. unfold complete.
  destruct (deletions b !! i) as [p|] eqn:Hi; [|now split].
  destruct p as [a|e| |X op k|X op k]; try now split.
  destruct (Forall2_lookup_r _ _ _ _ _ Hall Hi) as (key & Hkey & Hstate).
  destruct Hstate as [[Hp _]|(n & Hn & Hw)]; [discriminate|].
  cbn [waiting] in Hw.
  pose proof (ioStep_sandboxes op (batchWorld b)) as Hio.
  destruct (ioStep E op (batchWorld b)) as [r w1]. cbn [snd] in Hio.
  pose proof (settle_deleting key n (k r) (Hw r) w1) as Hsettle.
  destruct (settle E (k r) w1) as [p' w2]. cbn [fst snd] in Hsettle.
  assert (Hm : sandboxes w2 = sandboxes (batchWorld b) \/
               sandboxes w2 = mapDelete key (sandboxes (batchWorld b))).
  { destruct Hsettle as [[_ Hd]|(m & _ & _ & Hd)]; rewrite Hd, Hio; auto. }
  split; cbn [batchWorld deletions].
  - rewrite <- (list_insert_id keys i key Hkey). apply Forall2_insert.
    + eapply Forall2_impl; [exact Hall|]. intros key' q [[Hq Hgone]|Hwait];
        [left|now right].
      split; [exact Hq|]. destruct Hm as [->| ->]; [exact Hgone|].
      now apply mapGet_mapDelete_None.
    + destruct Hsettle as [[Hp Hd]|(m & -> & Hwait & Hd)].
      * left. split; [exact Hp|]. rewrite Hd, Hio. apply mapGet_mapDelete_eq.
      * right. exists m. split; [lia|exact Hwait].
  - intros k0 s Hk0. destruct Hm as [Hm|Hm]; rewrite Hm in Hk0.
    + eauto.
    + apply mapGet_mapDelete_Some in Hk0. eauto.
Qed.

Lemma completions_deletions keys order : forall b,
  deletionsOf keys b -> deletionsOf keys (completions E order b).
Proof.
  induction order as [|i order IH]; intros b Hb; [exact Hb|].
  apply IH. now apply complete_deletions.
Qed.

(** Once every deletion has settled, nothing is registered and every
    promise is fulfilled. *)
Lemma settled_deletions keys b :
  deletionsOf keys b -> allSettled b = true ->
  sandboxes (batchWorld b) = [] /\ Forall (fun p => p = Ret tt) (deletions b).
Proof.
  intros [Hall Hkeys] Hsettled. unfold allSettled in Hsettled.
  rewrite forallb_forall in Hsettled.
  assert (Hdone : Forall2 (fun key p =>
                    p = Ret tt /\ mapGet key (sandboxes (batchWorld b)) = None)
                    keys (deletions b)).
  { clear Hkeys. revert Hsettled.
    induction Hall as [|key p keys ps Hstate _ IH]; intros Hs;
      constructor.
    - destruct Hstate as [Hdone|(n & _ & Hw)]; [exact Hdone|].
      specialize (Hs p (or_introl eq_refl)).
      destruct p; try discriminate Hs; contradiction.
    - apply IH. intros q Hq. apply Hs. now right. }
  split.
  - destruct (sandboxes (batchWorld b)) as [|[k v] m] eqn:Hm; [reflexivity|].
    exfalso. assert (Hk : mapGet k ((k, v) :: m) = Some v).
    { cbn. now rewrite String.eqb_refl. }
    pose proof (Hkeys k v Hk) as Hin.
    apply list_elem_of_In, list_elem_of_lookup in Hin as (i & Hi).
    destruct (Forall2_lookup_l _ _ _ _ _ Hdone Hi) as (p & _ & _ & Hgone).
    congruence.
  - clear -Hdone. induction Hdone as [|key p keys ps [Hp _] _ IH]; constructor; auto.
Qed.

Lemma complete_length i b :
  length (deletions (complete E i b)) = length (deletions b).
Proof.
  unfold complete. destruct (deletions b !! i) as [p|]; [|reflexivity].
  destruct p as [a|e| |X op k|X op k]; try reflexivity.
  destruct (ioStep E op (batchWorld b)) as [r w1].
  destruct (settle E (k r) w1) as [p' w2]. cbn [deletions].
  apply length_insert.
Qed.

(** A settled promise stays as it is. *)
Lemma complete_keeps_settled i j b p :
  deletions b !! i = Some p -> settled p = true ->
  deletions (complete E j b) !! i = Some p.
Proof.
  intros Hi Hp. unfold complete.
  destruct (deletions b !! j) as [q|] eqn:Hj; [|exact Hi].
  destruct q as [a|e| |X op k|X op k]; try exact Hi.
  destruct (ioStep E op (batchWorld b)) as [r w1].
  destruct (settle E (k r) w1) as [p' w2]. cbn [deletions].
  destruct (Nat.eq_dec j i) as [->|Hne].
  - rewrite Hi in Hj. injection Hj as ->. discriminate.
  - now rewrite list_lookup_insert_ne.
Qed.

Lemma completions_keep_settled order : forall i b p,
  deletions b !! i = Some p -> settled p = true ->
  deletions (completions E order b) !! i = Some p.
Proof.
  induction order as [|j order IH]; intros i b p Hi Hp; [exact Hi|].
  apply IH; [|exact Hp]. now apply complete_keeps_settled.
Qed.

(** After the operation it waits for, a deletion is settled or waits for
    its last operation; after that one it is settled. *)
Lemma complete_twice keys i b :
  deletionsOf keys b -> i < length (deletions b) ->
  exists p,
    deletions (complete E i (complete E i b)) !! i = Some p /\
    settled p = true.
Proof.
  intros [Hall _] Hi.
  destruct (lookup_lt_is_Some_2 _ _ Hi) as (p & Hp).
  destruct (Forall2_lookup_r _ _ _ _ _ Hall Hp) as (key & Hkey & Hstate).
  assert (Hone : forall b0 q n,
            deletions b0 !! i = Some q -> waiting key n q ->
            exists q',
              deletions (complete E i b0) !! i = Some q' /\
              (q' = Ret tt \/ exists m, n = S m /\ waiting key m q')).
  { intros b0 q n Hq Hw. unfold complete. rewrite Hq.
    destruct q as [a|e| |X op k|X op k]; try contradiction.
    cbn [waiting] in Hw.
    destruct (ioStep E op (batchWorld b0)) as [r w1].
    pose proof (settle_deleting key n (k r) (Hw r) w1) as Hsettle.
    destruct (settle E (k r) w1) as [p' w2]. cbn [fst snd deletions] in *.
    exists p'. split.
    - apply list_lookup_insert_eq. now apply lookup_lt_Some in Hq.
    - destruct Hsettle as [[-> _]|(m & -> & Hwait & _)]; [now left|right].
      now exists m. }
  destruct Hstate as [[-> _]|(n & Hn & Hw)].
  - exists (Ret tt). split; [|reflexivity].
    apply complete_keeps_settled; [|reflexivity].
    now apply complete_keeps_settled.
  - destruct (Hone b p n Hp Hw) as (q & Hq & [->|(m & -> & Hwq)]).
    + exists (Ret tt). split; [|reflexivity].
      now apply complete_keeps_settled.
    + destruct (Hone (complete E i b) q m Hq Hwq) as (q' & Hq' & [->|(m' & -> & _)]).
      * exists (Ret tt). split; [exact Hq'|reflexivity].
      * lia.
Qed.

Lemma completions_in_pairs keys order : forall b,
  deletionsOf keys b ->
  (forall i, List.In i order -> i < length (deletions b)) ->
  forall i, List.In i order ->
    exists p,
      deletions (completions E (List.flat_map (fun i => [i; i]) order) b) !! i
      = Some p /\
      settled p = true.
Proof.
  induction order as [|j order IH]; intros b Hb Hlt i Hin; [destruct Hin|].
  cbn [List.flat_map app completions List.fold_left].
  change (List.fold_left (fun b i => complete E i b)
            (List.flat_map (fun i => [i; i]) order)
            (complete E j (complete E j b)))
    with (completions E (List.flat_map (fun i => [i; i]) order)
            (complete E j (complete E j b))).
  assert (Hb2 : deletionsOf keys (complete E j (complete E j b))).
  { now apply complete_deletions, complete_deletions. }
  assert (Hlen : length (deletions (complete E j (complete E j b))) =
                 length (deletions b)).
  { now rewrite !complete_length. }
  destruct (List.in_dec Nat.eq_dec i order) as [Hrest|Hnot].
  - apply (IH _ Hb2); [|exact Hrest].
    intros i' Hi'. rewrite Hlen. apply Hlt. now right.
  - destruct Hin as [->|Hin]; [|contradiction].
    destruct (complete_twice keys i b Hb (Hlt i (or_introl eq_refl)))
      as (p & Hp & Hsettled).
    exists p. split; [|exact Hsettled].
    now apply completions_keep_settled.
Qed.

(** X12.  [cleanupAll] starts one deletion per registered session and
    waits for all of them.  In whatever order Docker completes the
    stops and removals, and whether it refuses some or not, once every
    deletion has settled the registry is empty and none of the promises
    is rejected.  Two completed operations per session settle them
    all.  (A call runs uninterrupted between the operations it awaits.) *)
Theorem cleanupAll_empties_registry (w : World) :
  (forall order,
     let b := completions E order (cleanupAllStart E w) in
     allSettled b = true ->
     sandboxes (batchWorld b) = [] /\
     Forall (fun p => p = Ret tt) (deletions b)) /\
  batchWorld (cleanupAllStart E w) = w /\
  length (deletions (cleanupAllStart E w)) = length (sandboxes w) /\
  allSettled
    (completions E
       (List.flat_map (fun i => [i; i]) (List.seq 0 (length (sandboxes w))))
       (cleanupAllStart E w)) = true.
Proof.
  destruct (cleanupAllStart_deletions w) as (Hstart & Hw).
  assert (Hlen : length (deletions (cleanupAllStart E w)) = length (sandboxes w)).
  { destruct Hstart as [Hall _]. apply Forall2_length in Hall.
    now rewrite <- Hall, List.length_map. }
  split; [|split; [exact Hw|split; [exact Hlen|]]].
  - intros order b. apply settled_deletions with (keys := List.map fst (sandboxes w)).
    now apply completions_deletions.
  - unfold allSettled. apply forallb_forall. intros p Hp.
    apply list_elem_of_In, list_elem_of_lookup in Hp as (i & Hi).
    assert (Hlt : i < length (sandboxes w)).
    { apply lookup_lt_Some in Hi.
      assert (Hsame : forall order b,
                length (deletions (completions E order b)) = length (deletions b)).
      { induction order as [|j order IH]; intros b; [reflexivity|].
        cbn [completions List.fold_left].
        change (List.fold_left (fun b i => complete E i b) order (complete E j b))
          with (completions E order (complete E j b)).
        now rewrite IH, complete_length. }
      rewrite Hsame, Hlen in Hi. exact Hi. }
    destruct (completions_in_pairs (List.map fst (sandboxes w))
                (List.seq 0 (length (sandboxes w))) (cleanupAllStart E w) Hstart)
      with (i := i) as (q & Hq & Hsettled).
    + intros j Hj. apply List.in_seq in Hj. rewrite Hlen. lia.
    + apply List.in_seq. lia.
    + rewrite Hi in Hq. now injection Hq as ->.
Qed.

End cleanupAll_facts.

(** ** The properties above on sample runs *)

Section further_examples.
Import Json Manager Footprint Admin Report Scenario Cases.

Lemma oneSandbox_filed : filedById (sandboxes oneSandbox).
Proof.
  intros k s. unfold oneSandbox. cbn [sandboxes mapGet].
  destruct (String.eqb_spec "s1" k) as [<-|_]; [|discriminate].
  intros [= <-]. reflexivity.
Qed.

Lemma oneSandbox_unique : uniqueKeys (sandboxes oneSandbox).
Proof. repeat constructor. cbn. intros []. Qed.

Lemma waitForPostgresReady_ends_witness :
  (forall t, 5 <= t ->
     (readinessTimeoutMs hasty <=
      dateNow neverReady t - dateNow neverReady (steps emptyWorld))%Z) /\
  exists w',
    run neverReady (waitForPostgresReady hasty 3 49152) emptyWorld =
    (Returned tt, w') \/
    exists last,
      run neverReady (waitForPostgresReady hasty 3 49152) emptyWorld =
      (Thrown (notReady hasty last), w').
Proof.
  assert (Hlate : forall t, 5 <= t ->
            (readinessTimeoutMs hasty <=
             dateNow neverReady t - dateNow neverReady (steps emptyWorld))%Z).
  { intros t Ht. cbn. lia. }
  split; [exact Hlate|].
  apply (waitForPostgresReady_ends neverReady hasty 3 49152 emptyWorld 5 Hlate).
  - lia.
  - cbn. lia.
Defined.

Lemma createSandbox_start_refused_witness :
  let hash := computeDataHash usersDbml usersData in
  let ported :=
    run startRefused (ensureImage defaultConfig postgres;; allocatePort) emptyWorld in
  ported.1 = Returned 49153%Z /\
  exists w',
    run startRefused
      (createSandbox defaultConfig 3 "s2" usersDbml usersData postgres hash)
      emptyWorld = (Thrown portTaken, w') /\
    sandboxes w' = [] /\
    containers w' !! 0%nat =
      Some {| name := containerName "s2"; port := 49153; running := false |}.
Proof.
  intros hash ported.
  assert (Hp : ported = (Returned 49153%Z, ported.2)).
  { vm_compute. reflexivity. }
  split; [now rewrite Hp|].
  destruct (createSandbox_start_refused startRefused defaultConfig 3 "s2"
              usersDbml usersData postgres hash emptyWorld ported.2 49153
              portTaken Hp)
    as (w' & Hrun & Hreg & Hcont & _).
  - reflexivity.
  - reflexivity.
  - exists w'. split; [exact Hrun|]. split; [exact Hreg|].
    rewrite Hcont. reflexivity.
Defined.

Lemma activeCount_tracks_registry_witness :
  run calm getActiveSandboxesCount oneSandbox = (Returned 1, oneSandbox) /\
  (exists r w',
     run calm (getOrCreateSandbox defaultConfig 3 (request (Some "k") usersDbml))
       oneSandbox = (Returned r, w') /\
     run calm getActiveSandboxesCount w' = (Returned 2, w')) /\
  (let w' := (run calm (deleteSandbox "s1") oneSandbox).2 in
   run calm getActiveSandboxesCount w' = (Returned 0, w')).
Proof.
  destruct (activeCount_tracks_registry calm defaultConfig 3 oneSandbox
              oneSandbox_unique oneSandbox_filed) as (Hnow & Hget & Hdel).
  split; [exact Hnow|]. split.
  - destruct (run calm
                (getOrCreateSandbox defaultConfig 3 (request (Some "k") usersDbml))
                oneSandbox) as [o w'] eqn:Hrun.
    assert (Ho : exists r, o = Returned r /\
                   mapHas (sessionId r) (sandboxes oneSandbox) = false).
    { revert Hrun. vm_compute. intros [= <- _]. eexists. split; reflexivity. }
    destruct Ho as (r & -> & Hfresh). exists r, w'. split; [reflexivity|].
    destruct (Hget _ r w' Hrun) as (_ & Hcount). rewrite Hcount, Hfresh.
    reflexivity.
  - intros w'. destruct (Hdel "s1") as (_ & Hcount). exact Hcount.
Defined.

Lemma execute_never_throws_witness :
  filedById (sandboxes oneSandbox) /\
  exists r w',
    run typoRejected (execute defaultConfig 3 typoRequest) oneSandbox =
    (Returned r, w') /\
    success r = false /\
    resp_error r = Some (message syntaxError) /\
    resp_sessionId r = None.
Proof.
  split; [exact oneSandbox_filed|].
  pose proof (execute_never_throws typoRejected defaultConfig 3 typoRequest
                oneSandbox oneSandbox_filed) as H.
  destruct (run typoRejected (execute defaultConfig 3 typoRequest) oneSandbox)
    as [o w'] eqn:Hrun.
  assert (Ho : exists r, o = Returned r /\ success r = false /\
                 resp_error r = Some (message syntaxError)).
  { revert Hrun. vm_compute. intros [= <- _]. eexists. repeat split. }
  destruct Ho as (r & -> & Hs & He). exists r, w'.
  destruct H as (_ & _ & H). rewrite Hs in H.
  destruct H as (_ & _ & _ & Hid & _). auto.
Defined.

Lemma execute_failure_hides_session_witness :
  let got :=
    run typoRejected (getOrCreateSandbox defaultConfig 3 (sandboxRequest typoRequest))
      (tick oneSandbox) in
  got.1 = Returned (withLastAccessed 1731500000001 s1) /\
  exists r w',
    run typoRejected (execute defaultConfig 3 typoRequest) oneSandbox =
    (Returned r, w') /\
    success r = false /\
    resp_sessionId r = None /\
    mapHas "s1" (sandboxes w') = true /\
    containers w' = containers oneSandbox.
Proof.
  intros got.
  assert (Hg : got = (Returned (withLastAccessed 1731500000001 s1), got.2)).
  { vm_compute. reflexivity. }
  split; [now rewrite Hg|].
  pose (asked := run typoRejected
                   (executeQuery (sessionId (withLastAccessed 1731500000001 s1))
                      (exec_query typoRequest)) got.2).
  assert (Hq : asked = (Thrown syntaxError, asked.2)).
  { vm_compute. reflexivity. }
  destruct (execute_failure_hides_session typoRejected defaultConfig 3 typoRequest
              oneSandbox got.2 asked.2 (withLastAccessed 1731500000001 s1)
              syntaxError oneSandbox_filed Hg Hq)
    as (r & Hrun & Hs & _ & Hid & Hreg & Hcont).
  exists r, (tick asked.2). split; [exact Hrun|]. split; [exact Hs|].
  split; [exact Hid|]. split.
  - unfold mapHas. cbn [sessionId withLastAccessed s1] in Hreg. now rewrite Hreg.
  - rewrite Hcont. vm_compute. reflexivity.
Defined.

End further_examples.

(** ** The routes *)

Section route_facts.
Import Json Manager Footprint Query Report Routes.
Context (E : Env) (config : SandboxConfig) (polls : nat).

Lemma execute_does_not_throw request w :
  match run E (execute config polls request) w with
  | (Thrown _, _) => False
  | _ => True
  end.
Proof.
  rewrite execute_run.
  destruct (run E (getOrCreateSandbox config polls (sandboxRequest request)) (tick w))
    as [[s|e|] w1]; try exact I.
  destruct (run E (executeQuery (sessionId s) (exec_query request)) w1)
    as [[res|e|] w2]; exact I.
Qed.


(** X14.  The handler of [DELETE /session/:sessionId] always answers
    "Session deleted": for a session that does not exist, in which case
    nothing happens at all, and also when Docker refuses to remove the
    container; its answer 500 is never given.  Afterwards the session is
    not registered. *)
Theorem deleteSession_always_succeeds (sessionId : string) (w : World) :
  exists w',
    run E (deleteSession sessionId) w = (Returned ReplyDeleted, w') /\
    mapGet sessionId (sandboxes w') = None /\
    (forall k, k <> sessionId -> mapGet k (sandboxes w') = mapGet k (sandboxes w)) /\
    (mapGet sessionId (sandboxes w) = None -> w' = w).
Proof.
  unfold deleteSession. rewrite run_tryCatch, run_bind.
  destruct (deleteSandbox_run E sessionId w) as (w' & -> & Hs & _ & _ & _ & Hcase).
  exists w'. split; [reflexivity|]. rewrite Hs. split; [|split].
  - apply mapGet_mapDelete_eq.
  - intros k Hne. now apply mapGet_mapDelete_ne.
  - intros Hnone. now rewrite Hnone in Hcase.
Qed.

End route_facts.

(** ** The validation of the session-based executor *)

(** Case analysis over the 256 code units. *)
Ltac each_code_unit c :=
  destruct c as [[] [] [] [] [] [] [] []].

Section selectonly_facts.
Import Query SelectOnly.

Lemma all_append p a b :
  Str.all p (a +:+ b) = Str.all p a && Str.all p b.
Proof.
  induction a as [|c a IH]; [reflexivity|].
  cbn [String.append Str.all]. now rewrite IH, andb_assoc.
Qed.

Lemma blank_check query :
  (query =? "")%string || (String.length (trim query) =? 0)%nat =
  Str.all isWhiteSpace query.
Proof.
  destruct (Str.all isWhiteSpace query) eqn:Hws.
  - apply trim_empty in Hws. rewrite Hws. apply orb_true_r.
  - assert (Hq : (query =? "")%string = false).
    { destruct query; [discriminate Hws | reflexivity]. }
    rewrite Hq. cbn [orb].
    destruct (String.length (trim query) =? 0)%nat eqn:Hl; [|reflexivity].
    apply length_zero, trim_empty in Hl. congruence.
Qed.

(** Inside a line comment everything up to the end of the line goes. *)
Lemma removeLineComments_rest m t :
  Str.all (fun c => negb (isLineTerminator c)) t = true ->
  removeLineComments m true t = "".
Proof.
  induction t as [|c t IH]; [reflexivity|].
  cbn [Str.all removeLineComments]. intros H.
  apply andb_true_iff in H as [Hc Ht]. apply negb_true_iff in Hc.
  rewrite Hc. now apply IH.
Qed.

Lemma removeLineComments_outside m c c' r :
  removeLineComments m false (String c (String c' r)) =
  if Ascii.eqb c m && Ascii.eqb c' m then removeLineComments m true r
  else String c (removeLineComments m false (String c' r)).
Proof. reflexivity. Qed.

Lemma removeLineComments_inside m c r :
  removeLineComments m true (String c r) =
  if isLineTerminator c then String c (removeLineComments m false r)
  else removeLineComments m true r.
Proof. reflexivity. Qed.

Lemma removeLineComments_tail t q :
  Str.all (fun c => negb (isLineTerminator c)) t = true ->
  forall inComment,
    removeLineComments "-" inComment (q +:+ "--" +:+ t) =
    removeLineComments "-" inComment (q +:+ "--").
Proof.
  intros Ht. induction q as [|c q IH]; intros inComment.
  - cbn [String.append]. destruct inComment; cbn; now rewrite removeLineComments_rest.
  - cbn [String.append]. destruct inComment.
    + rewrite !(removeLineComments_inside "-" c).
      destruct (isLineTerminator c); now rewrite IH.
    + destruct q as [|c' q].
      * cbn [String.append]. rewrite !(removeLineComments_outside "-" c "-").
        destruct (Ascii.eqb c "-" && Ascii.eqb "-" "-").
        -- cbn. now rewrite removeLineComments_rest.
        -- f_equal. cbn. now rewrite removeLineComments_rest.
      * cbn [String.append] in *. rewrite !(removeLineComments_outside "-" c c').
        destruct (Ascii.eqb_spec c' "-") as [->|Hc'].
        -- rewrite andb_true_r.
           destruct (Ascii.eqb c "-").
           ++ specialize (IH true).
              rewrite !(removeLineComments_inside "-" "-") in IH. exact IH.
           ++ f_equal. exact (IH false).
        -- rewrite andb_false_r. f_equal. exact (IH false).
Qed.

(** X15.  The SELECT-only validation does not look at what follows ["--"]
    on a line, wherever the ["--"] stands, inside a quoted literal
    included: appending any text without a line break after a ["--"]
    never changes the verdict or its message. *)
Theorem validateQuery_ignores_line_comment (q t : string) :
  Str.all (fun c => negb (isLineTerminator c)) t = true ->
  validateQuery (q +:+ "--" +:+ t) = validateQuery (q +:+ "--").
Proof.
  intros Ht. unfold validateQuery. rewrite !blank_check.
  assert (Hblank : forall r, Str.all isWhiteSpace (q +:+ "--" +:+ r) = false).
  { intros r. rewrite all_append. cbn. apply andb_false_r. }
  assert (Hblank' : Str.all isWhiteSpace (q +:+ "--") = false).
  { rewrite all_append. cbn. apply andb_false_r. }
  rewrite (Hblank t), Hblank'.
  unfold cleanedQuery. now rewrite removeLineComments_tail.
Qed.

(** *** What an accepted query begins with *)

Lemma trimStart_head s c r :
  trimStart s = String c r -> isWhiteSpace c = false.
Proof.
  induction s as [|c0 s IH]; [discriminate|]. cbn [trimStart].
  destruct (isWhiteSpace c0) eqn:Hc0; [exact IH|]. now intros [= <- _].
Qed.

Lemma trimEnd_head c s c' r :
  trimEnd (String c s) = String c' r -> c' = c.
Proof.
  cbn [trimEnd]. destruct (trimEnd s); [|now intros [= <- _]].
  destruct (isWhiteSpace c); [discriminate|now intros [= <- _]].
Qed.

Lemma trim_head s c r : trim s = String c r -> isWhiteSpace c = false.
Proof.
  unfold trim. destruct (trimStart s) as [|c0 t] eqn:Hs; [discriminate|].
  intros H. apply trimEnd_head in H as ->. now apply trimStart_head in Hs.
Qed.

(** The upper case of a code unit that is no white space does not begin
    with white space. *)
Lemma upperUnits_head c :
  isWhiteSpace c = false ->
  exists u us, upperUnits c = u :: us /\ isWhiteSpaceUnit u = false.
Proof.
  each_code_unit c; intros H; try discriminate H;
    eexists _, _; (split; [reflexivity|reflexivity]).
Qed.

Lemma startsWith_trimEnd prefix : forall l,
  startsWith prefix (trimEndUnits l) = true -> startsWith prefix l = true.
Proof.
  induction prefix as [|p prefix IH]; [reflexivity|]. intros [|n l]; [discriminate|].
  cbn [trimEndUnits]. destruct (trimEndUnits l) as [|n' t] eqn:Ht.
  - destruct (isWhiteSpaceUnit n); [discriminate|]. cbn [startsWith].
    intros H. apply andb_true_iff in H as [Hp Hrest]. rewrite Hp.
    apply IH. now rewrite Ht.
  - cbn [startsWith]. intros H. apply andb_true_iff in H as [Hp Hrest].
    rewrite Hp. apply IH. now rewrite Ht.
Qed.

(** One letter of the word against the upper case of one code unit: the
    code unit is that letter in either case, or it is a sharp s standing
    for the S that begins SS. *)
Lemma startsWith_letter k word c l :
  List.In k ["S"; "E"; "L"; "C"; "T"]%char ->
  startsWith (String k word) (upperUnits c ++ l) = true ->
  Letters.upperAscii c = k /\ startsWith word l = true \/
  k = "S"%char /\ startsWith word (83%N :: l) = true.
Proof.
  intros Hk H.
  destruct Hk as [<-|[<-|[<-|[<-|[<-|[]]]]]];
    each_code_unit c; cbn in H; try discriminate H; auto.
Qed.

Lemma startsWith_select s :
  startsWith "SELECT" (toUpperCase s) = true ->
  Letters.beginsWith "SELECT" s = true.
Proof.
  destruct s as [|c0 [|c1 [|c2 [|c3 [|c4 [|c5 s]]]]]];
    cbn [toUpperCase]; intros H.
  all: repeat
         match goal with
         | H : startsWith (String ?k ?w) (upperUnits ?c ++ ?l) = true |- _ =>
             apply startsWith_letter in H as [[? H]|[? H]];
             [| |cbn; tauto]
         | H : startsWith (String _ _) [] = true |- _ => discriminate H
         | H : startsWith (String _ _) (83%N :: _) = true |- _ =>
             cbn in H; try discriminate H
         | H : _ = "S"%char |- _ => try discriminate H
         end.
  cbn [Letters.beginsWith].
  repeat match goal with
         | H : Letters.upperAscii _ = _ |- _ => rewrite H; clear H
         end.
  reflexivity.
Qed.


(** *** A forbidden keyword as a word of its own *)

Lemma removeLineComments_none m s :
  Str.all (fun c => negb (Ascii.eqb c m)) s = true ->
  removeLineComments m false s = s.
Proof.
  induction s as [|c s IH]; [reflexivity|]. cbn [Str.all]. intros H.
  apply andb_true_iff in H as [Hc Hs]. apply negb_true_iff in Hc.
  destruct s as [|c' s]; [reflexivity|].
  rewrite removeLineComments_outside, Hc. cbn [andb]. now rewrite IH.
Qed.

Lemma removeBlockComments_outside c c' r :
  removeBlockComments false (String c (String c' r)) =
  if Ascii.eqb c "/" && Ascii.eqb c' "*" &&
     match afterClose r with Some _ => true | None => false end
  then removeBlockComments true r
  else String c (removeBlockComments false (String c' r)).
Proof. reflexivity. Qed.

Lemma removeBlockComments_none s :
  Str.all (fun c => negb (Ascii.eqb c "/")) s = true ->
  removeBlockComments false s = s.
Proof.
  induction s as [|c s IH]; [reflexivity|]. cbn [Str.all]. intros H.
  apply andb_true_iff in H as [Hc Hs]. apply negb_true_iff in Hc.
  destruct s as [|c' s]; [reflexivity|].
  rewrite removeBlockComments_outside, Hc. cbn [andb]. now rewrite IH.
Qed.

Lemma all_weaken (p p' : ascii -> bool) s :
  (forall c, p c = true -> p' c = true) ->
  Str.all p s = true -> Str.all p' s = true.
Proof.
  intros Hp. induction s as [|c s IH]; [reflexivity|]. cbn [Str.all].
  intros H. apply andb_true_iff in H as [Hc Hs]. now rewrite (Hp c Hc), IH.
Qed.

Lemma cleanedQuery_plain query :
  Letters.noCommentMarks query = true -> cleanedQuery query = trim query.
Proof.
  intros H. unfold cleanedQuery.
  rewrite removeLineComments_none, removeBlockComments_none; [reflexivity| |].
  - revert H. apply all_weaken. intros c Hc. now apply andb_true_iff in Hc.
  - revert H. apply all_weaken. intros c Hc. now apply andb_true_iff in Hc.
Qed.

(** A letter in either case is a word character, is no white space, and
    matches its capital when case is ignored. *)
Lemma capital_letter c :
  Letters.isCapital (Letters.upperAscii c) = true ->
  canonicalize (Letters.upperAscii c) = canonicalize c /\
  isWordChar c = true /\ isWhiteSpace c = false.
Proof. each_code_unit c; intros H; try discriminate H; repeat split. Qed.

Lemma matchLetters_word keyword : forall mid post prev,
  keyword <> "" ->
  Str.all Letters.isCapital keyword = true ->
  Letters.sameWord keyword mid = true ->
  matchLetters keyword (mid +:+ post) prev = Some (true, post).
Proof.
  unfold Letters.sameWord.
  induction keyword as [|k keyword IH]; intros mid post prev Hne Hcap Hsame;
    [contradiction|].
  apply andb_true_iff in Hsame as [Hbegin Hlen].
  destruct mid as [|c mid]; [discriminate|].
  cbn [Letters.beginsWith] in Hbegin. apply andb_true_iff in Hbegin as [Hk Hrest].
  apply Ascii.eqb_eq in Hk. cbn [Str.all] in Hcap.
  apply andb_true_iff in Hcap as [Hkcap Hcap]. rewrite <- Hk in Hkcap.
  destruct (capital_letter c Hkcap) as (Hcanon & Hword & _).
  cbn [String.append matchLetters]. rewrite <- Hk, Hcanon, N.eqb_refl, Hword.
  destruct keyword as [|k' keyword].
  - destruct mid; [reflexivity|discriminate].
  - apply IH; [discriminate|exact Hcap|].
    apply andb_true_iff. split; [exact Hrest|exact Hlen].
Qed.

Lemma testFrom_word keyword mid post :
  keyword <> "" ->
  Str.all Letters.isCapital keyword = true ->
  Letters.sameWord keyword mid = true ->
  Letters.startsInWord post = false ->
  forall pre prev,
    Letters.endsInWord prev pre = false ->
    testFrom keyword (pre +:+ mid +:+ post) prev = true.
Proof.
  intros Hne Hcap Hsame Hpost.
  assert (Hmid : exists c r, mid = String c r /\ isWordChar c = true).
  { unfold Letters.sameWord in Hsame. apply andb_true_iff in Hsame as [Hb _].
    destruct keyword as [|k keyword]; [contradiction|].
    destruct mid as [|c r]; [discriminate|]. exists c, r. split; [reflexivity|].
    cbn in Hb, Hcap. apply andb_true_iff in Hb as [Hk _].
    apply andb_true_iff in Hcap as [Hkcap _]. apply Ascii.eqb_eq in Hk.
    rewrite <- Hk in Hkcap. now apply capital_letter in Hkcap. }
  destruct Hmid as (c & r & Hmid & Hc).
  induction pre as [|c0 pre IH]; intros prev Hprev.
  - cbn [String.append Letters.endsInWord] in *. subst prev.
    assert (Hhere : matchesHere keyword (mid +:+ post) false = true).
    { unfold matchesHere. rewrite (matchLetters_word keyword mid post false)
        by assumption.
      unfold boundary. rewrite Hmid. cbn [String.append]. rewrite Hc.
      fold (Letters.startsInWord post). now rewrite Hpost. }
    destruct (mid +:+ post); cbn [testFrom]; now rewrite Hhere.
  - cbn [String.append Letters.endsInWord testFrom] in *.
    rewrite (IH _ Hprev). apply orb_true_r.
Qed.

Lemma endsInWord_append prev a b :
  Letters.endsInWord prev (a +:+ b) =
  Letters.endsInWord (Letters.endsInWord prev a) b.
Proof.
  revert prev. induction a as [|c a IH]; intros prev; [reflexivity|].
  cbn [String.append Letters.endsInWord]. apply IH.
Qed.

(** Trimming takes white space only, and white space is no word
    character. *)
Lemma whiteSpace_not_word c : isWhiteSpace c = true -> isWordChar c = false.
Proof. each_code_unit c; intros H; try discriminate H; reflexivity. Qed.

Lemma trimStart_before pre rest c r :
  rest = String c r -> isWhiteSpace c = false ->
  exists pre',
    trimStart (pre +:+ rest) = pre' +:+ rest /\
    forall prev, Letters.endsInWord prev pre = false ->
                 Letters.endsInWord false pre' = false.
Proof.
  intros -> Hc. induction pre as [|c0 pre IH].
  - exists "". cbn [String.append trimStart]. rewrite Hc. auto.
  - cbn [String.append trimStart]. destruct (isWhiteSpace c0) eqn:Hc0.
    + destruct IH as (pre' & Heq & Hends). exists pre'. split; [exact Heq|].
      intros prev Hprev. cbn [Letters.endsInWord] in Hprev. eauto.
    + exists (String c0 pre). split; [reflexivity|].
      intros prev Hprev. exact Hprev.
Qed.

Lemma trimEnd_append a b :
  trimEnd b <> "" -> trimEnd (a +:+ b) = a +:+ trimEnd b.
Proof.
  intros Hb. induction a as [|c a IH]; [reflexivity|].
  cbn [String.append trimEnd]. rewrite IH.
  destruct (a +:+ trimEnd b) eqn:Hab; [|reflexivity].
  destruct a; [|discriminate]. cbn in Hab. contradiction.
Qed.

Lemma trimEnd_after mid post :
  (exists c r, mid = String c r) ->
  Str.all (fun c => negb (isWhiteSpace c)) mid = true ->
  Letters.startsInWord post = false ->
  exists post',
    trimEnd (mid +:+ post) = mid +:+ post' /\
    Letters.startsInWord post' = false.
Proof.
  intros Hmid Hall Hpost.
  assert (Hkeep : forall s, Str.all (fun c => negb (isWhiteSpace c)) s = true ->
            forall t, trimEnd (s +:+ t) = s +:+ trimEnd t).
  { induction s as [|c s IHs]; intros Hs t; [reflexivity|].
    cbn [Str.all] in Hs. apply andb_true_iff in Hs as [Hc Hs].
    apply negb_true_iff in Hc.
    cbn [String.append trimEnd]. rewrite (IHs Hs).
    destruct (s +:+ trimEnd t); [now rewrite Hc|reflexivity]. }
  exists (trimEnd post). split; [now apply Hkeep|].
  destruct post as [|c post]; [reflexivity|].
  cbn [Letters.startsInWord] in Hpost. cbn [trimEnd].
  destruct (trimEnd post).
  - destruct (isWhiteSpace c); [reflexivity|exact Hpost].
  - exact Hpost.
Qed.

Lemma letters_not_white keyword : forall mid,
  Str.all Letters.isCapital keyword = true ->
  Letters.sameWord keyword mid = true ->
  Str.all (fun c => negb (isWhiteSpace c)) mid = true.
Proof.
  unfold Letters.sameWord.
  induction keyword as [|k keyword IH]; intros mid Hcap Hsame;
    apply andb_true_iff in Hsame as [Hb Hlen].
  - destruct mid; [reflexivity|discriminate].
  - destruct mid as [|c mid]; [discriminate|].
    cbn in Hb, Hcap |- *. apply andb_true_iff in Hb as [Hk Hb].
    apply andb_true_iff in Hcap as [Hkcap Hcap]. apply Ascii.eqb_eq in Hk.
    rewrite <- Hk in Hkcap. destruct (capital_letter c Hkcap) as (_ & _ & Hws).
    rewrite Hws. cbn [negb andb]. apply IH; [exact Hcap|].
    apply andb_true_iff. split; [exact Hb|exact Hlen].
Qed.

(** X17.  The SELECT-only validation turns down every query without
    comments in which one of the seven forbidden keywords stands as a
    word of its own, in any mix of upper and lower case, wherever it
    stands: inside a quoted literal as well. *)
Theorem validateQuery_rejects_keyword_anywhere (keyword pre mid post : string) :
  List.In keyword dangerousKeywords ->
  Letters.sameWord keyword mid = true ->
  Letters.endsInWord false pre = false ->
  Letters.startsInWord post = false ->
  Letters.noCommentMarks (pre +:+ mid +:+ post) = true ->
  valid (validateQuery (pre +:+ mid +:+ post)) = false.
Proof.
  intros Hin Hsame Hpre Hpost Hplain.
  assert (Hcap : keyword <> "" /\ Str.all Letters.isCapital keyword = true).
  { destruct Hin as [<-|[<-|[<-|[<-|[<-|[<-|[<-|[]]]]]]]];
      (split; [discriminate|reflexivity]). }
  destruct Hcap as [Hne Hcap].
  pose proof (letters_not_white keyword mid Hcap Hsame) as Hletters.
  assert (Hmid : exists c r, mid = String c r).
  { unfold Letters.sameWord in Hsame. apply andb_true_iff in Hsame as [Hb _].
    destruct keyword; [contradiction|]. destruct mid; [discriminate|]. eauto. }
  assert (Hfound : test keyword (trim (pre +:+ mid +:+ post)) = true).
  { destruct Hmid as (c & r & Hmid).
    assert (Hc : isWhiteSpace c = false).
    { rewrite Hmid in Hletters. cbn in Hletters.
      apply andb_true_iff in Hletters as [Hc _]. now apply negb_true_iff in Hc. }
    unfold trim.
    destruct (trimStart_before pre (mid +:+ post) c (r +:+ post))
      as (pre' & Hstart & Hends); [now rewrite Hmid|exact Hc|].
    rewrite Hstart.
    destruct (trimEnd_after mid post) as (post' & Hend & Hpost');
      [eauto|exact Hletters|exact Hpost|].
    rewrite trimEnd_append.
    - rewrite Hend. unfold test.
      apply testFrom_word; eauto.
    - rewrite Hend, Hmid. discriminate. }
  unfold validateQuery. rewrite blank_check.
  destruct (Str.all isWhiteSpace (pre +:+ mid +:+ post)); [reflexivity|].
  cbv zeta. rewrite (cleanedQuery_plain _ Hplain).
  destruct (String.length (trim (pre +:+ mid +:+ post)) =? 0)%nat; [reflexivity|].
  destruct (negb (startsWith "SELECT"
                    (trimUnits (toUpperCase (trim (pre +:+ mid +:+ post))))));
    [reflexivity|].
  destruct (List.find (fun keyword0 => test keyword0 (trim (pre +:+ mid +:+ post)))
              dangerousKeywords) as [k|] eqn:Hfind; [reflexivity|].
  pose proof (List.find_none _ _ Hfind keyword Hin) as Hnone.
  cbv beta in Hnone. congruence.
Qed.

End selectonly_facts.

Section selectonly_examples.
Import Query SelectOnly.

Lemma validateQuery_ignores_line_comment_witness :
  validateQuery "SELECT '--', name FROM users; DROP TABLE users" =
  {| valid := true; error := None |}.
Proof.
  assert (H : Str.all (fun c => negb (isLineTerminator c))
                "', name FROM users; DROP TABLE users" = true) by reflexivity.
  pose proof (validateQuery_ignores_line_comment "SELECT '"
                "', name FROM users; DROP TABLE users" H) as Heq.
  cbn [String.append] in Heq. rewrite Heq. reflexivity.
Defined.


Lemma validateQuery_rejects_keyword_anywhere_witness :
  validateQuery "SELECT 'please Update me' FROM notes" =
  {| valid := false; error := Some "Query contains forbidden keyword: UPDATE" |} /\
  valid (validateQuery "SELECT 'please Update me' FROM notes") = false.
Proof.
  split; [reflexivity|].
  apply (validateQuery_rejects_keyword_anywhere "UPDATE" "SELECT 'please "
           "Update" " me' FROM notes").
  - cbn. tauto.
  - reflexivity.
  - reflexivity.
  - reflexivity.
  - reflexivity.
Defined.

End selectonly_examples.

(** ** The DBML parser *)

Section dbml_facts.
Import Query SelectOnly Dbml Lex.

Lemma span_all p s : Str.all p (span p s).1 = true.
Proof.
  induction s as [|c s IH]; [reflexivity|]. cbn [span].
  destruct (p c) eqn:Hc; [|reflexivity].
  destruct (span p s) as [a b]. cbn [fst Str.all] in *. now rewrite Hc.
Qed.

Lemma span_append p s : s = (span p s).1 +:+ (span p s).2.
Proof.
  induction s as [|c s IH]; [reflexivity|]. cbn [span].
  destruct (p c); [|reflexivity].
  destruct (span p s) as [a b]. cbn [fst snd String.append] in *. now f_equal.
Qed.

Lemma isSuffix_refl s : isSuffix s s.
Proof. now exists "". Qed.

Lemma isSuffix_trans a b c : isSuffix a b -> isSuffix b c -> isSuffix a c.
Proof.
  intros (x & ->) (y & ->). exists (y +:+ x). now rewrite append_assoc.
Qed.

Lemma isSuffix_tail c s : isSuffix s (String c s).
Proof. now exists (String c ""). Qed.

Lemma span_suffix p s : isSuffix (span p s).2 s.
Proof. exists (span p s).1. apply span_append. Qed.

Lemma dropPrefix_suffix lit : forall s r, dropPrefix lit s = Some r -> isSuffix r s.
Proof.
  induction lit as [|l lit IH]; intros s r.
  - intros [= <-]. apply isSuffix_refl.
  - destruct s as [|c s]; [discriminate|]. cbn [dropPrefix].
    destruct (Ascii.eqb l c); [|discriminate]. intros H.
    eapply isSuffix_trans; [apply IH; exact H|apply isSuffix_tail].
Qed.

(** What a loop of [exec] finds was matched somewhere in the string. *)
Lemma matchAll_found {X} (matchAt : string -> option (X * nat)) x s :
  forall skip, List.In x (matchAll matchAt skip s) ->
  exists r n, isSuffix r s /\ matchAt r = Some (x, n).
Proof.
  induction s as [|c s IH]; intros skip; [intros []|].
  cbn [matchAll].
  assert (Hrest : forall k, List.In x (matchAll matchAt k s) ->
            exists r n, isSuffix r (String c s) /\ matchAt r = Some (x, n)).
  { intros k Hk. destruct (IH k Hk) as (r & n & Hr & Hm). exists r, n.
    split; [|exact Hm]. eapply isSuffix_trans; [exact Hr|apply isSuffix_tail]. }
  destruct skip as [|skip]; [|apply Hrest].
  destruct (matchAt (String c s)) as [[y n]|] eqn:Hm; [|apply Hrest].
  intros [<-|Hin]; [|now apply (Hrest (pred n))].
  exists (String c s), n. split; [apply isSuffix_refl|exact Hm].
Qed.

Lemma firstMatch_found {X} (matchAt : string -> option X) x s :
  firstMatch matchAt s = Some x -> exists r, isSuffix r s /\ matchAt r = Some x.
Proof.
  induction s as [|c s IH]; cbn [firstMatch].
  - destruct (matchAt "") eqn:Hm; [|discriminate]. intros [= <-].
    exists "". split; [apply isSuffix_refl|exact Hm].
  - destruct (matchAt (String c s)) eqn:Hm.
    + intros [= <-]. exists (String c s). split; [apply isSuffix_refl|exact Hm].
    + intros H. destruct (IH H) as (r & Hr & Hr'). exists r. split; [|exact Hr'].
      eapply isSuffix_trans; [exact Hr|apply isSuffix_tail].
Qed.

(** *** The types *)

Lemma varcharAt_digits s digits :
  varcharAt s = Some digits ->
  digits <> "" /\ Str.all isDigit digits = true.
Proof.
  unfold varcharAt. destruct (dropPrefix "varchar(" s) as [s1|]; [|discriminate].
  pose proof (span_all isDigit s1) as Hall.
  destruct (span isDigit s1) as [d s2]. cbn [fst] in Hall.
  destruct d as [|c d]; [discriminate|]. destruct s2 as [|c2 s2]; [discriminate|].
  destruct (Ascii.eqb c2 ")"); [|discriminate]. intros [= <-].
  split; [discriminate|exact Hall].
Qed.

Lemma mapDBMLTypeToSQLite_range_aux (dbmlType : string) :
  isSqlType (mapDBMLTypeToSQLite dbmlType).
Proof.
  unfold mapDBMLTypeToSQLite, isSqlType. cbv zeta.
  destruct (includes "varchar" (toLowerCase dbmlType)
            || includes "char" (toLowerCase dbmlType)).
  - destruct (firstMatch varcharAt (toLowerCase dbmlType)) as [digits|] eqn:Hm;
      [|now left].
    apply firstMatch_found in Hm as (r & _ & Hr).
    apply varcharAt_digits in Hr as [Hne Hall].
    right. right. right. exists digits. auto.
  - repeat match goal with
           | |- context [if ?b then _ else _] => destruct b
           end; auto.
Qed.

(** *** The tables *)

Lemma span_word s :
  match (span isWordChar s).1 with
  | "" => True
  | name => isWord name = true
  end.
Proof.
  pose proof (span_all isWordChar s) as H.
  destruct (span isWordChar s).1; [exact I|]. unfold isWord. now rewrite H.
Qed.

Lemma columnMatch_name line name type str :
  columnMatch line = Some (name, type, str) -> isWord name = true.
Proof.
  unfold columnMatch. pose proof (span_word line) as Hname.
  destruct (span isWordChar line) as [name0 s1]. cbn [fst] in Hname.
  destruct (span isWhiteSpace s1) as [gap s2].
  destruct (span isWordChar s2) as [word s3].
  destruct name0 as [|c0 name0]; [discriminate|].
  destruct gap as [|g gap]; [discriminate|].
  destruct word as [|w word]; [discriminate|].
  destruct (match bracketed "(" ")" s3 with
            | Some (inner, rest) => _
            | None => _
            end) as [type0 s4].
  destruct (span isWhiteSpace s4) as [gap' s5].
  now intros [= <- _ _].
Qed.

Lemma parseColumn_wellformed line col :
  parseColumn line = Some col ->
  isWord (col_name col) = true /\ isSqlType (col_type col).
Proof.
  unfold parseColumn.
  destruct (columnMatch line) as [[[name type] str]|] eqn:Hm; [|discriminate].
  intros [= <-]. cbn [col_name col_type]. split.
  - now apply columnMatch_name in Hm.
  - apply mapDBMLTypeToSQLite_range_aux.
Qed.

Lemma lowerChar_twice c : lowerChar (lowerChar c) = lowerChar c.
Proof. each_code_unit c; reflexivity. Qed.

Lemma toLowerCase_twice s : toLowerCase (toLowerCase s) = toLowerCase s.
Proof.
  induction s as [|c s IH]; [reflexivity|].
  cbn [toLowerCase]. now rewrite lowerChar_twice, IH.
Qed.

(** X18.  Whatever type a column is given in the DBML text,
    [mapDBMLTypeToSQLite] answers with one of four forms: TEXT, INTEGER,
    REAL, or VARCHAR with a number of one digit or more between
    parentheses.  The answer does not depend on the case of the letters
    of the type. *)
Theorem mapDBMLTypeToSQLite_range (dbmlType : string) :
  isSqlType (mapDBMLTypeToSQLite dbmlType) /\
  mapDBMLTypeToSQLite (toLowerCase dbmlType) = mapDBMLTypeToSQLite dbmlType /\
  (forall other,
     toLowerCase other = toLowerCase dbmlType ->
     mapDBMLTypeToSQLite other = mapDBMLTypeToSQLite dbmlType).
Proof.
  split; [apply mapDBMLTypeToSQLite_range_aux|]. split.
  - unfold mapDBMLTypeToSQLite. now rewrite toLowerCase_twice.
  - intros other H. unfold mapDBMLTypeToSQLite. now rewrite H.
Qed.

Lemma tableAt_name s name body n :
  tableAt s = Some (name, body, n) -> isWord name = true.
Proof.
  unfold tableAt. destruct (dropPrefix "Table" s) as [s1|]; [|discriminate].
  destruct (span isWhiteSpace s1) as [gap s2].
  pose proof (span_word s2) as Hname.
  destruct (span isWordChar s2) as [name0 s3]. cbn [fst] in Hname.
  destruct (span isWhiteSpace s3) as [gap' s4].
  destruct gap as [|g gap]; [discriminate|].
  destruct name0 as [|c0 name0]; [discriminate|].
  destruct s4 as [|c s5]; [discriminate|].
  destruct (Ascii.eqb c "{"); [|discriminate].
  destruct (span (fun x => negb (Ascii.eqb x "}")) s5) as [body0 s6].
  destruct body0 as [|b body0]; [discriminate|].
  destruct s6 as [|c6 s6]; [discriminate|].
  now intros [= <- _ _].
Qed.

Lemma parseTable_wellformed name body table :
  parseTable (name, body) = Some table ->
  table_name table = name /\
  table_columns table <> [] /\
  Forall (fun col => isWord (col_name col) = true /\ isSqlType (col_type col))
    (table_columns table).
Proof.
  unfold parseTable.
  destruct (omap parseColumn (columnLines body)) as [|col cols] eqn:Hcols;
    [discriminate|].
  intros [= <-]. cbn [table_name table_columns].
  split; [reflexivity|]. split; [discriminate|].
  rewrite <- Hcols. apply List.Forall_forall. intros x Hx.
  apply list_elem_of_In, list_elem_of_omap in Hx as (line & _ & Hline).
  now apply parseColumn_wellformed in Hline.
Qed.

Lemma parseDBML_tables dbml :
  Forall (fun table =>
            isWord (table_name table) = true /\
            table_columns table <> [] /\
            Forall (fun col =>
                      isWord (col_name col) = true /\ isSqlType (col_type col))
              (table_columns table))
    (tables (parseDBML dbml)).
Proof.
  unfold parseDBML. cbn [tables]. apply List.Forall_forall. intros table Hin.
  apply list_elem_of_In, list_elem_of_omap in Hin as ([name body] & Hfound & Htable).
  apply list_elem_of_In, matchAll_found in Hfound as (r & n & _ & Hm).
  destruct (tableAt r) as [[[name0 body0] n0]|] eqn:Hr; [|discriminate].
  injection Hm as -> -> ->.
  apply parseTable_wellformed in Htable as (-> & Hcols & Hall).
  split; [now apply tableAt_name in Hr|]. split; [exact Hcols|exact Hall].
Qed.

(** *** The statements *)

Lemma all_concat p sep l :
  Str.all p sep = true ->
  Forall (fun s => Str.all p s = true) l ->
  Str.all p (String.concat sep l) = true.
Proof.
  intros Hsep. induction 1 as [|s l Hs _ IH]; [reflexivity|].
  cbn [String.concat]. destruct l as [|s' l]; [exact Hs|].
  now rewrite !all_append, Hs, Hsep, IH.
Qed.

Lemma word_schema s : isWord s = true -> Str.all isSchemaChar s = true.
Proof.
  unfold isWord. intros H. apply andb_true_iff in H as [_ H]. revert H.
  apply all_weaken. intros c Hc. unfold isSchemaChar. now rewrite Hc.
Qed.

Lemma digit_schema s : Str.all isDigit s = true -> Str.all isSchemaChar s = true.
Proof.
  apply all_weaken. intros c. each_code_unit c; intros H; try discriminate H;
    reflexivity.
Qed.

Lemma sqlType_schema s : isSqlType s -> Str.all isSchemaChar s = true.
Proof.
  intros [->|[->|[->|(digits & _ & Hd & ->)]]]; try reflexivity.
  rewrite !all_append, (digit_schema _ Hd). reflexivity.
Qed.

(** X19.  For every DBML text, each table [parseDBML] returns has a name
    made of word characters and at least one column, and each column has
    a name made of word characters and a type of one of the four forms.
    [generateSQLSchema] then gives one statement per table, in order, and
    every statement is made of word characters, spaces, line feeds,
    parentheses, commas and semicolons only: no quote and no comment
    mark of the DBML text reaches the SQL. *)
Theorem generateSQLSchema_alphabet (dbml : string) :
  let parsed := parseDBML dbml in
  Forall (fun table =>
            isWord (table_name table) = true /\
            table_columns table <> [] /\
            Forall (fun col =>
                      isWord (col_name col) = true /\ isSqlType (col_type col))
              (table_columns table))
    (tables parsed) /\
  length (generateSQLSchema parsed) = length (tables parsed) /\
  Forall (fun statement => Str.all isSchemaChar statement = true)
    (generateSQLSchema parsed).
Proof.
  cbv zeta. pose proof (parseDBML_tables dbml) as Hwf.
  split; [exact Hwf|].
  split; [apply List.length_map|].
  unfold generateSQLSchema. apply List.Forall_map.
  eapply List.Forall_impl; [|exact Hwf].
  intros table (Hname & _ & Hcols). unfold createTableSQL.
  rewrite !all_append, (word_schema _ Hname). cbn [andb].
  rewrite all_concat; [reflexivity|reflexivity|].
  apply List.Forall_map. eapply List.Forall_impl; [|exact Hcols].
  intros col (Hcol & Htype). unfold columnDefinition.
  rewrite !all_append, (word_schema _ Hcol), (sqlType_schema _ Htype).
  now destruct (isPrimaryKey col).
Qed.

(** *** The relationships *)

Lemma hasDouble_cons m c c' r :
  hasDouble m (String c (String c' r)) =
  (Ascii.eqb c m && Ascii.eqb c' m) || hasDouble m (String c' r).
Proof. reflexivity. Qed.

Lemma hasDouble_tail m c r :
  hasDouble m (String c r) = false -> hasDouble m r = false.
Proof.
  destruct r as [|c' r]; [reflexivity|]. rewrite hasDouble_cons.
  intros H. now apply orb_false_iff in H.
Qed.

Lemma hasDouble_suffix m r s :
  isSuffix r s -> hasDouble m s = false -> hasDouble m r = false.
Proof.
  intros (a & ->). induction a as [|c a IH]; [auto|].
  cbn [String.append]. intros H. apply IH. now apply hasDouble_tail in H.
Qed.

(** Outside a comment the scan keeps a code unit that is not the mark. *)
Lemma removeLineComments_keeps m c r :
  Ascii.eqb c m = false ->
  exists t, removeLineComments m false (String c r) = String c t.
Proof.
  intros Hc. destruct r as [|c' r]; [now exists ""|].
  rewrite removeLineComments_outside, Hc. cbn [andb]. eauto.
Qed.

Lemma removeLineComments_single m s :
  isLineTerminator m = false ->
  forall inComment, hasDouble m (removeLineComments m inComment s) = false.
Proof.
  intros Hm. induction s as [|c s IH]; intros inComment; [reflexivity|].
  destruct inComment.
  - rewrite removeLineComments_inside.
    destruct (isLineTerminator c) eqn:Hlt; [|apply IH].
    destruct (removeLineComments m false s) as [|h t] eqn:Hout; [reflexivity|].
    rewrite hasDouble_cons, <- Hout, IH, orb_false_r.
    destruct (Ascii.eqb_spec c m) as [->|_]; [congruence|reflexivity].
  - destruct s as [|c' s]; [reflexivity|].
    rewrite removeLineComments_outside.
    destruct (Ascii.eqb c m && Ascii.eqb c' m) eqn:Hboth.
    + pose proof (IH true) as H. rewrite removeLineComments_inside in H.
      apply andb_true_iff in Hboth as [_ Hc']. apply Ascii.eqb_eq in Hc'.
      subst c'. now rewrite Hm in H.
    + destruct (removeLineComments m false (String c' s)) as [|h t] eqn:Hout;
        [reflexivity|].
      rewrite hasDouble_cons, <- Hout, IH, orb_false_r.
      destruct (Ascii.eqb c m) eqn:Hc; [|reflexivity].
      cbn [andb] in Hboth.
      destruct (removeLineComments_keeps m c' s Hboth) as (t' & Ht').
      rewrite Ht' in Hout. injection Hout as <- _. now rewrite Hboth.
Qed.

Lemma removeBlockComments_inside c c' r :
  removeBlockComments true (String c (String c' r)) =
  if Ascii.eqb c "*" && Ascii.eqb c' "/" then removeBlockComments false r
  else removeBlockComments true (String c' r).
Proof. reflexivity. Qed.

(** Removing block comments from a text without ["//"] leaves none, and
    what is left begins with a slash only if the text did. *)
Lemma removeBlockComments_single n : forall s,
  String.length s <= n ->
  hasDouble "/" s = false ->
  hasDouble "/" (removeBlockComments true s) = false /\
  hasDouble "/" (removeBlockComments false s) = false /\
  (forall t, removeBlockComments false s = String "/" t ->
             exists r, s = String "/" r).
Proof.
  induction n as [|n IH]; intros s Hlen Hs.
  { destruct s; [|cbn in Hlen; lia]. repeat split. discriminate. }
  destruct s as [|c [|c' r]].
  - repeat split. discriminate.
  - repeat split. cbn. intros t [= -> _]. eauto.
  - cbn [String.length] in Hlen.
    assert (Hr : hasDouble "/" (String c' r) = false).
    { now apply hasDouble_tail in Hs. }
    assert (Hr' : hasDouble "/" r = false).
    { now apply hasDouble_tail in Hr. }
    destruct (IH (String c' r)) as (Hin1 & Hout1 & Hhead1);
      [cbn [String.length]; lia|exact Hr|].
    destruct (IH r) as (Hin2 & Hout2 & _); [lia|exact Hr'|].
    split; [|split].
    + rewrite removeBlockComments_inside.
      destruct (Ascii.eqb c "*" && Ascii.eqb c' "/"); assumption.
    + rewrite removeBlockComments_outside.
      destruct (Ascii.eqb c "/" && Ascii.eqb c' "*" &&
                match afterClose r with Some _ => true | None => false end);
        [exact Hin2|].
      destruct (removeBlockComments false (String c' r)) as [|h t] eqn:Hout;
        [reflexivity|].
      rewrite hasDouble_cons, Hout1, orb_false_r.
      destruct (Ascii.eqb_spec c "/") as [->|_]; [|reflexivity].
      destruct (Ascii.eqb_spec h "/") as [->|_]; [|reflexivity].
      destruct (Hhead1 t eq_refl) as (r0 & [= -> _]).
      rewrite hasDouble_cons in Hs. discriminate Hs.
    + rewrite removeBlockComments_outside.
      destruct (Ascii.eqb_spec c "/") as [->|Hc]; [eauto|].
      cbn [andb]. intros t [= -> _]. congruence.
Qed.

Lemma cleaned_single dbml : hasDouble "/" (cleaned dbml) = false.
Proof.
  unfold cleaned.
  apply (removeBlockComments_single
           (String.length (removeLineComments "/" false dbml))); [lia|].
  now apply removeLineComments_single.
Qed.

Lemma double_prefix m r s :
  isSuffix r s -> hasDouble m s = false -> dropPrefix (String m (String m "")) r = None.
Proof.
  intros Hr Hs. pose proof (hasDouble_suffix m r s Hr Hs) as H.
  destruct r as [|c [|c' r]]; cbn [dropPrefix].
  - reflexivity.
  - now destruct (Ascii.eqb m c).
  - rewrite hasDouble_cons in H. apply orb_false_iff in H as [H _].
    rewrite (Ascii.eqb_sym m c), (Ascii.eqb_sym m c').
    destruct (Ascii.eqb c m); [|reflexivity]. cbn [andb] in H. now rewrite H.
Qed.

Ltac read_span p x a y Hy :=
  pose proof (span_suffix p x) as Hy;
  pose proof (span_word x) as ?;
  destruct (span p x) as [a y]; cbn [fst snd] in *.

Lemma refAt_type s rel n :
  hasDouble "/" s = false ->
  refAt s = Some (rel, n) ->
  rel_type rel = "many-to-one" /\
  exists t1 c1 t2 c2,
    isWord t1 = true /\ isWord c1 = true /\ isWord t2 = true /\ isWord c2 = true /\
    rel_from rel = t1 +:+ "." +:+ c1 /\ rel_to rel = t2 +:+ "." +:+ c2.
Proof.
  intros Hs. unfold refAt.
  destruct (dropPrefix "Ref:" s) as [s1|] eqn:Q1; [|discriminate].
  apply dropPrefix_suffix in Q1.
  read_span isWhiteSpace s1 g1 s2 Q2.
  read_span isWordChar s2 t1 s3 Q3.
  destruct t1 as [|x1 t1]; [discriminate|].
  destruct (dropPrefix "." s3) as [s4|] eqn:Q4; [|discriminate].
  apply dropPrefix_suffix in Q4.
  read_span isWordChar s4 c1 s5 Q5.
  read_span isWhiteSpace s5 g2 s6 Q6.
  destruct c1 as [|y1 c1]; [discriminate|].
  destruct (dropPrefix ">" s6) as [s7|] eqn:Q7; [|discriminate].
  apply dropPrefix_suffix in Q7.
  read_span isWhiteSpace s7 g3 s8 Q8.
  read_span isWordChar s8 t2 s9 Q9.
  destruct t2 as [|x2 t2]; [discriminate|].
  destruct (dropPrefix "." s9) as [s10|] eqn:Q10; [|discriminate].
  apply dropPrefix_suffix in Q10.
  read_span isWordChar s10 c2 s11 Q11.
  read_span isWhiteSpace s11 g4 s12 Q12.
  destruct c2 as [|y2 c2]; [discriminate|].
  assert (Hsuffix : isSuffix s12 s).
  { exact (isSuffix_trans _ _ _ Q12 (isSuffix_trans _ _ _ Q11 (isSuffix_trans _ _ _ Q10 (isSuffix_trans _ _ _ Q9 (isSuffix_trans _ _ _ Q8 (isSuffix_trans _ _ _ Q7 (isSuffix_trans _ _ _ Q6 (isSuffix_trans _ _ _ Q5 (isSuffix_trans _ _ _ Q4 (isSuffix_trans _ _ _ Q3 (isSuffix_trans _ _ _ Q2 Q1))))))))))). }
  assert (Hnone : refComment s12 = None).
  { unfold refComment. now rewrite (double_prefix "/" s12 s Hsuffix Hs). }
  rewrite Hnone. intros [= <- _]. cbn [rel_type rel_from rel_to].
  split; [reflexivity|].
  exists (String x1 t1), (String y1 c1), (String x2 t2), (String y2 c2).
  repeat split; assumption.
Qed.

(** X20.  Every relationship [parseDBML] returns joins two names of the
    form table.column, made of word characters, and has the type
    many-to-one: the comment after a [Ref] line, which is where another
    type would be read from, is removed with all the other comments
    before the line is matched. *)
Theorem parseDBML_relationships_many_to_one (dbml : string) :
  Forall (fun rel =>
            rel_type rel = "many-to-one" /\
            exists t1 c1 t2 c2,
              isWord t1 = true /\ isWord c1 = true /\
              isWord t2 = true /\ isWord c2 = true /\
              rel_from rel = t1 +:+ "." +:+ c1 /\
              rel_to rel = t2 +:+ "." +:+ c2)
    (relationships (parseDBML dbml)).
Proof.
  unfold parseDBML. cbn [relationships]. apply List.Forall_forall.
  intros rel Hin. apply matchAll_found in Hin as (r & n & Hr & Hm).
  apply (refAt_type r rel n); [|exact Hm].
  eapply hasDouble_suffix; [exact Hr|apply cleaned_single].
Qed.

End dbml_facts.

(** ** The session manager *)

Ltac project :=
  repeat first
    [ progress change (Sessions.sessions (Sessions.Build_World ?x _ _ _ _ _ _ _ _))
        with x in *
    | progress change (Sessions.dbConnections (Sessions.Build_World _ ?x _ _ _ _ _ _ _))
        with x in *
    | progress change (Sessions.connections (Sessions.Build_World _ _ ?x _ _ _ _ _ _))
        with x in *
    | progress change (Sessions.nextDb (Sessions.Build_World _ _ _ ?x _ _ _ _ _))
        with x in *
    | progress change (Sessions.paths (Sessions.Build_World _ _ _ _ ?x _ _ _ _))
        with x in *
    | progress change (Sessions.contents (Sessions.Build_World _ _ _ _ _ ?x _ _ _))
        with x in *
    | progress change (Sessions.nextFile (Sessions.Build_World _ _ _ _ _ _ ?x _ _))
        with x in *
    | progress change (Sessions.console (Sessions.Build_World _ _ _ _ _ _ _ ?x _))
        with x in *
    | progress change (Sessions.steps (Sessions.Build_World _ _ _ _ _ _ _ _ ?x))
        with x in * ].

Ltac fields :=
  cbv [Sessions.withDbConnections Sessions.withSessions Sessions.withConnections
       Sessions.withFiles Sessions.withConsole Sessions.tick] in *;
  cbn [Sessions.sessions Sessions.dbConnections Sessions.connections
       Sessions.nextDb Sessions.paths Sessions.contents Sessions.nextFile
       Sessions.console Sessions.steps Sessions.sessionId Sessions.dbml
       Sessions.data Sessions.createdAt Sessions.lastAccessed
       Sessions.file Sessions.isOpen fst snd] in *;
  project.

Section session_facts.
Import Json Sessions.
Context (E : Env).

Lemma bind_run {A B} (m : M A) (f : A -> M B) w :
  (m ≫= f) w =
  match m w with
  | (Value a, w') => f a w'
  | (Raised e, w') => (Raised e, w')
  end.
Proof. reflexivity. Qed.

Lemma stable_refl w : stable w w.
Proof. repeat split. Qed.

Lemma stable_trans w1 w2 w3 : stable w1 w2 -> stable w2 w3 -> stable w1 w3.
Proof.
  intros (?&?&?&?&?&?&?) (?&?&?&?&?&?&?). repeat split; congruence.
Qed.

Lemma stable_tick w : stable w (tick w).
Proof. repeat split. Qed.

Lemma change_stable op db sql params w :
  stable w (change E op db sql params w).2.
Proof.
  unfold change. destruct (connections w !! db) as [[f []]|];
    try apply stable_tick.
  destruct (fails E (steps w) op); [apply stable_tick|]. repeat split.
Qed.

Lemma prepare_stable db sql w : stable w (prepare E db sql w).2.
Proof.
  unfold prepare. destruct (connections w !! db) as [[f []]|];
    try apply stable_tick.
  destruct (fails E (steps w) (Prepare db sql)); apply stable_tick.
Qed.

Lemma bind_stable {A B} (m : M A) (f : A -> M B) w :
  stable w (m w).2 -> (forall a w', stable w' (f a w').2) ->
  stable w ((m ≫= f) w).2.
Proof.
  intros Hm Hf. rewrite bind_run. destruct (m w) as [[a|e] w']; [|exact Hm].
  eapply stable_trans; [exact Hm|apply Hf].
Qed.

Lemma forEach_stable {X} (body : X -> M unit) (l : list X) :
  (forall x w, stable w (body x w).2) ->
  forall w, stable w (forEach l body w).2.
Proof.
  intros Hbody. induction l as [|x l IH]; intros w; [apply stable_refl|].
  cbn [forEach]. apply (bind_stable (body x) (fun _ => forEach l body));
    [apply Hbody|]. intros _ w'. apply IH.
Qed.

Lemma transaction_stable db (body : M unit) w :
  stable w (body w).2 -> stable w (transaction db body w).2.
Proof.
  intros Hb. unfold transaction. destruct (body w) as [[[]|e] w']; [exact Hb|].
  cbn [snd] in *. destruct (connections w !! db); [|exact Hb].
  destruct Hb as (?&?&?&?&?&?&?). repeat split; assumption.
Qed.

Lemma stored_get_set_eq {V} k (v : V) m : mapGet k (mapSet k v m) = Some v.
Proof.
  induction m as [|[k' v'] m IH]; cbn.
  - now rewrite String.eqb_refl.
  - destruct (k' =? k)%string eqn:Hk; cbn.
    + now rewrite String.eqb_refl.
    + now rewrite Hk.
Qed.

Lemma stored_get_set_ne {V} k k' (v : V) m :
  k <> k' -> mapGet k' (mapSet k v m) = mapGet k' m.
Proof.
  intros Hne. induction m as [|[k0 v0] m IH]; cbn.
  - destruct (String.eqb_spec k k'); [contradiction|reflexivity].
  - destruct (String.eqb_spec k0 k) as [->|Hk0]; cbn.
    + destruct (String.eqb_spec k k'); [contradiction|reflexivity].
    + destruct (String.eqb_spec k0 k'); [reflexivity|exact IH].
Qed.

Lemma stored_get_delete_eq {V} k (m : list (string * V)) :
  mapGet k (mapDelete k m) = None.
Proof.
  induction m as [|[k' v'] m IH]; cbn; [reflexivity|].
  destruct (k' =? k)%string eqn:Hk; cbn; [exact IH|].
  now rewrite Hk.
Qed.

Lemma stored_get_delete_ne {V} k k' (m : list (string * V)) :
  k <> k' -> mapGet k' (mapDelete k m) = mapGet k' m.
Proof.
  intros Hne. induction m as [|[k0 v0] m IH]; cbn; [reflexivity|].
  destruct (String.eqb_spec k0 k) as [->|Hk0]; cbn.
  - destruct (String.eqb_spec k k'); [contradiction|exact IH].
  - destruct (String.eqb_spec k0 k'); [reflexivity|exact IH].
Qed.

Lemma close_run db w :
  close db w =
  (Value tt,
   match connections w !! db with
   | Some c =>
       withConnections
         (<[db := {| file := file c; isOpen := false |}]> (connections w))
         (nextDb w) w
   | None => w
   end).
Proof. reflexivity. Qed.

Lemma inserting_stable db (data : Seed.SeedData) w :
  stable w
    (forEach data
       (fun '(tableName, rows) =>
          match rows with
          | [] => mret tt
          | row0 :: _ =>
              let columns := Seed.keys row0 in
              let insertSQL := Seed.sessionInsertSQL tableName columns in
              prepare E db insertSQL;;
              transaction db
                (forEach rows
                   (fun row => run E db insertSQL (Seed.values columns row)))
          end) w).2.
Proof.
  apply forEach_stable. intros [tableName rows] w0.
  destruct rows as [|row0 rows]; [apply stable_refl|].
  cbv zeta.
  apply (bind_stable (prepare E db _) (fun _ => transaction db _));
    [apply prepare_stable|].
  intros _ w1. apply transaction_stable. apply forEach_stable.
  intros row w2. apply change_stable.
Qed.

(** What [createSession] leaves behind: on success the session and its
    connection, to a database just opened on the file at the session's
    path; on failure neither, and a database it opened is closed. *)
Lemma createSession_fresh id dbml data w :
  paths w !! pathOf E id = None ->
  match createSession E id dbml data w with
  | (Value _, w') =>
      exists s f,
        sessions w' = mapSet id s (sessions w) /\
        sessionId s = id /\ Sessions.dbml s = dbml /\ Sessions.data s = data /\
        dbConnections w' = mapSet id (nextDb w) (dbConnections w) /\
        connections w' =
          <[nextDb w := {| file := f; isOpen := true |}]> (connections w) /\
        nextDb w' = S (nextDb w) /\
        paths w' !! pathOf E id = Some f /\
        console w' = console w
  | (Raised e, w') =>
      sessions w' = sessions w /\ dbConnections w' = dbConnections w /\
      console w' = console w /\
      (connections w' = connections w /\ nextDb w' = nextDb w \/
       exists f, connections w' =
                   <[nextDb w := {| file := f; isOpen := false |}]> (connections w) /\
                 nextDb w' = S (nextDb w))
  end.
Proof.
  intros Hp. unfold createSession. cbv zeta. rewrite bind_run.
  unfold existsSync, get. rewrite Hp. rewrite bind_run.
  change ((mret tt : M unit) w) with (Value tt, w).
  cbv iota. rewrite bind_run. unfold openDatabase.
  destruct (fails E (steps w) (Open (pathOf E id))) as [e|].
  { cbn. repeat split; auto. }
  rewrite Hp.
  match goal with |- context [tryCatch _ _ ?w0] => set (w2 := w0) end.
  unfold tryCatch. rewrite bind_run.
  pose proof (forEach_stable (fun statement => exec E (nextDb w) statement)
                (Dbml.generateSQLSchema (Dbml.parseDBML dbml))
                (fun x w0 => change_stable _ _ _ _ w0) w2) as H1.
  destruct (forEach (Dbml.generateSQLSchema (Dbml.parseDBML dbml)) _ w2)
    as [[[]|e] w3]; cbn [snd] in H1.
  - rewrite bind_run.
    pose proof (inserting_stable (nextDb w) data w3) as H2.
    destruct (forEach data _ w3) as [[[]|e] w4]; cbn [snd] in H2.
    + pose proof (stable_trans _ _ _ H1 H2) as (Hs & Hd & Hc & Hn & Hpa & Hf & Hl).
      subst w2. cbn. fields.
      exists {| sessionId := id; Sessions.dbml := dbml; Sessions.data := data;
                createdAt := dateNow E (steps w4);
                lastAccessed := dateNow E (S (steps w4)) |}, (nextFile w).
      fields. rewrite Hs, Hd, Hc, Hn, Hpa, Hl.
      rewrite lookup_insert_eq. repeat split; auto.
    + pose proof (stable_trans _ _ _ H1 H2) as (Hs & Hd & Hc & Hn & Hpa & Hf & Hl).
      subst w2. rewrite bind_run, close_run. unfold raise. fields.
      rewrite Hc. rewrite lookup_insert_eq. fields.
      rewrite Hs, Hd, Hn, Hl.
      repeat split; auto. right. exists (nextFile w).
      split; [|reflexivity]. apply insert_insert_eq.
  - destruct H1 as (Hs & Hd & Hc & Hn & Hpa & Hf & Hl).
    subst w2. rewrite bind_run, close_run. unfold raise. fields.
    rewrite Hc. rewrite lookup_insert_eq. fields.
    rewrite Hs, Hd, Hn, Hl.
    repeat split; auto. right. exists (nextFile w).
    split; [|reflexivity]. apply insert_insert_eq.
Qed.

Lemma createSession_unlinked id dbml data w f0 :
  paths w !! pathOf E id = Some f0 ->
  fails E (steps w) (Unlink (pathOf E id)) = None ->
  createSession E id dbml data w =
  createSession E id dbml data
    (withFiles (delete (pathOf E id) (paths w)) (contents w) (nextFile w) (tick w)).
Proof.
  intros Hp Hfail. unfold createSession. cbv zeta.
  rewrite !bind_run. unfold existsSync, get. fields.
  rewrite Hp, lookup_delete_eq. rewrite !bind_run.
  unfold unlinkSync. rewrite Hfail, Hp.
  reflexivity.
Qed.

Lemma createSession_cases id dbml data w :
  match createSession E id dbml data w with
  | (Value _, w') =>
      exists s f,
        sessions w' = mapSet id s (sessions w) /\
        sessionId s = id /\ Sessions.dbml s = dbml /\ Sessions.data s = data /\
        dbConnections w' = mapSet id (nextDb w) (dbConnections w) /\
        connections w' =
          <[nextDb w := {| file := f; isOpen := true |}]> (connections w) /\
        nextDb w' = S (nextDb w) /\
        paths w' !! pathOf E id = Some f /\
        console w' = console w
  | (Raised e, w') =>
      sessions w' = sessions w /\ dbConnections w' = dbConnections w /\
      console w' = console w /\
      (connections w' = connections w /\ nextDb w' = nextDb w \/
       exists f, connections w' =
                   <[nextDb w := {| file := f; isOpen := false |}]> (connections w) /\
                 nextDb w' = S (nextDb w))
  end.
Proof.
  destruct (paths w !! pathOf E id) as [f0|] eqn:Hp;
    [|now apply createSession_fresh].
  destruct (fails E (steps w) (Unlink (pathOf E id))) as [e|] eqn:Hfail.
  - unfold createSession. cbv zeta. rewrite !bind_run.
    unfold existsSync, get. rewrite Hp. rewrite bind_run.
    unfold unlinkSync. rewrite Hfail. fields. repeat split; auto.
  - rewrite (createSession_unlinked _ _ _ _ _ Hp Hfail).
    apply (createSession_fresh id dbml data
             (withFiles (delete (pathOf E id) (paths w)) (contents w)
                (nextFile w) (tick w))).
    fields. apply lookup_delete_eq.
Qed.

Lemma session_generateSessionId_run w :
  generateSessionId E w =
  (Value ("session_" +:+ numberToString (dateNow E (steps w)) +:+ "_" +:+
          randomSuffix E (S (steps w))),
   tick (tick w)).
Proof. reflexivity. Qed.

Lemma getOrCreateSession_unknown id dbml data w :
  mapGet id (sessions w) = None ->
  getOrCreateSession E id dbml data w =
  if (id =? "")%string then
    let key := "session_" +:+ numberToString (dateNow E (steps w)) +:+ "_" +:+
               randomSuffix E (S (steps w)) in
    match createSession E key dbml data (tick (tick w)) with
    | (Value _, w') => (Value key, w')
    | (Raised e, w') => (Raised e, w')
    end
  else
    match createSession E id dbml data w with
    | (Value _, w') => (Value id, w')
    | (Raised e, w') => (Raised e, w')
    end.
Proof.
  intros Hnone. unfold getOrCreateSession. rewrite bind_run.
  unfold get. rewrite Hnone. rewrite bind_run.
  destruct (id =? "")%string.
  - rewrite session_generateSessionId_run. cbv zeta. rewrite bind_run.
    match goal with
    | |- context [createSession E ?k dbml data ?w0] =>
        destruct (createSession E k dbml data w0) as [[[]|e] w']
    end; reflexivity.
  - change ((mret id : M string) w) with (Value id, w). cbv iota.
    rewrite bind_run.
    destruct (createSession E id dbml data w) as [[[]|e] w']; reflexivity.
Qed.

Lemma getOrCreateSession_known id s dbml data w :
  mapGet id (sessions w) = Some s ->
  getOrCreateSession E id dbml data w =
  if negb (Sessions.dbml s =? dbml)%string
     || negb (stringify (Seed.toJson (Sessions.data s)) =?
              stringify (Seed.toJson data))%string
  then
    match updateSession E id dbml data w with
    | (Value _, w') => (Value id, w')
    | (Raised e, w') => (Raised e, w')
    end
  else
    (Value id,
     withSessions (mapSet id (withLastAccessed (dateNow E (steps w)) s) (sessions w))
       (tick w)).
Proof.
  intros Hsome. unfold getOrCreateSession. rewrite bind_run.
  unfold get. rewrite Hsome. rewrite bind_run.
  destruct (negb (Sessions.dbml s =? dbml)%string
            || negb (stringify (Seed.toJson (Sessions.data s)) =?
                     stringify (Seed.toJson data))%string).
  - destruct (updateSession E id dbml data w) as [[[]|e] w']; reflexivity.
  - unfold touch. rewrite bind_run. unfold now, update. fields.
    rewrite Hsome. reflexivity.
Qed.

(** X21.  A request whose session id names no session registers one.
    The key is the id presented, whatever it is, unless it is empty;
    then it is [session_<clock>_<random suffix>].  On success the
    session holds the request's schema and data, and its connection is
    an open database on the file at the session's path; when the build
    throws, no session and no connection is registered. *)
Theorem getOrCreateSession_registers_new (id dbml : string)
  (data : Seed.SeedData) (w : World) :
  mapGet id (sessions w) = None ->
  let key :=
    if (id =? "")%string then
      "session_" +:+ numberToString (dateNow E (steps w)) +:+ "_" +:+
      randomSuffix E (S (steps w))
    else id in
  match getOrCreateSession E id dbml data w with
  | (Value r, w') =>
      r = key /\
      exists s db f,
        sessions w' = mapSet key s (sessions w) /\
        sessionId s = key /\ Sessions.dbml s = dbml /\ Sessions.data s = data /\
        mapGet key (dbConnections w') = Some db /\
        connections w' !! db = Some {| file := f; isOpen := true |} /\
        paths w' !! pathOf E key = Some f
  | (Raised e, w') =>
      sessions w' = sessions w /\ dbConnections w' = dbConnections w
  end.
Proof.
  intros Hnone key. rewrite (getOrCreateSession_unknown _ _ _ _ Hnone).
  subst key. destruct (id =? "")%string; cbv zeta.
  - set (key := "session_" +:+ _).
    pose proof (createSession_cases key dbml data (tick (tick w))) as H.
    destruct (createSession E key dbml data (tick (tick w))) as [[[]|e] w'].
    + destruct H as (s & f & Hs & Hid & Hdbml & Hdata & Hd & Hc & _ & Hp & _).
      split; [reflexivity|]. exists s, (nextDb w), f. fields.
      rewrite Hs, Hd, Hc, stored_get_set_eq, lookup_insert_eq. auto 10.
    + destruct H as (Hs & Hd & _). fields. auto.
  - pose proof (createSession_cases id dbml data w) as H.
    destruct (createSession E id dbml data w) as [[[]|e] w'].
    + destruct H as (s & f & Hs & Hid & Hdbml & Hdata & Hd & Hc & _ & Hp & _).
      split; [reflexivity|]. exists s, (nextDb w), f.
      rewrite Hs, Hd, Hc, stored_get_set_eq, lookup_insert_eq. auto 10.
    + destruct H as (Hs & Hd & _). auto.
Qed.


Lemma stored_delete_absent {V} k (m : list (string * V)) :
  mapGet k m = None -> mapDelete k m = m.
Proof.
  unfold mapDelete. induction m as [|[k' v'] m IH]; cbn; [reflexivity|].
  destruct (k' =? k)%string; [discriminate|].
  intros H. cbn. now rewrite (IH H).
Qed.

Lemma updateSession_cases id dbml data w :
  match updateSession E id dbml data w with
  | (Value _, w') =>
      exists s f,
        sessions w' = mapSet id s (sessions w) /\
        sessionId s = id /\ Sessions.dbml s = dbml /\ Sessions.data s = data /\
        mapGet id (dbConnections w') = Some (nextDb w) /\
        connections w' !! nextDb w = Some {| file := f; isOpen := true |} /\
        paths w' !! pathOf E id = Some f
  | (Raised e, w') =>
      sessions w' = sessions w /\
      dbConnections w' = mapDelete id (dbConnections w) /\
      console w' = console w
  end.
Proof.
  assert (Hrest : forall w1,
            sessions w1 = sessions w ->
            dbConnections w1 = mapDelete id (dbConnections w) ->
            nextDb w1 = nextDb w -> console w1 = console w ->
            match
              (there ← existsSync (pathOf E id);
               (if there : bool then unlinkSync E (pathOf E id) else mret tt);;
               createSession E id dbml data) w1
            with
            | (Value _, w') =>
                exists s f,
                  sessions w' = mapSet id s (sessions w) /\
                  sessionId s = id /\ Sessions.dbml s = dbml /\
                  Sessions.data s = data /\
                  mapGet id (dbConnections w') = Some (nextDb w) /\
                  connections w' !! nextDb w = Some {| file := f; isOpen := true |} /\
                  paths w' !! pathOf E id = Some f
            | (Raised e, w') =>
                sessions w' = sessions w /\
                dbConnections w' = mapDelete id (dbConnections w) /\
                console w' = console w
            end).
  { intros w1 Hs Hd Hn Hl. rewrite bind_run. unfold existsSync, get.
    assert (Hcreate : forall w2,
              sessions w2 = sessions w ->
              dbConnections w2 = mapDelete id (dbConnections w) ->
              nextDb w2 = nextDb w -> console w2 = console w ->
              match createSession E id dbml data w2 with
              | (Value _, w') =>
                  exists s f,
                    sessions w' = mapSet id s (sessions w) /\
                    sessionId s = id /\ Sessions.dbml s = dbml /\
                    Sessions.data s = data /\
                    mapGet id (dbConnections w') = Some (nextDb w) /\
                    connections w' !! nextDb w =
                      Some {| file := f; isOpen := true |} /\
                    paths w' !! pathOf E id = Some f
              | (Raised e, w') =>
                  sessions w' = sessions w /\
                  dbConnections w' = mapDelete id (dbConnections w) /\
                  console w' = console w
              end).
    { intros w2 Hs2 Hd2 Hn2 Hl2.
      pose proof (createSession_cases id dbml data w2) as H.
      destruct (createSession E id dbml data w2) as [[[]|e] w'].
      - destruct H as (s & f & Hs' & Hid & Hdbml & Hdata & Hd' & Hc' & _ & Hp' & _).
        exists s, f. rewrite Hs', Hd', Hc', Hs2, Hn2.
        rewrite stored_get_set_eq, lookup_insert_eq. auto 10.
      - destruct H as (Hs' & Hd' & Hl' & _). rewrite Hs', Hd', Hl'. auto. }
    destruct (paths w1 !! pathOf E id) as [f0|] eqn:Hp; rewrite bind_run.
    - unfold unlinkSync. rewrite Hp.
      destruct (fails E (steps w1) (Unlink (pathOf E id))) as [e|].
      + fields. auto.
      + apply Hcreate; fields; auto.
    - apply Hcreate; auto. }
  unfold updateSession. rewrite bind_run. unfold get.
  destruct (mapGet id (dbConnections w)) as [oldDb|] eqn:Hold; rewrite bind_run.
  - rewrite bind_run, close_run. unfold update.
    apply Hrest; destruct (connections w !! oldDb); reflexivity.
  - apply Hrest; auto. symmetry. now apply stored_delete_absent.
Qed.

(** X23.  When updating a session throws, the session stays registered
    with the schema and data it had before, but without a connection: its
    database was closed before the rebuild began.  A request that then
    repeats the old schema and data is taken for an unchanged one: it is
    accepted without any rebuild. *)
Theorem failed_update_keeps_old_record (id dbml : string)
  (data : Seed.SeedData) (s : SessionData) (w : World) (e : Error) (w' : World) :
  mapGet id (sessions w) = Some s ->
  getOrCreateSession E id dbml data w = (Raised e, w') ->
  mapGet id (sessions w') = Some s /\
  mapGet id (dbConnections w') = None /\
  getOrCreateSession E id (Sessions.dbml s) (Sessions.data s) w' =
  (Value id,
   withSessions (mapSet id (withLastAccessed (dateNow E (steps w')) s) (sessions w'))
     (tick w')).
Proof.
  intros Hsome Hrun.
  rewrite (getOrCreateSession_known _ _ _ _ _ Hsome) in Hrun.
  assert (Hkept : sessions w' = sessions w /\
                  dbConnections w' = mapDelete id (dbConnections w)).
  { destruct (negb (Sessions.dbml s =? dbml)%string
              || negb (stringify (Seed.toJson (Sessions.data s)) =?
                       stringify (Seed.toJson data))%string);
      [|discriminate].
    pose proof (updateSession_cases id dbml data w) as H.
    destruct (updateSession E id dbml data w) as [[[]|e'] w1]; [discriminate|].
    injection Hrun as _ <-. tauto. }
  destruct Hkept as [Hs Hd].
  assert (Hsome' : mapGet id (sessions w') = Some s) by now rewrite Hs.
  split; [exact Hsome'|]. split; [rewrite Hd; apply stored_get_delete_eq|].
  rewrite (getOrCreateSession_known _ _ _ _ _ Hsome').
  now rewrite !String.eqb_refl.
Qed.

Lemma deleteSession_cases id w :
  exists w',
    deleteSession E id w = (Value tt, w') /\
    sessions w' = mapDelete id (sessions w) /\
    dbConnections w' = mapDelete id (dbConnections w) /\
    nextDb w' = nextDb w /\
    connections w' =
      match mapGet id (dbConnections w) with
      | Some db =>
          match connections w !! db with
          | Some c => <[db := {| file := file c; isOpen := false |}]> (connections w)
          | None => connections w
          end
      | None => connections w
      end /\
    (paths w' !! pathOf E id = None /\ console w' = console w \/
     exists e,
       fails E (steps w) (Unlink (pathOf E id)) = Some e /\
       console w' =
         ("Failed to delete database file for session " +:+ id +:+ ":", e)
         :: console w /\
       paths w' = paths w).
Proof.
  assert (Hrest : forall w1,
            steps w1 = steps w -> paths w1 = paths w -> console w1 = console w ->
            exists w',
              (there ← existsSync (pathOf E id);
               (if there : bool then
                  tryCatch (unlinkSync E (pathOf E id))
                    (fun error =>
                       update (fun w =>
                                 withConsole
                                   (("Failed to delete database file for session " +:+
                                     id +:+ ":", error) :: console w) w))
                else mret tt);;
               update (fun w => withSessions (mapDelete id (sessions w)) w)) w1 =
              (Value tt, w') /\
              sessions w' = mapDelete id (sessions w1) /\
              dbConnections w' = dbConnections w1 /\
              nextDb w' = nextDb w1 /\
              connections w' = connections w1 /\
              (paths w' !! pathOf E id = None /\ console w' = console w \/
               exists e,
                 fails E (steps w) (Unlink (pathOf E id)) = Some e /\
                 console w' =
                   ("Failed to delete database file for session " +:+ id +:+ ":", e)
                   :: console w /\
                 paths w' = paths w)).
  { intros w1 Hst Hpa Hl. rewrite bind_run. unfold existsSync, get.
    destruct (paths w1 !! pathOf E id) as [f0|] eqn:Hp; rewrite bind_run.
    - unfold tryCatch, unlinkSync. rewrite Hp, Hst.
      destruct (fails E (steps w) (Unlink (pathOf E id))) as [e|] eqn:Hfail.
      + eexists. split; [reflexivity|]. fields. repeat split; auto.
        right. exists e. rewrite Hl, Hpa. auto.
      + eexists. split; [reflexivity|]. fields. repeat split; auto.
        left. rewrite lookup_delete_eq. auto.
    - eexists. split; [reflexivity|]. fields. repeat split; auto. }
  unfold deleteSession. rewrite bind_run. unfold get.
  destruct (mapGet id (dbConnections w)) as [db|] eqn:Hdb; rewrite bind_run.
  - rewrite bind_run, close_run. unfold update.
    match goal with
    | |- context [withDbConnections ?m ?w0] =>
        destruct (Hrest (withDbConnections m w0)) as (w' & Hrun & Hs & Hd & Hn & Hc & Hf)
    end.
    1-3: destruct (connections w !! db); reflexivity.
    exists w'. split; [exact Hrun|]. rewrite Hs, Hd, Hn, Hc.
    destruct (connections w !! db); fields; auto 10.
  - destruct (Hrest w) as (w' & Hrun & Hs & Hd & Hn & Hc & Hf); auto.
    exists w'. split; [exact Hrun|]. rewrite Hs, Hd, Hn, Hc.
    rewrite (stored_delete_absent _ _ Hdb). auto 10.
Qed.

(** X24.  [deleteSession] never throws.  Afterwards the id names neither
    a session nor a connection, the other sessions and connections are
    as they were, the database the session was connected to is closed,
    and the session's file is gone, unless removing it failed: then the
    failure is logged and the file stays. *)
Theorem deleteSession_forgets_session (id : string) (w : World) :
  exists w',
    deleteSession E id w = (Value tt, w') /\
    mapGet id (sessions w') = None /\
    mapGet id (dbConnections w') = None /\
    (forall id', id' <> id ->
       mapGet id' (sessions w') = mapGet id' (sessions w) /\
       mapGet id' (dbConnections w') = mapGet id' (dbConnections w)) /\
    (forall db c,
       mapGet id (dbConnections w) = Some db -> connections w !! db = Some c ->
       connections w' !! db = Some {| file := file c; isOpen := false |}) /\
    (paths w' !! pathOf E id = None /\ console w' = console w \/
     exists e,
       fails E (steps w) (Unlink (pathOf E id)) = Some e /\
       console w' =
         ("Failed to delete database file for session " +:+ id +:+ ":", e)
         :: console w /\
       paths w' = paths w).
Proof.
  destruct (deleteSession_cases id w) as (w' & Hrun & Hs & Hd & _ & Hc & Hf).
  exists w'. split; [exact Hrun|]. rewrite Hs, Hd.
  split; [apply stored_get_delete_eq|]. split; [apply stored_get_delete_eq|].
  split; [|split; [|exact Hf]].
  - intros id' Hne. split; apply stored_get_delete_ne; congruence.
  - intros db c Hdb Hcon. rewrite Hc, Hdb, Hcon. apply lookup_insert_eq.
Qed.

Lemma forEach_deleteSession ids w :
  exists w',
    forEach ids (deleteSession E) w = (Value tt, w') /\
    sessions w' = fold_left (fun m id => mapDelete id m) ids (sessions w) /\
    dbConnections w' =
      fold_left (fun m id => mapDelete id m) ids (dbConnections w).
Proof.
  revert w. induction ids as [|id ids IH]; intros w.
  - exists w. repeat split.
  - destruct (deleteSession_cases id w) as (w1 & Hrun & Hs & Hd & _).
    destruct (IH w1) as (w' & Hrun' & Hs' & Hd').
    exists w'. cbn [forEach fold_left]. unfold bind. rewrite Hrun, Hrun'.
    rewrite Hs', Hd', Hs, Hd. auto.
Qed.

Lemma fold_delete_filter {V} ids (m : list (string * V)) :
  fold_left (fun m id => mapDelete id m) ids m =
  List.filter (fun entry => negb (existsb (String.eqb (fst entry)) ids)) m.
Proof.
  revert m. induction ids as [|id ids IH]; intros m; cbn [fold_left existsb].
  - induction m as [|entry m IHm]; cbn; [reflexivity|]. now f_equal.
  - rewrite IH. unfold mapDelete.
    induction m as [|entry m IHm]; cbn; [reflexivity|].
    destruct (fst entry =? id)%string; cbn; [exact IHm|].
    destruct (existsb (String.eqb (fst entry)) ids); cbn; [exact IHm|].
    now rewrite IHm.
Qed.

Lemma stored_get_filter_keys {V} ids k (m : list (string * V)) :
  existsb (String.eqb k) ids = true ->
  mapGet k (List.filter (fun entry => negb (existsb (String.eqb (fst entry)) ids)) m)
  = None.
Proof.
  intros Hk. induction m as [|[k' v'] m IH]; cbn; [reflexivity|].
  destruct (existsb (String.eqb k') ids) eqn:Hk'; cbn; [exact IH|].
  destruct (String.eqb_spec k' k) as [->|Hne]; [congruence|exact IH].
Qed.

Lemma existsb_key {V} k (m : list (string * V)) :
  existsb (String.eqb k) (List.map fst m) = true <-> mapGet k m <> None.
Proof.
  induction m as [|[k' v'] m IH]; cbn; [split; [discriminate|congruence]|].
  rewrite (String.eqb_sym k k').
  destruct (k' =? k)%string; cbn; [split; [discriminate|reflexivity]|exact IH].
Qed.

Lemma filter_all_keys {V} ids (m : list (string * V)) :
  (forall entry, List.In entry m -> existsb (String.eqb (fst entry)) ids = true) ->
  List.filter (fun entry => negb (existsb (String.eqb (fst entry)) ids)) m = [].
Proof.
  induction m as [|entry m IH]; cbn; intros H; [reflexivity|].
  rewrite (H entry (or_introl eq_refl)). cbn. apply IH.
  intros entry' Hin. apply H. now right.
Qed.

(** X26.  [cleanupAll] never throws and leaves no session; no session
    that was registered keeps a connection. *)
Theorem session_cleanupAll_empties (w : World) :
  exists w',
    cleanupAll E w = (Value tt, w') /\
    sessions w' = [] /\
    forall id s, mapGet id (sessions w) = Some s ->
                 mapGet id (dbConnections w') = None.
Proof.
  destruct (forEach_deleteSession (List.map fst (sessions w)) w)
    as (w' & Hrun & Hs & Hd).
  exists w'. split; [exact Hrun|]. rewrite Hs, Hd, !fold_delete_filter. split.
  - apply filter_all_keys. intros entry Hin. apply existsb_exists.
    exists (fst entry). split; [now apply in_map|apply String.eqb_refl].
  - intros id s Hsome. apply stored_get_filter_keys.
    apply existsb_key. congruence.
Qed.

Lemma stored_get_filter_other {V} ids k (m : list (string * V)) :
  existsb (String.eqb k) ids = false ->
  mapGet k (List.filter (fun entry => negb (existsb (String.eqb (fst entry)) ids)) m)
  = mapGet k m.
Proof.
  intros Hk. induction m as [|[k' v'] m IH]; cbn; [reflexivity|].
  destruct (String.eqb_spec k' k) as [->|Hne].
  - rewrite Hk. cbn. now rewrite String.eqb_refl.
  - destruct (existsb (String.eqb k') ids); cbn; [exact IH|].
    destruct (String.eqb_spec k' k); [contradiction|exact IH].
Qed.

Lemma stored_get_In {V} k (v : V) m : mapGet k m = Some v -> List.In (k, v) m.
Proof.
  induction m as [|[k' v'] m IH]; cbn; [discriminate|].
  destruct (String.eqb_spec k' k) as [->|Hne].
  - intros [= ->]. now left.
  - intros H. right. exact (IH H).
Qed.

Lemma stored_unique {V} k (v v' : V) (m : list (string * V)) :
  List.NoDup (List.map fst m) -> List.In (k, v) m -> List.In (k, v') m -> v = v'.
Proof.
  induction m as [|[k0 v0] m IH]; cbn; [contradiction|].
  intros Hnodup Hin Hin'. apply List.NoDup_cons_iff in Hnodup as [Hfresh Hnodup].
  destruct Hin as [Heq|Hin], Hin' as [Heq'|Hin'].
  - congruence.
  - exfalso. apply Hfresh. apply (in_map fst) in Hin'.
    cbn in Hin'. congruence.
  - exfalso. apply Hfresh. apply (in_map fst) in Hin.
    cbn in Hin. congruence.
  - now apply IH.
Qed.

Lemma expired_keys {V} (old : V -> bool) (m : list (string * V)) k v :
  List.NoDup (List.map fst m) -> List.In (k, v) m ->
  existsb (String.eqb k)
    (List.map fst (List.filter (fun entry => old (snd entry)) m)) = old v.
Proof.
  intros Hnodup Hin. destruct (old v) eqn:Hold.
  - apply existsb_exists. exists k. split; [|apply String.eqb_refl].
    apply (in_map fst _ (k, v)). apply filter_In. auto.
  - apply not_true_is_false. intros Hex.
    apply existsb_exists in Hex as (k' & Hin' & Heq).
    apply String.eqb_eq in Heq as <-.
    apply in_map_iff in Hin' as ([k' v'] & Hk & Hin'). cbn in Hk. subst k'.
    apply filter_In in Hin' as [Hin' Hold']. cbn in Hold'.
    rewrite (stored_unique _ _ _ _ Hnodup Hin Hin') in Hold. congruence.
Qed.

(** X25.  The sweep [cleanupOldSessions] never throws.  It removes the
    sessions idle for more than the timeout at the moment it reads the
    clock, and only those: a session idle for exactly the timeout stays.
    The sessions removed lose their connections, those kept keep
    theirs. *)
Theorem cleanupOldSessions_removes_expired (sessionTimeout : Z) (w : World) :
  List.NoDup (List.map fst (sessions w)) ->
  let expired (s : SessionData) :=
    (dateNow E (steps w) - lastAccessed s >? sessionTimeout)%Z in
  exists w',
    cleanupOldSessions E sessionTimeout w = (Value tt, w') /\
    sessions w' =
      List.filter (fun entry => negb (expired (snd entry))) (sessions w) /\
    forall id s,
      mapGet id (sessions w) = Some s ->
      mapGet id (dbConnections w') =
      if expired s then None else mapGet id (dbConnections w).
Proof.
  intros Hnodup expired.
  destruct (forEach_deleteSession
              (List.map fst
                 (List.filter (fun entry => expired (snd entry)) (sessions w)))
              (tick w)) as (w' & Hrun & Hs & Hd).
  exists w'. split; [exact Hrun|].
  rewrite Hs, Hd, !fold_delete_filter. fields. split.
  - apply filter_ext_in. intros [k v] Hin. cbn [fst snd].
    now rewrite (expired_keys expired _ _ _ Hnodup Hin).
  - intros id s Hsome. apply stored_get_In in Hsome.
    pose proof (expired_keys expired _ _ _ Hnodup Hsome) as Hkey.
    destruct (expired s).
    + now apply stored_get_filter_keys.
    + now apply stored_get_filter_other.
Qed.

Lemma session_getDatabase_run id w :
  getDatabase E id w =
  match mapGet id (sessions w) with
  | None => (Value None, w)
  | Some s =>
      let w1 :=
        withSessions
          (mapSet id (withLastAccessed (dateNow E (steps w)) s) (sessions w))
          (tick w) in
      match mapGet id (dbConnections w) with
      | Some db => (Value (Some db), w1)
      | None =>
          match paths w !! pathOf E id with
          | None => (Value None, w1)
          | Some f =>
              match fails E (S (steps w)) (Open (pathOf E id)) with
              | Some e => (Raised e, tick w1)
              | None =>
                  (Value (Some (nextDb w)),
                   withDbConnections (mapSet id (nextDb w) (dbConnections w))
                     (withConnections
                        (<[nextDb w := {| file := f; isOpen := true |}]>
                           (connections w))
                        (S (nextDb w)) (tick w1)))
              end
          end
      end
  end.
Proof.
  unfold getDatabase. rewrite bind_run. unfold get.
  destruct (mapGet id (sessions w)) as [s|] eqn:Hs; [|reflexivity].
  rewrite bind_run. unfold touch. rewrite bind_run. unfold now, update. fields.
  rewrite Hs. rewrite bind_run. unfold get. fields.
  destruct (mapGet id (dbConnections w)) as [db|]; [reflexivity|].
  rewrite bind_run. unfold existsSync, get. fields.
  destruct (paths w !! pathOf E id) as [f|] eqn:Hp; [|reflexivity].
  rewrite bind_run. unfold openDatabase. fields. rewrite Hp.
  destruct (fails E (S (steps w)) (Open (pathOf E id))); reflexivity.
Qed.

Lemma session_executeQuery_run id query w :
  executeQuery E id query w =
  match getDatabase E id w with
  | (Value None, w1) => (Value None, w1)
  | (Value (Some db), w1) =>
      match all E db query w1 with
      | (Value result, w2) =>
          (Value (Some {| rows := result;
                          columns := match result with
                                     | row0 :: _ => Seed.keys row0
                                     | [] => []
                                     end |}), w2)
      | (Raised e, w2) => (Raised e, w2)
      end
  | (Raised e, w1) => (Raised e, w1)
  end.
Proof.
  unfold executeQuery. rewrite bind_run.
  destruct (getDatabase E id w) as [[[db|]|e] w1]; reflexivity.
Qed.

Lemma all_world db query w : (all E db query w).2 = tick w.
Proof.
  unfold all. destruct (connections w !! db) as [[f []]|]; try reflexivity.
  destruct (fails E (steps w) (All db query)); reflexivity.
Qed.

Lemma getDatabase_keeps_content id w s :
  mapGet id (sessions w) = Some s ->
  exists t, mapGet id (sessions (getDatabase E id w).2) =
            Some (withLastAccessed t s).
Proof.
  intros Hs. exists (dateNow E (steps w)).
  rewrite session_getDatabase_run, Hs. cbv zeta.
  destruct (mapGet id (dbConnections w)) as [db|];
    [fields; apply stored_get_set_eq|].
  destruct (paths w !! pathOf E id) as [f|];
    [|fields; apply stored_get_set_eq].
  destruct (fails E (S (steps w)) (Open (pathOf E id)));
    fields; apply stored_get_set_eq.
Qed.

Lemma executeQuery_keeps_content id query w s :
  mapGet id (sessions w) = Some s ->
  exists t, mapGet id (sessions (executeQuery E id query w).2) =
            Some (withLastAccessed t s).
Proof.
  intros Hs. destruct (getDatabase_keeps_content id w s Hs) as (t & Ht).
  exists t. rewrite session_executeQuery_run.
  destruct (getDatabase E id w) as [[[db|]|e] w1]; cbn [snd] in *; try exact Ht.
  pose proof (all_world db query w1) as Hall.
  destruct (all E db query w1) as [[result|e] w2]; cbn [snd] in *;
    subst w2; exact Ht.
Qed.

Lemma getOrCreateSession_content id dbml data w :
  match getOrCreateSession E id dbml data w with
  | (Value key, w1) =>
      (id <> "" -> key = id) /\
      exists s, mapGet key (sessions w1) = Some s /\
                Sessions.dbml s = dbml /\ Sessions.data s = data
  | (Raised _, _) => True
  end.
Proof.
  destruct (mapGet id (sessions w)) as [s|] eqn:Hsome.
  - rewrite (getOrCreateSession_known _ _ _ _ _ Hsome).
    destruct (String.eqb_spec (Sessions.dbml s) dbml) as [Hdbml|Hdbml];
      [destruct (String.eqb_spec (stringify (Seed.toJson (Sessions.data s)))
                   (stringify (Seed.toJson data))) as [Hdata|Hdata]|];
      cbn [negb orb].
    + apply stringify_inj, toJson_inj in Hdata.
      split; [reflexivity|]. eexists. fields.
      split; [apply stored_get_set_eq|]. auto.
    + pose proof (updateSession_cases id dbml data w) as H.
      destruct (updateSession E id dbml data w) as [[[]|e] w1]; [|exact I].
      destruct H as (s' & f & Hs' & _ & Hdbml' & Hdata' & _).
      split; [reflexivity|]. exists s'. rewrite Hs', stored_get_set_eq. auto.
    + pose proof (updateSession_cases id dbml data w) as H.
      destruct (updateSession E id dbml data w) as [[[]|e] w1]; [|exact I].
      destruct H as (s' & f & Hs' & _ & Hdbml' & Hdata' & _).
      split; [reflexivity|]. exists s'. rewrite Hs', stored_get_set_eq. auto.
  - rewrite (getOrCreateSession_unknown _ _ _ _ Hsome).
    destruct (String.eqb_spec id "") as [->|Hid]; cbv zeta.
    + match goal with
      | |- context [createSession E ?k dbml data ?w0] =>
          pose proof (createSession_cases k dbml data w0) as H;
          destruct (createSession E k dbml data w0) as [[[]|e] w1]
      end; [|exact I].
      destruct H as (s' & f & Hs' & _ & Hdbml' & Hdata' & _).
      split; [congruence|]. exists s'. rewrite Hs', stored_get_set_eq. auto.
    + pose proof (createSession_cases id dbml data w) as H.
      destruct (createSession E id dbml data w) as [[[]|e] w1]; [|exact I].
      destruct H as (s' & f & Hs' & _ & Hdbml' & Hdata' & _).
      split; [reflexivity|]. exists s'. rewrite Hs', stored_get_set_eq. auto.
Qed.

Lemma session_execute_run id dbml data query w :
  execute E id dbml data query w =
  match getOrCreateSession E id dbml data (tick w) with
  | (Raised e, w1) =>
      (Value (failed (message e) (dateNow E (steps w1) - dateNow E (steps w))),
       tick w1)
  | (Value key, w1) =>
      match executeQuery E key query w1 with
      | (Raised e, w2) =>
          (Value (failed (message e) (dateNow E (steps w2) - dateNow E (steps w))),
           tick w2)
      | (Value None, w2) =>
          (Value (failed "Session not found or expired"
                    (dateNow E (steps w2) - dateNow E (steps w))),
           tick w2)
      | (Value (Some result), w2) =>
          (Value {| success := true;
                    resp_rows := Some (rows result);
                    resp_columns := Some (columns result);
                    executionTime := dateNow E (steps w2) - dateNow E (steps w);
                    resp_error := None;
                    resp_sessionId := Some key |},
           tick w2)
      end
  end.
Proof.
  unfold execute. rewrite bind_run. unfold now at 1. cbv beta iota.
  unfold tryCatch. rewrite bind_run.
  destruct (getOrCreateSession E id dbml data (tick w)) as [[key|e] w1];
    [|reflexivity].
  rewrite bind_run.
  destruct (executeQuery E key query w1) as [[[result|]|e] w2]; reflexivity.
Qed.


Lemma session_execute_total id dbml data query w :
  exists r w', execute E id dbml data query w = (Value r, w').
Proof.
  rewrite session_execute_run.
  destruct (getOrCreateSession E id dbml data (tick w)) as [[key|e] w1];
    [|eauto].
  destruct (executeQuery E key query w1) as [[[result|]|e] w2]; eauto.
Qed.

(** X28.  The handler of [POST /execute-query] always answers, and never
    with status 500.  A request it turns down itself (dbml or query
    missing or empty, data missing, or a query that [validateQuery]
    rejects) is answered 400 and changes nothing: no session is made,
    touched or rebuilt.  Only a query that [validateQuery] accepts
    reaches [execute]; the answer is then 200 when [execute] reports
    success and 400 when it does not. *)
Theorem session_postExecuteQuery_replies (body : SessionRoutes.Body) (w : World) :
  exists reply w',
    SessionRoutes.postExecuteQuery E body w = (Value reply, w') /\
    match reply with
    | SessionRoutes.ReplyError status error =>
        status = 400 /\ w' = w /\
        (error = Some SessionRoutes.missingFields \/
         error = Some SessionRoutes.dataNotObject \/
         exists query,
           SessionRoutes.body_query body = Some query /\
           Query.valid (SelectOnly.validateQuery query) = false /\
           error = Query.error (SelectOnly.validateQuery query))
    | SessionRoutes.ReplyResult status result =>
        status = (if success result then 200 else 400) /\
        exists dbml data query,
          SessionRoutes.body_dbml body = Some dbml /\
          SessionRoutes.body_data body = Some data /\
          SessionRoutes.body_query body = Some query /\
          Query.valid (SelectOnly.validateQuery query) = true /\
          execute E (default "" (SessionRoutes.body_sessionId body)) dbml data query w =
          (Value result, w')
    | _ => False
    end.
Proof.
  unfold SessionRoutes.postExecuteQuery, tryCatch.
  destruct (SessionRoutes.body_dbml body) as [dbml|];
    [|eexists _, _; split; [reflexivity|]; cbn; auto].
  destruct (SessionRoutes.body_query body) as [query|];
    [|eexists _, _; split; [reflexivity|]; cbn; auto].
  destruct ((dbml =? "")%string || (query =? "")%string);
    [eexists _, _; split; [reflexivity|]; cbn; auto|].
  destruct (SessionRoutes.body_data body) as [data|];
    [|eexists _, _; split; [reflexivity|]; cbn; auto].
  cbv zeta.
  destruct (Query.valid (SelectOnly.validateQuery query)) eqn:Hvalid; cbn [negb].
  - rewrite bind_run.
    destruct (session_execute_total (default "" (SessionRoutes.body_sessionId body))
                dbml data query w) as (r & w' & Hrun).
    rewrite Hrun.
    destruct (success r) eqn:Hsuccess.
    + eexists _, _. split; [reflexivity|]. cbn beta iota. rewrite Hsuccess.
      split; [reflexivity|]. exists dbml, data, query. auto.
    + eexists _, _. split; [reflexivity|]. cbn beta iota. rewrite Hsuccess.
      split; [reflexivity|]. exists dbml, data, query. auto.
  - eexists _, _. split; [reflexivity|]. cbn beta iota.
    split; [reflexivity|]. split; [reflexivity|]. right. right.
    exists query. auto.
Qed.

Lemma connected_same w w' :
  dbConnections w' = dbConnections w -> connections w' = connections w ->
  nextDb w' = nextDb w -> connected w -> connected w'.
Proof.
  unfold connected. intros -> -> ->. auto.
Qed.

Lemma connected_opened id f w w' :
  dbConnections w' = mapSet id (nextDb w) (dbConnections w) ->
  connections w' = <[nextDb w := {| file := f; isOpen := true |}]> (connections w) ->
  nextDb w' = S (nextDb w) ->
  connected w -> connected w'.
Proof.
  unfold connected. intros -> -> -> [Hopen Hinj].
  assert (Hget : forall id' db,
            mapGet id' (mapSet id (nextDb w) (dbConnections w)) = Some db ->
            id' = id /\ db = nextDb w \/
            id' <> id /\ mapGet id' (dbConnections w) = Some db).
  { intros id' db. destruct (String.eqb_spec id id') as [<-|Hne].
    - rewrite stored_get_set_eq. intros [= <-]. auto.
    - rewrite (stored_get_set_ne _ _ _ _ Hne). auto. }
  split.
  - intros id' db Hdb. destruct (Hget _ _ Hdb) as [[-> ->]|[Hne Hdb']].
    + split; [lia|]. exists f. apply lookup_insert_eq.
    + destruct (Hopen _ _ Hdb') as (Hlt & f' & Hf').
      split; [lia|]. exists f'. rewrite lookup_insert_ne by lia. exact Hf'.
  - intros id1 id2 db H1 H2.
    destruct (Hget _ _ H1) as [[-> ->]|[Hne1 H1']],
             (Hget _ _ H2) as [[-> Hdb2]|[Hne2 H2']].
    + reflexivity.
    + destruct (Hopen _ _ H2'). lia.
    + subst db. destruct (Hopen _ _ H1'). lia.
    + eauto.
Qed.

Lemma connected_not_opened w w' :
  dbConnections w' = dbConnections w ->
  (connections w' = connections w /\ nextDb w' = nextDb w \/
   exists f, connections w' =
               <[nextDb w := {| file := f; isOpen := false |}]> (connections w) /\
             nextDb w' = S (nextDb w)) ->
  connected w -> connected w'.
Proof.
  intros Hd [[Hc Hn]|(f & Hc & Hn)] Hw; [now apply (connected_same w)|].
  destruct Hw as [Hopen Hinj]. unfold connected. rewrite Hd, Hc, Hn. split.
  - intros id db Hdb. destruct (Hopen _ _ Hdb) as (Hlt & f' & Hf').
    split; [lia|]. exists f'. rewrite lookup_insert_ne by lia. exact Hf'.
  - exact Hinj.
Qed.

Lemma connected_closed id w w' :
  dbConnections w' = mapDelete id (dbConnections w) ->
  connections w' =
    match mapGet id (dbConnections w) with
    | Some db =>
        match connections w !! db with
        | Some c => <[db := {| file := file c; isOpen := false |}]> (connections w)
        | None => connections w
        end
    | None => connections w
    end ->
  nextDb w' = nextDb w ->
  connected w -> connected w'.
Proof.
  intros Hd Hc Hn [Hopen Hinj]. unfold connected. rewrite Hd, Hn.
  assert (Hget : forall id' db,
            mapGet id' (mapDelete id (dbConnections w)) = Some db ->
            id' <> id /\ mapGet id' (dbConnections w) = Some db).
  { intros id' db. destruct (String.eqb_spec id id') as [<-|Hne].
    - now rewrite stored_get_delete_eq.
    - rewrite (stored_get_delete_ne _ _ _ Hne). auto. }
  split.
  - intros id' db Hdb. destruct (Hget _ _ Hdb) as [Hne Hdb'].
    destruct (Hopen _ _ Hdb') as (Hlt & f' & Hf').
    split; [exact Hlt|]. exists f'. rewrite Hc.
    destruct (mapGet id (dbConnections w)) as [old|] eqn:Hold; [|exact Hf'].
    destruct (connections w !! old) as [c|]; [|exact Hf'].
    rewrite lookup_insert_ne; [exact Hf'|].
    intros ->. apply Hne. eauto.
  - intros id1 id2 db H1 H2.
    destruct (Hget _ _ H1) as [_ H1'], (Hget _ _ H2) as [_ H2']. eauto.
Qed.

Lemma createSession_connected id dbml data w :
  connected w -> connected (createSession E id dbml data w).2.
Proof.
  intros Hw. pose proof (createSession_cases id dbml data w) as H.
  destruct (createSession E id dbml data w) as [[[]|e] w']; cbn [snd].
  - destruct H as (s & f & _ & _ & _ & _ & Hd & Hc & Hn & _).
    exact (connected_opened id f w w' Hd Hc Hn Hw).
  - destruct H as (_ & Hd & _ & Hc).
    exact (connected_not_opened w w' Hd Hc Hw).
Qed.

Lemma updateSession_phases id dbml data w :
  exists w2,
    dbConnections w2 = mapDelete id (dbConnections w) /\
    connections w2 =
      match mapGet id (dbConnections w) with
      | Some db =>
          match connections w !! db with
          | Some c => <[db := {| file := file c; isOpen := false |}]> (connections w)
          | None => connections w
          end
      | None => connections w
      end /\
    nextDb w2 = nextDb w /\
    (updateSession E id dbml data w = createSession E id dbml data w2 \/
     exists e, updateSession E id dbml data w = (Raised e, w2)).
Proof.
  assert (Hrest : forall w1,
            exists w2,
              dbConnections w2 = dbConnections w1 /\
              connections w2 = connections w1 /\
              nextDb w2 = nextDb w1 /\
              ((there ← existsSync (pathOf E id);
                (if there : bool then unlinkSync E (pathOf E id) else mret tt);;
                createSession E id dbml data) w1 =
               createSession E id dbml data w2 \/
               exists e,
                 (there ← existsSync (pathOf E id);
                  (if there : bool then unlinkSync E (pathOf E id) else mret tt);;
                  createSession E id dbml data) w1 = (Raised e, w2))).
  { intros w1. rewrite bind_run. unfold existsSync, get.
    destruct (paths w1 !! pathOf E id) as [f0|] eqn:Hp; rewrite bind_run.
    - unfold unlinkSync. rewrite Hp.
      destruct (fails E (steps w1) (Unlink (pathOf E id))) as [e|].
      + exists (tick w1). repeat split; eauto.
      + exists (withFiles (delete (pathOf E id) (paths w1)) (contents w1)
                  (nextFile w1) (tick w1)).
        repeat split. now left.
    - exists w1. repeat split; auto. }
  unfold updateSession. rewrite bind_run. unfold get.
  destruct (mapGet id (dbConnections w)) as [oldDb|] eqn:Hold; rewrite bind_run.
  - rewrite bind_run, close_run. unfold update.
    match goal with
    | |- context [withDbConnections ?m ?w0] =>
        destruct (Hrest (withDbConnections m w0)) as (w2 & Hd & Hc & Hn & Hrun)
    end.
    exists w2. rewrite Hd, Hc, Hn.
    destruct (connections w !! oldDb); auto.
  - destruct (Hrest w) as (w2 & Hd & Hc & Hn & Hrun).
    exists w2. rewrite Hd, Hc, Hn, (stored_delete_absent _ _ Hold). auto.
Qed.

Lemma updateSession_connected id dbml data w :
  connected w -> connected (updateSession E id dbml data w).2.
Proof.
  intros Hw.
  destruct (updateSession_phases id dbml data w)
    as (w2 & Hd & Hc & Hn & [->|(e & ->)]).
  - apply createSession_connected. exact (connected_closed id w w2 Hd Hc Hn Hw).
  - exact (connected_closed id w w2 Hd Hc Hn Hw).
Qed.

Lemma getOrCreateSession_connected id dbml data w :
  connected w -> connected (getOrCreateSession E id dbml data w).2.
Proof.
  intros Hw. destruct (mapGet id (sessions w)) as [s|] eqn:Hsome.
  - rewrite (getOrCreateSession_known _ _ _ _ _ Hsome).
    destruct (negb (Sessions.dbml s =? dbml)%string
              || negb (stringify (Seed.toJson (Sessions.data s)) =?
                       stringify (Seed.toJson data))%string).
    + pose proof (updateSession_connected id dbml data w Hw) as H.
      destruct (updateSession E id dbml data w) as [[[]|e] w1]; exact H.
    + exact Hw.
  - rewrite (getOrCreateSession_unknown _ _ _ _ Hsome).
    destruct (id =? "")%string; cbv zeta.
    + match goal with
      | |- context [createSession E ?k dbml data ?w0] =>
          pose proof (createSession_connected k dbml data w0 Hw) as H;
          destruct (createSession E k dbml data w0) as [[[]|e] w1]
      end; exact H.
    + pose proof (createSession_connected id dbml data w Hw) as H.
      destruct (createSession E id dbml data w) as [[[]|e] w1]; exact H.
Qed.

Lemma getDatabase_connected id w :
  connected w -> connected (getDatabase E id w).2.
Proof.
  intros Hw. rewrite session_getDatabase_run.
  destruct (mapGet id (sessions w)) as [s|]; [|exact Hw]. cbv zeta.
  destruct (mapGet id (dbConnections w)) as [db|]; [exact Hw|].
  destruct (paths w !! pathOf E id) as [f|]; [|exact Hw].
  destruct (fails E (S (steps w)) (Open (pathOf E id))); [exact Hw|].
  now apply (connected_opened id f w).
Qed.

Lemma executeQuery_connected id query w :
  connected w -> connected (executeQuery E id query w).2.
Proof.
  intros Hw. rewrite session_executeQuery_run.
  pose proof (getDatabase_connected id w Hw) as H.
  destruct (getDatabase E id w) as [[[db|]|e] w1]; cbn [snd] in *; try exact H.
  pose proof (all_world db query w1) as Hall.
  destruct (all E db query w1) as [[result|e] w2]; cbn [snd] in *;
    subst w2; exact H.
Qed.

Lemma deleteSession_connected id w :
  connected w -> connected (deleteSession E id w).2.
Proof.
  intros Hw.
  destruct (deleteSession_cases id w) as (w' & -> & _ & Hd & Hn & Hc & _).
  exact (connected_closed id w w' Hd Hc Hn Hw).
Qed.

Lemma forEach_deleteSession_connected ids w :
  connected w -> connected (forEach ids (deleteSession E) w).2.
Proof.
  revert w. induction ids as [|id ids IH]; intros w Hw; [exact Hw|].
  cbn [forEach]. unfold bind.
  pose proof (deleteSession_connected id w Hw) as H.
  destruct (deleteSession_cases id w) as (w1 & Hrun & _).
  rewrite Hrun in *. now apply IH.
Qed.

Lemma session_execute_connected id dbml data query w :
  connected w -> connected (execute E id dbml data query w).2.
Proof.
  intros Hw. rewrite session_execute_run.
  pose proof (getOrCreateSession_connected id dbml data (tick w) Hw) as H1.
  destruct (getOrCreateSession E id dbml data (tick w)) as [[key|e] w1];
    [|exact H1].
  pose proof (executeQuery_connected key query w1 H1) as H2.
  destruct (executeQuery E key query w1) as [[[result|]|e] w2]; exact H2.
Qed.

Lemma executeQuery_errors id query w e w' :
  connected w ->
  executeQuery E id query w = (Raised e, w') ->
  exists n,
    fails E n (Open (pathOf E id)) = Some e \/
    exists db, fails E n (All db query) = Some e.
Proof.
  intros [Hopen _]. rewrite session_executeQuery_run, session_getDatabase_run.
  destruct (mapGet id (sessions w)) as [s|]; [|discriminate]. cbv zeta.
  destruct (mapGet id (dbConnections w)) as [db|] eqn:Hdb.
  - destruct (Hopen _ _ Hdb) as (_ & f & Hf).
    unfold all. fields. rewrite Hf.
    destruct (fails E (S (steps w)) (All db query)) as [e'|] eqn:Hfail;
      [|discriminate].
    intros [= <- _]. eauto.
  - destruct (paths w !! pathOf E id) as [f|]; [|discriminate].
    destruct (fails E (S (steps w)) (Open (pathOf E id))) as [e'|] eqn:Hfail.
    + intros [= <- _]. eauto.
    + unfold all. fields. rewrite lookup_insert_eq.
      destruct (fails E (S (S (steps w))) (All (nextDb w) query)) as [e'|] eqn:Hall;
        [|discriminate].
      intros [= <- _]. eauto.
Qed.

(** X29.  Provided every stored connection is an open database and no two
    sessions share one, as when the manager starts, this is so again
    after any call of a public method, whether it returns or throws.
    Then a query never meets a closed database: whatever [executeQuery]
    throws was reported by the file system on opening the session's file
    or by SQLite on running the query. *)
Theorem connections_stay_open (w : World) :
  connected w ->
  (forall id dbml data, connected (getOrCreateSession E id dbml data w).2) /\
  (forall id query, connected (executeQuery E id query w).2) /\
  (forall id dbml data query, connected (execute E id dbml data query w).2) /\
  (forall id, connected (deleteSession E id w).2) /\
  (forall sessionTimeout, connected (cleanupOldSessions E sessionTimeout w).2) /\
  connected (cleanupAll E w).2 /\
  (forall id query e w',
     executeQuery E id query w = (Raised e, w') ->
     exists n,
       fails E n (Open (pathOf E id)) = Some e \/
       exists db, fails E n (All db query) = Some e).
Proof.
  intros Hw. split; [|split; [|split; [|split; [|split; [|split]]]]].
  - intros. now apply getOrCreateSession_connected.
  - intros. now apply executeQuery_connected.
  - intros. now apply session_execute_connected.
  - intros. now apply deleteSession_connected.
  - intros. now apply (forEach_deleteSession_connected _ (tick w)).
  - now apply forEach_deleteSession_connected.
  - intros id query e w'. now apply executeQuery_errors.
Qed.

Lemma executeQuery_none id query w w2 :
  executeQuery E id query w = (Value None, w2) ->
  mapGet id (sessions w) = None \/
  mapGet id (dbConnections w) = None /\ paths w !! pathOf E id = None.
Proof.
  rewrite session_executeQuery_run, session_getDatabase_run.
  destruct (mapGet id (sessions w)) as [s|]; [|auto]. cbv zeta.
  destruct (mapGet id (dbConnections w)) as [db|].
  { destruct (all E db query _) as [[result|e] w3]; discriminate. }
  destruct (paths w !! pathOf E id) as [f|]; [|auto].
  destruct (fails E (S (steps w)) (Open (pathOf E id))); [discriminate|].
  destruct (all E (nextDb w) query _) as [[result|e] w3]; discriminate.
Qed.

Lemma getOrCreateSession_ready id dbml data w key w1 :
  getOrCreateSession E id dbml data w = (Value key, w1) ->
  (exists s, mapGet key (sessions w1) = Some s) /\
  ((exists db, mapGet key (dbConnections w1) = Some db) \/
   key = id /\
   (exists s, mapGet id (sessions w) = Some s /\
              Sessions.dbml s = dbml /\ Sessions.data s = data) /\
   dbConnections w1 = dbConnections w /\ paths w1 = paths w).
Proof.
  destruct (mapGet id (sessions w)) as [s|] eqn:Hsome.
  - rewrite (getOrCreateSession_known _ _ _ _ _ Hsome).
    destruct (String.eqb_spec (Sessions.dbml s) dbml) as [Hdbml|Hdbml];
      [destruct (String.eqb_spec (stringify (Seed.toJson (Sessions.data s)))
                   (stringify (Seed.toJson data))) as [Hdata|Hdata]|];
      cbn [negb orb].
    + apply stringify_inj, toJson_inj in Hdata.
      intros [= <- <-]. fields. split.
      * eexists. apply stored_get_set_eq.
      * right. eauto 10.
    + pose proof (updateSession_cases id dbml data w) as H.
      destruct (updateSession E id dbml data w) as [[[]|e] w'];
        [|discriminate].
      intros [= <- <-].
      destruct H as (s' & f & Hs' & _ & _ & _ & Hd' & _).
      split; [exists s'; rewrite Hs'; apply stored_get_set_eq|]. eauto.
    + pose proof (updateSession_cases id dbml data w) as H.
      destruct (updateSession E id dbml data w) as [[[]|e] w'];
        [|discriminate].
      intros [= <- <-].
      destruct H as (s' & f & Hs' & _ & _ & _ & Hd' & _).
      split; [exists s'; rewrite Hs'; apply stored_get_set_eq|]. eauto.
  - rewrite (getOrCreateSession_unknown _ _ _ _ Hsome).
    destruct (id =? "")%string; cbv zeta.
    + match goal with
      | |- context [createSession E ?k dbml data ?w0] =>
          pose proof (createSession_cases k dbml data w0) as H;
          destruct (createSession E k dbml data w0) as [[[]|e] w']
      end; [|discriminate].
      intros [= <- <-].
      destruct H as (s' & f & Hs' & _ & _ & _ & Hd' & _).
      split; [exists s'; rewrite Hs'; apply stored_get_set_eq|].
      left. eexists. rewrite Hd'. apply stored_get_set_eq.
    + pose proof (createSession_cases id dbml data w) as H.
      destruct (createSession E id dbml data w) as [[[]|e] w'];
        [|discriminate].
      intros [= <- <-].
      destruct H as (s' & f & Hs' & _ & _ & _ & Hd' & _).
      split; [exists s'; rewrite Hs'; apply stored_get_set_eq|].
      left. eexists. rewrite Hd'. apply stored_get_set_eq.
Qed.


End session_facts.

(** *** The session manager on sample states *)

Section session_examples.
Import Json Sessions Scenario SessionCases.

Lemma started_exam1 : mapGet "exam-1" (sessions started) = Some exam1.
Proof. vm_compute. reflexivity. Qed.

Lemma started_connected : connected started.
Proof.
  assert (Hd : dbConnections started = [("exam-1", 0)])
    by (vm_compute; reflexivity).
  assert (Hn : nextDb started = 1) by (vm_compute; reflexivity).
  assert (Hc : connections started !! 0 = Some {| file := 0; isOpen := true |})
    by (vm_compute; reflexivity).
  unfold connected. rewrite Hd, Hn. cbn [mapGet]. split.
  - intros id db. destruct ("exam-1" =? id)%string; [|discriminate].
    intros [= <-]. split; [lia|]. eauto.
  - intros id id' db.
    destruct (String.eqb_spec "exam-1" id) as [<-|]; [|discriminate].
    destruct (String.eqb_spec "exam-1" id') as [<-|]; [|discriminate].
    reflexivity.
Qed.

Lemma getOrCreateSession_registers_new_witness :
  mapGet "exam-2" (sessions started) = None /\
  (getOrCreateSession calm "exam-2" usersDbml usersData started).1 = Value "exam-2".
Proof.
  assert (Hnone : mapGet "exam-2" (sessions started) = None)
    by (vm_compute; reflexivity).
  split; [exact Hnone|].
  pose proof (getOrCreateSession_registers_new calm "exam-2" usersDbml usersData
                started Hnone) as H.
  cbv zeta in H.
  destruct (getOrCreateSession calm "exam-2" usersDbml usersData started)
    as [[r|e] w'] eqn:Hrun.
  - destruct H as [-> _]. reflexivity.
  - exfalso. revert Hrun. vm_compute. discriminate.
Defined.


Lemma failed_update_keeps_old_record_witness :
  mapGet "exam-1" (sessions started) = Some exam1 /\
  getOrCreateSession cannotOpen "exam-1" widerDbml usersData started =
  (Raised {| message := "SQLITE_CANTOPEN: unable to open database file" |},
   stranded) /\
  mapGet "exam-1" (sessions stranded) = Some exam1 /\
  mapGet "exam-1" (dbConnections stranded) = None /\
  (getOrCreateSession cannotOpen "exam-1" usersDbml usersData stranded).1 =
  Value "exam-1".
Proof.
  assert (Hrun : getOrCreateSession cannotOpen "exam-1" widerDbml usersData started =
                 (Raised {| message := "SQLITE_CANTOPEN: unable to open database file" |},
                  stranded))
    by (vm_compute; reflexivity).
  split; [exact started_exam1|]. split; [exact Hrun|].
  destruct (failed_update_keeps_old_record cannotOpen "exam-1" widerDbml usersData
              exam1 started _ stranded started_exam1 Hrun) as (Hs & Hd & Hagain).
  split; [exact Hs|]. split; [exact Hd|].
  change (Sessions.dbml exam1) with usersDbml in Hagain.
  change (Sessions.data exam1) with usersData in Hagain.
  now rewrite Hagain.
Defined.

Lemma cleanupOldSessions_removes_expired_witness :
  List.NoDup (List.map fst (sessions started)) /\
  (exists w', cleanupOldSessions calm 0 started = (Value tt, w') /\
              sessions w' = []) /\
  (exists w', cleanupOldSessions calm 1 started = (Value tt, w') /\
              sessions w' = sessions started).
Proof.
  assert (Hnodup : List.NoDup (List.map fst (sessions started))).
  { assert (Hkeys : List.map fst (sessions started) = ["exam-1"])
      by (vm_compute; reflexivity).
    rewrite Hkeys. constructor; [intros []|constructor]. }
  split; [exact Hnodup|]. split.
  - destruct (cleanupOldSessions_removes_expired calm 0 started Hnodup)
      as (w' & Hrun & Hs & _).
    exists w'. split; [exact Hrun|]. rewrite Hs. vm_compute. reflexivity.
  - destruct (cleanupOldSessions_removes_expired calm 1 started Hnodup)
      as (w' & Hrun & Hs & _).
    exists w'. split; [exact Hrun|]. rewrite Hs. vm_compute. reflexivity.
Defined.

Lemma connections_stay_open_witness :
  connected started /\
  connected (execute calm "exam-1" widerDbml usersData "SELECT * FROM users" started).2.
Proof.
  split; [exact started_connected|].
  destruct (connections_stay_open calm started started_connected)
    as (_ & _ & Hexecute & _).
  apply Hexecute.
Defined.


End session_examples.
